(** * File Diff Viewer: a verification development for [main.py]

    The program reads a JSON or an XML document, applies a fixed set of
    edits to a copy of it, and shows a line diff between the pretty-printed
    original and the pretty-printed copy.

    The embedding follows the Python text function by function.  Python
    objects that are mutated in place ([dict], [list], [Element]) live in an
    explicit store and are named by their location; immutable values
    ([str], [int], [bool], [None]) are carried by value.  A Python
    exception is an [Err] result.

    Modelling conventions.
    - A [str] is a [string]; every character stands for the code point of
      the same number (code points below 256).
    - JSON numbers are the integers; documents with fractional numbers are
      outside the model.
    - Locations are allocation indices; which index an object receives is
      not observable by the program, which only compares identities. *)

From Stdlib Require Import ZArith Ascii String List Lia Bool Arith QArith.
From stdpp Require Import base tactics option list strings gmap sorting.

Set Warnings "-register-all".

Open Scope string_scope.
Open Scope list_scope.

(** ** Exceptions and the state of the interpreter *)

Inductive exn :=
  | TypeError
  | KeyError
  | AttributeError
  | RecursionError
  | ParseError (msg : string)
  | ExpatError (msg : string)
  | OutOfFuel
  | ValueError (msg : string).

Inductive result (A : Type) :=
  | Ok (a : A)
  | Err (e : exn).
Arguments Ok {A} a.
Arguments Err {A} e.

Definition rbind {A B} (r : result A) (k : A -> result B) : result B :=
  match r with
  | Ok a => k a
  | Err e => Err e
  end.

Notation "'do' ( a , b ) <- r ;; k" := (rbind r (fun ab => let '(a, b) := ab in k))
  (at level 20, a name, b name, r at level 99, k at level 200, only parsing).

(** [OutOfFuel] is not a Python exception: it marks a run of the model
    that needed more steps than a bounded loop was given. *)

(** A computation reads and writes the store and either returns or raises;
    the store survives a raise, as the Python heap does. *)
Definition comp (S A : Type) : Type := S -> result A * S.

Definition ret {S A} (a : A) : comp S A := fun s => (Ok a, s).
Definition raise {S A} (e : exn) : comp S A := fun s => (Err e, s).
Definition bind {S A B} (m : comp S A) (k : A -> comp S B) : comp S B :=
  fun s => match m s with
           | (Ok a, s') => k a s'
           | (Err e, s') => (Err e, s')
           end.
Definition get {S} : comp S S := fun s => (Ok s, s).
Definition put {S} (s' : S) : comp S unit := fun _ => (Ok tt, s').
Definition lift {S A} (r : result A) : comp S A := fun s => (r, s).

Notation "x <- m ;; k" := (bind m (fun x => k))
  (at level 20, m at level 99, k at level 200, only parsing).
Notation "m ;;; k" := (bind m (fun _ => k))
  (at level 20, k at level 200, only parsing).

(** [for x in xs: body x] *)
Fixpoint for_each {S A} (xs : list A) (body : A -> comp S unit) : comp S unit :=
  match xs with
  | [] => ret tt
  | x :: xs' => body x ;;; for_each xs' body
  end.

(** [if c: body] *)
Definition when {S} (c : bool) (body : comp S unit) : comp S unit :=
  if c then body else ret tt.

(** The invariant [I] survives the computation, whether it returns or
    raises, and a returned value satisfies [R]. *)
Definition keeps {S A} (I : S -> Prop) (m : comp S A) (R : A -> Prop) : Prop :=
  forall s, I s -> I (snd (m s)) /\ forall a, fst (m s) = Ok a -> R a.

(** ** Python strings *)

Module Str.

Definition nl : ascii := ascii_of_nat 10.
Definition dq : ascii := ascii_of_nat 34.
Definition bsl : ascii := ascii_of_nat 92.

Definition chr (c : ascii) : string := String c EmptyString.

(** [s] between double quotes. *)
Definition quoted (s : string) : string := String dq (s ++ chr dq).

(** [str.isspace] on the code points below 256. *)
Definition isspace (c : ascii) : bool :=
  let n := nat_of_ascii c in
  (((9 <=? n) && (n <=? 13)) || ((28 <=? n) && (n <=? 32))
   || (n =? 133) || (n =? 160))%nat.

Fixpoint lstrip (s : string) : string :=
  match s with
  | String c r => if isspace c then lstrip r else s
  | EmptyString => EmptyString
  end.

(** [rstrip] keeps a character when it is not a space or when something
    is kept after it. *)
Fixpoint rstrip (s : string) : string :=
  match s with
  | String c r =>
      match rstrip r with
      | EmptyString => if isspace c then EmptyString else chr c
      | r' => String c r'
      end
  | EmptyString => EmptyString
  end.

Definition strip (s : string) : string := rstrip (lstrip s).

Definition startswith (s p : string) : bool := String.prefix p s.

(** [needle in hay] for two strings. *)
Fixpoint contains (hay needle : string) : bool :=
  String.prefix needle hay ||
  match hay with
  | String _ r => contains r needle
  | EmptyString => false
  end.

(** [s.split(sep)] for a one-character separator: never the empty list. *)
Fixpoint split (sep : ascii) (s : string) : list string :=
  match s with
  | EmptyString => [EmptyString]
  | String c r =>
      if Ascii.eqb c sep then EmptyString :: split sep r
      else match split sep r with
           | h :: t => String c h :: t
           | [] => [chr c]
           end
  end.

(** [''.join(xs)] *)
Definition join (xs : list string) : string := String.concat EmptyString xs.

Fixpoint repeat (s : string) (n : nat) : string :=
  match n with
  | O => EmptyString
  | S n' => s ++ repeat s n'
  end.

Definition bool_of_str (s : string) : bool :=
  match s with EmptyString => false | _ => true end.

(** Decimal text of an integer, as [int.__repr__] gives it. *)
Fixpoint digits (fuel : nat) (n : N) (acc : string) : string :=
  match fuel with
  | O => acc
  | S f =>
      let d := ascii_of_N (48 + n mod 10) in
      let q := (n / 10)%N in
      if (q =? 0)%N then String d acc else digits f q (String d acc)
  end.

Definition of_N (n : N) : string := digits (S (N.to_nat (N.log2 n))) n EmptyString.

Definition of_Z (z : Z) : string :=
  match z with
  | Z0 => "0"
  | Zpos p => of_N (Npos p)
  | Zneg p => "-" ++ of_N (Npos p)
  end.

Definition hexdigit (n : N) : ascii :=
  if (n <? 10)%N then ascii_of_N (48 + n) else ascii_of_N (87 + n).

(** ['{0:04x}'.format(n)] for [n] below 65536. *)
Definition hex4 (n : N) : string :=
  String (hexdigit (n / 4096 mod 16))
    (String (hexdigit (n / 256 mod 16))
      (String (hexdigit (n / 16 mod 16))
        (String (hexdigit (n mod 16)) EmptyString))).

End Str.

(** ** JSON documents as values *)

Module Json.

Inductive json :=
  | Null
  | Bool (b : bool)
  | Int (z : Z)
  | Str (s : string)
  | List (items : list json)
  | Dict (entries : list (string * json)).

(** *** [json.dumps]  (json/encoder.py) *)

(** [ESCAPE_ASCII] and [ESCAPE_DCT]: the two-character escapes, [\uXXXX] for
    every other character outside [' '..'~']. *)
Definition escape_char (c : ascii) : string :=
  let n := N_of_ascii c in
  if Ascii.eqb c Str.dq then String Str.bsl (Str.chr Str.dq)
  else if Ascii.eqb c Str.bsl then String Str.bsl (Str.chr Str.bsl)
  else if (n =? 8)%N then String Str.bsl "b"
  else if (n =? 12)%N then String Str.bsl "f"
  else if (n =? 10)%N then String Str.bsl "n"
  else if (n =? 13)%N then String Str.bsl "r"
  else if (n =? 9)%N then String Str.bsl "t"
  else if ((n <? 32) || (126 <? n))%N then String Str.bsl ("u" ++ Str.hex4 n)
  else Str.chr c.

Fixpoint escape (s : string) : string :=
  match s with
  | EmptyString => EmptyString
  | String c r => escape_char c ++ escape r
  end.

Definition encode_basestring_ascii (s : string) : string :=
  String Str.dq (escape s ++ Str.chr Str.dq).

(** [newline_indent]: nothing without [indent], else a line break and
    [indent * level] spaces. *)
Definition newline_indent (indent : option nat) (level : nat) : string :=
  match indent with
  | None => EmptyString
  | Some n => String Str.nl (Str.repeat " " (n * level))
  end.

(** [item_separator] is [', '] by default and [','] once [indent] is given. *)
Definition item_separator (indent : option nat) : string :=
  match indent with
  | None => ", "
  | Some _ => ","
  end.

Definition key_separator : string := ": ".

(** The chunks of a non-empty container: the first item follows the opening
    [newline_indent], each later one follows [separator]. *)
Fixpoint sep_chunks (separator : string) (chunks : list string) : string :=
  match chunks with
  | [] => EmptyString
  | [c] => c
  | c :: rest => c ++ separator ++ sep_chunks separator rest
  end.

Fixpoint iterencode (indent : option nat) (level : nat) (o : json) : string :=
  match o with
  | Str s => encode_basestring_ascii s
  | Null => "null"
  | Bool true => "true"
  | Bool false => "false"
  | Int z => Str.of_Z z
  | List [] => "[]"
  | List lst =>
      let inner := newline_indent indent (S level) in
      ("[" ++ inner
        ++ sep_chunks (item_separator indent ++ inner)
             (map (iterencode indent (S level)) lst)
        ++ newline_indent indent level ++ "]")%string
  | Dict [] => "{}"
  | Dict dct =>
      let inner := newline_indent indent (S level) in
      ("{" ++ inner
        ++ sep_chunks (item_separator indent ++ inner)
             (map (fun kv => encode_basestring_ascii (fst kv) ++ key_separator
                             ++ iterencode indent (S level) (snd kv)) dct)
        ++ newline_indent indent level ++ "}")%string
  end.

Definition dumps (indent : option nat) (o : json) : string :=
  iterencode indent 0 o.

(** *** [json.loads]  (json/decoder.py, json/scanner.py) *)

Definition JSONDecodeError (msg : string) : exn := ValueError msg.

(** [WHITESPACE_STR = ' \t\n\r'] *)
Definition is_ws (c : ascii) : bool :=
  let n := N_of_ascii c in
  ((n =? 32) || (n =? 9) || (n =? 10) || (n =? 13))%N.

Fixpoint skip_ws (s : string) : string :=
  match s with
  | String c r => if is_ws c then skip_ws r else s
  | EmptyString => EmptyString
  end.

Definition is_digit (c : ascii) : bool :=
  let n := N_of_ascii c in ((48 <=? n) && (n <=? 57))%N.

Definition hexval (c : ascii) : option N :=
  let n := N_of_ascii c in
  if ((48 <=? n) && (n <=? 57))%N then Some (n - 48)%N
  else if ((97 <=? n) && (n <=? 102))%N then Some (n - 87)%N
  else if ((65 <=? n) && (n <=? 70))%N then Some (n - 55)%N
  else None.

(** [_decode_uXXXX]: four hexadecimal digits. *)
Definition decode_uXXXX (h1 h2 h3 h4 : ascii) : option N :=
  match hexval h1, hexval h2, hexval h3, hexval h4 with
  | Some a, Some b, Some c, Some d => Some (((a * 16 + b) * 16 + c) * 16 + d)%N
  | _, _, _, _ => None
  end.

(** [BACKSLASH] *)
Definition backslash (e : ascii) : option ascii :=
  if Ascii.eqb e Str.dq then Some Str.dq
  else if Ascii.eqb e Str.bsl then Some Str.bsl
  else if Ascii.eqb e "/" then Some "/"%char
  else if Ascii.eqb e "b" then Some (ascii_of_nat 8)
  else if Ascii.eqb e "f" then Some (ascii_of_nat 12)
  else if Ascii.eqb e "n" then Some (ascii_of_nat 10)
  else if Ascii.eqb e "r" then Some (ascii_of_nat 13)
  else if Ascii.eqb e "t" then Some (ascii_of_nat 9)
  else None.

(** [scanstring], strict: [s] starts after the opening quote; the result
    is the decoded text and what follows the closing quote.  An escape
    that names a code point above 255 leaves the model and is reported as
    an error. *)
Fixpoint scanstring (s : string) : result (string * string) :=
  match s with
  | EmptyString => Err (JSONDecodeError "Unterminated string starting at")
  | String c r =>
      if Ascii.eqb c Str.dq then Ok (EmptyString, r)
      else if Ascii.eqb c Str.bsl then
        match r with
        | EmptyString => Err (JSONDecodeError "Unterminated string starting at")
        | String e r1 =>
            if Ascii.eqb e "u" then
              match r1 with
              | String h1 (String h2 (String h3 (String h4 r2))) =>
                  match decode_uXXXX h1 h2 h3 h4 with
                  | Some uni =>
                      if (uni <? 256)%N then
                        do (chunks, rest) <- scanstring r2 ;;
                        Ok (String (ascii_of_N uni) chunks, rest)
                      else Err (JSONDecodeError "code point outside the model")
                  | None => Err (JSONDecodeError "Invalid \uXXXX escape")
                  end
              | _ => Err (JSONDecodeError "Invalid \uXXXX escape")
              end
            else
              match backslash e with
              | Some char =>
                  do (chunks, rest) <- scanstring r1 ;;
                  Ok (String char chunks, rest)
              | None => Err (JSONDecodeError "Invalid \escape")
              end
        end
      else if (N_of_ascii c <? 32)%N then
        Err (JSONDecodeError "Invalid control character at")
      else
        do (chunks, rest) <- scanstring r ;;
        Ok (String c chunks, rest)
  end.

(** [\d*]: the digits at the front of [s] and the rest. *)
Fixpoint span_digits (s : string) : string * string :=
  match s with
  | String c r =>
      if is_digit c then let '(ds, rest) := span_digits r in (String c ds, rest)
      else (EmptyString, s)
  | EmptyString => (EmptyString, EmptyString)
  end.

Fixpoint dec_value (acc : N) (ds : string) : N :=
  match ds with
  | String c r => dec_value (acc * 10 + (N_of_ascii c - 48))%N r
  | EmptyString => acc
  end.

(** The integer part of [NUMBER_RE]: [0|[1-9]\d*]. *)
Definition match_integer (s : string) : option (N * string) :=
  match s with
  | String c r =>
      if Ascii.eqb c "0" then Some (0%N, r)
      else if is_digit c then
        let '(ds, rest) := span_digits r in Some (dec_value 0 (String c ds), rest)
      else None
  | EmptyString => None
  end.

(** [(\.\d+)?] and [([eE][-+]?\d+)?]: does a fraction or an exponent
    follow? *)
Definition has_frac (s : string) : bool :=
  match s with
  | String c (String d _) => Ascii.eqb c "." && is_digit d
  | _ => false
  end.

Definition has_exp (s : string) : bool :=
  match s with
  | String c (String d r) =>
      (Ascii.eqb c "e" || Ascii.eqb c "E")
      && (is_digit d
          || ((Ascii.eqb d "-" || Ascii.eqb d "+")
              && match r with String d' _ => is_digit d' | _ => false end))
  | _ => false
  end.

Inductive number :=
  | NoMatch
  | IsInt (z : Z) (rest : string)
  | IsFloat.

Definition match_number (s : string) : number :=
  let '(neg, s1) :=
    match s with
    | String c r => if Ascii.eqb c "-" then (true, r) else (false, s)
    | EmptyString => (false, s)
    end in
  match match_integer s1 with
  | None => NoMatch
  | Some (n, rest) =>
      if has_frac rest || has_exp rest then IsFloat
      else IsInt (if neg then (- Z.of_N n)%Z else Z.of_N n) rest
  end.

(** [s[n:]] *)
Fixpoint advance (n : nat) (s : string) : string :=
  match n, s with
  | S n', String _ r => advance n' r
  | _, _ => s
  end.

(** [d[k] = v]: an existing key keeps its place. *)
Fixpoint dict_set {V} (k : string) (v : V) (d : list (string * V)) : list (string * V) :=
  match d with
  | [] => [(k, v)]
  | (k', v') :: d' =>
      if String.eqb k' k then (k, v) :: d' else (k', v') :: dict_set k v d'
  end.

(** [dict(pairs)] *)
Definition dict_of_pairs {V} (pairs : list (string * V)) : list (string * V) :=
  fold_left (fun d kv => dict_set (fst kv) (snd kv) d) pairs [].

(** [_scan_once], [JSONArray] and [JSONObject].  [fuel] bounds the number
    of values and separators still to be read; [loads] passes enough for
    the whole text.  [array_loop] starts at a value, [object_loop] right
    after the quote that opens a key. *)
Fixpoint scan_once (fuel : nat) (s : string) : result (json * string) :=
  match fuel with
  | O => Err (JSONDecodeError "Expecting value")
  | S f =>
      match s with
      | EmptyString => Err (JSONDecodeError "Expecting value")
      | String nextchar r =>
          if Ascii.eqb nextchar Str.dq then
            do (str, rest) <- scanstring r ;; Ok (Str str, rest)
          else if Ascii.eqb nextchar "{" then
            let r1 := skip_ws r in
            match r1 with
            | String c r2 =>
                if Ascii.eqb c "}" then Ok (Dict [], r2)
                else if Ascii.eqb c Str.dq then
                  do (pairs, rest) <- object_loop f r2 ;;
                  Ok (Dict (dict_of_pairs pairs), rest)
                else Err (JSONDecodeError
                            "Expecting property name enclosed in double quotes")
            | EmptyString =>
                Err (JSONDecodeError
                       "Expecting property name enclosed in double quotes")
            end
          else if Ascii.eqb nextchar "[" then
            let r1 := skip_ws r in
            match r1 with
            | String c r2 =>
                if Ascii.eqb c "]" then Ok (List [], r2)
                else do (values, rest) <- array_loop f r1 ;;
                     Ok (List values, rest)
            | EmptyString => Err (JSONDecodeError "Expecting value")
            end
          else if String.prefix "null" s then Ok (Null, advance 4 s)
          else if String.prefix "true" s then Ok (Bool true, advance 4 s)
          else if String.prefix "false" s then Ok (Bool false, advance 5 s)
          else
            match match_number s with
            | IsInt z rest => Ok (Int z, rest)
            | IsFloat => Err (JSONDecodeError "float outside the model")
            | NoMatch =>
                if String.prefix "NaN" s || String.prefix "Infinity" s
                   || String.prefix "-Infinity" s
                then Err (JSONDecodeError "float outside the model")
                else Err (JSONDecodeError "Expecting value")
            end
      end
  end

with array_loop (fuel : nat) (s : string) : result (list json * string) :=
  match fuel with
  | O => Err (JSONDecodeError "Expecting value")
  | S f =>
      do (value, s1) <- scan_once f s ;;
      match skip_ws s1 with
      | String nextchar r =>
          if Ascii.eqb nextchar "]" then Ok ([value], r)
          else if Ascii.eqb nextchar "," then
            do (values, rest) <- array_loop f (skip_ws r) ;;
            Ok (value :: values, rest)
          else Err (JSONDecodeError "Expecting ',' delimiter")
      | EmptyString => Err (JSONDecodeError "Expecting ',' delimiter")
      end
  end

with object_loop (fuel : nat) (s : string) : result (list (string * json) * string) :=
  match fuel with
  | O => Err (JSONDecodeError "Expecting value")
  | S f =>
      do (key, s1) <- scanstring s ;;
      match skip_ws s1 with
      | String colon s2 =>
          if Ascii.eqb colon ":" then
            do (value, s3) <- scan_once f (skip_ws s2) ;;
            match skip_ws s3 with
            | String nextchar r =>
                if Ascii.eqb nextchar "}" then Ok ([(key, value)], r)
                else if Ascii.eqb nextchar "," then
                  match skip_ws r with
                  | String q r' =>
                      if Ascii.eqb q Str.dq then
                        do (pairs, rest) <- object_loop f r' ;;
                        Ok ((key, value) :: pairs, rest)
                      else Err (JSONDecodeError
                             "Expecting property name enclosed in double quotes")
                  | EmptyString =>
                      Err (JSONDecodeError
                             "Expecting property name enclosed in double quotes")
                  end
                else Err (JSONDecodeError "Expecting ',' delimiter")
            | EmptyString => Err (JSONDecodeError "Expecting ',' delimiter")
            end
          else Err (JSONDecodeError "Expecting ':' delimiter")
      | EmptyString => Err (JSONDecodeError "Expecting ':' delimiter")
      end
  end.

(** [JSONDecoder.decode]: leading blanks, one value, trailing blanks. *)
Definition loads (s : string) : result json :=
  do (obj, rest) <- scan_once (S (String.length s)) (skip_ws s) ;;
  match skip_ws rest with
  | EmptyString => Ok obj
  | _ => Err (JSONDecodeError "Extra data")
  end.

End Json.

(** ** JSON documents as Python objects *)

(** [json.loads] returns [dict] and [list] objects, which the program
    mutates in place; they live in a store.  Scalars are immutable and are
    carried by value. *)

Module JsonObj.
Import Json.

Abbreviation loc := nat (only parsing).

Inductive value :=
  | VNone
  | VBool (b : bool)
  | VInt (z : Z)
  | VStr (s : string)
  | VRef (l : loc).

Inductive object :=
  | OList (items : list value)
  | ODict (entries : list (string * value)).

Abbreviation store := (list object) (only parsing).

Definition new (o : object) : comp store value :=
  fun s => (Ok (VRef (length s)), s ++ [o]).

(** The objects of a decoded document: every [list] and [dict] of the
    document is a new object. *)
Fixpoint alloc (j : json) (s : store) : value * store :=
  match j with
  | Null => (VNone, s)
  | Bool b => (VBool b, s)
  | Int z => (VInt z, s)
  | Str x => (VStr x, s)
  | List items =>
      let '(vs, s1) :=
        (fix go (items : list json) (s : store) : list value * store :=
           match items with
           | [] => ([], s)
           | i :: rest =>
               let '(v, s1) := alloc i s in
               let '(vs, s2) := go rest s1 in
               (v :: vs, s2)
           end) items s in
      (VRef (length s1), s1 ++ [OList vs])
  | Dict entries =>
      let '(kvs, s1) :=
        (fix go (entries : list (string * json)) (s : store)
           : list (string * value) * store :=
           match entries with
           | [] => ([], s)
           | (k, i) :: rest =>
               let '(v, s1) := alloc i s in
               let '(kvs, s2) := go rest s1 in
               ((k, v) :: kvs, s2)
           end) entries s in
      (VRef (length s1), s1 ++ [ODict kvs])
  end.

(** The document an object denotes.  [fuel] bounds the nesting that is
    followed, so that a cyclic store is answered with [None]. *)
Fixpoint load (fuel : nat) (s : store) (v : value) : option json :=
  match v with
  | VNone => Some Null
  | VBool b => Some (Bool b)
  | VInt z => Some (Int z)
  | VStr x => Some (Str x)
  | VRef l =>
      match fuel with
      | O => None
      | S f =>
          match s !! l with
          | Some (OList items) => List <$> mapM (load f s) items
          | Some (ODict entries) =>
              Dict <$> mapM (fun kv => pair (fst kv) <$> load f s (snd kv)) entries
          | None => None
          end
      end
  end.

(** No chain of references in a store is longer than the store. *)
Definition load_all (s : store) (v : value) : option json :=
  load (S (length s)) s v.

(** [json.dumps(obj, indent=indent)] *)
Definition json_dumps (indent : option nat) (obj : value) : comp store string :=
  fun s =>
    match load_all s obj with
    | Some j => (Ok (dumps indent j), s)
    | None => (Err (ValueError "Circular reference detected"), s)
    end.

(** [json.loads(text)] *)
Definition json_loads (text : string) : comp store value :=
  fun s =>
    match loads text with
    | Ok j => let '(v, s') := alloc j s in (Ok v, s')
    | Err e => (Err e, s)
    end.

(** *** Operations of the objects *)

Definition isinstance_list (v : value) : comp store bool :=
  fun s => (Ok match v with
               | VRef l => match s !! l with Some (OList _) => true | _ => false end
               | _ => false
               end, s).

Definition isinstance_dict (v : value) : comp store bool :=
  fun s => (Ok match v with
               | VRef l => match s !! l with Some (ODict _) => true | _ => false end
               | _ => false
               end, s).

(** The items a [for] loop over a list visits. *)
Definition list_items (v : value) : comp store (list value) :=
  fun s => match v with
           | VRef l =>
               match s !! l with
               | Some (OList items) => (Ok items, s)
               | _ => (Err TypeError, s)
               end
           | _ => (Err TypeError, s)
           end.

Definition dict_has {V} (k : string) (d : list (string * V)) : bool :=
  existsb (fun kv => String.eqb (fst kv) k) d.

Fixpoint dict_get {V} (k : string) (d : list (string * V)) : option V :=
  match d with
  | [] => None
  | (k', v) :: d' => if String.eqb k' k then Some v else dict_get k d'
  end.

Definition dict_del {V} (k : string) (d : list (string * V)) : list (string * V) :=
  List.filter (fun kv => negb (String.eqb (fst kv) k)) d.

Definition value_eqb_str (v : value) (x : string) : bool :=
  match v with
  | VStr y => String.eqb y x
  | _ => false
  end.

(** [x in container] for a string [x]: a key of a dict, an item of a
    list, a substring of a string; the other values are not containers. *)
Definition contains (container : value) (x : string) : comp store bool :=
  fun s => match container with
           | VRef l =>
               match s !! l with
               | Some (ODict entries) => (Ok (dict_has x entries), s)
               | Some (OList items) => (Ok (existsb (fun v => value_eqb_str v x) items), s)
               | None => (Err TypeError, s)
               end
           | VStr y => (Ok (Str.contains y x), s)
           | VNone | VBool _ | VInt _ => (Err TypeError, s)
           end.

(** [container[key]] for a string [key]. *)
Definition getitem (container : value) (key : string) : comp store value :=
  fun s => match container with
           | VRef l =>
               match s !! l with
               | Some (ODict entries) =>
                   match dict_get key entries with
                   | Some v => (Ok v, s)
                   | None => (Err KeyError, s)
                   end
               | _ => (Err TypeError, s)
               end
           | _ => (Err TypeError, s)
           end.

(** [container[key] = v] for a string [key]. *)
Definition setitem (container : value) (key : string) (v : value) : comp store unit :=
  fun s => match container with
           | VRef l =>
               match s !! l with
               | Some (ODict entries) =>
                   (Ok tt, <[l := ODict (dict_set key v entries)]> s)
               | _ => (Err TypeError, s)
               end
           | _ => (Err TypeError, s)
           end.

(** [del container[key]] for a string [key]. *)
Definition delitem (container : value) (key : string) : comp store unit :=
  fun s => match container with
           | VRef l =>
               match s !! l with
               | Some (ODict entries) =>
                   if dict_has key entries
                   then (Ok tt, <[l := ODict (dict_del key entries)]> s)
                   else (Err KeyError, s)
               | _ => (Err TypeError, s)
               end
           | _ => (Err TypeError, s)
           end.

(** [bool(v)] *)
Definition truthy (s : store) (v : value) : bool :=
  match v with
  | VNone => false
  | VBool b => b
  | VInt z => negb (z =? 0)%Z
  | VStr x => Str.bool_of_str x
  | VRef l =>
      match s !! l with
      | Some (OList items) => negb (Nat.eqb (length items) 0)
      | Some (ODict entries) => negb (Nat.eqb (length entries) 0)
      | None => true
      end
  end.

End JsonObj.

(** ** [main.py]: the JSON transform *)

Section ModifyJson.
Import JsonObj.

Definition user_query_text : string :=
  "Display Hunter Dickinson's jump shots under guard from the second half of the last game, last season, and previous season".

(** [a and b], evaluating [b] only when [a] holds. *)
Definition and_then {S} (a b : comp S bool) : comp S bool :=
  x <- a ;; if x then b else ret false.

Definition modify_json (json_data : value) : comp store value :=
  match json_data with
  | VNone => ret VNone
  | _ =>
      text <- json_dumps None json_data ;;
      modified_data <- json_loads text ;;
      is_list <- isinstance_list modified_data ;;
      (if is_list then
         items <- list_items modified_data ;;
         for_each items (fun item =>
           is_dict <- isinstance_dict item ;;
           when is_dict (
             setitem item "user_query" (VStr user_query_text) ;;;
             setitem item "new" (VStr "Something") ;;;
             c <- and_then (contains item "parameters")
                    (p <- getitem item "parameters" ;; contains p "offensive_player") ;;
             when c (p <- getitem item "parameters" ;; delitem p "offensive_player")))
       else
         is_dict <- isinstance_dict modified_data ;;
         when is_dict (
           setitem modified_data "new_field" (VStr "This is a new value") ;;;
           c <- contains modified_data "to_delete" ;;
           when c (delitem modified_data "to_delete"))) ;;;
      ret modified_data
  end.

(** A document as [json.loads] hands it to the program: its objects in an
    otherwise empty store. *)
Definition parsed (j : Json.json) : value * store := alloc j [].

(** The transform run on a decoded document: the outcome, and the
    documents that the original and the result denote afterwards. *)
Definition run_modify_json (j : Json.json)
  : result (option Json.json) * option Json.json :=
  let '(v, s0) := parsed j in
  let '(r, s1) := modify_json v s0 in
  (match r with
   | Ok v' => Ok (load_all s1 v')
   | Err e => Err e
   end, load_all s1 v).

End ModifyJson.

(** ** [difflib]: [SequenceMatcher] and [Differ]  (difflib.py) *)

Module Difflib.

Local Open Scope nat_scope.

(** A matching block [(i, j, size)] and an opcode [(tag, i1, i2, j1, j2)]. *)
Definition Match : Type := nat * nat * nat.

Inductive tag := replace | delete | insert | equal.

Definition opcode : Type := tag * nat * nat * nat * nat.

Section SequenceMatcher.

Context {A : Type} `{EqDecision A}.

(** The arguments of the constructor; [isjunk] is [None] in this program. *)
Variable isjunk : option (A -> bool).
Variable autojunk : bool.
Variables a b : list A.

Definition count (elt : A) (l : list A) : nat :=
  length (filter (fun x => x = elt) l).

Fixpoint indices_from (i : nat) (l : list A) (elt : A) : list nat :=
  match l with
  | [] => []
  | x :: r =>
      if decide (x = elt) then i :: indices_from (S i) r elt
      else indices_from (S i) r elt
  end.

(** [__chain_b]: [bjunk] holds the elements of [b] that [isjunk] accepts,
    [bpopular] the others that occur more than [n // 100 + 1] times when
    [b] has 200 elements or more; [b2j] maps every remaining element of
    [b] to the indices where it occurs, in increasing order. *)
Definition bjunk (elt : A) : bool :=
  match isjunk with
  | Some f => f elt && bool_decide (elt ∈ b)
  | None => false
  end.

Definition bpopular (elt : A) : bool :=
  let n := length b in
  autojunk && (200 <=? n) && negb (bjunk elt) && (n / 100 + 1 <? count elt b).

(** [b2j.get(elt, [])] *)
Definition b2j_get (elt : A) : list nat :=
  if bjunk elt || bpopular elt then [] else indices_from 0 b elt.

(** [j2len.get(j-1, 0)]; index [-1] is never a key. *)
Definition j2lenget (j2len : gmap nat nat) (j : nat) : nat :=
  match j with
  | O => 0
  | S j' => default 0 (j2len !! j')
  end.

(** The body of [for j in b2j.get(a[i], nothing)], with its [continue]
    and [break]. *)
Fixpoint scan_row (js : list nat) (i blo bhi : nat) (j2len newj2len : gmap nat nat)
  (best : Match) : gmap nat nat * Match :=
  match js with
  | [] => (newj2len, best)
  | j :: js' =>
      if j <? blo then scan_row js' i blo bhi j2len newj2len best
      else if bhi <=? j then (newj2len, best)
      else
        let k := j2lenget j2len j + 1 in
        let newj2len := <[j := k]> newj2len in
        let '(_, _, bestsize) := best in
        let best := if bestsize <? k then (i + 1 - k, j + 1 - k, k) else best in
        scan_row js' i blo bhi j2len newj2len best
  end.

(** [for i in range(alo, ahi)]; an index outside [a] would raise
    [IndexError], the callers stay inside. *)
Fixpoint scan_rows (is_ : list nat) (blo bhi : nat) (j2len : gmap nat nat)
  (best : Match) : Match :=
  match is_ with
  | [] => best
  | i :: is' =>
      let js := match a !! i with Some x => b2j_get x | None => [] end in
      let '(newj2len, best) := scan_row js i blo bhi j2len ∅ best in
      scan_rows is' blo bhi newj2len best
  end.

Definition same_at (i j : nat) : bool :=
  match a !! i, b !! j with
  | Some x, Some y => bool_decide (x = y)
  | _, _ => false
  end.

Definition isbjunk_at (j : nat) : bool :=
  match b !! j with
  | Some y => bjunk y
  | None => false
  end.

(** [while besti > alo and bestj > blo and (junk test on b[bestj-1]) and
    a[besti-1] == b[bestj-1]]; [junk] says which of the two tests. *)
Fixpoint extend_down (fuel : nat) (junk : bool) (alo blo : nat) (best : Match) : Match :=
  match fuel with
  | O => best
  | S f =>
      let '(besti, bestj, bestsize) := best in
      if (alo <? besti) && (blo <? bestj)
         && Bool.eqb (isbjunk_at (bestj - 1)) junk
         && same_at (besti - 1) (bestj - 1)
      then extend_down f junk alo blo (besti - 1, bestj - 1, bestsize + 1)
      else best
  end.

(** [while besti+bestsize < ahi and bestj+bestsize < bhi and (junk test)
    and a[besti+bestsize] == b[bestj+bestsize]] *)
Fixpoint extend_up (fuel : nat) (junk : bool) (ahi bhi : nat) (best : Match) : Match :=
  match fuel with
  | O => best
  | S f =>
      let '(besti, bestj, bestsize) := best in
      if (besti + bestsize <? ahi) && (bestj + bestsize <? bhi)
         && Bool.eqb (isbjunk_at (bestj + bestsize)) junk
         && same_at (besti + bestsize) (bestj + bestsize)
      then extend_up f junk ahi bhi (besti, bestj, bestsize + 1)
      else best
  end.

(** The two loops run at most [besti] and [ahi] times. *)
Definition find_longest_match (alo ahi blo bhi : nat) : Match :=
  let best := scan_rows (seq alo (ahi - alo)) blo bhi ∅ (alo, blo, 0) in
  let best := extend_down (fst (fst best)) false alo blo best in
  let best := extend_up ahi false ahi bhi best in
  let best := extend_down (fst (fst best)) true alo blo best in
  let best := extend_up ahi true ahi bhi best in
  best.

(** [while queue:] of [get_matching_blocks]; [queue.pop()] takes the entry
    appended last.  [None] when [fuel] iterations do not empty the queue. *)
Fixpoint matching_loop (fuel : nat) (queue : list (nat * nat * nat * nat))
  (matching_blocks : list Match) : option (list Match) :=
  match queue with
  | [] => Some matching_blocks
  | (alo, ahi, blo, bhi) :: queue' =>
      match fuel with
      | O => None
      | S f =>
          let '(i, j, k) := find_longest_match alo ahi blo bhi in
          if k =? 0 then matching_loop f queue' matching_blocks
          else
            let queue1 :=
              if (alo <? i) && (blo <? j) then (alo, i, blo, j) :: queue' else queue' in
            let queue2 :=
              if (i + k <? ahi) && (j + k <? bhi) then (i + k, ahi, j + k, bhi) :: queue1
              else queue1 in
            matching_loop f queue2 (matching_blocks ++ [(i, j, k)])
      end
  end.

End SequenceMatcher.

(** [matching_blocks.sort()]: triples in lexicographic order. *)
Definition match_leb (x y : Match) : bool :=
  let '(i1, j1, k1) := x in
  let '(i2, j2, k2) := y in
  (i1 <? i2) || ((i1 =? i2) && ((j1 <? j2) || ((j1 =? j2) && (k1 <=? k2)))).

Fixpoint insert_sorted (x : Match) (l : list Match) : list Match :=
  match l with
  | [] => [x]
  | y :: r => if match_leb x y then x :: l else y :: insert_sorted x r
  end.

Definition sort (l : list Match) : list Match :=
  fold_right insert_sorted [] l.

(** The loop that collapses adjacent blocks; [(i1, j1, k1)] is the block
    being grown, [non_adjacent] the blocks already emitted. *)
Fixpoint collapse (blocks : list Match) (cur : Match) (non_adjacent : list Match)
  : list Match :=
  let '(i1, j1, k1) := cur in
  match blocks with
  | [] => if k1 =? 0 then non_adjacent else non_adjacent ++ [cur]
  | (i2, j2, k2) :: rest =>
      if (i1 + k1 =? i2) && (j1 + k1 =? j2)
      then collapse rest (i1, j1, k1 + k2) non_adjacent
      else collapse rest (i2, j2, k2)
             (if k1 =? 0 then non_adjacent else non_adjacent ++ [cur])
  end.

(** The loop of [get_opcodes] over the matching blocks. *)
Fixpoint opcodes_loop (blocks : list Match) (i j : nat) (answer : list opcode)
  : list opcode :=
  match blocks with
  | [] => answer
  | (ai, bj, size) :: rest =>
      let answer :=
        if (i <? ai) && (j <? bj) then answer ++ [(replace, i, ai, j, bj)]
        else if i <? ai then answer ++ [(delete, i, ai, j, bj)]
        else if j <? bj then answer ++ [(insert, i, ai, j, bj)]
        else answer in
      let answer :=
        if size =? 0 then answer
        else answer ++ [(equal, ai, ai + size, bj, bj + size)] in
      opcodes_loop rest (ai + size) (bj + size) answer
  end.

Section Matcher.

Context {A : Type} `{EqDecision A}.
Variable isjunk : option (A -> bool).

(** Every block found takes at least one element of [a] out of the
    ranges that remain, and leaves at most two ranges. *)
Definition get_matching_blocks (a b : list A) : option (list Match) :=
  let la := length a in
  let lb := length b in
  blocks ← matching_loop isjunk true a b (2 * la + 1) [(0, la, 0, lb)] [];
  Some (collapse (sort blocks) (0, 0, 0) [] ++ [(la, lb, 0)]).

Definition get_opcodes (a b : list A) : option (list opcode) :=
  blocks ← get_matching_blocks a b;
  Some (opcodes_loop blocks 0 0 []).

(** [_calculate_ratio]: [2.0 * matches / length] is a double; the model
    keeps the exact quotient, which orders the same way against [0.74],
    [0.75] and against another such quotient as long as the sequences have
    fewer than [2^25] elements. *)
Definition calculate_ratio (matches length : nat) : Q :=
  if length =? 0 then 1%Q
  else Qmake (2 * Z.of_nat matches) (Pos.of_nat length).

Definition ratio (a b : list A) : option Q :=
  blocks ← get_matching_blocks a b;
  Some (calculate_ratio (list_sum (map (fun m => snd m) blocks)) (length a + length b)).

(** [quick_ratio]: [avail] starts as the counts of [b] and loses one for
    every element of [a] that asks for it. *)
Fixpoint quick_matches (xs : list A) (avail : A -> Z) (matches : nat) : nat :=
  match xs with
  | [] => matches
  | elt :: rest =>
      let numb := avail elt in
      quick_matches rest
        (fun y => if decide (y = elt) then (numb - 1)%Z else avail y)
        (if (0 <? numb)%Z then matches + 1 else matches)
  end.

Definition quick_ratio (a b : list A) : Q :=
  calculate_ratio (quick_matches a (fun elt => Z.of_nat (count elt b)) 0)
    (length a + length b).

Definition real_quick_ratio (a b : list A) : Q :=
  let la := length a in
  let lb := length b in
  calculate_ratio (Nat.min la lb) (la + lb).

End Matcher.

Definition Qgt_bool (x y : Q) : bool := negb (Qle_bool x y).

(** *** [Differ] *)

Section Differ.

(** The arguments of the constructor; both are [None] in this program. *)
Variable linejunk : option (string -> bool).
Variable charjunk : option (ascii -> bool).

(** [_dump]: ['%s %s' % (tag, x[i])] for [i] in [range(lo, hi)]. *)
Definition dump (tag : string) (x : list string) (lo hi : nat) : list string :=
  flat_map (fun i => match x !! i with
                     | Some line => [(tag ++ " " ++ line)%string]
                     | None => []
                     end) (seq lo (hi - lo)).

Definition plain_replace (a : list string) (alo ahi : nat) (b : list string) (blo bhi : nat)
  : list string :=
  if bhi - blo <? ahi - alo
  then dump "+" b blo bhi ++ dump "-" a alo ahi
  else dump "-" a alo ahi ++ dump "+" b blo bhi.

(** [_keep_original_ws] *)
Fixpoint keep_original_ws (s tag_s : string) : string :=
  match s, tag_s with
  | String c s', String tag_c tag_s' =>
      String (if Ascii.eqb tag_c " " && Str.isspace c then c else tag_c)
             (keep_original_ws s' tag_s')
  | _, _ => EmptyString
  end.

(** [_qformat] *)
Definition qformat (aline bline atags btags : string) : list string :=
  let atags := Str.rstrip (keep_original_ws aline atags) in
  let btags := Str.rstrip (keep_original_ws bline btags) in
  [("- " ++ aline)%string]
  ++ (if Str.bool_of_str atags then [("? " ++ atags ++ Str.chr Str.nl)%string] else [])
  ++ [("+ " ++ bline)%string]
  ++ (if Str.bool_of_str btags then [("? " ++ btags ++ Str.chr Str.nl)%string] else []).

(** The tag lines built from the opcodes of the two synched lines. *)
Fixpoint intraline_tags (ops : list opcode) (atags btags : string) : string * string :=
  match ops with
  | [] => (atags, btags)
  | (t, ai1, ai2, bj1, bj2) :: rest =>
      let la := ai2 - ai1 in
      let lb := bj2 - bj1 in
      match t with
      | replace =>
          intraline_tags rest (atags ++ Str.repeat "^" la) (btags ++ Str.repeat "^" lb)
      | delete => intraline_tags rest (atags ++ Str.repeat "-" la) btags
      | insert => intraline_tags rest atags (btags ++ Str.repeat "+" lb)
      | equal =>
          intraline_tags rest (atags ++ Str.repeat " " la) (btags ++ Str.repeat " " lb)
      end
  end.

(** The state of the search for the best pair of lines in
    [_fancy_replace]: [best_ratio], [(best_i, best_j)] once assigned, and
    [(eqi, eqj)]. *)
Record search := mkSearch {
  best_ratio : Q;
  best_ij : option (nat * nat);
  eq_ij : option (nat * nat)
}.

Definition chars (line : string) : list ascii := list_ascii_of_string line.

(** [for i in range(alo, ahi)] for one [j]; the three ratios are tried in
    turn, a later one only when the earlier ones pass. *)
Fixpoint search_row (a : list string) (is_ : list nat) (j : nat) (bj : string)
  (st : search) : option search :=
  match is_ with
  | [] => Some st
  | i :: is' =>
      ai ← a !! i;
      if String.eqb ai bj then
        search_row a is' j bj
          (match eq_ij st with
           | None => mkSearch (best_ratio st) (best_ij st) (Some (i, j))
           | Some _ => st
           end)
      else if Qgt_bool (real_quick_ratio (chars ai) (chars bj)) (best_ratio st) then
        if Qgt_bool (quick_ratio (chars ai) (chars bj)) (best_ratio st) then
          r ← ratio charjunk (chars ai) (chars bj);
          if Qgt_bool r (best_ratio st)
          then search_row a is' j bj (mkSearch r (Some (i, j)) (eq_ij st))
          else search_row a is' j bj st
        else search_row a is' j bj st
      else search_row a is' j bj st
  end.

(** [for j in range(blo, bhi)] *)
Fixpoint search_rows (a : list string) (alo ahi : nat) (b : list string) (js : list nat)
  (st : search) : option search :=
  match js with
  | [] => Some st
  | j :: js' =>
      bj ← b !! j;
      st' ← search_row a (seq alo (ahi - alo)) j bj st;
      search_rows a alo ahi b js' st'
  end.

(** [_fancy_replace], with [_fancy_helper] written out at its two calls.
    Every call works on a strictly smaller pair of ranges; [fuel] counts
    the nesting and [None] is running out of it. *)
Fixpoint fancy_replace (fuel : nat) (a : list string) (alo ahi : nat)
  (b : list string) (blo bhi : nat) : option (list string) :=
  match fuel with
  | O => None
  | S f =>
      let fancy_helper (alo ahi blo bhi : nat) : option (list string) :=
        if alo <? ahi then
          if blo <? bhi then fancy_replace f a alo ahi b blo bhi
          else Some (dump "-" a alo ahi)
        else if blo <? bhi then Some (dump "+" b blo bhi)
        else Some [] in
      st ← search_rows a alo ahi b (seq blo (bhi - blo))
             (mkSearch (74 # 100) None None);
      let cutoff := (75 # 100)%Q in
      let synch : option (nat * nat * bool) :=
        if Qgt_bool cutoff (best_ratio st) then
          match eq_ij st with
          | None => None
          | Some (eqi, eqj) => Some (eqi, eqj, true)
          end
        else
          match best_ij st with
          | Some (best_i, best_j) => Some (best_i, best_j, false)
          | None => None
          end in
      match synch with
      | None =>
          if Qgt_bool cutoff (best_ratio st)
          then Some (plain_replace a alo ahi b blo bhi)
          else None
      | Some (best_i, best_j, identical) =>
          before ← fancy_helper alo best_i blo best_j;
          aelt ← a !! best_i;
          belt ← b !! best_j;
          middle ←
            (if identical then Some [("  " ++ aelt)%string]
             else
               ops ← get_opcodes charjunk (chars aelt) (chars belt);
               let '(atags, btags) := intraline_tags ops EmptyString EmptyString in
               Some (qformat aelt belt atags btags));
          after ← fancy_helper (best_i + 1) ahi (best_j + 1) bhi;
          Some (before ++ middle ++ after)
      end
  end.

(** The generator of [compare] for one opcode. *)
Definition compare_opcode (a b : list string) (op : opcode) : option (list string) :=
  let '(t, alo, ahi, blo, bhi) := op in
  match t with
  | replace => fancy_replace ((ahi - alo) + (bhi - blo) + 1) a alo ahi b blo bhi
  | delete => Some (dump "-" a alo ahi)
  | insert => Some (dump "+" b blo bhi)
  | equal => Some (dump " " a alo ahi)
  end.

(** [Differ.compare] *)
Definition compare (a b : list string) : option (list string) :=
  ops ← get_opcodes linejunk a b;
  chunks ← mapM (compare_opcode a b) ops;
  Some (mjoin chunks).

End Differ.

End Difflib.

(** ** [xml.etree.ElementTree]: elements as Python objects *)

Module ET.

Local Open Scope nat_scope.

Abbreviation loc := nat (only parsing).

(** An [Element]: tag, attributes, text, tail and the list of its
    children, which are elements of the same store. *)
Record Element := mkElement {
  tag : string;
  attrib : list (string * string);
  text : option string;
  tail : option string;
  children : list loc
}.

Abbreviation store := (list Element) (only parsing).

(** The tree an element denotes. *)
Inductive xml :=
  | Node (tg : string) (att : list (string * string)) (tx tl : option string)
         (kids : list xml).

Definition xtag (t : xml) : string := let 'Node tg _ _ _ _ := t in tg.
Definition xattrib (t : xml) : list (string * string) := let 'Node _ att _ _ _ := t in att.
Definition xtext (t : xml) : option string := let 'Node _ _ tx _ _ := t in tx.
Definition xtail (t : xml) : option string := let 'Node _ _ _ tl _ := t in tl.
Definition xkids (t : xml) : list xml := let 'Node _ _ _ _ kids := t in kids.

(** The elements the parser creates for a tree: one new object for every
    node, the children before their parent. *)
Fixpoint build (t : xml) (s : store) : loc * store :=
  let 'Node tg att tx tl kids := t in
  let '(ls, s1) :=
    (fix go (kids : list xml) (s : store) : list loc * store :=
       match kids with
       | [] => ([], s)
       | k :: rest =>
           let '(l, s1) := build k s in
           let '(ls, s2) := go rest s1 in
           (l :: ls, s2)
       end) kids s in
  (length s1, s1 ++ [mkElement tg att tx tl ls]).

(** The tree below an element; [fuel] bounds the depth that is followed. *)
Fixpoint load (fuel : nat) (s : store) (l : loc) : option xml :=
  match fuel with
  | O => None
  | S f =>
      e ← s !! l;
      kids ← mapM (load f s) (children e);
      Some (Node (tag e) (attrib e) (text e) (tail e) kids)
  end.

(** No chain of children in a store is longer than the store. *)
Definition load_all (s : store) (l : loc) : option xml := load (length s) s l.

(** [copy.deepcopy(elem)]: a new element for [elem] and for everything
    below it.  The memo of [deepcopy] only matters for an element that
    occurs twice, which a parsed tree has not.  Running out of [fuel] is
    Python's recursion limit. *)
Fixpoint deepcopy_fuel (fuel : nat) (l : loc) (s : store) : result loc * store :=
  match fuel with
  | O => (Err RecursionError, s)
  | S f =>
      match s !! l with
      | None => (Err AttributeError, s)
      | Some e =>
          let '(r, s1) :=
            (fix go (cs : list loc) (s : store) : result (list loc) * store :=
               match cs with
               | [] => (Ok [], s)
               | c :: rest =>
                   match deepcopy_fuel f c s with
                   | (Ok c', s1) =>
                       match go rest s1 with
                       | (Ok cs', s2) => (Ok (c' :: cs'), s2)
                       | (Err e, s2) => (Err e, s2)
                       end
                   | (Err e, s1) => (Err e, s1)
                   end
               end) (children e) s in
          match r with
          | Ok cs' =>
              (Ok (length s1),
               s1 ++ [mkElement (tag e) (attrib e) (text e) (tail e) cs'])
          | Err x => (Err x, s1)
          end
      end
  end.

Definition deepcopy (l : loc) : comp store loc :=
  fun s => deepcopy_fuel (length s) l s.

(** [Element.iter()]: the element and everything below it, in document
    order. *)
Fixpoint iter (fuel : nat) (s : store) (l : loc) : list loc :=
  match fuel with
  | O => []
  | S f =>
      match s !! l with
      | None => []
      | Some e => l :: flat_map (iter f s) (children e)
      end
  end.

Definition has_tag (s : store) (t : string) (l : loc) : bool :=
  match s !! l with
  | Some e => String.eqb (tag e) t
  | None => false
  end.

(** [elem.findall(".//" + t)]  (ElementPath.prepare_descendant):
    [for e in elem.iter(t): if e is not elem: yield e]. *)
Definition findall_descendants (elem : loc) (t : string) : comp store (list loc) :=
  fun s =>
    (Ok (List.filter (fun e => negb (Nat.eqb e elem))
           (List.filter (has_tag s t) (iter (length s) s elem))), s).

(** [elem.findall(t)]  (ElementPath.prepare_child):
    [for e in elem: if e.tag == t: yield e]. *)
Definition findall_children (elem : loc) (t : string) : comp store (list loc) :=
  fun s =>
    match s !! elem with
    | Some e => (Ok (List.filter (has_tag s t) (children e)), s)
    | None => (Err AttributeError, s)
    end.

(** [list.remove(x)]: the first occurrence of [x] is taken out. *)
Fixpoint remove_first (x : loc) (l : list loc) : option (list loc) :=
  match l with
  | [] => None
  | y :: r =>
      if Nat.eqb y x then Some r
      else l' ← remove_first x r; Some (y :: l')
  end.

Definition set_children (e : Element) (cs : list loc) : Element :=
  mkElement (tag e) (attrib e) (text e) (tail e) cs.

Definition set_text_of (e : Element) (t : string) : Element :=
  mkElement (tag e) (attrib e) (Some t) (tail e) (children e).

(** [parent.remove(child)] *)
Definition remove (parent child : loc) : comp store unit :=
  fun s =>
    match s !! parent with
    | Some e =>
        match remove_first child (children e) with
        | Some cs => (Ok tt, <[parent := set_children e cs]> s)
        | None => (Err (ValueError "list.remove(x): x not in list"), s)
        end
    | None => (Err AttributeError, s)
    end.

(** [ET.SubElement(parent, t)] *)
Definition SubElement (parent : loc) (t : string) : comp store loc :=
  fun s =>
    match s !! parent with
    | Some e =>
        let new_elem := length s in
        let s1 := s ++ [mkElement t [] None None []] in
        (Ok new_elem, <[parent := set_children e (children e ++ [new_elem])]> s1)
    | None => (Err AttributeError, s)
    end.

(** [elem.text = t] *)
Definition set_text (elem : loc) (t : string) : comp store unit :=
  fun s =>
    match s !! elem with
    | Some e => (Ok tt, <[elem := set_text_of e t]> s)
    | None => (Err AttributeError, s)
    end.

(** [bool(elem)]: an element without children is false. *)
Definition truthy (s : store) (elem : loc) : bool :=
  match s !! elem with
  | Some e => negb (Nat.eqb (length (children e)) 0)
  | None => true
  end.

End ET.

(** ** [main.py]: the XML transform *)

Section ModifyXml.
Import ET.

Definition modify_xml (xml_root : loc) : comp store loc :=
  (* Create a deep copy of the XML tree *)
  modified_root <- deepcopy xml_root ;;
  (* 1. Delete team_name field *)
  all_params <- findall_descendants modified_root "parameters" ;;
  for_each all_params (fun params =>
    team_names <- findall_children params "team_name" ;;
    for_each team_names (fun team_name => remove params team_name)) ;;;
  (* 2. Add new parameter 'something' with value 2 *)
  all_params <- findall_descendants modified_root "parameters" ;;
  for_each all_params (fun params =>
    new_elem <- SubElement params "something" ;;
    set_text new_elem "2") ;;;
  (* 3. Update shot_type to 'points' *)
  shot_types <- findall_descendants modified_root "shot_type" ;;
  for_each shot_types (fun shot_type => set_text shot_type "points") ;;;
  ret modified_root.

(** A document as [ET.fromstring] hands it to the program: its elements
    in an otherwise empty store. *)
Definition parsed_xml (t : xml) : loc * store := build t [].

(** The transform run on a parsed document: the outcome, and the trees
    that the original and the result denote afterwards. *)
Definition run_modify_xml (t : xml) : result (option xml) * option xml :=
  let '(root, s0) := parsed_xml t in
  let '(r, s1) := modify_xml root s0 in
  (match r with
   | Ok root' => Ok (load_all s1 root')
   | Err e => Err e
   end, load_all s1 root).

End ModifyXml.

(** ** XML text: [ET.tostring], the parser, [minidom] *)

(** Documents that use namespaces, comments, processing instructions,
    CDATA sections or a DOCTYPE are outside the model: the parser below
    reports them as errors. *)

Module XmlText.
Import ET.

Local Open Scope string_scope.

(** *** [ET.tostring]  (ElementTree._serialize_xml) *)

Definition opt_text (o : option string) : string := default EmptyString o.

Definition amp_entity (name : string) : string := "&" ++ name ++ ";".

(** [_escape_cdata]: the replacements act on distinct characters and do
    not produce one another, so they are made character by character. *)
Fixpoint escape_cdata (text : string) : string :=
  match text with
  | EmptyString => EmptyString
  | String c r =>
      (if Ascii.eqb c "&" then amp_entity "amp"
       else if Ascii.eqb c "<" then amp_entity "lt"
       else if Ascii.eqb c ">" then amp_entity "gt"
       else Str.chr c) ++ escape_cdata r
  end.

(** [_escape_attrib] *)
Fixpoint escape_attrib (text : string) : string :=
  match text with
  | EmptyString => EmptyString
  | String c r =>
      (if Ascii.eqb c "&" then amp_entity "amp"
       else if Ascii.eqb c "<" then amp_entity "lt"
       else if Ascii.eqb c ">" then amp_entity "gt"
       else if Ascii.eqb c Str.dq then amp_entity "quot"
       else if Ascii.eqb c (ascii_of_nat 13) then amp_entity "#13"
       else if Ascii.eqb c (ascii_of_nat 10) then amp_entity "#10"
       else if Ascii.eqb c (ascii_of_nat 9) then amp_entity "#09"
       else Str.chr c) ++ escape_attrib r
  end.

Definition write_attrib (escape : string -> string) (kv : string * string) : string :=
  " " ++ fst kv ++ "=" ++ Str.chr Str.dq ++ escape (snd kv) ++ Str.chr Str.dq.

Fixpoint serialize_xml (elem : xml) : string :=
  let 'Node tg att tx tl kids := elem in
  "<" ++ tg ++ Str.join (map (write_attrib escape_attrib) att)
  ++ (if Str.bool_of_str (opt_text tx) || negb (Nat.eqb (length kids) 0)
      then ">" ++ escape_cdata (opt_text tx)
           ++ Str.join (map serialize_xml kids)
           ++ "</" ++ tg ++ ">"
      else " />")
  ++ escape_cdata (opt_text tl).

(** [ET.tostring(elem, "utf-8")]: no declaration is written for this
    encoding. *)
Definition tostring (elem : xml) : string := serialize_xml elem.

(** *** The parser  (expat, as [ET.fromstring] and [minidom.parseString]
    drive it) *)

Definition is_space (c : ascii) : bool :=
  let n := N_of_ascii c in ((n =? 32) || (n =? 9) || (n =? 10) || (n =? 13))%N.

Fixpoint skip_space (s : string) : string :=
  match s with
  | String c r => if is_space c then skip_space r else s
  | EmptyString => EmptyString
  end.

(** Line ends: [\r\n] and [\r] become [\n]. *)
Fixpoint normalize_newlines (s : string) : string :=
  match s with
  | EmptyString => EmptyString
  | String c r =>
      if Ascii.eqb c (ascii_of_nat 13) then
        match r with
        | String d r' =>
            if Ascii.eqb d (ascii_of_nat 10) then String d (normalize_newlines r')
            else String (ascii_of_nat 10) (normalize_newlines r)
        | EmptyString => Str.chr (ascii_of_nat 10)
        end
      else String c (normalize_newlines r)
  end.

Definition name_start_char (c : ascii) : bool :=
  let n := N_of_ascii c in
  (((65 <=? n) && (n <=? 90)) || (n =? 95) || ((97 <=? n) && (n <=? 122))
   || ((192 <=? n) && (n <=? 214)) || ((216 <=? n) && (n <=? 246))
   || (248 <=? n))%N.

Definition name_char (c : ascii) : bool :=
  let n := N_of_ascii c in
  name_start_char c
  || ((n =? 45) || (n =? 46) || ((48 <=? n) && (n <=? 57)) || (n =? 183))%N.

Definition legal_char (c : ascii) : bool :=
  let n := N_of_ascii c in ((32 <=? n) || (n =? 9) || (n =? 10) || (n =? 13))%N.

Fixpoint span_name (s : string) : string * string :=
  match s with
  | String c r =>
      if name_char c then let '(n, rest) := span_name r in (String c n, rest)
      else (EmptyString, s)
  | EmptyString => (EmptyString, EmptyString)
  end.

Definition not_well_formed {A} : result A := Err (ParseError "not well-formed (invalid token)").

(** A name; one with a colon is a prefixed name. *)
Definition parse_name (s : string) : result (string * string) :=
  match s with
  | String c _ =>
      if name_start_char c then
        let '(n, rest) := span_name s in
        match rest with
        | String d _ =>
            if Ascii.eqb d ":" then Err (ParseError "namespaces are outside the model")
            else Ok (n, rest)
        | EmptyString => Ok (n, rest)
        end
      else if Ascii.eqb c ":" then Err (ParseError "namespaces are outside the model")
      else not_well_formed
  | EmptyString => not_well_formed
  end.

Fixpoint span_until (stop : ascii) (s : string) : option (string * string) :=
  match s with
  | String c r =>
      if Ascii.eqb c stop then Some (EmptyString, r)
      else '(x, rest) ← span_until stop r; Some (String c x, rest)
  | EmptyString => None
  end.

Fixpoint hex_value (acc : N) (ds : string) : option N :=
  match ds with
  | EmptyString => Some acc
  | String c r => d ← Json.hexval c; hex_value (acc * 16 + d)%N r
  end.

Fixpoint decimal_value (acc : N) (ds : string) : option N :=
  match ds with
  | EmptyString => Some acc
  | String c r =>
      if Json.is_digit c then decimal_value (acc * 10 + (N_of_ascii c - 48))%N r
      else None
  end.

(** What follows an ampersand: a predefined entity or a character
    reference, up to the semicolon. *)
Definition parse_reference (s : string) : result (ascii * string) :=
  match span_until ";" s with
  | None => not_well_formed
  | Some (name, rest) =>
      let char_ref (o : option N) : result (ascii * string) :=
        match o with
        | Some n =>
            if (256 <=? n)%N then Err (ParseError "code point outside the model")
            else if legal_char (ascii_of_N n) then Ok (ascii_of_N n, rest)
            else Err (ParseError "reference to invalid character number")
        | None => not_well_formed
        end in
      match name with
      | String "#" (String "x" (String h hs)) => char_ref (hex_value 0 (String h hs))
      | String "#" (String d ds) => char_ref (decimal_value 0 (String d ds))
      | _ =>
          if String.eqb name "amp" then Ok ("&"%char, rest)
          else if String.eqb name "lt" then Ok ("<"%char, rest)
          else if String.eqb name "gt" then Ok (">"%char, rest)
          else if String.eqb name "quot" then Ok (Str.dq, rest)
          else if String.eqb name "apos" then Ok ("'"%char, rest)
          else if match name with
                  | String c _ => name_start_char c
                  | EmptyString => false
                  end
          then Err (ParseError "undefined entity")
          else not_well_formed
      end
  end.

(** An attribute value up to the closing [quote]; a literal tab or line
    end is read as a space. *)
Fixpoint attr_value (fuel : nat) (quote : ascii) (s : string) : result (string * string) :=
  match fuel with
  | O => not_well_formed
  | S f =>
      match s with
      | EmptyString => Err (ParseError "unclosed token")
      | String c r =>
          if Ascii.eqb c quote then Ok (EmptyString, r)
          else if Ascii.eqb c "<" then not_well_formed
          else if Ascii.eqb c "&" then
            do (ch, r1) <- parse_reference r ;;
            do (v, rest) <- attr_value f quote r1 ;;
            Ok (String ch v, rest)
          else if negb (legal_char c) then not_well_formed
          else
            do (v, rest) <- attr_value f quote r ;;
            Ok (String (if is_space c then " "%char else c) v, rest)
      end
  end.

(** The attributes of a start tag, up to [>] or [/>]; the flag says
    whether the tag is an empty-element tag. *)
Fixpoint attributes (fuel : nat) (s : string) (seen : list (string * string))
  : result (list (string * string) * bool * string) :=
  match fuel with
  | O => not_well_formed
  | S f =>
      let s1 := skip_space s in
      match s1 with
      | String ">" r => Ok (seen, false, r)
      | String "/" (String ">" r) => Ok (seen, true, r)
      | EmptyString => Err (ParseError "unclosed token")
      | _ =>
          if String.eqb s1 s then not_well_formed
          else
            do (name, s2) <- parse_name s1 ;;
            match skip_space s2 with
            | String "=" s3 =>
                match skip_space s3 with
                | String q s4 =>
                    if Ascii.eqb q Str.dq || Ascii.eqb q "'" then
                      do (v, s5) <- attr_value f q s4 ;;
                      if existsb (fun kv => String.eqb (fst kv) name) seen
                      then Err (ParseError "duplicate attribute")
                      else if (String.eqb name "xmlns")
                      then Err (ParseError "namespaces are outside the model")
                      else attributes f s5 (seen ++ [(name, v)])
                    else not_well_formed
                | EmptyString => Err (ParseError "unclosed token")
                end
            | _ => not_well_formed
            end
      end
  end.

(** Character data up to the next [<]. *)
Fixpoint chardata (fuel : nat) (s : string) : result (string * string) :=
  match fuel with
  | O => not_well_formed
  | S f =>
      match s with
      | EmptyString => Ok (EmptyString, s)
      | String c r =>
          if Ascii.eqb c "<" then Ok (EmptyString, s)
          else if Ascii.eqb c "&" then
            do (ch, r1) <- parse_reference r ;;
            do (d, rest) <- chardata f r1 ;;
            Ok (String ch d, rest)
          else if String.prefix "]]>" s then not_well_formed
          else if negb (legal_char c) then not_well_formed
          else
            do (d, rest) <- chardata f r ;;
            Ok (String c d, rest)
      end
  end.

Definition data_opt (d : string) : option string :=
  match d with
  | EmptyString => None
  | _ => Some d
  end.

Definition with_tail (t : xml) (tl : option string) : xml :=
  let 'Node tg att tx _ kids := t in Node tg att tx tl kids.

(** [element] reads an element whose [<] has been read; [content] reads
    what an element contains and stops after the [</] of its end tag.
    The character data before the first child is the text, the data
    after a child is that child's tail. *)
Fixpoint element (fuel : nat) (s : string) : result (xml * string) :=
  match fuel with
  | O => not_well_formed
  | S f =>
      do (tg, s1) <- parse_name s ;;
      do (atts, s2) <- attributes (S (String.length s1)) s1 [] ;;
      let '(att, empty) := atts in
      if empty then Ok (Node tg att None None [], s2)
      else
        do (body, s3) <- content f s2 ;;
        let '(d, kids) := body in
        do (tg', s4) <- parse_name s3 ;;
        if String.eqb tg' tg then
          match skip_space s4 with
          | String ">" rest => Ok (Node tg att (data_opt d) None kids, rest)
          | _ => not_well_formed
          end
        else Err (ParseError "mismatched tag")
  end

with content (fuel : nat) (s : string) : result (string * list xml * string) :=
  match fuel with
  | O => not_well_formed
  | S f =>
      do (d, s1) <- chardata (S (String.length s)) s ;;
      match s1 with
      | String "<" (String "/" r) => Ok (d, [], r)
      | String "<" (String "!" _) | String "<" (String "?" _) =>
          Err (ParseError "markup outside the model")
      | String "<" r =>
          do (child, s2) <- element f r ;;
          do (more, s3) <- content f s2 ;;
          let '(tl, kids) := more in
          Ok (d, with_tail child (data_opt tl) :: kids, s3)
      | _ => Err (ParseError "no element found")
      end
  end.

(** The XML declaration, when the text starts with one. *)
Fixpoint skip_declaration (s : string) : result string :=
  match s with
  | String "?" (String ">" r) => Ok r
  | String _ r => skip_declaration r
  | EmptyString => Err (ParseError "unclosed token")
  end.

Definition parse_document (text : string) : result xml :=
  let s := normalize_newlines text in
  do (_, s1) <-
    (if String.prefix "<?xml" s && negb (String.eqb (skip_space (Json.advance 5 s)) (Json.advance 5 s))
     then match skip_declaration (Json.advance 5 s) with
          | Ok r => Ok (tt, r)
          | Err e => Err e
          end
     else Ok (tt, s)) ;;
  match skip_space s1 with
  | String "<" (String "!" _) | String "<" (String "?" _) =>
      Err (ParseError "markup outside the model")
  | String "<" r =>
      do (root, rest) <- element (S (String.length r)) r ;;
      match skip_space rest with
      | EmptyString => Ok root
      | String "<" (String "!" _) | String "<" (String "?" _) =>
          Err (ParseError "markup outside the model")
      | _ => Err (ParseError "junk after document element")
      end
  | EmptyString => Err (ParseError "no element found")
  | _ => Err (ParseError "syntax error")
  end.

(** [ET.fromstring(text)] *)
Definition fromstring (text : string) : result xml := parse_document text.

(** *** [xml.dom.minidom] *)

Inductive node :=
  | DElement (tagName : string) (attrs : list (string * string)) (childNodes : list node)
  | DText (data : string).

Definition text_node (o : option string) : list node :=
  match o with
  | Some d => if Str.bool_of_str d then [DText d] else []
  | None => []
  end.

(** The DOM element the builder makes of the same parse. *)
Fixpoint dom_of (t : xml) : node :=
  let 'Node tg att tx _ kids := t in
  DElement tg att
    (text_node tx ++ flat_map (fun k => dom_of k :: text_node (xtail k)) kids).

(** [minidom.parseString(text)]: the document's root element. *)
Definition parseString (text : string) : result node :=
  match parse_document text with
  | Ok t => Ok (dom_of t)
  | Err (ParseError msg) => Err (ExpatError msg)
  | Err e => Err e
  end.

(** [_write_data] *)
Fixpoint write_data (data : string) : string :=
  match data with
  | EmptyString => EmptyString
  | String c r =>
      (if Ascii.eqb c "&" then amp_entity "amp"
       else if Ascii.eqb c "<" then amp_entity "lt"
       else if Ascii.eqb c Str.dq then amp_entity "quot"
       else if Ascii.eqb c ">" then amp_entity "gt"
       else Str.chr c) ++ write_data r
  end.

(** [Element.writexml] and [Text.writexml] *)
Fixpoint writexml (n : node) (indent addindent newl : string) : string :=
  match n with
  | DText data => write_data (indent ++ data ++ newl)
  | DElement tagName attrs childNodes =>
      indent ++ "<" ++ tagName
      ++ Str.join (map (write_attrib write_data) attrs)
      ++ match childNodes with
         | [] => "/>" ++ newl
         | [DText data] =>
             ">" ++ write_data data ++ "</" ++ tagName ++ ">" ++ newl
         | _ =>
             ">" ++ newl
             ++ Str.join (map (fun c => writexml c (indent ++ addindent) addindent newl)
                            childNodes)
             ++ indent ++ "</" ++ tagName ++ ">" ++ newl
         end
  end.

(** [Document.toprettyxml(indent=indent)] *)
Definition toprettyxml (root : node) (indent : string) : string :=
  "<?xml version=" ++ Str.chr Str.dq ++ "1.0" ++ Str.chr Str.dq ++ " ?>" ++ Str.chr Str.nl
  ++ writexml root EmptyString indent (Str.chr Str.nl).

End XmlText.

(** ** [main.py]: detection, diff, rendering *)

(** The store of the program: the JSON objects and the elements. *)
Record heap := mkHeap {
  jstore : JsonObj.store;
  estore : ET.store
}.

(** A document, as the variables [original_data] and [modified_data]
    hold it. *)
Inductive document :=
  | JsonDoc (v : JsonObj.value)
  | XmlDoc (root : ET.loc).

Definition in_jstore {A} (m : comp JsonObj.store A) : comp heap A :=
  fun h => let '(r, s) := m (jstore h) in (r, mkHeap s (estore h)).

Definition in_estore {A} (m : comp ET.store A) : comp heap A :=
  fun h => let '(r, s) := m (estore h) in (r, mkHeap (jstore h) s).

Section Detect.

(** The two parsers, as [detect_file_type] uses them: a text is accepted
    or it raises the parser's own error ([json.JSONDecodeError],
    [ET.ParseError]). *)
Context {J X : Type}.
Variable json_loads : string -> option J.
Variable ET_fromstring : string -> option X.

Definition UnsupportedFormat : exn :=
  ValueError "Unsupported file format. Please upload a valid JSON or XML file.".

Definition detect_file_type (content : string) : result string :=
  let content := Str.strip content in
  let json_branch :=
    if Str.startswith content "{" || Str.startswith content "[" then
      match json_loads content with
      | Some _ => Some "json"
      | None => None
      end
    else None in
  match json_branch with
  | Some t => Ok t
  | None =>
      let xml_branch :=
        if Str.startswith content "<?xml" || Str.startswith content "<" then
          match ET_fromstring content with
          | Some _ => Some "xml"
          | None => None
          end
        else None in
      match xml_branch with
      | Some t => Ok t
      | None => Err UnsupportedFormat
      end
  end.



End Detect.

(** [prettify_xml] *)
Definition prettify_xml (elem : ET.loc) : comp ET.store string :=
  fun s =>
    match ET.load_all s elem with
    | None => (Err RecursionError, s)
    | Some t =>
        let rough_string := XmlText.tostring t in
        match XmlText.parseString rough_string with
        | Ok reparsed => (Ok (XmlText.toprettyxml reparsed "  "), s)
        | Err e => (Err e, s)
        end
    end.

(** [bool(doc)] *)
Definition truthy (h : heap) (doc : document) : bool :=
  match doc with
  | JsonDoc v => JsonObj.truthy (jstore h) v
  | XmlDoc root => ET.truthy (estore h) root
  end.

(** The pretty-printed lines of one document in [generate_diff]. *)
Definition pretty_lines (doc : document) (file_type : string) : comp heap (list string) :=
  if String.eqb file_type "json" then
    match doc with
    | JsonDoc v =>
        text <- in_jstore (JsonObj.json_dumps (Some 2) v) ;;
        ret (Str.split Str.nl text)
    | XmlDoc _ => raise TypeError
    end
  else
    match doc with
    | XmlDoc root =>
        text <- in_estore (prettify_xml root) ;;
        ret (Str.split Str.nl text)
    | JsonDoc _ => raise AttributeError
    end.

Definition generate_diff (original modified : document) (file_type : string)
  : comp heap (list string) :=
  h <- get ;;
  if negb (truthy h original) || negb (truthy h modified) then ret []
  else
    original_str <- pretty_lines original file_type ;;
    modified_str <- pretty_lines modified file_type ;;
    match Difflib.compare None None original_str modified_str with
    | Some lines => ret lines
    | None => raise OutOfFuel
    end.

Definition div (style line : string) : string :=
  ("<div" ++ style ++ ">" ++ line ++ "</div>")%string.

Definition background (color : string) : string :=
  (" style=" ++ Str.chr Str.dq ++ "background-color: " ++ color ++ Str.chr Str.dq)%string.

(** The entries of [html_lines] in [format_diff_html]. *)
Fixpoint html_lines (diff_lines : list string) : list string :=
  match diff_lines with
  | [] => []
  | line :: rest =>
      if Str.startswith line "+" then div (background "#a8ffa8") line :: html_lines rest
      else if Str.startswith line "-" then div (background "#ffb3b3") line :: html_lines rest
      else if Str.startswith line "?" then html_lines rest
      else div EmptyString line :: html_lines rest
  end.

Definition format_diff_html (diff_lines : list string) : string :=
  Str.join (html_lines diff_lines).

Definition get_file_download_info (data : document) (file_type : string)
  : comp heap (string * string * string) :=
  if String.eqb file_type "json" then
    match data with
    | JsonDoc v =>
        content <- in_jstore (JsonObj.json_dumps (Some 2) v) ;;
        ret (content, "application/json", "json")
    | XmlDoc _ => raise TypeError
    end
  else
    match data with
    | XmlDoc root =>
        content <- in_estore (prettify_xml root) ;;
        ret (content, "application/xml", "xml")
    | JsonDoc _ => raise AttributeError
    end.

(** The transform and the diff of [main], for a document that
    [load_file] returned with its [file_type]. *)
Definition transform (original_data : document) (file_type : string) : comp heap document :=
  if String.eqb file_type "json" then
    match original_data with
    | JsonDoc v => v' <- in_jstore (modify_json v) ;; ret (JsonDoc v')
    | XmlDoc _ => raise TypeError
    end
  else
    match original_data with
    | XmlDoc root => root' <- in_estore (modify_xml root) ;; ret (XmlDoc root')
    | JsonDoc _ => raise AttributeError
    end.

Definition transform_and_diff (original_data : document) (file_type : string)
  : comp heap (list string) :=
  modified_data <- transform original_data file_type ;;
  generate_diff original_data modified_data file_type.

(** The heap after [json.loads] or [ET.fromstring] returned a document. *)
Definition loaded_json (j : Json.json) : document * heap :=
  let '(v, s) := parsed j in (JsonDoc v, mkHeap s []).

Definition loaded_xml (t : ET.xml) : document * heap :=
  let '(root, s) := parsed_xml t in (XmlDoc root, mkHeap [] s).

(** ** Notions used in the proofs *)

Module DifflibAux.
Import Difflib.
Local Open Scope nat_scope.

Section Identical.
Context {A : Type} `{EqDecision A}.
Variable autojunk : bool.
Variable a : list A.

(** The element at index [i] exists and is not popular. *)
Definition nonpop (i : nat) : bool :=
  match a !! i with
  | Some x => negb (bpopular None autojunk a x)
  | None => false
  end.

(** The length of the run of elements that are not popular and end at
    index [i]. *)
Fixpoint run (i : nat) : nat :=
  if nonpop i then S (match i with O => 0 | S i' => run i' end) else 0.

Definition runp (i : nat) : nat := match i with O => 0 | S i' => run i' end.

(** One assignment [newj2len[j] = j2len.get(j-1, 0) + 1]. *)
Definition ins (j2len : gmap nat nat) (m : gmap nat nat) (j : nat) : gmap nat nat :=
  <[j := j2lenget j2len j + 1]> m.

(** The state of [find_longest_match] before row [i] when both sequences
    are [a]: the lengths in [j2len] are bounded by the runs, the entry on
    the diagonal is the run itself, and the best block lies on the
    diagonal and is at least as long as every run seen. *)
Definition row_inv (i : nat) (j2len : gmap nat nat) (best : Match) : Prop :=
  let '(bi, bj, bs) := best in
  (forall j, j2lenget j2len j <= runp j)
  /\ (forall j, j2lenget j2len j <= runp i)
  /\ j2lenget j2len i = runp i
  /\ (forall j, j < i -> run j <= bs)
  /\ bi = bj /\ bi + bs <= length a.

End Identical.

End DifflibAux.

Module JsonAux.
Import Json JsonObj.
Local Open Scope nat_scope.

(** The loops of [alloc], by name. *)
Fixpoint alloc_list (items : list json) (s : store) : list value * store :=
  match items with
  | [] => ([], s)
  | i :: rest =>
      let '(v, s1) := alloc i s in
      let '(vs, s2) := alloc_list rest s1 in
      (v :: vs, s2)
  end.

Fixpoint alloc_entries (entries : list (string * json)) (s : store)
  : list (string * value) * store :=
  match entries with
  | [] => ([], s)
  | (k, i) :: rest =>
      let '(v, s1) := alloc i s in
      let '(kvs, s2) := alloc_entries rest s1 in
      ((k, v) :: kvs, s2)
  end.

Definition refs_ge (n0 : nat) (v : value) : Prop :=
  match v with
  | VRef l => n0 <= l
  | _ => True
  end.

Definition obj_ok (n0 : nat) (o : object) : Prop :=
  match o with
  | OList items => Forall (refs_ge n0) items
  | ODict entries => Forall (fun kv => refs_ge n0 (snd kv)) entries
  end.

Definition framed (s0 s : store) : Prop :=
  take (length s0) s = s0
  /\ forall l o, s !! l = Some o -> length s0 <= l -> obj_ok (length s0) o.

(** What [alloc] adds to the store: new objects that only refer to new
    objects, and a value that denotes the document in every extension of
    the store. *)
Definition alloc_spec (j : json) : Prop :=
  forall s v s', alloc j s = (v, s') ->
  exists ext, s' = s ++ ext
    /\ refs_ge (length s) v
    /\ Forall (obj_ok (length s)) ext
    /\ forall f s'', length ext <= f -> s' `prefix_of` s'' -> load f s'' v = Some j.

End JsonAux.

Module EtAux.
Import ET.
Local Open Scope nat_scope.

(** The loops of [build] and [deepcopy], by name. *)
Fixpoint build_list (kids : list xml) (s : store) : list loc * store :=
  match kids with
  | [] => ([], s)
  | k :: rest =>
      let '(l, s1) := build k s in
      let '(ls, s2) := build_list rest s1 in
      (l :: ls, s2)
  end.

Fixpoint deepcopy_list (f : nat) (cs : list loc) (s : store) : result (list loc) * store :=
  match cs with
  | [] => (Ok [], s)
  | c :: rest =>
      match deepcopy_fuel f c s with
      | (Ok c', s1) =>
          match deepcopy_list f rest s1 with
          | (Ok cs', s2) => (Ok (c' :: cs'), s2)
          | (Err e, s2) => (Err e, s2)
          end
      | (Err e, s1) => (Err e, s1)
      end
  end.

(** The children of an element are elements created after the store had
    [n0] elements. *)
Definition elem_ok (n0 : nat) (e : Element) : Prop := Forall (fun c => n0 <= c) (children e).

Definition framed (s0 s : store) : Prop :=
  take (length s0) s = s0
  /\ forall l e, s !! l = Some e -> length s0 <= l -> elem_ok (length s0) e.

(** What [build] adds to the store. *)
Definition build_spec (t : xml) : Prop :=
  forall s l s', build t s = (l, s') ->
  exists ext, s' = s ++ ext
    /\ length s <= l
    /\ Forall (elem_ok (length s)) ext
    /\ forall f s'', length ext <= f -> s' `prefix_of` s'' -> load f s'' l = Some t.

End EtAux.

(** ** The XML transform as a function on trees *)

Module XmlTree.
Import ET.
Local Open Scope nat_scope.

Definition is_tag (tg : string) (t : xml) : bool := String.eqb (xtag t) tg.

(** 1. Below the root, an element [parameters] loses its children
    [team_name]. *)
Fixpoint delete_team_name (t : xml) : xml :=
  let 'Node tg att tx tl kids := t in
  Node tg att tx tl
    (flat_map (fun k => if String.eqb tg "parameters" && is_tag "team_name" k then []
                        else [delete_team_name k]) kids).

(** 2. Below the root, an element [parameters] gains a last child
    [something] with the text ["2"]. *)
Definition something2 : xml := Node "something" [] (Some "2") None [].

Fixpoint add_something (t : xml) : xml :=
  let 'Node tg att tx tl kids := t in
  Node tg att tx tl
    (map add_something kids
     ++ (if String.eqb tg "parameters" then [something2] else [])).

(** 3. Below the root, an element [shot_type] has the text ["points"]. *)
Fixpoint update_shot_type (t : xml) : xml :=
  let 'Node tg att tx tl kids := t in
  Node tg att (if String.eqb tg "shot_type" then Some "points" else tx) tl
    (map update_shot_type kids).

(** A step applies to what is below the root: the root keeps its own
    fields. *)
Definition below_root (step : xml -> xml) (t : xml) : xml :=
  let 'Node tg att tx tl kids := t in Node tg att tx tl (map step kids).

Definition xml_transform (t : xml) : xml :=
  below_root update_shot_type
    (below_root add_something
       (below_root delete_team_name t)).

(** What the three steps do to a tree below the root. *)
Definition step_all (k : xml) : xml :=
  update_shot_type (add_something (delete_team_name k)).

(** *** Properties of a tree *)

(** Some element strictly below [t] has the tag [tg]. *)
Fixpoint has_descendant (tg : string) (t : xml) : bool :=
  let 'Node _ _ _ _ kids := t in
  existsb (fun k => is_tag tg k || has_descendant tg k) kids.

(** Some element [parameters] of [t] has an element [team_name] below it,
    at any depth. *)
Fixpoint team_name_under_parameters (t : xml) : bool :=
  (is_tag "parameters" t && has_descendant "team_name" t)
  || existsb team_name_under_parameters (xkids t).

(** Every element [parameters] of [t], [t] itself included, satisfies [P]. *)
Fixpoint every_parameters (P : xml -> bool) (t : xml) : bool :=
  (if is_tag "parameters" t then P t else true)
  && forallb (every_parameters P) (xkids t).

Definition no_team_name_child (t : xml) : bool :=
  forallb (fun k => negb (is_tag "team_name" k)) (xkids t).

Definition is_something2 (k : xml) : bool :=
  match k with
  | Node tg [] (Some tx) None [] => String.eqb tg "something" && String.eqb tx "2"
  | _ => false
  end.

Definition last_child_is_something2 (t : xml) : bool :=
  match last (xkids t) with
  | Some k => is_something2 k
  | None => false
  end.

Definition one_something2_child (t : xml) : bool :=
  match List.filter (is_tag "something") (xkids t) with
  | [k] => is_something2 k
  | _ => false
  end.

(** No element of [t] has the tag [tg]. *)
Fixpoint no_element (tg : string) (t : xml) : bool :=
  negb (is_tag tg t) && forallb (no_element tg) (xkids t).

End XmlTree.

(** ** Trees with the locations of their elements *)

Module EtRepr.
Import ET.
Local Open Scope nat_scope.

Inductive ltree :=
  | LNode (l : loc) (e : Element) (kids : list ltree).

Definition lroot (T : ltree) : loc := let 'LNode l _ _ := T in l.
Definition lelem (T : ltree) : Element := let 'LNode _ e _ := T in e.
Definition lkids (T : ltree) : list ltree := let 'LNode _ _ kids := T in kids.

Fixpoint locs (T : ltree) : list loc :=
  let 'LNode l _ kids := T in l :: flat_map locs kids.

Definition proper_locs (T : ltree) : list loc := flat_map locs (lkids T).

Fixpoint erase (T : ltree) : xml :=
  let 'LNode _ e kids := T in
  Node (tag e) (attrib e) (text e) (tail e) (map erase kids).

(** [repr s T]: the store holds the tree [T] at the locations of [T]. *)
Inductive repr (s : store) : ltree -> Prop :=
  | repr_node l e kids :
      s !! l = Some e ->
      children e = map lroot kids ->
      Forall (repr s) kids ->
      repr s (LNode l e kids).

Definition lbelow_root (step : ltree -> ltree) (T : ltree) : ltree :=
  let 'LNode l e kids := T in LNode l e (map step kids).

Fixpoint ldelete (T : ltree) : ltree :=
  let 'LNode l e kids := T in
  let kids' :=
    flat_map (fun k => if String.eqb (tag e) "parameters"
                          && String.eqb (tag (lelem k)) "team_name" then []
                       else [ldelete k]) kids in
  LNode l (set_children e (map lroot kids')) kids'.

Definition something2_elem : Element := mkElement "something" [] (Some "2") None [].

Fixpoint ladd (new : loc -> loc) (T : ltree) : ltree :=
  let 'LNode l e kids := T in
  let kids' :=
    map (ladd new) kids
    ++ (if String.eqb (tag e) "parameters" then [LNode (new l) something2_elem []]
        else []) in
  LNode l (set_children e (map lroot kids')) kids'.

Fixpoint lupdate (T : ltree) : ltree :=
  let 'LNode l e kids := T in
  LNode l (if String.eqb (tag e) "shot_type" then set_text_of e "points" else e)
    (map lupdate kids).

Fixpoint index_of (x : loc) (L : list loc) : nat :=
  match L with
  | [] => 0
  | y :: L' => if Nat.eqb x y then 0 else S (index_of x L')
  end.

(** The element [e] with its children [team_name] taken out. *)
Definition without_team_name (s : store) (e : Element) : Element :=
  set_children e (List.filter (fun c => negb (has_tag s "team_name" c)) (children e)).

Definition add_child (n : loc) (e : Element) : Element :=
  set_children e (children e ++ [n]).

Definition tags_eq (s0 s : store) : Prop :=
  forall l, tag <$> s !! l = tag <$> s0 !! l.

Definition delete_body (params : loc) : comp store unit :=
  team_names <- findall_children params "team_name" ;;
  for_each team_names (fun team_name => remove params team_name).

Definition add_body (params : loc) : comp store unit :=
  new_elem <- SubElement params "something" ;;
  set_text new_elem "2".

End EtRepr.

(** ** JSON texts *)

Module JsonText.
Import Json.
Local Open Scope nat_scope.

(** Only decimal digits. *)
Fixpoint digits_only (s : string) : bool :=
  match s with
  | EmptyString => true
  | String c r => is_digit c && digits_only r
  end.

(** Only JSON whitespace. *)
Fixpoint blank (s : string) : bool :=
  match s with
  | EmptyString => true
  | String c r => is_ws c && blank r
  end.

(** What may follow a value in a JSON text: nothing that would continue
    a number. *)
Definition value_end (rest : string) : bool :=
  match rest with
  | EmptyString => true
  | String c _ =>
      negb (is_digit c || Ascii.eqb c "." || Ascii.eqb c "e" || Ascii.eqb c "E")
  end.

(** The keys of every object are distinct, as they are in a Python
    [dict]. *)
Fixpoint distinct_keys (j : json) : bool :=
  match j with
  | List items => forallb distinct_keys items
  | Dict entries =>
      bool_decide (NoDup (map fst entries))
      && forallb (fun kv => distinct_keys (snd kv)) entries
  | _ => true
  end.

(** The values and separators [scan_once] reads for a document. *)
Fixpoint scan_steps (j : json) : nat :=
  match j with
  | List items => S (fold_right (fun v n => S (scan_steps v + n)) 0 items)
  | Dict entries => S (fold_right (fun kv n => S (scan_steps (snd kv) + n)) 0 entries)
  | _ => 1
  end.

Definition starts_value (s : string) : bool :=
  match s with
  | String c _ => negb (is_ws c) && negb (Ascii.eqb c "]")
  | EmptyString => false
  end.

Definition reads_back (indent : option nat) (j : json) : Prop :=
  forall level f rest,
    scan_steps j <= f -> value_end rest = true ->
    scan_once f (iterencode indent level j ++ rest) = Ok (j, rest).

End JsonText.

(** ** More about the transforms *)

Module XmlMore.
Import ET XmlTree.

(** Every element of [t] with the tag [tg], [t] itself included,
    satisfies [P]. *)
Fixpoint every_element (tg : string) (P : xml -> bool) (t : xml) : bool :=
  (if is_tag tg t then P t else true)
  && forallb (every_element tg P) (xkids t).

Definition has_text (x : string) (t : xml) : bool :=
  match xtext t with
  | Some y => String.eqb y x
  | None => false
  end.

End XmlMore.

(** A hint line of [Differ]. *)
Definition is_hint (line : string) : bool := Str.startswith line "?".

(** ** The layout of a decoded document in the store *)

Module JsonLayout.
Import Json JsonObj.
Local Open Scope nat_scope.

(** [laid s n j v n']: the objects of the document [j] are in the store
    at the locations from [n] up to [n'], where [json.loads] puts them:
    the items before their container, which [v] refers to. *)
Inductive laid (s : store) : nat -> json -> value -> nat -> Prop :=
  | laid_null n : laid s n Null VNone n
  | laid_bool n b : laid s n (Bool b) (VBool b) n
  | laid_int n z : laid s n (Int z) (VInt z) n
  | laid_str n x : laid s n (Str x) (VStr x) n
  | laid_list n items vs m :
      laid_items s n items vs m -> s !! m = Some (OList vs) ->
      laid s n (List items) (VRef m) (S m)
  | laid_dict n entries kvs m :
      laid_entries s n entries kvs m -> s !! m = Some (ODict kvs) ->
      laid s n (Dict entries) (VRef m) (S m)
with laid_items (s : store) : nat -> list json -> list value -> nat -> Prop :=
  | laid_items_nil n : laid_items s n [] [] n
  | laid_items_cons n j v m js vs m' :
      laid s n j v m -> laid_items s m js vs m' ->
      laid_items s n (j :: js) (v :: vs) m'
with laid_entries (s : store)
  : nat -> list (string * json) -> list (string * value) -> nat -> Prop :=
  | laid_entries_nil n : laid_entries s n [] [] n
  | laid_entries_cons n k j v m es kvs m' :
      laid s n j v m -> laid_entries s m es kvs m' ->
      laid_entries s n ((k, j) :: es) ((k, v) :: kvs) m'.

(** Two stores with the same objects from [n] up to [n']. *)
Definition agree (n n' : nat) (s s' : store) : Prop :=
  forall l, n <= l < n' -> s' !! l = s !! l.

Scheme laid_mut := Induction for laid Sort Prop
  with laid_items_mut := Induction for laid_items Sort Prop
  with laid_entries_mut := Induction for laid_entries Sort Prop.
Combined Scheme laid_mutind from laid_mut, laid_items_mut, laid_entries_mut.

(** An entry of a [dict] object and the entry it denotes. *)
Definition denotes (f : nat) (s : list object) (kv : string * value) (e : string * json) : Prop :=
  fst kv = fst e /\ load f s (snd kv) = Some (snd e).

(** [json.loads] puts the objects of [j] at the end of the store. *)
Definition alloc_laid_at (j : json) : Prop :=
  forall s v s', alloc j s = (v, s') ->
    s `prefix_of` s' /\ laid s' (length s) j v (length s').

End JsonLayout.

(** ** The JSON transform as a function on documents *)

Module JsonTransform.
Import Json JsonObj JsonLayout.
Local Open Scope nat_scope.

(** The body of the loop of [modify_json] and what follows the copy, by
    name. *)
Definition item_body (item : value) : comp store unit :=
  is_dict <- isinstance_dict item ;;
  when is_dict (
    setitem item "user_query" (VStr user_query_text) ;;;
    setitem item "new" (VStr "Something") ;;;
    c <- and_then (contains item "parameters")
           (p <- getitem item "parameters" ;; contains p "offensive_player") ;;
    when c (p <- getitem item "parameters" ;; delitem p "offensive_player")).

Definition after_copy (modified_data : value) : comp store value :=
  is_list <- isinstance_list modified_data ;;
  (if is_list then
     items <- list_items modified_data ;;
     for_each items item_body
   else
     is_dict <- isinstance_dict modified_data ;;
     when is_dict (
       setitem modified_data "new_field" (VStr "This is a new value") ;;;
       c <- contains modified_data "to_delete" ;;
       when c (delitem modified_data "to_delete"))) ;;;
  ret modified_data.

(** What [modify_json] makes of a document that is an object. *)
Definition dict_transform (entries : list (string * json)) : list (string * json) :=
  dict_del "to_delete" (dict_set "new_field" (Str "This is a new value") entries).

Definition json_eqb_str (j : json) (x : string) : bool :=
  match j with
  | Str y => String.eqb y x
  | _ => false
  end.

(** What the loop of [modify_json] makes of one item of a document that
    is a list, or the exception it raises there. *)
Definition item_transform (item : json) : result json :=
  match item with
  | Dict entries =>
      let entries1 :=
        dict_set "new" (Str "Something")
          (dict_set "user_query" (Str user_query_text) entries) in
      match dict_get "parameters" entries1 with
      | None => Ok (Dict entries1)
      | Some (Dict ps) =>
          Ok (Dict (dict_set "parameters" (Dict (dict_del "offensive_player" ps)) entries1))
      | Some (List xs) =>
          if existsb (fun x => json_eqb_str x "offensive_player") xs then Err TypeError
          else Ok (Dict entries1)
      | Some (Str y) =>
          if Str.contains y "offensive_player" then Err TypeError else Ok (Dict entries1)
      | Some _ => Err TypeError
      end
  | _ => Ok item
  end.

(** The items in order, up to the first one that raises. *)
Fixpoint items_transform (items : list json) : result (list json) :=
  match items with
  | [] => Ok []
  | item :: rest =>
      match item_transform item with
      | Ok t =>
          match items_transform rest with
          | Ok ts => Ok (t :: ts)
          | Err e => Err e
          end
      | Err e => Err e
      end
  end.

Definition is_container (j : json) : bool :=
  match j with
  | List _ | Dict _ => true
  | _ => false
  end.

(** What one turn of the loop does with an item laid out from [a] to [b]:
    it writes there only, and the item then denotes its transform. *)
Definition item_ok (s : list object) (a b : nat) (item : json) (v : value)
    (out : result unit * list object) : Prop :=
  length (snd out) = length s
  /\ (forall l, l < a \/ b <= l -> snd out !! l = s !! l)
  /\ match item_transform item with
     | Ok t =>
         fst out = Ok tt
         /\ forall s'' f, agree a b (snd out) s'' -> b - a <= f -> load f s'' v = Some t
     | Err e => fst out = Err e
     end.

End JsonTransform.

(** The entry of [html_lines] for a line that is no hint. *)
Definition html_line (line : string) : string :=
  if Str.startswith line "+" then div (background "#a8ffa8") line
  else if Str.startswith line "-" then div (background "#ffb3b3") line
  else div EmptyString line.

(** ** Where the loop of the JSON transform raises *)

Module JsonRaises.
Import Json JsonObj JsonTransform.

(** The values of [parameters] at which the loop of [modify_json] raises:
    what is no container, a string that contains ["offensive_player"], a
    list that has it as an item. *)
Definition raises_at_parameters (p : json) : bool :=
  match p with
  | Dict _ => false
  | List xs => existsb (fun x => json_eqb_str x "offensive_player") xs
  | Str y => Str.contains y "offensive_player"
  | Null | Bool _ | Int _ => true
  end.

Definition item_raises (item : json) : bool :=
  match item with
  | Dict entries =>
      match dict_get "parameters" entries with
      | Some p => raises_at_parameters p
      | None => false
      end
  | _ => false
  end.

End JsonRaises.

(** ** [difflib]: what a matching block, an opcode and a delta are *)

Module DifflibSpec.
Import Difflib.
Local Open Scope nat_scope.

Section Blocks.
Context {A : Type}.
Variables a b : list A.

(** [a[i:i+k] == b[j:j+k]], with both slices inside the sequences. *)
Definition matches (i j k : nat) : Prop :=
  forall t, t < k -> exists x, a !! (i + t) = Some x /\ b !! (j + t) = Some x.

(** A block that [find_longest_match(alo, ahi, blo, bhi)] may return. *)
Definition block_ok (alo ahi blo bhi : nat) (m : Match) : Prop :=
  let '(i, j, k) := m in
  alo <= i /\ i + k <= ahi /\ blo <= j /\ j + k <= bhi /\ matches i j k.

(** The entry [j2len[j] = k] before row [i]: the [k] elements of [a]
    that end before [i] are the [k] elements of [b] that end at [j]. *)
Definition ends_ok (alo blo bhi i j k : nat) : Prop :=
  1 <= k /\ j < bhi /\ alo + k <= i /\ blo + k <= j + 1
  /\ matches (i - k) (j + 1 - k) k.

Definition row_ok (alo blo bhi i : nat) (j2len : gmap nat nat) : Prop :=
  forall j k, j2len !! j = Some k -> ends_ok alo blo bhi i j k.

End Blocks.
End DifflibSpec.

Module DifflibChain.
Import Difflib DifflibSpec.
Local Open Scope nat_scope.

Section Chain.
Context {A : Type}.
Variables a b : list A.

(** Blocks that follow one another between [(i, j)] and [(ahi, bhi)]:
    each one matches and starts where the one before has ended, or
    later in both sequences. *)
Fixpoint chain (i j : nat) (c : list Match) (ahi bhi : nat) : Prop :=
  match c with
  | [] => i <= ahi /\ j <= bhi
  | (bi, bj, k) :: rest =>
      i <= bi /\ j <= bj /\ matches a b bi bj k /\ chain (bi + k) (bj + k) rest ahi bhi
  end.

Definition nonempty (m : Match) : Prop := 1 <= snd m.

(** What one entry of the queue of [get_matching_blocks] costs. *)
Definition weight (alo ahi : nat) : nat := 2 * (ahi - alo) + 1.

End Chain.
End DifflibChain.

Module DifflibTiles.
Import Difflib DifflibSpec DifflibChain.
Local Open Scope nat_scope.

Definition match_le (x y : Match) : Prop := match_leb x y = true.

Section Tiles.
Context {A : Type}.
Variables a b : list A.

(** Opcodes that follow one another from [(i, j)] to [(ahi, bhi)] without
    a gap, each one with the ranges its tag stands for. *)
Fixpoint tiles (i j : nat) (ops : list opcode) (ahi bhi : nat) : Prop :=
  match ops with
  | [] => i = ahi /\ j = bhi
  | (t, alo, ahi', blo, bhi') :: rest =>
      alo = i /\ blo = j /\ i <= ahi' /\ j <= bhi'
      /\ match t with
         | replace => i < ahi' /\ j < bhi'
         | delete => i < ahi' /\ j = bhi'
         | insert => i = ahi' /\ j < bhi'
         | equal => ahi' = i + (bhi' - j) /\ matches a b i j (bhi' - j)
         end
      /\ tiles ahi' bhi' rest ahi bhi
  end.

End Tiles.
End DifflibTiles.

Module DifflibRestore.
Import Difflib.
Local Open Scope nat_scope.

(** [x[lo:hi]] *)
Definition slice {T} (x : list T) (lo hi : nat) : list T := take (hi - lo) (drop lo x).

(** [difflib.restore]: [if line[:2] in ("  ", tag): yield line[2:]]. *)
Definition restore_line (tag line : string) : option string :=
  match line with
  | String c1 (String c2 rest) =>
      let prefix := String c1 (String c2 EmptyString) in
      if String.eqb prefix "  " || String.eqb prefix tag then Some rest else None
  | _ => None
  end.

Fixpoint restore (tag : string) (delta : list string) : list string :=
  match delta with
  | [] => []
  | line :: rest =>
      match restore_line tag line with
      | Some l => l :: restore tag rest
      | None => restore tag rest
      end
  end.

(** [line[:2] in ("  ", "- ", "+ ", "? ")]: the line starts with one of
    the four codes of a delta. *)
Definition tagged (line : string) : bool :=
  match line with
  | String c1 (String c2 _) =>
      let prefix := String c1 (String c2 EmptyString) in
      existsb (String.eqb prefix) ["  "; "- "; "+ "; "? "]
  | _ => false
  end.

(** A delta between [a[alo:ahi]] and [b[blo:bhi]]. *)
Definition delta_ok (a b : list string) (alo ahi blo bhi : nat) (d : list string) : Prop :=
  restore "- " d = slice a alo ahi
  /\ restore "+ " d = slice b blo bhi
  /\ forallb tagged d = true.

(** [_fancy_helper] *)
Definition fancy_helper (charjunk : option (ascii -> bool)) (fuel : nat) (a : list string) (alo ahi : nat)
    (b : list string) (blo bhi : nat) : option (list string) :=
  if alo <? ahi then
    if blo <? bhi then fancy_replace charjunk fuel a alo ahi b blo bhi
    else Some (dump "-" a alo ahi)
  else if blo <? bhi then Some (dump "+" b blo bhi)
  else Some [].

(** The state of the search in [_fancy_replace] for the ranges
    [alo:ahi] and [blo:bhi]. *)
Definition search_ok (a b : list string) (alo ahi blo bhi : nat) (st : search) : Prop :=
  (best_ij st = None -> best_ratio st = (74 # 100)%Q)
  /\ (forall i j, best_ij st = Some (i, j) -> alo <= i < ahi /\ blo <= j < bhi)
  /\ (forall i j, eq_ij st = Some (i, j) ->
        alo <= i < ahi /\ blo <= j < bhi
        /\ exists x, a !! i = Some x /\ b !! j = Some x).

End DifflibRestore.

(** ** [main.py]: loading a file and the page of [main] *)


(** A parser in a [try] that catches the parser's own error. *)
Definition accepted {A} (r : result A) : option A :=
  match r with
  | Ok a => Some a
  | Err _ => None
  end.

(** [ET.fromstring(text)] in the store of the elements. *)
Definition ET_fromstring (text : string) : comp ET.store ET.loc :=
  fun s =>
    match XmlText.fromstring text with
    | Ok t => let '(root, s') := ET.build t s in (Ok root, s')
    | Err e => (Err e, s)
    end.

(** [load_file]; [content] is [uploaded_file.read().decode("utf-8")].
    [detect_file_type] parses the stripped text and throws its result
    away, [load_file] parses the text as it is. *)
Definition load_file (uploaded_file : option string)
  : comp heap (option document * option string) :=
  match uploaded_file with
  | Some content =>
      file_type <- lift (detect_file_type (fun text => accepted (Json.loads text))
                           (fun text => accepted (XmlText.fromstring text)) content) ;;
      if String.eqb file_type "json" then
        v <- in_jstore (JsonObj.json_loads content) ;;
        ret (Some (JsonDoc v), Some file_type)
      else if String.eqb file_type "xml" then
        root <- in_estore (ET_fromstring content) ;;
        ret (Some (XmlDoc root), Some file_type)
      else ret (None, None)
  | None => ret (None, None)
  end.

(** [str.upper] on ASCII text. *)
Definition upper_char (c : ascii) : ascii :=
  let n := nat_of_ascii c in
  if ((97 <=? n) && (n <=? 122))%nat then ascii_of_nat (n - 32) else c.

Fixpoint upper (s : string) : string :=
  match s with
  | EmptyString => EmptyString
  | String c r => String (upper_char c) (upper r)
  end.

(** What the calls of [st] put on the page. *)
Inductive widget :=
  | st_title (body : string)
  | st_file_uploader (label : string) (type : list string)
  | st_info (body : string)
  | st_subheader (body : string)
  | st_markdown (body : string) (unsafe_allow_html : bool)
  | st_download_button (label data file_name mime : string)
  | st_error (body : string).

(** The state of a run of the script: the heap and the page so far. *)
Record session := mkSession {
  session_heap : heap;
  page : list widget
}.

Definition st (e : widget) : comp session unit :=
  fun s => (Ok tt, mkSession (session_heap s) (page s ++ [e])).

Definition in_heap {A} (m : comp heap A) : comp session A :=
  fun s => let '(r, h) := m (session_heap s) in (r, mkSession h (page s)).

(** [try: body  except ValueError as e: handler(str(e))]; the decode
    errors of [json] are [ValueError]s, those of [ET] are not. *)
Definition try_except_ValueError {S A} (body : comp S A) (handler : string -> comp S A)
  : comp S A :=
  fun s =>
    match body s with
    | (Err (ValueError msg), s') => handler msg s'
    | (r, s') => (r, s')
    end.

(** [original_data is not None]: what [json.loads] returns for [null] is
    [None] too. *)
Definition is_not_None (original_data : option document) : bool :=
  match original_data with
  | None | Some (JsonDoc JsonObj.VNone) => false
  | Some _ => true
  end.

(** [main]; [uploaded_file] is what [st.file_uploader] returns. *)
Definition main (uploaded_file : option string) : comp session unit :=
  st (st_title "File Diff Viewer") ;;;
  st (st_file_uploader "Upload JSON or XML file" ["json"; "xml"]) ;;;
  match uploaded_file with
  | Some _ =>
      try_except_ValueError
        (loaded <- in_heap (load_file uploaded_file) ;;
         let '(original_data, file_type) := loaded in
         if is_not_None original_data then
           match original_data, file_type with
           | Some original_data, Some file_type =>
               st (st_info ("Detected file type: " ++ upper file_type)) ;;;
               modified_data <- in_heap (transform original_data file_type) ;;
               st (st_subheader "Differences (Git-style)") ;;;
               diff_lines <- in_heap (generate_diff original_data modified_data file_type) ;;
               let diff_html := format_diff_html diff_lines in
               st (st_markdown diff_html true) ;;;
               info <- in_heap (get_file_download_info modified_data file_type) ;;
               let '(content, mime, extension) := info in
               st (st_download_button ("Download modified " ++ upper file_type) content
                     ("modified." ++ extension) mime)
           | _, _ => raise AttributeError
           end
         else ret tt)
        (fun e => st (st_error e))
  | None => ret tt
  end.

(** A run of the script in a new process on the uploaded text. *)
Definition run_main (uploaded_file : option string) : result unit * session :=
  main uploaded_file (mkSession (mkHeap [] []) []).

(** The page before the file is looked at. *)
Definition page0 : list widget :=
  [st_title "File Diff Viewer"; st_file_uploader "Upload JSON or XML file" ["json"; "xml"]].

(** The lines [generate_diff] returns for two documents with the
    pretty-printed texts [original_text] and [modified_text]: none when
    one of the documents is falsy. *)
Definition diff_lines (both_truthy : bool) (original_text modified_text : string)
  : list string :=
  if both_truthy then
    default [] (Difflib.compare None None (Str.split Str.nl original_text)
                  (Str.split Str.nl modified_text))
  else [].





(** ** What [json.loads] has read *)

Module JsonScan.
Import Json JsonText.
Local Open Scope nat_scope.
Local Open Scope string_scope.

(** Only characters that [str.strip] removes. *)
Fixpoint spaces (s : string) : bool :=
  match s with
  | EmptyString => true
  | String c r => Str.isspace c && spaces r
  end.

(** The character that opens a list or an object. *)
Definition opens (c : ascii) : bool := Ascii.eqb c "{" || Ascii.eqb c "[".

(** The text [pre] of a value [j]: it starts with a character that is no
    space and no [<], and with a bracket exactly when [j] is a list or an
    object; then it also ends with a character that is no space. *)
Definition value_text (j : json) (pre : string) : Prop :=
  (exists c p, pre = String c p /\ Str.isspace c = false /\ Ascii.eqb c "<" = false
               /\ opens c = JsonTransform.is_container j)
  /\ (JsonTransform.is_container j = true ->
      exists p e, pre = p ++ String e EmptyString /\ Str.isspace e = false).

End JsonScan.

Module JsonRead.
Import Json JsonText JsonScan.
Local Open Scope nat_scope.
Local Open Scope string_scope.

(** What a successful [scan_once] has read: the text [pre] of the value
    in front of the rest, which is read the same way in front of every
    text that cannot continue a number, with as much fuel as it is long. *)
Definition scan_read (f : nat) : Prop :=
  forall x j r, scan_once f x = Ok (j, r) ->
    exists pre, x = pre ++ r /\ value_text j pre
      /\ forall f' t, String.length pre <= f' -> value_end t = true ->
                      scan_once f' (pre ++ t) = Ok (j, t).

Definition array_read (f : nat) : Prop :=
  forall x vs r, array_loop f x = Ok (vs, r) ->
    exists p, x = (p ++ "]") ++ r
      /\ forall f' t, String.length p + 1 <= f' ->
                      array_loop f' ((p ++ "]") ++ t) = Ok (vs, t).

Definition object_read (f : nat) : Prop :=
  forall x ps r, object_loop f x = Ok (ps, r) ->
    exists p, x = (p ++ "}") ++ r
      /\ forall f' t, String.length p + 1 <= f' ->
                      object_loop f' ((p ++ "}") ++ t) = Ok (ps, t).

End JsonRead.

(** * Properties *)

(** ** Sanity checks of the library models *)

Example strip_ex : Str.strip "  {a}  " = "{a}".
Proof. reflexivity. Qed.
Example split_ex : Str.split "," "a,b,,c" = ["a"; "b"; EmptyString; "c"].
Proof. reflexivity. Qed.
Example of_Z_ex : Str.of_Z 1203 = "1203" /\ Str.of_Z (-45) = "-45" /\ Str.of_Z 10 = "10".
Proof. repeat split; reflexivity. Qed.
Example hex4_ex : Str.hex4 31 = "001f".
Proof. reflexivity. Qed.

Example dumps_ex1 :
  Json.dumps None (Json.List [Json.Int 1; Json.Dict [("a", Json.Null)]; Json.List []])
  = ("[1, {" ++ Str.chr Str.dq ++ "a" ++ Str.chr Str.dq ++ ": null}, []]")%string.
Proof. reflexivity. Qed.
Example dumps_ex2 :
  Str.split Str.nl (Json.dumps (Some 2) (Json.List [Json.Int 1; Json.List [Json.Bool true]]))
  = ["["; "  1,"; "  ["; "    true"; "  ]"; "]"].
Proof. reflexivity. Qed.
Example escape_ex :
  Json.escape (String Str.nl (String (ascii_of_nat 233) "a")) = (String Str.bsl "n" ++ String Str.bsl "u00e9a")%string.
Proof. reflexivity. Qed.
Example loads_ex1 :
  Json.loads (Json.dumps (Some 2)
     (Json.Dict [("a", Json.List [Json.Int (-12); Json.Str "x y"; Json.Dict []]); ("b", Json.Null)]))
  = Ok (Json.Dict [("a", Json.List [Json.Int (-12); Json.Str "x y"; Json.Dict []]); ("b", Json.Null)]).
Proof. reflexivity. Qed.
Example loads_ex2 : Json.loads "not json or xml" = Err (ValueError "Expecting value").
Proof. reflexivity. Qed.
Example loads_ex3 : Json.loads " [1, 2] x" = Err (ValueError "Extra data").
Proof. reflexivity. Qed.
Example modify_json_ex1 :
  run_modify_json (Json.Dict [("a", Json.Int 1); ("to_delete", Json.Int 2)])
  = (Ok (Some (Json.Dict [("a", Json.Int 1); ("new_field", Json.Str "This is a new value")])),
     Some (Json.Dict [("a", Json.Int 1); ("to_delete", Json.Int 2)])).
Proof. vm_compute. reflexivity. Qed.
Example modify_json_ex2 :
  fst (run_modify_json (Json.List [Json.Dict [("parameters", Json.Dict [("offensive_player", Json.Str "X")])]]))
  = Ok (Some (Json.List [Json.Dict [("parameters", Json.Dict []);
                                    ("user_query", Json.Str user_query_text);
                                    ("new", Json.Str "Something")]])).
Proof. vm_compute. reflexivity. Qed.
Example modify_json_ex3 :
  fst (run_modify_json (Json.List [Json.Dict [("parameters", Json.Int 1)]])) = Err TypeError.
Proof. vm_compute. reflexivity. Qed.
Example compare_ex1 :
  Difflib.compare None None ["one"; "two"; "three"] ["ore"; "tree"; "emu"]
  = Some ["+ ore"; "- one"; "- two"; "- three"; "?  -" ++ Str.chr Str.nl;
          "+ tree"; "+ emu"]%string.
Proof. vm_compute. reflexivity. Qed.
Example modify_xml_ex1 :
  let leaf tg tx := ET.Node tg [] tx None [] in
  run_modify_xml
    (ET.Node "root" [] None None
       [ET.Node "parameters" [] None None
          [leaf "team_name" (Some "Lakers"); leaf "shot_type" (Some "jumper")]])
  = (Ok (Some (ET.Node "root" [] None None
                [ET.Node "parameters" [] None None
                   [leaf "shot_type" (Some "points"); leaf "something" (Some "2")]])),
     Some (ET.Node "root" [] None None
       [ET.Node "parameters" [] None None
          [leaf "team_name" (Some "Lakers"); leaf "shot_type" (Some "jumper")]])).
Proof. vm_compute. reflexivity. Qed.
Example prettify_ex1 :
  let '(root, s) := parsed_xml (ET.Node "a" [("k", "v")] (Some "x") None
                                  [ET.Node "b" [] None (Some "y") []; ET.Node "c" [] (Some "t") None []]) in
  fst (prettify_xml root s)
  = Ok ("<?xml version=" ++ Str.chr Str.dq ++ "1.0" ++ Str.chr Str.dq ++ " ?>" ++ Str.chr Str.nl
        ++ "<a k=" ++ Str.chr Str.dq ++ "v" ++ Str.chr Str.dq ++ ">" ++ Str.chr Str.nl
        ++ "  x" ++ Str.chr Str.nl
        ++ "  <b/>" ++ Str.chr Str.nl
        ++ "  y" ++ Str.chr Str.nl
        ++ "  <c>t</c>" ++ Str.chr Str.nl
        ++ "</a>" ++ Str.chr Str.nl)%string.
Proof. vm_compute. reflexivity. Qed.

(** ** [difflib]: a sequence compared with itself *)

Module DifflibFacts.
Import Difflib.
Local Open Scope nat_scope.

Section Identical.
Context {A : Type} `{EqDecision A}.
Variable autojunk : bool.
Variable a : list A.

Local Abbreviation nonpop := (DifflibAux.nonpop autojunk a).
Local Abbreviation run := (DifflibAux.run autojunk a).
Local Abbreviation runp := (DifflibAux.runp autojunk a).
Local Abbreviation row_inv := (DifflibAux.row_inv autojunk a).
Local Abbreviation ins := DifflibAux.ins.

Lemma run_eq i : run i = if nonpop i then S (runp i) else 0.
Proof. destruct i; reflexivity. Qed.

Lemma run_le i : run i <= S i.
Proof.
  induction i as [|i IH]; rewrite run_eq; destruct (nonpop _); simpl; lia.
Qed.

Lemma indices_from_elem (l : list A) (x : A) (k j : nat) :
  j ∈ indices_from k l x <-> exists j', j = k + j' /\ l !! j' = Some x.
Proof.
  revert k. induction l as [|y l IH]; intros k; simpl.
  - split; [intros Hin; inversion Hin | intros (j' & _ & Hl); discriminate].
  - destruct (decide (y = x)) as [->|Hne].
    + rewrite elem_of_cons, IH. split.
      * intros [-> | (j' & -> & Hl)]; [exists 0 | exists (S j')]; split; auto; lia.
      * intros ([|j'] & -> & Hl); [left; lia | right; exists j'; split; auto; lia].
    + rewrite IH. split.
      * intros (j' & -> & Hl). exists (S j'). split; auto; lia.
      * intros ([|j'] & -> & Hl); simpl in Hl; [congruence|].
        exists j'. split; auto; lia.
Qed.

Lemma indices_from_split (l : list A) (x : A) (k i : nat) :
  l !! i = Some x ->
  indices_from k l x
  = indices_from k (take i l) x ++ (k + i) :: indices_from (k + S i) (drop (S i) l) x.
Proof.
  revert k i. induction l as [|y l IH]; intros k i Hi; [discriminate|].
  destruct i as [|i]; simpl in *.
  - injection Hi as ->. rewrite decide_True by reflexivity.
    rewrite drop_0. f_equal; [lia | f_equal; lia].
  - rewrite (IH (S k) i Hi).
    replace (S k + i) with (k + S i) by lia.
    replace (S k + S i) with (k + S (S i)) by lia.
    destruct (decide (y = x)); reflexivity.
Qed.


Lemma scan_row_keep js i bhi j2len new bi bj bs :
  Forall (fun j => j < bhi /\ j2lenget j2len j + 1 <= bs) js ->
  scan_row js i 0 bhi j2len new (bi, bj, bs)
  = (fold_left (ins j2len) js new, (bi, bj, bs)).
Proof.
  revert new. induction js as [|j js IH]; intros new Hall; simpl; [reflexivity|].
  inversion Hall as [|? ? [Hlt Hle] Hrest]; subst.
  destruct (bhi <=? j) eqn:Hb; [apply Nat.leb_le in Hb; lia|].
  destruct (bs <? j2lenget j2len j + 1) eqn:Hu; [apply Nat.ltb_lt in Hu; lia|].
  apply IH, Hrest.
Qed.

Lemma scan_row_app l1 l2 i bhi j2len new best :
  Forall (fun j => j < bhi) l1 ->
  scan_row (l1 ++ l2) i 0 bhi j2len new best
  = let '(new', best') := scan_row l1 i 0 bhi j2len new best in
    scan_row l2 i 0 bhi j2len new' best'.
Proof.
  revert new best. induction l1 as [|j l1 IH]; intros new best Hall; simpl.
  - reflexivity.
  - inversion Hall as [|? ? Hlt Hrest]; subst.
    destruct (bhi <=? j) eqn:Hb; [apply Nat.leb_le in Hb; lia|].
    destruct best as [[bi bj] bs].
    apply IH, Hrest.
Qed.

Lemma fold_ins_lookup j2len js m j :
  fold_left (ins j2len) js m !! j
  = if decide (j ∈ js) then Some (j2lenget j2len j + 1) else m !! j.
Proof.
  revert m. induction js as [|x js IH]; intros m.
  - cbn [fold_left]. case_decide as Hin; [inversion Hin | reflexivity].
  - cbn [fold_left]. rewrite IH. unfold ins at 1.
    destruct (decide (j ∈ js)) as [Hin|Hnin].
    + case_decide as Hc; [reflexivity|]. exfalso. apply Hc. right. exact Hin.
    + destruct (decide (j = x)) as [->|Hne].
      * case_decide as Hc; [apply lookup_insert_eq|]. exfalso. apply Hc. left.
      * case_decide as Hc; [apply elem_of_cons in Hc as [?|?]; tauto|].
        apply lookup_insert_ne. congruence.
Qed.

Lemma row_inv_init : row_inv 0 ∅ (0, 0, 0).
Proof.
  unfold row_inv. repeat split; try lia.
  - intros [|j]; simpl; [lia|]. rewrite lookup_empty. simpl. lia.
  - intros [|j]; simpl; [lia|]. rewrite lookup_empty. simpl. lia.
Qed.

Lemma nonpop_b2j x i :
  a !! i = Some x -> nonpop i = true ->
  b2j_get None autojunk a x = indices_from 0 a x.
Proof.
  intros Hi Hn. unfold nonpop in Hn. rewrite Hi in Hn.
  unfold b2j_get. simpl. apply negb_true_iff in Hn. rewrite Hn. reflexivity.
Qed.

Lemma pop_b2j x i :
  a !! i = Some x -> nonpop i = false -> b2j_get None autojunk a x = [].
Proof.
  intros Hi Hn. unfold nonpop in Hn. rewrite Hi in Hn.
  unfold b2j_get. simpl. apply negb_false_iff in Hn. rewrite Hn. reflexivity.
Qed.

Lemma nonpop_same i j x :
  a !! i = Some x -> a !! j = Some x -> nonpop j = nonpop i.
Proof. intros Hi Hj. unfold nonpop. rewrite Hi, Hj. reflexivity. Qed.

Lemma row_inv_step i j2len best x :
  a !! i = Some x ->
  row_inv i j2len best ->
  let '(new, best') := scan_row (b2j_get None autojunk a x) i 0 (length a) j2len ∅ best in
  row_inv (S i) new best'.
Proof.
  intros Hi Hinv. destruct best as [[bi bj] bs].
  destruct Hinv as (P1 & P2 & P3 & P4 & P5 & P6).
  assert (Hlen : i < length a) by (eapply lookup_lt_Some; eauto).
  destruct (nonpop i) eqn:Hnp.
  - rewrite (nonpop_b2j x i Hi Hnp).
    rewrite (indices_from_split a x 0 i Hi). simpl.
    assert (Hrun : run i = S (runp i)) by (rewrite run_eq, Hnp; reflexivity).
    assert (Hv : forall j, a !! j = Some x -> j2lenget j2len j + 1 <= run j
                                                /\ j2lenget j2len j + 1 <= run i).
    { intros j Hj. rewrite (run_eq j), (nonpop_same i j x Hi Hj), Hnp, Hrun.
      specialize (P1 j). specialize (P2 j). lia. }
    (* the indices below the diagonal *)
    set (l1 := indices_from 0 (take i a) x).
    set (l2 := indices_from (S i) (drop (S i) a) x).
    assert (Hl1 : forall j, j ∈ l1 -> j < i /\ a !! j = Some x).
    { intros j Hj. apply indices_from_elem in Hj as (j' & -> & Hj'). simpl.
      assert (j' < i).
      { apply lookup_lt_Some in Hj'. rewrite length_take in Hj'. lia. }
      split; [assumption|]. rewrite lookup_take_lt in Hj' by assumption. exact Hj'. }
    assert (Hl2 : forall j, j ∈ l2 -> i < j /\ a !! j = Some x).
    { intros j Hj. apply indices_from_elem in Hj as (j' & -> & Hj').
      rewrite lookup_drop in Hj'. split; [lia|].
      replace (S i + j') with (S i + j') by lia. exact Hj'. }
    rewrite scan_row_app.
    2:{ apply Forall_forall. intros j Hj. apply Hl1 in Hj as [? _]. lia. }
    rewrite scan_row_keep.
    2:{ apply Forall_forall. intros j Hj. apply Hl1 in Hj as [Hlt Hj].
        split; [lia|]. specialize (P4 j Hlt). destruct (Hv j Hj). lia. }
    simpl. destruct (length a <=? i) eqn:Hb; [apply Nat.leb_le in Hb; lia|].
    rewrite P3.
    set (best1 := if bs <? runp i + 1 then (i + 1 - (runp i + 1), i + 1 - (runp i + 1), runp i + 1)
                  else (bi, bj, bs)).
    assert (Hbest1 : exists b s', best1 = (b, b, s') /\ b + s' <= length a
                                  /\ run i <= s' /\ bs <= s').
    { subst best1. pose proof (run_le i) as Hri.
      destruct (bs <? runp i + 1) eqn:Hu.
      - apply Nat.ltb_lt in Hu. eexists _, _. split; [reflexivity|]. lia.
      - apply Nat.ltb_ge in Hu. subst bj. eexists _, _. split; [reflexivity|]. lia. }
    destruct Hbest1 as (b & s' & -> & Hb1 & Hb2 & Hb3).
    rewrite scan_row_keep.
    2:{ apply Forall_forall. intros j Hj. apply Hl2 in Hj as [Hlt Hj].
        split; [eapply lookup_lt_Some; eauto|]. destruct (Hv j Hj). lia. }
    (* the invariant for the next row *)
    set (new := fold_left (ins j2len) l2 _).
    assert (Hnew : forall j, new !! j
               = if decide (a !! j = Some x) then Some (j2lenget j2len j + 1) else None).
    { intros j. subst new. rewrite fold_ins_lookup.
      destruct (decide (j ∈ l2)) as [Hin|Hnin].
      - apply Hl2 in Hin as [_ Hj]. rewrite decide_True by assumption. reflexivity.
      - destruct (decide (j = i)) as [->|Hne].
        + rewrite lookup_insert_eq. rewrite decide_True by assumption. rewrite P3. reflexivity.
        + rewrite lookup_insert_ne by congruence. rewrite fold_ins_lookup.
          destruct (decide (j ∈ l1)) as [Hin|Hnin1].
          * apply Hl1 in Hin as [_ Hj]. rewrite decide_True by assumption. reflexivity.
          * rewrite lookup_empty. destruct (decide (a !! j = Some x)) as [Hj|]; [|reflexivity].
            exfalso. destruct (Nat.lt_total j i) as [Hlt|[->|Hgt]]; [| congruence |].
            -- apply Hnin1. apply indices_from_elem. exists j. split; [reflexivity|].
               rewrite lookup_take_lt by assumption. exact Hj.
            -- apply Hnin. apply indices_from_elem. exists (j - S i). split; [lia|].
               rewrite lookup_drop. replace (S i + (j - S i)) with j by lia. exact Hj. }
    unfold row_inv. repeat split.
    + intros [|j]; simpl; [lia|]. rewrite Hnew.
      destruct (decide (a !! j = Some x)) as [Hj|]; simpl; [|lia].
      destruct (Hv j Hj). lia.
    + intros [|j]; simpl; [lia|]. rewrite Hnew.
      destruct (decide (a !! j = Some x)) as [Hj|]; simpl; [|lia].
      destruct (Hv j Hj). lia.
    + simpl. rewrite Hnew. rewrite decide_True by assumption. simpl. rewrite P3. lia.
    + intros j Hj. destruct (decide (j = i)) as [->|]; [lia|].
      assert (Hji : j < i) by lia. specialize (P4 j Hji). lia.
    + exact Hb1.
  - rewrite (pop_b2j x i Hi Hnp). simpl.
    assert (Hrun : run i = 0) by (rewrite run_eq, Hnp; reflexivity).
    unfold row_inv. repeat split; try assumption.
    + intros [|j]; simpl; [lia|]. rewrite lookup_empty. simpl. lia.
    + intros [|j]; simpl; [lia|]. rewrite lookup_empty. simpl. lia.
    + simpl. rewrite lookup_empty. simpl. lia.
    + intros j Hj. destruct (decide (j = i)) as [->|]; [lia|].
      apply P4. lia.
Qed.

Lemma scan_rows_inv m i j2len best :
  i + m = length a ->
  row_inv i j2len best ->
  exists b s, scan_rows None autojunk a a (seq i m) 0 (length a) j2len best = (b, b, s)
              /\ b + s <= length a.
Proof.
  revert i j2len best. induction m as [|m IH]; intros i j2len best Hlen Hinv; simpl.
  - destruct best as [[bi bj] bs]. destruct Hinv as (_ & _ & _ & _ & -> & Hb).
    eauto.
  - destruct (a !! i) as [x|] eqn:Hi.
    2:{ apply lookup_ge_None in Hi. lia. }
    pose proof (row_inv_step i j2len best x Hi Hinv) as Hstep.
    destruct (scan_row _ _ _ _ _ _ _) as [new best'].
    apply IH; [lia | exact Hstep].
Qed.


Lemma same_at_diag i : i < length a -> same_at a a i i = true.
Proof.
  intros Hi. unfold same_at. destruct (a !! i) eqn:E.
  - apply bool_decide_eq_true_2. reflexivity.
  - apply lookup_ge_None in E. lia.
Qed.

Lemma isbjunk_at_none (l : list A) j : isbjunk_at None l j = false.
Proof. unfold isbjunk_at. destruct (l !! j); reflexivity. Qed.

Lemma extend_down_diag b s :
  b + s <= length a ->
  extend_down None a a b false 0 0 (b, b, s) = (0, 0, b + s).
Proof.
  revert s. induction b as [|b IH]; intros s Hle; simpl; [reflexivity|].
  rewrite isbjunk_at_none. rewrite Nat.sub_0_r.
  rewrite same_at_diag by lia. simpl.
  rewrite IH by lia. f_equal. lia.
Qed.

Lemma extend_up_diag f s :
  s <= length a ->
  extend_up None a a f false (length a) (length a) (0, 0, s)
  = (0, 0, Nat.min (length a) (s + f)).
Proof.
  revert s. induction f as [|f IH]; intros s Hle; simpl.
  - f_equal. lia.
  - rewrite isbjunk_at_none. simpl.
    destruct (s <? length a) eqn:Hs.
    + apply Nat.ltb_lt in Hs. rewrite same_at_diag by assumption. simpl.
      rewrite IH by lia. f_equal. lia.
    + apply Nat.ltb_ge in Hs. simpl. f_equal. lia.
Qed.

Lemma extend_up_full f junk (l : list A) :
  extend_up None l l f junk (length l) (length l) (0, 0, length l) = (0, 0, length l).
Proof.
  destruct f as [|f]; simpl; [reflexivity|].
  rewrite Nat.ltb_irrefl. reflexivity.
Qed.

Lemma find_longest_match_same :
  find_longest_match None autojunk a a 0 (length a) 0 (length a) = (0, 0, length a).
Proof.
  unfold find_longest_match. rewrite Nat.sub_0_r.
  destruct (scan_rows_inv (length a) 0 ∅ (0, 0, 0)) as (b & s & -> & Hle);
    [lia | apply row_inv_init |].
  cbn [fst]. rewrite extend_down_diag by assumption.
  rewrite extend_up_diag by lia.
  replace (Nat.min (length a) (b + s + length a)) with (length a) by lia.
  cbn [fst]. cbn [extend_down]. apply extend_up_full.
Qed.

End Identical.

Section IdenticalBlocks.
Context {A : Type} `{EqDecision A}.

Lemma get_matching_blocks_same (a : list A) :
  get_matching_blocks None a a
  = Some (match length a with
          | O => [(0, 0, 0)]
          | S _ => [(0, 0, length a); (length a, length a, 0)]
          end).
Proof.
  unfold get_matching_blocks.
  replace (2 * length a + 1) with (S (2 * length a)) by lia.
  cbn [matching_loop]. rewrite find_longest_match_same.
  cbv beta iota zeta. rewrite Nat.ltb_irrefl, Nat.add_0_l, Nat.ltb_irrefl.
  cbn [andb app].
  destruct (length a) as [|n] eqn:Hn.
  - reflexivity.
  - cbn [Nat.eqb]. destruct (2 * S n); cbn [matching_loop mbind option_bind];
      unfold sort; cbn [fold_right insert_sorted collapse Nat.add Nat.eqb andb app];
      reflexivity.
Qed.

Lemma get_opcodes_same (a : list A) :
  get_opcodes None a a
  = Some (match length a with
          | O => []
          | S _ => [(equal, 0, length a, 0, length a)]
          end).
Proof.
  unfold get_opcodes. rewrite get_matching_blocks_same.
  destruct (length a) as [|n] eqn:Hn; cbn [mbind option_bind opcodes_loop];
    cbv beta iota zeta; rewrite ?Nat.ltb_irrefl; cbn [andb Nat.eqb app Nat.add];
    rewrite ?Nat.ltb_irrefl; reflexivity.
Qed.

End IdenticalBlocks.

Lemma dump_from (tg : string) (pre l : list string) :
  flat_map (fun i => match (pre ++ l) !! i with
                     | Some line => [(tg ++ " " ++ line)%string]
                     | None => []
                     end) (seq (length pre) (length l))
  = map (fun line => (tg ++ " " ++ line)%string) l.
Proof.
  revert pre. induction l as [|y l IH]; intros pre; [reflexivity|].
  cbn [length seq flat_map map].
  rewrite list_lookup_middle by reflexivity. cbn [app]. f_equal.
  specialize (IH (pre ++ [y])).
  rewrite <- app_assoc, length_app in IH. cbn [length app] in IH.
  rewrite Nat.add_1_r in IH. exact IH.
Qed.

Lemma dump_all (tg : string) (x : list string) :
  dump tg x 0 (length x) = map (fun line => (tg ++ " " ++ line)%string) x.
Proof. unfold dump. rewrite Nat.sub_0_r. apply (dump_from tg [] x). Qed.

(** The diff of a list of lines against itself. *)
Lemma compare_same (a : list string) :
  compare None None a a = Some (map (fun line => ("  " ++ line)%string) a).
Proof.
  unfold compare. rewrite get_opcodes_same.
  destruct (length a) as [|n] eqn:Hn.
  - apply nil_length_inv in Hn. subst a. reflexivity.
  - cbn [mbind option_bind mapM compare_opcode fmap option_fmap option_map].
    rewrite <- Hn, (dump_all " " a). simpl. rewrite app_nil_r.
    reflexivity.
Qed.

End DifflibFacts.

(** ** The state monad: invariants *)

Section Keeps.
Context {S : Type} (I : S -> Prop).

Lemma keeps_ret {A} (a : A) (R : A -> Prop) : R a -> keeps I (ret a) R.
Proof. intros Ha s Hs. split; [exact Hs|]. intros a' [= <-]. exact Ha. Qed.

Lemma keeps_raise {A} (e : exn) (R : A -> Prop) : keeps I (raise e) R.
Proof. intros s Hs. split; [exact Hs|]. intros a' [=]. Qed.

Lemma keeps_bind {A B} (m : comp S A) (k : A -> comp S B) (R1 : A -> Prop)
    (R2 : B -> Prop) :
  keeps I m R1 -> (forall a, R1 a -> keeps I (k a) R2) -> keeps I (bind m k) R2.
Proof.
  intros Hm Hk s Hs. unfold bind. destruct (Hm s Hs) as [Hs' Hr].
  destruct (m s) as [[a|e] s']; simpl in *.
  - apply (Hk a (Hr a eq_refl) s' Hs').
  - split; [exact Hs'|]. intros b [=].
Qed.

Lemma keeps_weaken {A} (m : comp S A) (R R' : A -> Prop) :
  keeps I m R -> (forall a, R a -> R' a) -> keeps I m R'.
Proof. intros Hm Hw s Hs. destruct (Hm s Hs) as [? Hr]. split; auto. Qed.

Lemma keeps_for_each {A} (xs : list A) (body : A -> comp S unit) :
  (forall x, x ∈ xs -> keeps I (body x) (fun _ => True)) ->
  keeps I (for_each xs body) (fun _ => True).
Proof.
  induction xs as [|x xs IH]; intros Hb; simpl.
  - apply keeps_ret. exact Logic.I.
  - eapply keeps_bind; [apply Hb; left|].
    intros _ _. apply IH. intros y Hy. apply Hb. right. exact Hy.
Qed.

Lemma keeps_when (c : bool) (body : comp S unit) :
  keeps I body (fun _ => True) -> keeps I (when c body) (fun _ => True).
Proof. intros Hb. destruct c; [exact Hb | apply keeps_ret; exact Logic.I]. Qed.

(** A computation that only reads. *)
Lemma keeps_read {A} (f : S -> result A) (R : A -> Prop) :
  (forall s a, I s -> f s = Ok a -> R a) ->
  keeps I (fun s => (f s, s)) R.
Proof. intros Hf s Hs. split; [exact Hs|]. intros a Ha. eapply Hf; eauto. Qed.

End Keeps.

(** ** The JSON transform writes to its copy only *)

Module JsonFacts.
Import Json JsonObj JsonAux.
Local Open Scope nat_scope.

Lemma json_ind' (P : json -> Prop) :
  P Null -> (forall b, P (Bool b)) -> (forall z, P (Int z)) -> (forall x, P (Str x)) ->
  (forall items, Forall P items -> P (List items)) ->
  (forall entries, Forall (fun kv => P (snd kv)) entries -> P (Dict entries)) ->
  forall j, P j.
Proof.
  intros HN HB HI HS HL HD.
  fix IH 1. intros [| b | z | x | items | entries].
  - exact HN.
  - apply HB.
  - apply HI.
  - apply HS.
  - apply HL. induction items as [|i items IHl]; constructor; [apply IH | exact IHl].
  - apply HD. induction entries as [|[k i] entries IHl]; constructor;
      [apply IH | exact IHl].
Qed.

Lemma alloc_List items s :
  alloc (List items) s
  = let '(vs, s1) := alloc_list items s in (VRef (length s1), s1 ++ [OList vs]).
Proof.
  simpl. 
  assert (E : forall items s,
    (fix go (items : list json) (s : store) : list value * store :=
           match items with
           | [] => ([], s)
           | i :: rest =>
               let '(v, s1) := alloc i s in
               let '(vs, s2) := go rest s1 in
               (v :: vs, s2)
           end) items s = alloc_list items s).
  { clear. induction items as [|i items IH]; intros s; simpl; [reflexivity|].
    destruct (alloc i s) as [v s1]. rewrite IH. reflexivity. }
  rewrite E. reflexivity.
Qed.

Lemma alloc_Dict entries s :
  alloc (Dict entries) s
  = let '(kvs, s1) := alloc_entries entries s in (VRef (length s1), s1 ++ [ODict kvs]).
Proof.
  simpl.
  assert (E : forall entries s,
    (fix go (entries : list (string * json)) (s : store)
           : list (string * value) * store :=
           match entries with
           | [] => ([], s)
           | (k, i) :: rest =>
               let '(v, s1) := alloc i s in
               let '(kvs, s2) := go rest s1 in
               ((k, v) :: kvs, s2)
           end) entries s = alloc_entries entries s).
  { clear. induction entries as [|[k i] entries IH]; intros s; simpl; [reflexivity|].
    destruct (alloc i s) as [v s1]. rewrite IH. reflexivity. }
  rewrite E. reflexivity.
Qed.

Lemma refs_ge_mono n m v : n <= m -> refs_ge m v -> refs_ge n v.
Proof. destruct v; simpl; auto. lia. Qed.

Lemma obj_ok_mono n m o : n <= m -> obj_ok m o -> obj_ok n o.
Proof.
  intros Hle. destruct o; simpl; intros Ho; (eapply Forall_impl; [exact Ho|]);
    intros ?; apply refs_ge_mono; exact Hle.
Qed.

Lemma alloc_list_spec items :
  Forall alloc_spec items ->
  forall s vs s', alloc_list items s = (vs, s') ->
  exists ext, s' = s ++ ext
    /\ Forall (refs_ge (length s)) vs
    /\ Forall (obj_ok (length s)) ext
    /\ forall f s'', length ext <= f -> s' `prefix_of` s'' ->
         mapM (load f s'') vs = Some items.
Proof.
  induction 1 as [|i items Hi _ IH]; intros s vs s' E; simpl in E.
  - injection E as <- <-. exists []. rewrite app_nil_r. repeat split; auto.
  - destruct (alloc i s) as [v s1] eqn:E1.
    destruct (alloc_list items s1) as [vs' s2] eqn:E2.
    injection E as <- <-.
    destruct (Hi _ _ _ E1) as (ext1 & -> & Hv & Hext1 & Hload1).
    destruct (IH _ _ _ E2) as (ext2 & -> & Hvs & Hext2 & Hload2).
    exists (ext1 ++ ext2). rewrite app_assoc. split; [reflexivity|].
    rewrite length_app in *. repeat split.
    + constructor; [exact Hv|].
      eapply Forall_impl; [exact Hvs|]. intros ?. apply refs_ge_mono. lia.
    + apply Forall_app. split; [exact Hext1|].
      eapply Forall_impl; [exact Hext2|]. intros ?. apply obj_ok_mono. lia.
    + intros f s'' Hf Hpre. simpl.
      rewrite (Hload1 f s'') by (try lia; eapply prefix_app_l; exact Hpre).
      simpl. rewrite (Hload2 f s'') by (try lia; exact Hpre).
      reflexivity.
Qed.

Lemma alloc_entries_spec entries :
  Forall (fun kv => alloc_spec (snd kv)) entries ->
  forall s kvs s', alloc_entries entries s = (kvs, s') ->
  exists ext, s' = s ++ ext
    /\ Forall (fun kv => refs_ge (length s) (snd kv)) kvs
    /\ Forall (obj_ok (length s)) ext
    /\ forall f s'', length ext <= f -> s' `prefix_of` s'' ->
         mapM (fun kv => pair (fst kv) <$> load f s'' (snd kv)) kvs = Some entries.
Proof.
  induction 1 as [|[k i] entries Hi _ IH]; intros s kvs s' E; simpl in E.
  - injection E as <- <-. exists []. rewrite app_nil_r. repeat split; auto.
  - destruct (alloc i s) as [v s1] eqn:E1.
    destruct (alloc_entries entries s1) as [kvs' s2] eqn:E2.
    injection E as <- <-.
    destruct (Hi _ _ _ E1) as (ext1 & -> & Hv & Hext1 & Hload1).
    destruct (IH _ _ _ E2) as (ext2 & -> & Hvs & Hext2 & Hload2).
    exists (ext1 ++ ext2). rewrite app_assoc. split; [reflexivity|].
    rewrite length_app in *. repeat split.
    + constructor; [exact Hv|].
      eapply Forall_impl; [exact Hvs|]. intros ?. apply refs_ge_mono. lia.
    + apply Forall_app. split; [exact Hext1|].
      eapply Forall_impl; [exact Hext2|]. intros ?. apply obj_ok_mono. lia.
    + intros f s'' Hf Hpre. simpl.
      rewrite (Hload1 f s'') by (try lia; eapply prefix_app_l; exact Hpre).
      simpl. rewrite (Hload2 f s'') by (try lia; exact Hpre).
      reflexivity.
Qed.

Lemma alloc_ok j : alloc_spec j.
Proof.
  induction j as [| b | z | x | items IH | entries IH] using json_ind'.
  1-4: intros s v s' [= <- <-]; exists []; rewrite app_nil_r; repeat split; auto;
       intros [|f]; reflexivity.
  - intros s v s' E. rewrite alloc_List in E.
    destruct (alloc_list items s) as [vs s1] eqn:E1. injection E as <- <-.
    destruct (alloc_list_spec items IH _ _ _ E1) as (ext & -> & Hvs & Hext & Hload).
    exists (ext ++ [OList vs]). rewrite app_assoc. split; [reflexivity|].
    repeat split.
    + simpl. rewrite length_app. lia.
    + apply Forall_app. split; [exact Hext|]. constructor; [exact Hvs | constructor].
    + intros f s'' Hf Hpre. rewrite length_app in Hf. simpl in Hf.
      destruct f as [|f]; [lia|].
      assert (Hlk : s'' !! length (s ++ ext) = Some (OList vs)).
      { eapply prefix_lookup_Some; [|exact Hpre]. apply list_lookup_middle. reflexivity. }
      cbn [load]. rewrite Hlk.
      rewrite (Hload f s'') by (try lia; eapply prefix_app_l; exact Hpre).
      reflexivity.
  - intros s v s' E. rewrite alloc_Dict in E.
    destruct (alloc_entries entries s) as [kvs s1] eqn:E1. injection E as <- <-.
    destruct (alloc_entries_spec entries IH _ _ _ E1) as (ext & -> & Hvs & Hext & Hload).
    exists (ext ++ [ODict kvs]). rewrite app_assoc. split; [reflexivity|].
    repeat split.
    + simpl. rewrite length_app. lia.
    + apply Forall_app. split; [exact Hext|]. constructor; [exact Hvs | constructor].
    + intros f s'' Hf Hpre. rewrite length_app in Hf. simpl in Hf.
      destruct f as [|f]; [lia|].
      assert (Hlk : s'' !! length (s ++ ext) = Some (ODict kvs)).
      { eapply prefix_lookup_Some; [|exact Hpre]. apply list_lookup_middle. reflexivity. }
      cbn [load]. rewrite Hlk.
      rewrite (Hload f s'') by (try lia; eapply prefix_app_l; exact Hpre).
      reflexivity.
Qed.

(** A decoded document is what its objects denote. *)
Lemma load_parsed j s :
  snd (parsed j) `prefix_of` s ->
  load_all s (fst (parsed j)) = Some j.
Proof.
  intros Hpre. unfold parsed in *. destruct (alloc j []) as [v s0] eqn:E.
  destruct (alloc_ok j _ _ _ E) as (ext & -> & _ & _ & Hload). simpl in *.
  apply Hload; [|exact Hpre]. apply prefix_length in Hpre. lia.
Qed.


Lemma jframed_refl s0 : framed s0 s0.
Proof.
  split; [apply firstn_all|].
  intros l o Hl Hge. apply lookup_lt_Some in Hl. lia.
Qed.

Lemma jframed_length s0 s : framed s0 s -> length s0 <= length s.
Proof.
  intros [Ht _]. rewrite <- Ht at 1. rewrite length_take. lia.
Qed.

Lemma jframed_prefix s0 s : framed s0 s -> s0 `prefix_of` s.
Proof. intros [Ht _]. exists (drop (length s0) s). rewrite <- Ht at 1. symmetry. apply take_drop. Qed.

Lemma jframed_update s0 s l o :
  framed s0 s -> length s0 <= l -> obj_ok (length s0) o -> framed s0 (<[l := o]> s).
Proof.
  intros [Ht Hc] Hl Ho. split.
  - rewrite take_insert_ge by exact Hl. exact Ht.
  - intros l' o' Hl' Hge. destruct (decide (l = l')) as [<-|Hne].
    + assert (Hlt : l < length s).
      { pose proof (lookup_lt_Some _ _ _ Hl') as Hlt. rewrite length_insert in Hlt.
        exact Hlt. }
      rewrite list_lookup_insert_eq in Hl' by exact Hlt.
      injection Hl' as <-. exact Ho.
    + rewrite list_lookup_insert_ne in Hl' by exact Hne. eauto.
Qed.

Lemma jframed_app s0 s ext :
  framed s0 s -> Forall (obj_ok (length s)) ext -> framed s0 (s ++ ext).
Proof.
  intros Hf Hext. pose proof (jframed_length _ _ Hf) as Hlen. destruct Hf as [Ht Hc]. split.
  - rewrite take_app_le by exact Hlen. exact Ht.
  - intros l o Hl Hge. apply lookup_app_Some in Hl as [Hl | [Hl1 Hl2]]; [eauto|].
    eapply obj_ok_mono; [exact Hlen|].
    eapply Forall_lookup_1; eauto.
Qed.

Section JsonFrame.
Variable s0 : list object.
Let n0 := length s0.

Lemma keeps_json_dumps indent v (R : string -> Prop) :
  (forall x, R x) -> keeps (framed s0) (json_dumps indent v) R.
Proof.
  intros HR s Hs. unfold json_dumps.
  destruct (load_all s v); simpl; (split; [exact Hs|]); intros a _; apply HR.
Qed.

Lemma keeps_json_loads text :
  keeps (framed s0) (json_loads text) (refs_ge n0).
Proof.
  intros s Hs. unfold json_loads. destruct (loads text) as [j|e]; simpl.
  - destruct (alloc j s) as [v s'] eqn:E. simpl.
    destruct (alloc_ok j _ _ _ E) as (ext & -> & Hv & Hext & _).
    split; [apply jframed_app; assumption|].
    intros a [= <-]. eapply refs_ge_mono; [|exact Hv]. apply jframed_length. exact Hs.
  - split; [exact Hs|]. intros a [=].
Qed.

Lemma keeps_isinstance_list v : keeps (framed s0) (isinstance_list v) (fun _ => True).
Proof. intros s Hs. split; [exact Hs | auto]. Qed.

Lemma keeps_isinstance_dict v : keeps (framed s0) (isinstance_dict v) (fun _ => True).
Proof. intros s Hs. split; [exact Hs | auto]. Qed.

Lemma keeps_contains c x : keeps (framed s0) (contains c x) (fun _ => True).
Proof.
  intros s Hs. unfold contains.
  destruct c as [| | | |l]; simpl; try (split; [exact Hs | auto]).
  destruct (s !! l) as [[|]|]; simpl; split; auto.
Qed.

Lemma keeps_list_items v :
  refs_ge n0 v -> keeps (framed s0) (list_items v) (Forall (refs_ge n0)).
Proof.
  intros Hv s Hs. unfold list_items.
  destruct v as [| | | |l]; simpl; try (split; [exact Hs | intros ? Hd; discriminate Hd]).
  destruct (s !! l) as [[items|]|] eqn:El; simpl;
    try (split; [exact Hs | intros ? Hd; discriminate Hd]).
  split; [exact Hs|].
  intros a [= <-]. destruct Hs as [_ Hc]. apply (Hc l _ El Hv).
Qed.

Lemma dict_get_refs (k : string) (entries : list (string * value)) v :
  Forall (fun kv => refs_ge n0 (snd kv)) entries ->
  dict_get k entries = Some v -> refs_ge n0 v.
Proof.
  induction 1 as [|[k' v'] entries Hkv _ IH]; simpl; [discriminate|].
  destruct (String.eqb k' k); [intros [= <-]; exact Hkv | exact IH].
Qed.

Lemma keeps_getitem c key :
  refs_ge n0 c -> keeps (framed s0) (getitem c key) (refs_ge n0).
Proof.
  intros Hv s Hs. unfold getitem.
  destruct c as [| | | |l]; simpl; try (split; [exact Hs | intros ? Hd; discriminate Hd]).
  destruct (s !! l) as [[items|entries]|] eqn:El; simpl;
    try (split; [exact Hs | intros ? Hd; discriminate Hd]).
  destruct (dict_get key entries) as [v|] eqn:Eg; simpl;
    try (split; [exact Hs | intros ? Hd; discriminate Hd]).
  split; [exact Hs|].
  intros a [= <-]. destruct Hs as [_ Hc]. eapply dict_get_refs; [|exact Eg].
  apply (Hc l _ El Hv).
Qed.

Lemma dict_set_refs (k : string) (v : value) (entries : list (string * value)) :
  refs_ge n0 v ->
  Forall (fun kv => refs_ge n0 (snd kv)) entries ->
  Forall (fun kv => refs_ge n0 (snd kv)) (Json.dict_set k v entries).
Proof.
  intros Hv. induction 1 as [|[k' v'] entries Hkv Hrest IH]; simpl.
  - constructor; [exact Hv | constructor].
  - destruct (String.eqb k' k); constructor; auto.
Qed.

Lemma keeps_setitem c key v :
  refs_ge n0 c -> refs_ge n0 v -> keeps (framed s0) (setitem c key v) (fun _ => True).
Proof.
  intros Hc Hv s Hs. unfold setitem.
  destruct c as [| | | |l]; simpl; try (split; [exact Hs | auto]).
  destruct (s !! l) as [[items|entries]|] eqn:El; simpl;
    try (split; [exact Hs | auto]).
  split; [|auto]. apply jframed_update; [exact Hs | exact Hc |].
  simpl. apply dict_set_refs; [exact Hv|]. destruct Hs as [_ Hcl]. apply (Hcl l _ El Hc).
Qed.

Lemma keeps_delitem c key :
  refs_ge n0 c -> keeps (framed s0) (delitem c key) (fun _ => True).
Proof.
  intros Hc s Hs. unfold delitem.
  destruct c as [| | | |l]; simpl; try (split; [exact Hs | auto]).
  destruct (s !! l) as [[items|entries]|] eqn:El; simpl;
    try (split; [exact Hs | auto]).
  destruct (dict_has key entries); simpl; (split; [|auto]); [|exact Hs].
  apply jframed_update; [exact Hs | exact Hc |].
  simpl. unfold dict_del. destruct Hs as [_ Hcl]. specialize (Hcl l _ El Hc). simpl in Hcl.
  apply Forall_forall. intros kv Hin. apply list_elem_of_In, filter_In in Hin as [Hin _].
  apply list_elem_of_In in Hin. eapply Forall_forall in Hcl; eauto.
Qed.

(** The transform only writes to the objects of its copy. *)
Lemma keeps_modify_json v : keeps (framed s0) (modify_json v) (fun _ => True).
Proof.
  unfold modify_json.
  assert (Hmain : keeps (framed s0)
    (text <- json_dumps None v ;;
      modified_data <- json_loads text ;;
      is_list <- isinstance_list modified_data ;;
      (if is_list then
         items <- list_items modified_data ;;
         for_each items (fun item =>
           is_dict <- isinstance_dict item ;;
           when is_dict (
             setitem item "user_query" (VStr user_query_text) ;;;
             setitem item "new" (VStr "Something") ;;;
             c <- and_then (contains item "parameters")
                    (p <- getitem item "parameters" ;; contains p "offensive_player") ;;
             when c (p <- getitem item "parameters" ;; delitem p "offensive_player")))
       else
         is_dict <- isinstance_dict modified_data ;;
         when is_dict (
           setitem modified_data "new_field" (VStr "This is a new value") ;;;
           c <- contains modified_data "to_delete" ;;
           when c (delitem modified_data "to_delete"))) ;;;
      ret modified_data) (fun _ => True)).
  { eapply keeps_bind; [apply (keeps_json_dumps None v (fun _ => True)); auto|].
    intros text _.
    eapply keeps_bind; [apply keeps_json_loads|]. intros md Hmd.
    eapply keeps_bind; [apply keeps_isinstance_list|]. intros is_list _.
    eapply keeps_bind; [|intros; apply keeps_ret; exact Logic.I].
    destruct is_list.
    - eapply keeps_bind; [apply keeps_list_items; exact Hmd|]. intros items Hitems.
      apply keeps_for_each. intros item Hin.
      assert (Hitem : refs_ge n0 item) by (eapply Forall_forall in Hitems; eauto).
      eapply keeps_bind; [apply keeps_isinstance_dict|]. intros is_dict _.
      apply keeps_when.
      eapply keeps_bind; [apply keeps_setitem; [exact Hitem | exact Logic.I]|]. intros _ _.
      eapply keeps_bind; [apply keeps_setitem; [exact Hitem | exact Logic.I]|]. intros _ _.
      eapply keeps_bind with (R1 := fun _ => True).
      + unfold and_then. eapply keeps_bind; [apply keeps_contains|]. intros x _.
        destruct x; [|apply keeps_ret; exact Logic.I].
        eapply keeps_bind; [apply keeps_getitem; exact Hitem|]. intros p Hp.
        apply keeps_contains.
      + intros c _. apply keeps_when.
        eapply keeps_bind; [apply keeps_getitem; exact Hitem|]. intros p Hp.
        apply keeps_delitem. exact Hp.
    - eapply keeps_bind; [apply keeps_isinstance_dict|]. intros is_dict _.
      apply keeps_when.
      eapply keeps_bind; [apply keeps_setitem; [exact Hmd | exact Logic.I]|]. intros _ _.
      eapply keeps_bind; [apply keeps_contains|]. intros c _.
      apply keeps_when. apply keeps_delitem. exact Hmd. }
  destruct v; first [apply keeps_ret; exact Logic.I | exact Hmain].
Qed.

End JsonFrame.

(** The original document of the JSON transform denotes the same value
    after the run, whatever the outcome. *)
Lemma modify_json_frame (j : json) :
  let v := fst (parsed j) in
  let s0 := snd (parsed j) in
  let s1 := snd (modify_json v s0) in
  take (length s0) s1 = s0 /\ load_all s0 v = Some j /\ load_all s1 v = Some j.
Proof.
  intros v s0 s1.
  destruct (keeps_modify_json s0 v s0 (jframed_refl s0)) as [Hf _].
  fold s1 in Hf. split; [apply Hf|]. split.
  - apply load_parsed. reflexivity.
  - apply load_parsed. apply jframed_prefix. exact Hf.
Qed.

End JsonFacts.

(** ** The XML transform writes to its copy only *)

Module EtFacts.
Import ET EtAux.
Local Open Scope nat_scope.

Lemma xml_ind' (P : xml -> Prop) :
  (forall tg att tx tl kids, Forall P kids -> P (Node tg att tx tl kids)) ->
  forall t, P t.
Proof.
  intros H. fix IH 1. intros [tg att tx tl kids]. apply H.
  induction kids as [|k kids IHk]; constructor; [apply IH | exact IHk].
Qed.

Lemma build_Node tg att tx tl kids s :
  build (Node tg att tx tl kids) s
  = let '(ls, s1) := build_list kids s in
    (length s1, s1 ++ [mkElement tg att tx tl ls]).
Proof.
  simpl.
  assert (E : forall kids s,
    (fix go (kids : list xml) (s : store) : list loc * store :=
       match kids with
       | [] => ([], s)
       | k :: rest =>
           let '(l, s1) := build k s in
           let '(ls, s2) := go rest s1 in
           (l :: ls, s2)
       end) kids s = build_list kids s).
  { clear. induction kids as [|k kids IH]; intros s; simpl; [reflexivity|].
    destruct (build k s) as [l s1]. rewrite IH. reflexivity. }
  rewrite E. reflexivity.
Qed.

Lemma deepcopy_fuel_S f l s :
  deepcopy_fuel (S f) l s
  = match s !! l with
    | None => (Err AttributeError, s)
    | Some e =>
        let '(r, s1) := deepcopy_list f (children e) s in
        match r with
        | Ok cs' =>
            (Ok (length s1), s1 ++ [mkElement (tag e) (attrib e) (text e) (tail e) cs'])
        | Err x => (Err x, s1)
        end
    end.
Proof.
  simpl. destruct (s !! l) as [e|]; [|reflexivity].
  assert (E : forall cs s,
    (fix go (cs : list loc) (s : store) : result (list loc) * store :=
               match cs with
               | [] => (Ok [], s)
               | c :: rest =>
                   match deepcopy_fuel f c s with
                   | (Ok c', s1) =>
                       match go rest s1 with
                       | (Ok cs', s2) => (Ok (c' :: cs'), s2)
                       | (Err e, s2) => (Err e, s2)
                       end
                   | (Err e, s1) => (Err e, s1)
                   end
               end) cs s = deepcopy_list f cs s).
  { clear. induction cs as [|c cs IH]; intros s; simpl; [reflexivity|].
    destruct (deepcopy_fuel f c s) as [[c'|x] s1]; [|reflexivity].
    rewrite IH. reflexivity. }
  rewrite E. reflexivity.
Qed.

Lemma elem_ok_mono n m e : n <= m -> elem_ok m e -> elem_ok n e.
Proof.
  intros Hle He. unfold elem_ok in *. eapply Forall_impl; [exact He|].
  simpl. intros. lia.
Qed.

Lemma build_list_spec kids :
  Forall build_spec kids ->
  forall s ls s', build_list kids s = (ls, s') ->
  exists ext, s' = s ++ ext
    /\ Forall (fun c => length s <= c) ls
    /\ Forall (elem_ok (length s)) ext
    /\ forall f s'', length ext <= f -> s' `prefix_of` s'' ->
         mapM (load f s'') ls = Some kids.
Proof.
  induction 1 as [|k kids Hk _ IH]; intros s ls s' E; simpl in E.
  - injection E as <- <-. exists []. rewrite app_nil_r. repeat split; auto.
  - destruct (build k s) as [l s1] eqn:E1.
    destruct (build_list kids s1) as [ls' s2] eqn:E2.
    injection E as <- <-.
    destruct (Hk _ _ _ E1) as (ext1 & -> & Hl & Hext1 & Hload1).
    destruct (IH _ _ _ E2) as (ext2 & -> & Hls & Hext2 & Hload2).
    exists (ext1 ++ ext2). rewrite app_assoc. split; [reflexivity|].
    rewrite length_app in *. repeat split.
    + constructor; [exact Hl|].
      eapply Forall_impl; [exact Hls|]. simpl. intros. lia.
    + apply Forall_app. split; [exact Hext1|].
      eapply Forall_impl; [exact Hext2|]. intros ?. apply elem_ok_mono. lia.
    + intros f s'' Hf Hpre. simpl.
      rewrite (Hload1 f s'') by (try lia; eapply prefix_app_l; exact Hpre).
      simpl. rewrite (Hload2 f s'') by (try lia; exact Hpre).
      reflexivity.
Qed.

Lemma build_ok t : build_spec t.
Proof.
  induction t as [tg att tx tl kids IH] using xml_ind'.
  intros s l s' E. rewrite build_Node in E.
  destruct (build_list kids s) as [ls s1] eqn:E1. injection E as <- <-.
  destruct (build_list_spec kids IH _ _ _ E1) as (ext & -> & Hls & Hext & Hload).
  exists (ext ++ [mkElement tg att tx tl ls]). rewrite app_assoc. split; [reflexivity|].
  repeat split.
  - rewrite length_app. lia.
  - apply Forall_app. split; [exact Hext|]. constructor; [exact Hls | constructor].
  - intros f s'' Hf Hpre. rewrite length_app in Hf. simpl in Hf.
    destruct f as [|f]; [lia|].
    assert (Hlk : s'' !! length (s ++ ext) = Some (mkElement tg att tx tl ls)).
    { eapply prefix_lookup_Some; [|exact Hpre]. apply list_lookup_middle. reflexivity. }
    cbn [load]. rewrite Hlk. simpl.
    rewrite (Hload f s'') by (try lia; eapply prefix_app_l; exact Hpre).
    reflexivity.
Qed.

Lemma load_parsed_xml t s :
  snd (parsed_xml t) `prefix_of` s ->
  load_all s (fst (parsed_xml t)) = Some t.
Proof.
  intros Hpre. unfold parsed_xml in *. destruct (build t []) as [l s0] eqn:E.
  destruct (build_ok t _ _ _ E) as (ext & -> & _ & _ & Hload). simpl in *.
  apply Hload; [|exact Hpre]. apply prefix_length in Hpre. exact Hpre.
Qed.


Lemma eframed_refl s0 : framed s0 s0.
Proof.
  split; [apply firstn_all|].
  intros l o Hl Hge. apply lookup_lt_Some in Hl. lia.
Qed.

Lemma eframed_length s0 s : framed s0 s -> length s0 <= length s.
Proof.
  intros [Ht _]. rewrite <- Ht at 1. rewrite length_take. lia.
Qed.

Lemma eframed_prefix s0 s : framed s0 s -> s0 `prefix_of` s.
Proof.
  intros [Ht _]. exists (drop (length s0) s). rewrite <- Ht at 1.
  symmetry. apply take_drop.
Qed.

Lemma eframed_update s0 s l e :
  framed s0 s -> length s0 <= l -> elem_ok (length s0) e -> framed s0 (<[l := e]> s).
Proof.
  intros [Ht Hc] Hl Ho. split.
  - rewrite take_insert_ge by exact Hl. exact Ht.
  - intros l' o' Hl' Hge. destruct (decide (l = l')) as [<-|Hne].
    + assert (Hlt : l < length s).
      { pose proof (lookup_lt_Some _ _ _ Hl') as Hlt. rewrite length_insert in Hlt.
        exact Hlt. }
      rewrite list_lookup_insert_eq in Hl' by exact Hlt.
      injection Hl' as <-. exact Ho.
    + rewrite list_lookup_insert_ne in Hl' by exact Hne. eauto.
Qed.

Lemma eframed_app s0 s ext :
  framed s0 s -> Forall (elem_ok (length s)) ext -> framed s0 (s ++ ext).
Proof.
  intros Hf Hext. pose proof (eframed_length _ _ Hf) as Hlen. destruct Hf as [Ht Hc]. split.
  - rewrite take_app_le by exact Hlen. exact Ht.
  - intros l o Hl Hge. apply lookup_app_Some in Hl as [Hl | [Hl1 Hl2]]; [eauto|].
    eapply elem_ok_mono; [exact Hlen|].
    eapply Forall_lookup_1; eauto.
Qed.

(** What [deepcopy] adds to the store. *)
Lemma deepcopy_fuel_ext f :
  forall l s, exists ext,
    snd (deepcopy_fuel f l s) = s ++ ext
    /\ Forall (elem_ok (length s)) ext
    /\ forall l', fst (deepcopy_fuel f l s) = Ok l' -> length s <= l'.
Proof.
  induction f as [|f IH]; intros l s.
  - exists []. simpl. rewrite app_nil_r. repeat split; auto. intros l' [=].
  - rewrite deepcopy_fuel_S. destruct (s !! l) as [e|].
    2:{ exists []. simpl. rewrite app_nil_r. repeat split; auto. intros l' [=]. }
    assert (Hlist : forall cs s, exists ext,
               snd (deepcopy_list f cs s) = s ++ ext
               /\ Forall (elem_ok (length s)) ext
               /\ forall cs', fst (deepcopy_list f cs s) = Ok cs' ->
                   Forall (fun c => length s <= c) cs').
    { clear -IH. induction cs as [|c cs IHcs]; intros s; simpl.
      - exists []. rewrite app_nil_r. repeat split; auto. intros cs' [= <-]. constructor.
      - destruct (IH c s) as (ext1 & E1 & Hext1 & Hr1).
        destruct (deepcopy_fuel f c s) as [[c'|x] s1]; simpl in *; subst s1.
        + destruct (IHcs (s ++ ext1)) as (ext2 & E2 & Hext2 & Hr2).
          destruct (deepcopy_list f cs (s ++ ext1)) as [[cs'|x] s2]; simpl in *; subst s2.
          * exists (ext1 ++ ext2). rewrite app_assoc. repeat split.
            -- apply Forall_app. split; [exact Hext1|].
               eapply Forall_impl; [exact Hext2|]. intros ?. apply elem_ok_mono.
               rewrite length_app. lia.
            -- intros cs'' [= <-]. constructor; [apply Hr1; reflexivity|].
               eapply Forall_impl; [apply Hr2; reflexivity|]. simpl. intros ?.
               rewrite length_app. lia.
          * exists (ext1 ++ ext2). rewrite app_assoc. repeat split.
            -- apply Forall_app. split; [exact Hext1|].
               eapply Forall_impl; [exact Hext2|]. intros ?. apply elem_ok_mono.
               rewrite length_app. lia.
            -- intros cs'' [=].
        + exists ext1. repeat split; auto. intros cs'' [=]. }
    destruct (Hlist (children e) s) as (ext & E & Hext & Hr).
    destruct (deepcopy_list f (children e) s) as [[cs'|x] s1]; simpl in *; subst s1.
    + exists (ext ++ [mkElement (tag e) (attrib e) (text e) (tail e) cs']).
      rewrite app_assoc. repeat split.
      * apply Forall_app. split; [exact Hext|]. constructor; [|constructor].
        apply Hr. reflexivity.
      * intros l' [= <-]. rewrite length_app. lia.
    + exists ext. repeat split; auto. intros l' [=].
Qed.

Section XmlFrame.
Variable s0 : list Element.
Let n0 := length s0.

Lemma keeps_deepcopy l : keeps (framed s0) (deepcopy l) (fun l' => n0 <= l').
Proof.
  intros s Hs. unfold deepcopy.
  destruct (deepcopy_fuel_ext (length s) l s) as (ext & E & Hext & Hr).
  rewrite E. split; [apply eframed_app; assumption|].
  intros a Ha. apply Hr in Ha. pose proof (eframed_length _ _ Hs). unfold n0. lia.
Qed.

Lemma iter_ge f s l :
  framed s0 s -> n0 <= l -> Forall (fun c => n0 <= c) (iter f s l).
Proof.
  intros Hs. revert l. induction f as [|f IH]; intros l Hl; simpl; [constructor|].
  destruct (s !! l) as [e|] eqn:El; [|constructor].
  constructor; [exact Hl|].
  apply Forall_flat_map. destruct Hs as [_ Hc]. specialize (Hc l e El Hl).
  eapply Forall_impl; [exact Hc|]. simpl. intros c Hc'. apply IH. exact Hc'.
Qed.

Lemma Forall_filter_keep {A} (P : A -> Prop) (f : A -> bool) (l : list A) :
  Forall P l -> Forall P (List.filter f l).
Proof.
  intros H. apply Forall_forall. intros x Hx.
  apply list_elem_of_In, filter_In in Hx as [Hx _]. apply list_elem_of_In in Hx.
  eapply Forall_forall in H; eauto.
Qed.

Lemma keeps_findall_descendants elem t :
  n0 <= elem ->
  keeps (framed s0) (findall_descendants elem t) (Forall (fun c => n0 <= c)).
Proof.
  intros He s Hs. unfold findall_descendants. simpl. split; [exact Hs|].
  intros a [= <-]. do 2 apply Forall_filter_keep. apply iter_ge; assumption.
Qed.

Lemma keeps_findall_children elem t :
  n0 <= elem ->
  keeps (framed s0) (findall_children elem t) (Forall (fun c => n0 <= c)).
Proof.
  intros He s Hs. unfold findall_children.
  destruct (s !! elem) as [e|] eqn:El; simpl; (split; [exact Hs|]); [|intros a [=]].
  intros a [= <-]. apply Forall_filter_keep. destruct Hs as [_ Hc]. apply (Hc elem e El He).
Qed.

Lemma remove_first_sub x l l' :
  remove_first x l = Some l' -> forall y, y ∈ l' -> y ∈ l.
Proof.
  revert l'. induction l as [|z l IH]; intros l'; simpl; [discriminate|].
  destruct (Nat.eqb z x).
  - intros [= <-] y Hy. right. exact Hy.
  - destruct (remove_first x l) as [l0|]; simpl; [|discriminate].
    intros [= <-] y Hy. apply elem_of_cons in Hy as [->|Hy]; [left | right; eauto].
Qed.

Lemma keeps_remove parent child :
  n0 <= parent -> keeps (framed s0) (remove parent child) (fun _ => True).
Proof.
  intros Hp s Hs. unfold remove.
  destruct (s !! parent) as [e|] eqn:El; simpl; [|split; [exact Hs | auto]].
  destruct (remove_first child (children e)) as [cs|] eqn:Er; simpl;
    (split; [|auto]); [|exact Hs].
  apply eframed_update; [exact Hs | exact Hp |].
  unfold elem_ok. simpl. apply Forall_forall. intros y Hy.
  destruct Hs as [_ Hc]. specialize (Hc parent e El Hp).
  eapply Forall_forall in Hc; [exact Hc|]. eapply remove_first_sub; eauto.
Qed.

Lemma keeps_SubElement parent t :
  n0 <= parent -> keeps (framed s0) (SubElement parent t) (fun l => n0 <= l).
Proof.
  intros Hp s Hs. unfold SubElement. pose proof (eframed_length _ _ Hs) as Hlen.
  destruct (s !! parent) as [e|] eqn:El; simpl; [|split; [exact Hs | intros a [=]]].
  split; [|intros a [= <-]; exact Hlen].
  apply eframed_update; [|exact Hp|].
  - apply eframed_app; [exact Hs|]. constructor; [|constructor]. constructor.
  - unfold elem_ok. simpl. apply Forall_app. split.
    + destruct Hs as [_ Hc]. apply (Hc parent e El Hp).
    + constructor; [exact Hlen | constructor].
Qed.

Lemma keeps_set_text elem t :
  n0 <= elem -> keeps (framed s0) (set_text elem t) (fun _ => True).
Proof.
  intros Hp s Hs. unfold set_text.
  destruct (s !! elem) as [e|] eqn:El; simpl; (split; [|auto]); [|exact Hs].
  apply eframed_update; [exact Hs | exact Hp |].
  destruct Hs as [_ Hc]. apply (Hc elem e El Hp).
Qed.

(** The transform only writes to the elements of its copy. *)
Lemma keeps_modify_xml root : keeps (framed s0) (modify_xml root) (fun _ => True).
Proof.
  unfold modify_xml.
  eapply keeps_bind; [apply keeps_deepcopy|]. intros modified_root Hroot.
  eapply keeps_bind; [apply keeps_findall_descendants; exact Hroot|].
  intros all_params Hall.
  eapply keeps_bind with (R1 := fun _ => True).
  { apply keeps_for_each. intros params Hin.
    assert (Hp : n0 <= params) by (eapply Forall_forall in Hall; eauto).
    eapply keeps_bind; [apply keeps_findall_children; exact Hp|]. intros tns _.
    apply keeps_for_each. intros tn _. apply keeps_remove. exact Hp. }
  intros _ _.
  eapply keeps_bind; [apply keeps_findall_descendants; exact Hroot|].
  intros all_params2 Hall2.
  eapply keeps_bind with (R1 := fun _ => True).
  { apply keeps_for_each. intros params Hin.
    assert (Hp : n0 <= params) by (eapply Forall_forall in Hall2; eauto).
    eapply keeps_bind; [apply keeps_SubElement; exact Hp|]. intros new_elem Hnew.
    apply keeps_set_text. exact Hnew. }
  intros _ _.
  eapply keeps_bind; [apply keeps_findall_descendants; exact Hroot|].
  intros shot_types Hst.
  eapply keeps_bind with (R1 := fun _ => True).
  { apply keeps_for_each. intros st Hin. apply keeps_set_text.
    eapply Forall_forall in Hst; eauto. }
  intros _ _. apply keeps_ret. exact Logic.I.
Qed.

End XmlFrame.

(** The original tree of the XML transform is the same after the run,
    whatever the outcome. *)
Lemma modify_xml_frame (t : xml) :
  let root := fst (parsed_xml t) in
  let s0 := snd (parsed_xml t) in
  let s1 := snd (modify_xml root s0) in
  take (length s0) s1 = s0 /\ load_all s0 root = Some t /\ load_all s1 root = Some t.
Proof.
  intros root s0 s1.
  destruct (keeps_modify_xml s0 root s0 (eframed_refl s0)) as [Hf _].
  fold s1 in Hf. split; [apply Hf|]. split.
  - apply load_parsed_xml. reflexivity.
  - apply load_parsed_xml. apply eframed_prefix. exact Hf.
Qed.

End EtFacts.

(** ** The XML transform computes [xml_transform] *)

Module XmlTreeFacts.
Import ET EtAux EtFacts XmlTree EtRepr.
Local Open Scope nat_scope.

Lemma ltree_ind' (P : ltree -> Prop) :
  (forall l e kids, Forall P kids -> P (LNode l e kids)) ->
  forall T, P T.
Proof.
  intros H. fix IH 1. intros [l e kids]. apply H.
  induction kids as [|k kids IHk]; constructor; [apply IH | exact IHk].
Qed.

Lemma repr_inv s l e kids :
  repr s (LNode l e kids) ->
  s !! l = Some e /\ children e = map lroot kids /\ Forall (repr s) kids.
Proof. inversion 1; subst; auto. Qed.

Lemma repr_inv' s T : repr s T -> s !! lroot T = Some (lelem T).
Proof. inversion 1; subst; auto. Qed.

Lemma repr_prefix s s' T : repr s T -> s `prefix_of` s' -> repr s' T.
Proof.
  intros HT Hpre. induction T as [l e kids IH] using ltree_ind'.
  apply repr_inv in HT as (Hl & Hc & Hk). constructor.
  - eapply prefix_lookup_Some; eauto.
  - exact Hc.
  - apply Forall_forall. intros k Hin.
    eapply Forall_forall in IH; [|exact Hin]. apply IH.
    eapply Forall_forall in Hk; eauto.
Qed.

Lemma locs_length_pos T : 0 < length (locs T).
Proof. destruct T; simpl; lia. Qed.

Lemma length_flat_map_le {A B} (f : A -> list B) (l : list A) x :
  x ∈ l -> length (f x) <= length (flat_map f l).
Proof.
  induction l as [|y l IH]; intros Hin; [inversion Hin|].
  simpl. rewrite length_app. apply elem_of_cons in Hin as [->|Hin]; [lia|].
  specialize (IH Hin). lia.
Qed.

(** [iter] walks the tree in document order. *)
Lemma iter_repr s T f :
  repr s T -> length (locs T) <= f -> iter f s (lroot T) = locs T.
Proof.
  revert f. induction T as [l e kids IH] using ltree_ind'. intros f HT Hf.
  apply repr_inv in HT as (Hl & Hc & Hk).
  destruct f as [|f]; [simpl in Hf; lia|].
  simpl. rewrite Hl, Hc. f_equal.
  simpl in Hf.
  assert (G : forall ks, (forall k, k ∈ ks -> k ∈ kids) ->
               flat_map (iter f s) (map lroot ks) = flat_map locs ks).
  { induction ks as [|k ks IHks]; intros Hsub; [reflexivity|].
    simpl. f_equal.
    - assert (Hin : k ∈ kids) by (apply Hsub; left).
      eapply Forall_forall in IH; [|exact Hin]. apply IH.
      + eapply Forall_forall in Hk; eauto.
      + pose proof (length_flat_map_le locs kids k Hin). lia.
    - apply IHks. intros k' Hk'. apply Hsub. right. exact Hk'. }
  apply G. auto.
Qed.

Lemma load_repr s T f :
  repr s T -> length (locs T) <= f -> load f s (lroot T) = Some (erase T).
Proof.
  revert f. induction T as [l e kids IH] using ltree_ind'. intros f HT Hf.
  apply repr_inv in HT as (Hl & Hc & Hk).
  destruct f as [|f]; [simpl in Hf; lia|].
  simpl. rewrite Hl. simpl. rewrite Hc.
  simpl in Hf.
  assert (G : forall ks, (forall k, k ∈ ks -> k ∈ kids) ->
               mapM (load f s) (map lroot ks) = Some (map erase ks)).
  { induction ks as [|k ks IHks]; intros Hsub; [reflexivity|].
    simpl.
    assert (Hin : k ∈ kids) by (apply Hsub; left).
    eapply Forall_forall in IH; [|exact Hin]. rewrite IH.
    + simpl. rewrite IHks; [reflexivity|]. intros k' Hk'. apply Hsub. right. exact Hk'.
    + eapply Forall_forall in Hk; eauto.
    + pose proof (length_flat_map_le locs kids k Hin). lia. }
  rewrite G by auto. reflexivity.
Qed.

Lemma repr_locs_lt s T : repr s T -> Forall (fun l => l < length s) (locs T).
Proof.
  induction T as [l e kids IH] using ltree_ind'. intros HT.
  apply repr_inv in HT as (Hl & Hc & Hk). simpl. constructor.
  - eapply lookup_lt_Some; eauto.
  - clear Hc. induction kids as [|k kids IHk]; simpl; [constructor|].
    apply Forall_cons in IH as [IH1 IH2]. apply Forall_cons in Hk as [Hk1 Hk2].
    apply Forall_app. split; auto.
Qed.

Lemma build_list_repr kids :
  Forall (fun t => forall s l s', build t s = (l, s') ->
     s `prefix_of` s' /\ exists T, lroot T = l /\ erase T = t /\ repr s' T
       /\ NoDup (locs T) /\ Forall (fun x => length s <= x) (locs T)
       /\ length s' = length s + length (locs T)) kids ->
  forall s ls s', build_list kids s = (ls, s') ->
    s `prefix_of` s' /\ exists Ts, map lroot Ts = ls /\ map erase Ts = kids
      /\ Forall (repr s') Ts
      /\ NoDup (flat_map locs Ts) /\ Forall (fun x => length s <= x) (flat_map locs Ts)
      /\ length s' = length s + length (flat_map locs Ts).
Proof.
  induction 1 as [|k kids Hk _ IH]; intros s ls s' E; simpl in E.
  - injection E as <- <-. split; [reflexivity|]. exists []. simpl.
    split; [reflexivity|]. split; [reflexivity|].
    split; [constructor|]. split; [apply NoDup_nil_2|]. split; [constructor|lia].
  - destruct (build k s) as [l s1] eqn:E1.
    destruct (build_list kids s1) as [ls' s2] eqn:E2.
    injection E as <- <-.
    destruct (Hk _ _ _ E1) as (P1 & T & HTl & HTe & HTr & HTn & HTg & HTs).
    destruct (IH _ _ _ E2) as (P2 & Ts & HTsl & HTse & HTsr & HTsn & HTsg & HTss).
    split; [etrans; eauto|].
    exists (T :: Ts). simpl. rewrite HTl, HTe, HTsl, HTse.
    split; [reflexivity|]. split; [reflexivity|]. split; [|split; [|split]].
    + constructor; [eapply repr_prefix; eauto | exact HTsr].
    + apply NoDup_app. repeat split; auto.
      intros x Hx Hx'. apply repr_locs_lt in HTr.
      eapply Forall_forall in HTr; [|exact Hx].
      eapply Forall_forall in HTsg; [|exact Hx']. simpl in *. lia.
    + apply Forall_app. split; [exact HTg|].
      eapply Forall_impl; [exact HTsg|]. simpl. intros. lia.
    + rewrite length_app. lia.
Qed.

Lemma build_repr t :
  forall s l s', build t s = (l, s') ->
    s `prefix_of` s' /\ exists T, lroot T = l /\ erase T = t /\ repr s' T
      /\ NoDup (locs T) /\ Forall (fun x => length s <= x) (locs T)
      /\ length s' = length s + length (locs T).
Proof.
  induction t as [tg att tx tl kids IH] using xml_ind'.
  intros s l s' E. rewrite build_Node in E.
  destruct (build_list kids s) as [ls s1] eqn:E1. injection E as <- <-.
  destruct (build_list_repr kids IH _ _ _ E1) as (P & Ts & Hl & He & Hr & Hn & Hg & Hs).
  split; [etrans; [exact P | apply prefix_app_r; reflexivity]|].
  exists (LNode (length s1) (mkElement tg att tx tl ls) Ts). cbn [lroot erase locs].
  rewrite He. split; [reflexivity|]. split; [reflexivity|].
  split; [|split; [|split]].
  - constructor.
    + apply list_lookup_middle. reflexivity.
    + simpl. symmetry. exact Hl.
    + eapply Forall_impl; [exact Hr|]. intros T HT.
      eapply repr_prefix; [exact HT|]. apply prefix_app_r. reflexivity.
  - constructor; [|exact Hn]. intros Hin.
    assert (Hlt : Forall (fun l => l < length s1) (flat_map locs Ts)).
    { clear -Hr. induction Hr as [|T Ts HT _ IHr]; simpl; [constructor|].
      apply Forall_app. split; [apply repr_locs_lt; exact HT | exact IHr]. }
    eapply Forall_forall in Hlt; [|exact Hin]. simpl in Hlt. lia.
  - constructor; [lia | exact Hg].
  - rewrite length_app. simpl. lia.
Qed.

(** [deepcopy] of a tree builds the same tree again. *)
Lemma deepcopy_build T :
  forall f s, repr s T -> length (locs T) <= f ->
    deepcopy_fuel f (lroot T) s
    = (Ok (fst (build (erase T) s)), snd (build (erase T) s)).
Proof.
  induction T as [l e kids IH] using ltree_ind'. intros f s HT Hf.
  apply repr_inv in HT as (Hl & Hc & Hk).
  destruct f as [|f]; [simpl in Hf; lia|].
  rewrite deepcopy_fuel_S. cbn [lroot]. rewrite Hl.
  cbn [erase]. rewrite build_Node. simpl in Hf.
  assert (G : forall ks s', (forall k, k ∈ ks -> k ∈ kids) -> s `prefix_of` s' ->
            deepcopy_list f (map lroot ks) s'
            = (Ok (fst (build_list (map erase ks) s')),
               snd (build_list (map erase ks) s'))).
  { induction ks as [|k ks IHks]; intros s' Hsub Hpre; [reflexivity|].
    simpl.
    assert (Hin : k ∈ kids) by (apply Hsub; left).
    eapply Forall_forall in IH; [|exact Hin]. rewrite IH.
    2:{ eapply repr_prefix; [|exact Hpre]. eapply Forall_forall in Hk; eauto. }
    2:{ pose proof (length_flat_map_le locs kids k Hin). lia. }
    destruct (build (erase k) s') as [l1 s1] eqn:E1. simpl.
    rewrite IHks.
    - destruct (build_list (map erase ks) s1) as [ls s2]. reflexivity.
    - intros k' Hk'. apply Hsub. right. exact Hk'.
    - etrans; [exact Hpre|]. apply (build_repr _ _ _ _ E1). }
  rewrite Hc, G by (auto || reflexivity).
  destruct (build_list (map erase kids) s) as [ls s1]. reflexivity.
Qed.

(** *** Loops that rewrite one element at a time *)

Lemma elem_of_filter (f : loc -> bool) (x : loc) (l : list loc) :
  x ∈ List.filter f l <-> x ∈ l /\ f x = true.
Proof. rewrite !list_elem_of_In. apply filter_In. Qed.

Lemma alter_insert (g : Element -> Element) (p : loc) (s : store) e :
  s !! p = Some e -> alter g p s = <[p := g e]> s.
Proof.
  intros Hp. apply list_eq. intros i. destruct (decide (p = i)) as [<-|Hne].
  - rewrite list_lookup_alter_eq, Hp. simpl.
    rewrite list_lookup_insert_eq; [reflexivity|]. eapply lookup_lt_Some; eauto.
  - rewrite list_lookup_alter_ne, list_lookup_insert_ne by exact Hne. reflexivity.
Qed.

Lemma for_each_alter (g : Element -> Element) (I : store -> Prop)
    (body : loc -> comp store unit) (L : list loc) :
  (forall e, g (g e) = g e) ->
  (forall s p, I s -> p ∈ L -> body p s = (Ok tt, alter g p s) /\ I (alter g p s)) ->
  forall s, I s ->
  exists s', for_each L body s = (Ok tt, s') /\ I s'
    /\ forall l, s' !! l = if decide (l ∈ L) then g <$> s !! l else s !! l.
Proof.
  intros Hg. induction L as [|p L IH]; intros Hbody s Hs.
  - exists s. split; [reflexivity|]. split; [exact Hs|]. intros l.
    destruct (decide (l ∈ [])) as [Hin|_]; [inversion Hin | reflexivity].
  - destruct (Hbody s p Hs ltac:(left)) as [E HI].
    destruct (IH (fun s q Hs Hq => Hbody s q Hs ltac:(right; exact Hq)) _ HI)
      as (s' & E' & HI' & Hpt).
    exists s'. split.
    { cbn [for_each]. unfold bind. rewrite E. exact E'. }
    split; [exact HI'|]. intros l. rewrite Hpt.
    destruct (decide (l = p)) as [->|Hne].
    + rewrite list_lookup_alter_eq.
      destruct (decide (p ∈ p :: L)) as [_|Hn]; [|exfalso; apply Hn; left].
      destruct (decide (p ∈ L)); [|reflexivity].
      destruct (s !! p); simpl; [rewrite Hg|]; reflexivity.
    + rewrite list_lookup_alter_ne by auto.
      destruct (decide (l ∈ L)) as [Hin|Hn];
        destruct (decide (l ∈ p :: L)) as [Hin'|Hn']; try reflexivity.
      * exfalso. apply Hn'. right. exact Hin.
      * exfalso. apply elem_of_cons in Hin' as [?|?]; auto.
Qed.

(** *** Step 1: the children [team_name] of an element are removed *)

Lemma remove_first_app (c : loc) (pre rest : list loc) :
  (forall x, x ∈ pre -> x <> c) ->
  remove_first c (pre ++ c :: rest) = Some (pre ++ rest).
Proof.
  induction pre as [|y pre IH]; intros Hpre; simpl.
  - rewrite Nat.eqb_refl. reflexivity.
  - destruct (Nat.eqb_spec y c) as [->|_].
    + exfalso. apply (Hpre c); [left|reflexivity].
    + rewrite IH; [reflexivity|]. intros x Hx. apply Hpre. right. exact Hx.
Qed.

Lemma set_children_id e : set_children e (children e) = e.
Proof. destruct e; reflexivity. Qed.

Lemma remove_all (P : loc -> bool) (p : loc) :
  forall rest pre s e,
    s !! p = Some e -> children e = pre ++ rest ->
    (forall x, x ∈ pre -> P x = false) ->
    for_each (List.filter P rest) (remove p) s
    = (Ok tt, <[p := set_children e (pre ++ List.filter (fun c => negb (P c)) rest)]> s).
Proof.
  induction rest as [|c rest IH]; intros pre s e Hp Hc Hpre.
  - simpl. rewrite <- Hc, set_children_id, list_insert_id by exact Hp. reflexivity.
  - simpl. destruct (P c) eqn:Pc; simpl.
    + unfold bind. unfold remove at 1. rewrite Hp, Hc, remove_first_app.
      2:{ intros x Hx ->. rewrite (Hpre _ Hx) in Pc. discriminate. }
      rewrite (IH pre _ (set_children e (pre ++ rest))).
      * rewrite list_insert_insert_eq. reflexivity.
      * apply list_lookup_insert_eq. eapply lookup_lt_Some; eauto.
      * reflexivity.
      * exact Hpre.
    + rewrite (IH (pre ++ [c]) s e Hp).
      * rewrite <- app_assoc. reflexivity.
      * rewrite Hc, <- app_assoc. reflexivity.
      * intros x Hx. apply elem_of_app in Hx as [Hx|Hx]; [auto|].
        apply list_elem_of_singleton in Hx as ->. exact Pc.
Qed.

Lemma delete_body_spec s p e :
  s !! p = Some e -> delete_body p s = (Ok tt, <[p := without_team_name s e]> s).
Proof.
  intros Hp. unfold delete_body, bind, findall_children. rewrite Hp.
  apply (remove_all (has_tag s "team_name") p (children e) [] s e Hp eq_refl).
  intros x Hx. inversion Hx.
Qed.

Lemma has_tag_tags_eq s0 s t l : tags_eq s0 s -> has_tag s t l = has_tag s0 t l.
Proof.
  intros H. unfold has_tag. specialize (H l).
  destruct (s !! l), (s0 !! l); simpl in H; try discriminate; [|reflexivity].
  injection H as ->. reflexivity.
Qed.

Lemma has_tag_lookup s t l e : s !! l = Some e -> has_tag s t l = String.eqb (tag e) t.
Proof. intros H. unfold has_tag. rewrite H. reflexivity. Qed.

Lemma has_tag_Some s t l : has_tag s t l = true -> exists e, s !! l = Some e.
Proof. unfold has_tag. destruct (s !! l); [eauto | discriminate]. Qed.

Lemma tags_eq_alter s0 s g p :
  (forall e, tag (g e) = tag e) -> tags_eq s0 s -> tags_eq s0 (alter g p s).
Proof.
  intros Hg H l. rewrite <- (H l). destruct (decide (p = l)) as [<-|Hne].
  - rewrite list_lookup_alter_eq. destruct (s !! p); simpl; [rewrite Hg|]; reflexivity.
  - rewrite list_lookup_alter_ne by exact Hne. reflexivity.
Qed.

Lemma lroot_ldelete T : lroot (ldelete T) = lroot T.
Proof. destruct T; reflexivity. Qed.

Lemma lelem_tag_ldelete T : tag (lelem (ldelete T)) = tag (lelem T).
Proof. destruct T; reflexivity. Qed.

Lemma xtag_erase T : xtag (erase T) = tag (lelem T).
Proof. destruct T; reflexivity. Qed.

Lemma erase_ldelete T : erase (ldelete T) = delete_team_name (erase T).
Proof.
  induction T as [l e kids IH] using ltree_ind'. simpl. f_equal.
  induction kids as [|k kids IHk]; [reflexivity|].
  apply Forall_cons in IH as [IH1 IH2]. simpl.
  rewrite map_app, IHk by exact IH2. f_equal.
  unfold is_tag. rewrite xtag_erase.
  destruct (String.eqb (tag e) "parameters" && String.eqb (tag (lelem k)) "team_name");
    simpl; [reflexivity|]. rewrite IH1. reflexivity.
Qed.

Lemma locs_ldelete_sub T : locs (ldelete T) `sublist_of` locs T.
Proof.
  induction T as [l e kids IH] using ltree_ind'. simpl. apply sublist_skip.
  induction kids as [|k kids IHk]; [reflexivity|].
  apply Forall_cons in IH as [IH1 IH2]. simpl.
  rewrite flat_map_app. apply sublist_app; [|apply IHk; exact IH2].
  destruct (String.eqb (tag e) "parameters" && String.eqb (tag (lelem k)) "team_name");
    simpl; [apply sublist_nil_l|]. rewrite app_nil_r. exact IH1.
Qed.

Lemma repr_ldelete s s1 K :
  repr s K ->
  (forall l e, l ∈ locs K -> s !! l = Some e ->
     s1 !! l = Some (if String.eqb (tag e) "parameters" then without_team_name s e else e)) ->
  repr s1 (ldelete K).
Proof.
  induction K as [l e kids IH] using ltree_ind'. intros HK Hpt.
  apply repr_inv in HK as (Hl & Hc & Hk). cbn [ldelete]. constructor.
  - rewrite (Hpt l e) by (try exact Hl; left). f_equal.
    unfold without_team_name. rewrite Hc.
    destruct (String.eqb (tag e) "parameters"); cbn [andb].
    + f_equal. clear -Hk. induction Hk as [|k kids Hk1 _ IHk]; [reflexivity|].
      simpl. apply repr_inv' in Hk1.
      rewrite (has_tag_lookup _ _ _ _ Hk1).
      destruct (String.eqb (tag (lelem k)) "team_name"); simpl; [exact IHk|].
      rewrite lroot_ldelete, IHk. reflexivity.
    + rewrite <- (set_children_id e) at 1. f_equal. rewrite Hc. clear.
      induction kids as [|k kids IHk]; [reflexivity|].
      simpl. rewrite lroot_ldelete, IHk. reflexivity.
  - reflexivity.
  - apply Forall_forall. intros k' Hin. apply list_elem_of_In, in_flat_map in Hin.
    destruct Hin as (k & Hk1 & Hk2). apply list_elem_of_In in Hk1.
    destruct (String.eqb (tag e) "parameters" && String.eqb (tag (lelem k)) "team_name");
      [inversion Hk2|].
    destruct Hk2 as [<-|[]].
    eapply Forall_forall in IH; [|exact Hk1]. apply IH.
    + eapply Forall_forall in Hk; eauto.
    + intros l' e' Hl'. apply Hpt. right.
      apply list_elem_of_In, in_flat_map. exists k. rewrite <- !list_elem_of_In. auto.
Qed.

Lemma filter_idem {A} (f : A -> bool) (l : list A) :
  List.filter f (List.filter f l) = List.filter f l.
Proof.
  induction l as [|x l IH]; [reflexivity|]. simpl.
  destruct (f x) eqn:E; simpl; rewrite ?E, IH; reflexivity.
Qed.

Lemma filter_all {A} (f : A -> bool) (l : list A) :
  (forall x, x ∈ l -> f x = true) -> List.filter f l = l.
Proof.
  induction l as [|x l IH]; intros H; [reflexivity|]. simpl.
  rewrite H by left. rewrite IH; [reflexivity|]. intros y Hy. apply H. right. exact Hy.
Qed.

Lemma filter_comm {A} (f g : A -> bool) (l : list A) :
  List.filter f (List.filter g l) = List.filter g (List.filter f l).
Proof.
  induction l as [|x l IH]; [reflexivity|]. simpl.
  destruct (f x) eqn:Ef, (g x) eqn:Eg; simpl; rewrite ?Ef, ?Eg, IH; reflexivity.
Qed.

(** [elem.findall(".//" + t)] on a tree: the elements below the root with
    the tag [t], in document order. *)
Lemma findall_descendants_repr s T t :
  repr s T -> lroot T ∉ proper_locs T -> length (locs T) <= length s ->
  findall_descendants (lroot T) t s
  = (Ok (List.filter (has_tag s t) (proper_locs T)), s).
Proof.
  intros HT Hr Hlen. unfold findall_descendants.
  rewrite (iter_repr s T (length s) HT Hlen). f_equal. f_equal.
  rewrite filter_comm. destruct T as [r e kids]. cbn [locs lroot proper_locs lkids] in *.
  cbn [List.filter]. rewrite Nat.eqb_refl. cbn [negb]. f_equal.
  apply filter_all. intros x Hx. destruct (Nat.eqb_spec x r) as [->|]; [|reflexivity].
  contradiction.
Qed.

Lemma repr_lbelow_root s s1 step T :
  (forall K, lroot (step K) = lroot K) ->
  s1 !! lroot T = s !! lroot T ->
  repr s T ->
  (forall K, K ∈ lkids T -> repr s K -> repr s1 (step K)) ->
  repr s1 (lbelow_root step T).
Proof.
  intros Hroot Hl HT Hk. destruct T as [r e kids].
  apply repr_inv in HT as (Hr & Hc & Hkids). cbn [lbelow_root lroot lkids] in *.
  constructor.
  - rewrite Hl. exact Hr.
  - rewrite Hc, map_map. apply map_ext. intros K. symmetry. apply Hroot.
  - apply Forall_map. apply Forall_forall. intros K HK. apply Hk; [exact HK|].
    eapply Forall_forall in Hkids; eauto.
Qed.

Lemma elem_of_locs_kid K T l : K ∈ lkids T -> l ∈ locs K -> l ∈ proper_locs T.
Proof.
  intros HK Hl. unfold proper_locs. apply list_elem_of_In, in_flat_map.
  exists K. rewrite <- !list_elem_of_In. auto.
Qed.

Lemma proper_locs_locs T l : l ∈ proper_locs T -> l ∈ locs T.
Proof. destruct T. simpl. intros. right. assumption. Qed.

Lemma without_team_name_idem s e :
  without_team_name s (without_team_name s e) = without_team_name s e.
Proof. unfold without_team_name, set_children. simpl. rewrite filter_idem. reflexivity. Qed.

Lemma delete_step s T :
  repr s T -> lroot T ∉ proper_locs T ->
  exists s1,
    for_each (List.filter (has_tag s "parameters") (proper_locs T)) delete_body s
    = (Ok tt, s1)
    /\ length s1 = length s
    /\ repr s1 (lbelow_root ldelete T).
Proof.
  intros HT Hr.
  set (L := List.filter (has_tag s "parameters") (proper_locs T)).
  destruct (for_each_alter (without_team_name s)
              (fun s' => tags_eq s s' /\ length s' = length s) delete_body L
              (without_team_name_idem s)) with (s := s)
    as (s1 & E & [Htags Hlen] & Hpt).
  { intros s' p [Htags Hlen] Hp.
    apply elem_of_filter in Hp as [_ Hp]. apply has_tag_Some in Hp as [e0 He0].
    assert (exists e, s' !! p = Some e) as [e He].
    { specialize (Htags p). rewrite He0 in Htags.
      destruct (s' !! p); [eauto | discriminate]. }
    split.
    - rewrite (delete_body_spec _ _ _ He), (alter_insert _ _ _ _ He). do 2 f_equal.
      unfold without_team_name. f_equal. apply filter_ext. intros c.
      rewrite (has_tag_tags_eq s s') by exact Htags. reflexivity.
    - split; [|rewrite length_alter; exact Hlen].
      apply tags_eq_alter; [|exact Htags]. intros []. reflexivity. }
  { split; [intros l; reflexivity | reflexivity]. }
  exists s1. split; [exact E|]. split; [exact Hlen|].
  apply (repr_lbelow_root s); [apply lroot_ldelete | | exact HT |].
  - rewrite Hpt. destruct (decide (lroot T ∈ L)) as [Hin|]; [|reflexivity].
    apply elem_of_filter in Hin as [Hin _]. contradiction.
  - intros K HK HKr. apply (repr_ldelete s); [exact HKr|].
    intros l e Hl He. rewrite Hpt, He. simpl.
    pose proof (elem_of_locs_kid _ _ _ HK Hl) as Hlp.
    rewrite <- (has_tag_lookup s _ l e He).
    destruct (has_tag s "parameters" l) eqn:Ht.
    + destruct (decide (l ∈ L)) as [|Hn]; [reflexivity|].
      exfalso. apply Hn. apply elem_of_filter. auto.
    + destruct (decide (l ∈ L)) as [Hin|]; [|reflexivity].
      apply elem_of_filter in Hin as [_ Hin]. congruence.
Qed.

Lemma locs_delete_sub T : locs (lbelow_root ldelete T) `sublist_of` locs T.
Proof.
  destruct T as [r e kids]. simpl. apply sublist_skip.
  induction kids as [|k kids IH]; [reflexivity|]. simpl.
  apply sublist_app; [apply locs_ldelete_sub | exact IH].
Qed.

Lemma erase_lbelow_root step step' T :
  (forall K, erase (step K) = step' (erase K)) ->
  erase (lbelow_root step T) = below_root step' (erase T).
Proof.
  intros H. destruct T as [r e kids]. simpl. f_equal.
  rewrite !map_map. apply map_ext. exact H.
Qed.

Lemma lroot_lbelow_root step T : lroot (lbelow_root step T) = lroot T.
Proof. destruct T; reflexivity. Qed.

(** *** Step 2: a child [something] is appended *)

Lemma add_body_spec s p e :
  s !! p = Some e ->
  add_body p s = (Ok tt, <[p := add_child (length s) e]> s ++ [something2_elem]).
Proof.
  intros Hp. pose proof (lookup_lt_Some _ _ _ Hp) as Hlt.
  unfold add_body, bind, SubElement. rewrite Hp. unfold set_text.
  rewrite insert_app_l by exact Hlt.
  rewrite lookup_app_r by (rewrite length_insert; lia).
  rewrite length_insert, Nat.sub_diag. cbn [lookup list_lookup].
  rewrite insert_app_r_alt by (rewrite length_insert; lia).
  rewrite length_insert, Nat.sub_diag. reflexivity.
Qed.

Lemma index_of_lt x L : x ∈ L -> index_of x L < length L.
Proof.
  induction L as [|y L IH]; intros Hin; [inversion Hin|]. simpl.
  destruct (Nat.eqb_spec x y) as [->|Hne]; [lia|].
  apply elem_of_cons in Hin as [?|Hin]; [contradiction|]. specialize (IH Hin). lia.
Qed.

Lemma for_each_add L :
  forall s, NoDup L -> (forall p, p ∈ L -> p < length s) ->
  exists s', for_each L add_body s = (Ok tt, s')
    /\ length s' = length s + length L
    /\ (forall l, l < length s -> l ∉ L -> s' !! l = s !! l)
    /\ (forall p e, p ∈ L -> s !! p = Some e ->
          s' !! p = Some (add_child (length s + index_of p L) e))
    /\ (forall i, i < length L -> s' !! (length s + i) = Some something2_elem).
Proof.
  induction L as [|q L IH]; intros s Hnd Hdom.
  - exists s. split; [reflexivity|]. split; [simpl; lia|]. split; [auto|].
    split; [intros p e Hp; inversion Hp | simpl; intros; lia].
  - apply NoDup_cons in Hnd as [Hq Hnd].
    assert (Hqs : q < length s) by (apply Hdom; left).
    destruct (lookup_lt_is_Some_2 _ _ Hqs) as [eq Heq].
    set (s1 := <[q := add_child (length s) eq]> s ++ [something2_elem]).
    assert (Hlen1 : length s1 = S (length s)).
    { unfold s1. rewrite length_app, length_insert. simpl. lia. }
    destruct (IH s1 Hnd) as (s' & E & Hlen & Hold & Hnew & Hsm).
    { intros p Hp. rewrite Hlen1. specialize (Hdom p ltac:(right; exact Hp)). lia. }
    assert (Hlk : forall l, l < length s -> l <> q -> s1 !! l = s !! l).
    { intros l Hl Hne. unfold s1. rewrite lookup_app_l by (rewrite length_insert; lia).
      apply list_lookup_insert_ne. auto. }
    exists s'. split.
    { cbn [for_each]. unfold bind. rewrite (add_body_spec _ _ _ Heq). exact E. }
    split; [simpl; lia|]. split; [|split].
    + intros l Hl Hn. rewrite Hold.
      * apply Hlk; [exact Hl|]. intros ->. apply Hn. left.
      * lia.
      * intros Hin. apply Hn. right. exact Hin.
    + intros p e Hp He. cbn [index_of]. destruct (Nat.eqb_spec p q) as [->|Hne].
      * rewrite Hold by (lia || exact Hq). unfold s1.
        rewrite lookup_app_l by (rewrite length_insert; lia).
        rewrite list_lookup_insert_eq by exact Hqs.
        rewrite Nat.add_0_r. congruence.
      * apply elem_of_cons in Hp as [?|Hp]; [contradiction|].
        rewrite (Hnew p e Hp).
        -- rewrite Hlen1. do 2 f_equal. lia.
        -- rewrite Hlk; [exact He | eapply lookup_lt_Some; eauto | exact Hne].
    + intros i Hi. destruct i as [|i].
      * rewrite Nat.add_0_r. rewrite Hold.
        -- unfold s1. rewrite lookup_app_r by (rewrite length_insert; lia).
           rewrite length_insert, Nat.sub_diag. reflexivity.
        -- lia.
        -- intros Hin. specialize (Hdom _ ltac:(right; exact Hin)). lia.
      * replace (length s + S i) with (length s1 + i) by lia.
        apply Hsm. simpl in Hi. lia.
Qed.

Lemma lroot_ladd new T : lroot (ladd new T) = lroot T.
Proof. destruct T; reflexivity. Qed.

Lemma erase_ladd new T : erase (ladd new T) = add_something (erase T).
Proof.
  induction T as [l e kids IH] using ltree_ind'. simpl. f_equal.
  rewrite !map_app, !map_map. f_equal.
  - induction IH as [|k kids Hk _ IHk]; [reflexivity|]. simpl. rewrite Hk, IHk. reflexivity.
  - destruct (String.eqb (tag e) "parameters"); reflexivity.
Qed.

Lemma repr_ladd s s2 new K :
  repr s K ->
  (forall l e, l ∈ locs K -> s !! l = Some e ->
     s2 !! l = Some (if String.eqb (tag e) "parameters" then add_child (new l) e else e)
     /\ (String.eqb (tag e) "parameters" = true -> s2 !! new l = Some something2_elem)) ->
  repr s2 (ladd new K).
Proof.
  induction K as [l e kids IH] using ltree_ind'. intros HK Hpt.
  apply repr_inv in HK as (Hl & Hc & Hk). cbn [ladd].
  destruct (Hpt l e ltac:(left) Hl) as [Hl2 Hnew].
  assert (Hkids : Forall (repr s2) (map (ladd new) kids)).
  { apply Forall_map. apply Forall_forall. intros k Hin.
    eapply Forall_forall in IH; [|exact Hin]. apply IH.
    - eapply Forall_forall in Hk; eauto.
    - intros l' e' Hl'. apply Hpt. right.
      apply list_elem_of_In, in_flat_map. exists k. rewrite <- !list_elem_of_In. auto. }
  assert (Hroots : map lroot (map (ladd new) kids) = children e).
  { rewrite Hc, map_map. apply map_ext. intros. apply lroot_ladd. }
  constructor.
  - rewrite Hl2. f_equal. rewrite map_app, Hroots.
    destruct (String.eqb (tag e) "parameters"); [reflexivity|].
    simpl. rewrite app_nil_r. symmetry. apply set_children_id.
  - reflexivity.
  - apply Forall_app. split; [exact Hkids|].
    destruct (String.eqb (tag e) "parameters"); [|constructor].
    constructor; [|constructor]. constructor; [auto | reflexivity | constructor].
Qed.

Lemma locs_ladd s new K :
  repr s K ->
  length (locs (ladd new K))
  = length (locs K) + length (List.filter (has_tag s "parameters") (locs K)).
Proof.
  induction K as [l e kids IH] using ltree_ind'. intros HK.
  apply repr_inv in HK as (Hl & Hc & Hk). cbn [ladd locs length List.filter].
  rewrite (has_tag_lookup _ _ _ _ Hl). rewrite flat_map_app, length_app.
  assert (E : length (flat_map locs (map (ladd new) kids))
              = length (flat_map locs kids)
                + length (List.filter (has_tag s "parameters") (flat_map locs kids))).
  { clear Hc Hl. induction kids as [|k kids IHk]; [reflexivity|].
    apply Forall_cons in IH as [IH1 IH2]. apply Forall_cons in Hk as [Hk1 Hk2].
    simpl. rewrite List.filter_app, !length_app, IH1, IHk by assumption. lia. }
  rewrite E. destruct (String.eqb (tag e) "parameters"); simpl; lia.
Qed.

Lemma locs_ladd_list s new kids :
  Forall (repr s) kids ->
  length (flat_map locs (map (ladd new) kids))
  = length (flat_map locs kids)
    + length (List.filter (has_tag s "parameters") (flat_map locs kids)).
Proof.
  induction 1 as [|k kids Hk1 _ IHk]; [reflexivity|].
  simpl. rewrite List.filter_app, !length_app, IHk, (locs_ladd s) by assumption. lia.
Qed.

Lemma elem_of_locs_ladd new K l :
  l ∈ locs (ladd new K) -> l ∈ locs K \/ exists l', l' ∈ locs K /\ l = new l'.
Proof.
  induction K as [r e kids IH] using ltree_ind'. cbn [ladd locs].
  intros Hin. apply elem_of_cons in Hin as [->|Hin]; [left; left|].
  rewrite flat_map_app in Hin. apply elem_of_app in Hin as [Hin|Hin].
  - apply list_elem_of_In, in_flat_map in Hin as (k' & Hk' & Hl).
    apply in_map_iff in Hk' as (k & <- & Hk).
    apply list_elem_of_In in Hk, Hl.
    eapply Forall_forall in IH; [|exact Hk].
    assert (Hsub : forall x, x ∈ locs k -> x ∈ r :: flat_map locs kids).
    { intros x Hx. right. apply list_elem_of_In, in_flat_map.
      exists k. rewrite <- !list_elem_of_In. auto. }
    destruct (IH Hl) as [?|(l' & ? & ->)]; [left; auto | right; eauto].
  - destruct (String.eqb (tag e) "parameters"); [|inversion Hin].
    simpl in Hin. apply list_elem_of_singleton in Hin as ->.
    right. exists r. split; [left | reflexivity].
Qed.

Lemma add_step s T :
  repr s T -> NoDup (locs T) -> length (locs T) <= length s ->
  exists s2 new,
    for_each (List.filter (has_tag s "parameters") (proper_locs T)) add_body s
    = (Ok tt, s2)
    /\ repr s2 (lbelow_root (ladd new) T)
    /\ (lroot T ∉ proper_locs (lbelow_root (ladd new) T))
    /\ length (locs (lbelow_root (ladd new) T)) <= length s2.
Proof.
  intros HT Hnd Hlen.
  set (L := List.filter (has_tag s "parameters") (proper_locs T)).
  assert (Hr : lroot T ∉ proper_locs T).
  { destruct T. apply NoDup_cons in Hnd as [? _]. assumption. }
  assert (HndL : NoDup L).
  { unfold L. apply NoDup_ListNoDup, List.NoDup_filter, NoDup_ListNoDup. destruct T. apply NoDup_cons in Hnd as [_ ?]. assumption. }
  assert (Hdom : forall p, p ∈ L -> p < length s).
  { intros p Hp. apply elem_of_filter in Hp as [_ Hp].
    apply has_tag_Some in Hp as [e He]. eapply lookup_lt_Some; eauto. }
  destruct (for_each_add L s HndL Hdom) as (s2 & E & Hlen2 & Hold & Hnew & Hsm).
  set (new := fun l => length s + index_of l L).
  exists s2, new. split; [exact E|].
  assert (Hrlt : lroot T < length s).
  { apply repr_inv' in HT. eapply lookup_lt_Some; eauto. }
  split; [|split].
  - apply (repr_lbelow_root s); [apply lroot_ladd | | exact HT |].
    + apply Hold; [exact Hrlt|]. intros Hin. apply elem_of_filter in Hin as [Hin _].
      contradiction.
    + intros K HK HKr. apply (repr_ladd s); [exact HKr|].
      intros l e Hl He. pose proof (elem_of_locs_kid _ _ _ HK Hl) as Hlp.
      rewrite <- (has_tag_lookup s _ l e He).
      destruct (has_tag s "parameters" l) eqn:Ht.
      * assert (Hin : l ∈ L) by (apply elem_of_filter; auto).
        split; [apply Hnew; assumption|]. intros _. apply Hsm.
        apply index_of_lt. exact Hin.
      * split; [|discriminate]. rewrite <- He. apply Hold.
        -- eapply lookup_lt_Some; eauto.
        -- intros Hin. apply elem_of_filter in Hin as [_ Hin]. congruence.
  - destruct T as [r e kids]. cbn [lbelow_root proper_locs lkids lroot] in *.
    intros Hin. apply list_elem_of_In, in_flat_map in Hin as (k' & Hk' & Hl).
    apply in_map_iff in Hk' as (k & <- & Hk).
    apply list_elem_of_In in Hk, Hl.
    apply elem_of_locs_ladd in Hl as [Hl|(l' & _ & Hl)].
    + apply Hr. apply list_elem_of_In, in_flat_map.
      exists k. rewrite <- !list_elem_of_In. auto.
    + unfold new in Hl. lia.
  - rewrite Hlen2. destruct T as [r e kids].
    apply repr_inv in HT as (_ & _ & Hk).
    cbn [lbelow_root locs length proper_locs lkids] in *. fold L.
    rewrite (locs_ladd_list s new kids Hk). subst L. unfold proper_locs. cbn [lkids]. simpl in Hlen. clear -Hlen. generalize dependent (length (flat_map locs kids)). generalize (length (List.filter (has_tag s "parameters") (flat_map locs kids))). intros. lia.
Qed.

(** *** Step 3: the text of an element is set *)

Lemma set_text_spec s p t e :
  s !! p = Some e ->
  set_text p t s = (Ok tt, alter (fun e => set_text_of e t) p s).
Proof.
  intros Hp. unfold set_text. rewrite Hp, (alter_insert _ _ _ _ Hp). reflexivity.
Qed.

Lemma lroot_lupdate T : lroot (lupdate T) = lroot T.
Proof. destruct T; reflexivity. Qed.

Lemma locs_lupdate T : locs (lupdate T) = locs T.
Proof.
  induction T as [l e kids IH] using ltree_ind'. simpl. f_equal.
  induction IH as [|k kids Hk _ IHk]; [reflexivity|]. simpl. rewrite Hk, IHk. reflexivity.
Qed.

Lemma erase_lupdate T : erase (lupdate T) = update_shot_type (erase T).
Proof.
  induction T as [l e kids IH] using ltree_ind'. simpl.
  assert (E : map erase (map lupdate kids) = map update_shot_type (map erase kids)).
  { induction IH as [|k kids Hk _ IHk]; [reflexivity|]. simpl. rewrite Hk, IHk. reflexivity. }
  rewrite E. destruct (String.eqb (tag e) "shot_type"); reflexivity.
Qed.

Lemma repr_lupdate s s3 K :
  repr s K ->
  (forall l e, l ∈ locs K -> s !! l = Some e ->
     s3 !! l = Some (if String.eqb (tag e) "shot_type" then set_text_of e "points" else e)) ->
  repr s3 (lupdate K).
Proof.
  induction K as [l e kids IH] using ltree_ind'. intros HK Hpt.
  apply repr_inv in HK as (Hl & Hc & Hk). cbn [lupdate]. constructor.
  - apply Hpt; [left | exact Hl].
  - rewrite map_map. erewrite map_ext; [|intros; apply lroot_lupdate].
    destruct (String.eqb (tag e) "shot_type"); exact Hc.
  - apply Forall_map. apply Forall_forall. intros k Hin.
    eapply Forall_forall in IH; [|exact Hin]. apply IH.
    + eapply Forall_forall in Hk; eauto.
    + intros l' e' Hl'. apply Hpt. right.
      apply list_elem_of_In, in_flat_map. exists k. rewrite <- !list_elem_of_In. auto.
Qed.

Lemma update_step s T :
  repr s T -> lroot T ∉ proper_locs T ->
  exists s3,
    for_each (List.filter (has_tag s "shot_type") (proper_locs T))
      (fun shot_type => set_text shot_type "points") s
    = (Ok tt, s3)
    /\ length s3 = length s
    /\ repr s3 (lbelow_root lupdate T).
Proof.
  intros HT Hr.
  set (L := List.filter (has_tag s "shot_type") (proper_locs T)).
  destruct (for_each_alter (fun e => set_text_of e "points")
              (fun s' => length s' = length s)
              (fun shot_type => set_text shot_type "points") L
              ltac:(reflexivity)) with (s := s)
    as (s3 & E & Hlen & Hpt).
  { intros s' p Hlen Hp.
    apply elem_of_filter in Hp as [_ Hp]. apply has_tag_Some in Hp as [e0 He0].
    apply lookup_lt_Some in He0. rewrite <- Hlen in He0.
    destruct (lookup_lt_is_Some_2 _ _ He0) as [e He].
    split; [apply (set_text_spec _ _ _ _ He) | rewrite length_alter; exact Hlen]. }
  { reflexivity. }
  exists s3. split; [exact E|]. split; [exact Hlen|].
  apply (repr_lbelow_root s); [apply lroot_lupdate | | exact HT |].
  - rewrite Hpt. destruct (decide (lroot T ∈ L)) as [Hin|]; [|reflexivity].
    apply elem_of_filter in Hin as [Hin _]. contradiction.
  - intros K HK HKr. apply (repr_lupdate s); [exact HKr|].
    intros l e Hl He. rewrite Hpt, He. simpl.
    pose proof (elem_of_locs_kid _ _ _ HK Hl) as Hlp.
    rewrite <- (has_tag_lookup s _ l e He).
    destruct (has_tag s "shot_type" l) eqn:Ht.
    + destruct (decide (l ∈ L)) as [|Hn]; [reflexivity|].
      exfalso. apply Hn. apply elem_of_filter. auto.
    + destruct (decide (l ∈ L)) as [Hin|]; [|reflexivity].
      apply elem_of_filter in Hin as [_ Hin]. congruence.
Qed.

Lemma locs_update T : locs (lbelow_root lupdate T) = locs T.
Proof.
  destruct T as [r e kids]. simpl. f_equal.
  induction kids as [|k kids IH]; [reflexivity|]. simpl.
  rewrite locs_lupdate, IH. reflexivity.
Qed.

(** *** The transform *)

(** On a parsed document [modify_xml] returns, and its result is the
    tree [xml_transform] gives. *)
Lemma bind_ok {S A B} (m : comp S A) (k : A -> comp S B) s a s' :
  m s = (Ok a, s') -> bind m k s = k a s'.
Proof. intros E. unfold bind. rewrite E. reflexivity. Qed.

Lemma modify_xml_refines (t : xml) :
  run_modify_xml t = (Ok (Some (xml_transform t)), Some t).
Proof.
  pose proof (modify_xml_frame t) as (_ & _ & Horig).
  unfold run_modify_xml. unfold parsed_xml in *.
  destruct (build t []) as [root s0] eqn:E0. cbn [fst snd] in Horig.
  destruct (build_repr t _ _ _ E0) as (_ & T & HTl & HTe & HTr & _ & _ & HTs).
  (* the copy *)
  destruct (build t s0) as [r0 sA] eqn:EA.
  assert (Ecopy : deepcopy root s0 = (Ok r0, sA)).
  { unfold deepcopy. rewrite <- HTl, (deepcopy_build T) by (auto; simpl in HTs; lia).
    rewrite HTe, EA. reflexivity. }
  destruct (build_repr t _ _ _ EA) as (_ & T0 & H0l & H0e & H0r & H0n & _ & H0s).
  assert (H0len : length (locs T0) <= length sA) by lia.
  assert (H0root : lroot T0 ∉ proper_locs T0).
  { destruct T0. apply NoDup_cons in H0n as [? _]. assumption. }
  (* 1 *)
  destruct (delete_step sA T0 H0r H0root) as (s1 & E1 & Hlen1 & H1r).
  set (T1 := lbelow_root ldelete T0) in *.
  assert (H1n : NoDup (locs T1)) by (eapply sublist_NoDup; [exact H0n | apply locs_delete_sub]).
  assert (H1len : length (locs T1) <= length s1).
  { rewrite Hlen1. etrans; [apply sublist_length, locs_delete_sub | exact H0len]. }
  assert (H1l : lroot T1 = r0) by (rewrite <- H0l; apply lroot_lbelow_root).
  assert (H1root : lroot T1 ∉ proper_locs T1).
  { destruct T1. apply NoDup_cons in H1n as [? _]. assumption. }
  (* 2 *)
  destruct (add_step s1 T1 H1r H1n H1len) as (s2 & new & E2 & H2r & H2root & H2len).
  set (T2 := lbelow_root (ladd new) T1) in *.
  assert (H2l : lroot T2 = r0) by (rewrite <- H1l; apply lroot_lbelow_root).
  rewrite H1l, <- H2l in H2root.
  (* 3 *)
  destruct (update_step s2 T2 H2r H2root) as (s3 & E3 & Hlen3 & H3r).
  assert (E : modify_xml root s0 = (Ok r0, s3)).
  { unfold modify_xml. rewrite (bind_ok _ _ _ _ _ Ecopy).
    erewrite bind_ok; [|rewrite <- H0l; apply findall_descendants_repr; assumption].
    erewrite bind_ok; [|exact E1].
    erewrite bind_ok; [|rewrite <- H1l; apply findall_descendants_repr; assumption].
    erewrite bind_ok; [|exact E2].
    erewrite bind_ok; [|rewrite <- H2l; apply findall_descendants_repr; assumption].
    erewrite bind_ok; [|exact E3].
    reflexivity. }
  rewrite E in *. cbn [snd] in Horig. rewrite Horig. do 3 f_equal. unfold load_all.
  rewrite <- H2l, <- (lroot_lbelow_root lupdate T2), load_repr.
  - f_equal. unfold xml_transform.
    rewrite (erase_lbelow_root _ _ _ erase_lupdate). unfold T2.
    rewrite (erase_lbelow_root _ _ _ (erase_ladd new)). unfold T1.
    rewrite (erase_lbelow_root _ _ _ erase_ldelete), H0e. reflexivity.
  - exact H3r.
  - rewrite locs_update, Hlen3. exact H2len.
Qed.

(** *** What the transform guarantees *)

Lemma xml_transform_kids t : xkids (xml_transform t) = map step_all (xkids t).
Proof. destruct t. simpl. rewrite !map_map. reflexivity. Qed.

Lemma xtag_delete_team_name k : xtag (delete_team_name k) = xtag k.
Proof. destruct k; reflexivity. Qed.
Lemma xtag_add_something k : xtag (add_something k) = xtag k.
Proof. destruct k; reflexivity. Qed.
Lemma xtag_update_shot_type k : xtag (update_shot_type k) = xtag k.
Proof. destruct k; reflexivity. Qed.

Lemma xtag_step_all k : xtag (step_all k) = xtag k.
Proof.
  unfold step_all.
  rewrite xtag_update_shot_type, xtag_add_something, xtag_delete_team_name. reflexivity.
Qed.

Lemma is_tag_map tg (g : xml -> xml) :
  (forall k, xtag (g k) = xtag k) -> forall k, is_tag tg (g k) = is_tag tg k.
Proof. intros H k. unfold is_tag. rewrite H. reflexivity. Qed.

Lemma every_parameters_Node P tg att tx tl kids :
  every_parameters P (Node tg att tx tl kids)
  = (if String.eqb tg "parameters" then P (Node tg att tx tl kids) else true)
    && forallb (every_parameters P) kids.
Proof. reflexivity. Qed.

Lemma forallb_map_impl (P Q : xml -> bool) (g : xml -> xml) (kids : list xml) :
  Forall (fun k => P k = true -> Q (g k) = true) kids ->
  forallb P kids = true -> forallb Q (map g kids) = true.
Proof.
  induction 1 as [|k kids Hk _ IH]; [reflexivity|]. simpl.
  intros H. apply andb_true_iff in H as [H1 H2]. rewrite Hk, IH by assumption. reflexivity.
Qed.

Lemma forallb_map_all (Q : xml -> bool) (g : xml -> xml) (kids : list xml) :
  Forall (fun k => Q (g k) = true) kids -> forallb Q (map g kids) = true.
Proof.
  induction 1 as [|k kids Hk _ IH]; [reflexivity|]. simpl. rewrite Hk, IH. reflexivity.
Qed.

(** Step 1 leaves no child [team_name] of an element [parameters]. *)
Lemma delete_team_name_ok k :
  every_parameters no_team_name_child (delete_team_name k) = true.
Proof.
  induction k as [tg att tx tl kids IH] using xml_ind'.
  cbn [delete_team_name]. rewrite every_parameters_Node.
  apply andb_true_iff. split.
  - destruct (String.eqb tg "parameters"); [|reflexivity].
    unfold no_team_name_child. cbn [xkids andb]. clear IH.
    induction kids as [|k kids IHk]; [reflexivity|]. simpl.
    destruct (is_tag "team_name" k) eqn:E; [exact IHk|]. simpl.
    rewrite (is_tag_map _ _ xtag_delete_team_name), E, IHk. reflexivity.
  - induction IH as [|k kids Hk _ IHk]; [reflexivity|]. simpl.
    destruct (String.eqb tg "parameters" && is_tag "team_name" k); [exact IHk|].
    simpl. rewrite Hk, IHk. reflexivity.
Qed.

Lemma forallb_is_tag_map tg (g : xml -> xml) kids :
  (forall k, xtag (g k) = xtag k) ->
  forallb (fun k => negb (is_tag tg k)) (map g kids)
  = forallb (fun k => negb (is_tag tg k)) kids.
Proof.
  intros H. induction kids as [|k kids IH]; [reflexivity|]. simpl.
  rewrite (is_tag_map _ _ H), IH. reflexivity.
Qed.

Lemma add_something_keeps k :
  every_parameters no_team_name_child k = true ->
  every_parameters no_team_name_child (add_something k) = true.
Proof.
  induction k as [tg att tx tl kids IH] using xml_ind'.
  cbn [add_something]. rewrite !every_parameters_Node.
  intros H. apply andb_true_iff in H as [H1 H2]. apply andb_true_iff. split.
  - destruct (String.eqb tg "parameters"); [|reflexivity].
    unfold no_team_name_child in *. cbn [xkids] in *.
    rewrite forallb_app, (forallb_is_tag_map _ _ _ xtag_add_something), H1. reflexivity.
  - rewrite forallb_app. apply andb_true_iff. split.
    + exact (forallb_map_impl _ _ _ _ IH H2).
    + destruct (String.eqb tg "parameters"); reflexivity.
Qed.

Lemma update_shot_type_keeps k :
  every_parameters no_team_name_child k = true ->
  every_parameters no_team_name_child (update_shot_type k) = true.
Proof.
  induction k as [tg att tx tl kids IH] using xml_ind'.
  cbn [update_shot_type]. rewrite !every_parameters_Node.
  intros H. apply andb_true_iff in H as [H1 H2]. apply andb_true_iff. split.
  - destruct (String.eqb tg "parameters"); [|reflexivity].
    unfold no_team_name_child in *. cbn [xkids] in *.
    rewrite (forallb_is_tag_map _ _ _ xtag_update_shot_type). exact H1.
  - exact (forallb_map_impl _ _ _ _ IH H2).
Qed.

Lemma step_all_no_team_name k :
  every_parameters no_team_name_child (step_all k) = true.
Proof.
  apply update_shot_type_keeps, add_something_keeps, delete_team_name_ok.
Qed.

(** Step 2 gives every element [parameters] a last child [something]. *)
Lemma add_something_last k :
  every_parameters last_child_is_something2 (add_something k) = true.
Proof.
  induction k as [tg att tx tl kids IH] using xml_ind'.
  cbn [add_something]. rewrite every_parameters_Node.
  apply andb_true_iff. split.
  - destruct (String.eqb tg "parameters"); [|reflexivity].
    unfold last_child_is_something2. cbn [xkids]. rewrite last_snoc. reflexivity.
  - rewrite forallb_app. apply andb_true_iff. split.
    + apply forallb_map_all. exact IH.
    + destruct (String.eqb tg "parameters"); reflexivity.
Qed.

Lemma is_something2_update k :
  is_something2 k = true -> is_something2 (update_shot_type k) = true.
Proof.
  destruct k as [tg [|] [tx|] [|] [|]]; simpl; try discriminate.
  intros H. apply andb_true_iff in H as [H1 H2].
  apply String.eqb_eq in H1 as ->. simpl. exact H2.
Qed.

Lemma update_shot_type_keeps_last k :
  every_parameters last_child_is_something2 k = true ->
  every_parameters last_child_is_something2 (update_shot_type k) = true.
Proof.
  induction k as [tg att tx tl kids IH] using xml_ind'.
  cbn [update_shot_type]. rewrite !every_parameters_Node.
  intros H. apply andb_true_iff in H as [H1 H2]. apply andb_true_iff. split.
  - destruct (String.eqb tg "parameters"); [|reflexivity].
    unfold last_child_is_something2 in *. cbn [xkids] in *.
    rewrite fmap_last. destruct (last kids) as [k|]; [|discriminate]. simpl.
    apply is_something2_update. exact H1.
  - exact (forallb_map_impl _ _ _ _ IH H2).
Qed.

Lemma step_all_last k :
  every_parameters last_child_is_something2 (step_all k) = true.
Proof. apply update_shot_type_keeps_last, add_something_last. Qed.

(** Without an element [something] in the document, the one of step 2 is
    the only one. *)
Lemma no_element_Node tg' tg att tx tl kids :
  no_element tg' (Node tg att tx tl kids)
  = negb (String.eqb tg tg') && forallb (no_element tg') kids.
Proof. reflexivity. Qed.

Lemma delete_team_name_no_element tg' k :
  no_element tg' k = true -> no_element tg' (delete_team_name k) = true.
Proof.
  induction k as [tg att tx tl kids IH] using xml_ind'.
  cbn [delete_team_name]. rewrite !no_element_Node.
  intros H. apply andb_true_iff in H as [H1 H2]. rewrite H1. simpl.
  induction IH as [|k kids Hk _ IHk]; [reflexivity|]. simpl in *.
  apply andb_true_iff in H2 as [H2 H3].
  destruct (String.eqb tg "parameters" && is_tag "team_name" k); [auto|].
  simpl. rewrite Hk, IHk by assumption. reflexivity.
Qed.

Lemma filter_is_tag_none tg (g : xml -> xml) kids :
  (forall k, xtag (g k) = xtag k) ->
  forallb (no_element tg) kids = true ->
  List.filter (is_tag tg) (map g kids) = [].
Proof.
  intros Hg. induction kids as [|k kids IH]; [reflexivity|]. simpl.
  intros H. apply andb_true_iff in H as [H1 H2].
  rewrite (is_tag_map _ _ Hg). destruct k as [tg0 att tx tl ks].
  rewrite no_element_Node in H1. apply andb_true_iff in H1 as [H1 _].
  unfold is_tag. cbn [xtag]. apply negb_true_iff in H1. rewrite H1. auto.
Qed.

Lemma add_something_one k :
  no_element "something" k = true ->
  every_parameters one_something2_child (add_something k) = true.
Proof.
  induction k as [tg att tx tl kids IH] using xml_ind'.
  cbn [add_something]. rewrite every_parameters_Node, no_element_Node.
  intros H. apply andb_true_iff in H as [H1 H2]. apply andb_true_iff. split.
  - destruct (String.eqb tg "parameters"); [|reflexivity].
    unfold one_something2_child. cbn [xkids].
    rewrite List.filter_app, (filter_is_tag_none _ _ _ xtag_add_something H2).
    reflexivity.
  - rewrite forallb_app. apply andb_true_iff. split.
    + exact (forallb_map_impl _ _ _ _ IH H2).
    + destruct (String.eqb tg "parameters"); reflexivity.
Qed.

Lemma filter_is_tag_map tg (g : xml -> xml) kids :
  (forall k, xtag (g k) = xtag k) ->
  List.filter (is_tag tg) (map g kids) = map g (List.filter (is_tag tg) kids).
Proof.
  intros Hg. induction kids as [|k kids IH]; [reflexivity|]. simpl.
  rewrite (is_tag_map _ _ Hg). destruct (is_tag tg k); simpl; rewrite IH; reflexivity.
Qed.

Lemma update_shot_type_keeps_one k :
  every_parameters one_something2_child k = true ->
  every_parameters one_something2_child (update_shot_type k) = true.
Proof.
  induction k as [tg att tx tl kids IH] using xml_ind'.
  cbn [update_shot_type]. rewrite !every_parameters_Node.
  intros H. apply andb_true_iff in H as [H1 H2]. apply andb_true_iff. split.
  - destruct (String.eqb tg "parameters"); [|reflexivity].
    unfold one_something2_child in *. cbn [xkids] in *.
    rewrite (filter_is_tag_map _ _ _ xtag_update_shot_type).
    destruct (List.filter (is_tag "something") kids) as [|k [|]]; try discriminate.
    simpl. apply is_something2_update. exact H1.
  - exact (forallb_map_impl _ _ _ _ IH H2).
Qed.

Lemma step_all_one k :
  no_element "something" k = true ->
  every_parameters one_something2_child (step_all k) = true.
Proof.
  intros H.
  apply update_shot_type_keeps_one, add_something_one, delete_team_name_no_element, H.
Qed.

End XmlTreeFacts.

(** ** [json.loads] reads back what [json.dumps] wrote *)

Module JsonRoundTrip.
Import Json JsonText.
Local Open Scope nat_scope.
Local Open Scope string_scope.

Lemma string_app_cons (x : ascii) (a b : string) : String x a ++ b = String x (a ++ b).
Proof. reflexivity. Qed.

Lemma string_app_nil_l (b : string) : EmptyString ++ b = b.
Proof. reflexivity. Qed.

Lemma string_app_assoc (a b c : string) : (a ++ b) ++ c = a ++ (b ++ c).
Proof.
  induction a as [|x a IH]; [reflexivity|].
  rewrite !string_app_cons, IH. reflexivity.
Qed.

Lemma string_app_nil_r (a : string) : a ++ EmptyString = a.
Proof.
  induction a as [|x a IH]; [reflexivity|]. rewrite string_app_cons, IH. reflexivity.
Qed.

Lemma string_length_app (a b : string) :
  String.length (a ++ b) = (String.length a + String.length b)%nat.
Proof.
  induction a as [|x a IH]; [reflexivity|].
  rewrite string_app_cons. cbn [String.length]. rewrite IH. reflexivity.
Qed.

(** *** Numbers *)

Lemma dec_value_app (a : N) (x y : string) :
  dec_value a (x ++ y) = dec_value (dec_value a x) y.
Proof.
  revert a. induction x as [|c x IH]; intros a; [reflexivity|].
  rewrite string_app_cons. cbn [dec_value]. apply IH.
Qed.

Lemma digits_only_app (x y : string) :
  digits_only (x ++ y) = digits_only x && digits_only y.
Proof.
  induction x as [|c x IH]; [reflexivity|].
  rewrite string_app_cons. cbn [digits_only]. rewrite IH, andb_assoc. reflexivity.
Qed.

Lemma digit_char (m : N) :
  (m < 10)%N ->
  N_of_ascii (ascii_of_N (48 + m)) = (48 + m)%N.
Proof. intros H. apply N_ascii_embedding. lia. Qed.

Lemma is_digit_char (m : N) : (m < 10)%N -> is_digit (ascii_of_N (48 + m)) = true.
Proof.
  intros H. unfold is_digit. rewrite digit_char by exact H.
  apply andb_true_iff. split; apply N.leb_le; lia.
Qed.

Lemma digits_spec (fuel : nat) :
  forall (n : N) (acc : string),
    (0 < n)%N -> (n < 10 ^ N.of_nat fuel)%N ->
    exists d ds,
      Str.digits fuel n acc = String d (ds ++ acc)
      /\ is_digit d = true /\ Ascii.eqb d "0" = false
      /\ digits_only ds = true
      /\ forall a, dec_value a (String d ds)
                   = (a * 10 ^ N.of_nat (S (String.length ds)) + n)%N.
Proof.
  induction fuel as [|f IH]; intros n acc Hpos Hlt.
  - simpl in Hlt. lia.
  - cbn [Str.digits].
    pose proof (N.mod_lt n 10 ltac:(lia)) as Hm.
    pose proof (N.div_mod n 10 ltac:(lia)) as Hdm.
    destruct (N.eqb_spec (n / 10) 0) as [Hq|Hq].
    + exists (ascii_of_N (48 + n mod 10)), EmptyString.
      split; [reflexivity|]. split; [apply is_digit_char; exact Hm|].
      assert (Hn : (n mod 10 = n)%N) by lia.
      split; [|split; [reflexivity|]].
      * apply Ascii.eqb_neq. intros E. apply (f_equal N_of_ascii) in E.
        rewrite digit_char in E by exact Hm. simpl in E. lia.
      * intros a. cbn [dec_value String.length]. rewrite digit_char by exact Hm.
        change (10 ^ N.of_nat 1)%N with 10%N. lia.
    + destruct (IH (n / 10)%N (String (ascii_of_N (48 + n mod 10)) acc))
        as (d & ds & E & Hd & Hd0 & Hds & Hval).
      * lia.
      * rewrite Nat2N.inj_succ, N.pow_succ_r' in Hlt.
        apply N.Div0.div_lt_upper_bound. exact Hlt.
      * exists d, (ds ++ String (ascii_of_N (48 + n mod 10)) EmptyString).
        split; [rewrite E, string_app_assoc; reflexivity|].
        split; [exact Hd|]. split; [exact Hd0|]. split.
        { rewrite digits_only_app, Hds. simpl. rewrite is_digit_char by exact Hm.
          reflexivity. }
        intros a. change (String d (ds ++ String (ascii_of_N (48 + n mod 10)) EmptyString))
          with (String d ds ++ String (ascii_of_N (48 + n mod 10)) EmptyString).
        rewrite dec_value_app, Hval. cbn [dec_value].
        rewrite digit_char by exact Hm. rewrite string_length_app. cbn [String.length].
        rewrite Nat.add_1_r.
        rewrite (Nat2N.inj_succ (S (String.length ds))), N.pow_succ_r'.
        generalize (10 ^ N.of_nat (S (String.length ds)))%N. intros X.
        rewrite (N.add_comm 48), N.add_sub.
        rewrite Hdm at 3. ring.
Qed.

Lemma of_N_spec (n : N) :
  (0 < n)%N ->
  exists d ds,
    Str.of_N n = String d ds
    /\ is_digit d = true /\ Ascii.eqb d "0" = false
    /\ digits_only ds = true
    /\ dec_value 0 (String d ds) = n.
Proof.
  intros Hpos. unfold Str.of_N.
  destruct (digits_spec (S (N.to_nat (N.log2 n))) n EmptyString Hpos)
    as (d & ds & E & Hd & Hd0 & Hds & Hval).
  - destruct (N.log2_spec n Hpos) as [_ H].
    eapply N.lt_le_trans; [exact H|].
    rewrite Nat2N.inj_succ, N2Nat.id.
    apply N.pow_le_mono_l. lia.
  - exists d, ds. rewrite E, string_app_nil_r.
    split; [reflexivity|]. split; [exact Hd|]. split; [exact Hd0|]. split; [exact Hds|].
    apply Hval.
Qed.

Lemma span_digits_app (ds rest : string) :
  digits_only ds = true ->
  match rest with String c _ => is_digit c = false | EmptyString => True end ->
  span_digits (ds ++ rest) = (ds, rest).
Proof.
  intros Hds Hrest. induction ds as [|c ds IH].
  - rewrite string_app_nil_l.
    destruct rest as [|c r]; [reflexivity|]. simpl. rewrite Hrest. reflexivity.
  - cbn [digits_only] in Hds. apply andb_true_iff in Hds as [Hc Hds].
    rewrite string_app_cons. cbn [span_digits]. rewrite Hc, IH by exact Hds. reflexivity.
Qed.

Lemma value_end_digit rest :
  value_end rest = true ->
  match rest with String c _ => is_digit c = false | EmptyString => True end.
Proof.
  destruct rest as [|c r]; [auto|]. simpl. intros H.
  apply negb_true_iff in H. repeat (apply orb_false_iff in H as [H _]). exact H.
Qed.

Lemma value_end_no_float rest :
  value_end rest = true -> has_frac rest || has_exp rest = false.
Proof.
  destruct rest as [|c r]; [reflexivity|]. simpl. intros H.
  apply negb_true_iff in H.
  apply orb_false_iff in H as [H HE]. apply orb_false_iff in H as [H He].
  apply orb_false_iff in H as [_ Hdot].
  destruct r as [|d r]; [reflexivity|]. rewrite Hdot, He, HE. reflexivity.
Qed.

Lemma is_digit_not (d c : ascii) :
  is_digit d = true -> is_digit c = false -> Ascii.eqb d c = false.
Proof. intros Hd Hc. apply Ascii.eqb_neq. intros ->. congruence. Qed.

Lemma match_number_neg (r : string) :
  match_number (String "-" r)
  = match match_integer r with
    | None => NoMatch
    | Some (n, rest) =>
        if has_frac rest || has_exp rest then IsFloat else IsInt (- Z.of_N n)%Z rest
    end.
Proof. reflexivity. Qed.

Lemma match_number_pos (c : ascii) (r : string) :
  Ascii.eqb c "-" = false ->
  match_number (String c r)
  = match match_integer (String c r) with
    | None => NoMatch
    | Some (n, rest) =>
        if has_frac rest || has_exp rest then IsFloat else IsInt (Z.of_N n) rest
    end.
Proof. intros H. unfold match_number. rewrite H. reflexivity. Qed.

Lemma match_integer_digits (d : ascii) (ds rest : string) :
  is_digit d = true -> Ascii.eqb d "0" = false -> digits_only ds = true ->
  value_end rest = true ->
  match_integer (String d (ds ++ rest)) = Some (dec_value 0 (String d ds), rest).
Proof.
  intros Hd Hd0 Hds Hrest. cbn [match_integer]. rewrite Hd0, Hd.
  rewrite (span_digits_app ds rest Hds (value_end_digit _ Hrest)). reflexivity.
Qed.

Lemma match_number_of_Z (z : Z) (rest : string) :
  value_end rest = true ->
  match_number (Str.of_Z z ++ rest) = IsInt z rest.
Proof.
  intros Hrest. pose proof (value_end_no_float _ Hrest) as Hf.
  destruct z as [|p|p].
  - change (match_number (Str.of_Z 0 ++ rest))
      with (if has_frac rest || has_exp rest then IsFloat else IsInt 0 rest).
    rewrite Hf. reflexivity.
  - destruct (of_N_spec (Npos p) ltac:(lia)) as (d & ds & E & Hdd & Hd0 & Hds & Hval).
    cbn [Str.of_Z]. rewrite E, string_app_cons.
    rewrite (match_number_pos _ _ (is_digit_not d "-" Hdd eq_refl)).
    rewrite match_integer_digits, Hval, Hf by assumption. reflexivity.
  - destruct (of_N_spec (Npos p) ltac:(lia)) as (d & ds & E & Hdd & Hd0 & Hds & Hval).
    cbn [Str.of_Z]. rewrite E, string_app_assoc.
    change (match_number (String "-" (String d (ds ++ rest))) = IsInt (Z.neg p) rest).
    rewrite match_number_neg.
    rewrite match_integer_digits, Hval, Hf by assumption. reflexivity.
Qed.

(** *** Strings *)

Lemma scanstring_escape_char (c : ascii) (tail : string) :
  scanstring (escape_char c ++ tail)
  = rbind (scanstring tail) (fun ab => let '(chunks, rest) := ab in Ok (String c chunks, rest)).
Proof.
  destruct c as [[] [] [] [] [] [] [] []]; reflexivity.
Qed.

Lemma scanstring_escape (s rest : string) :
  scanstring (escape s ++ String Str.dq rest) = Ok (s, rest).
Proof.
  induction s as [|c s IH].
  - reflexivity.
  - cbn [escape]. rewrite string_app_assoc, scanstring_escape_char, IH. reflexivity.
Qed.

(** *** Whitespace and the first character of a value *)

Lemma skip_ws_blank (w x : string) : blank w = true -> skip_ws (w ++ x) = skip_ws x.
Proof.
  induction w as [|c w IH]; intros H; [reflexivity|].
  cbn [blank] in H. apply andb_true_iff in H as [Hc Hw].
  rewrite string_app_cons. cbn [skip_ws]. rewrite Hc. apply IH. exact Hw.
Qed.

Lemma skip_ws_starts_value (s : string) : starts_value s = true -> skip_ws s = s.
Proof.
  destruct s as [|c r]; [discriminate|]. simpl. intros H.
  apply andb_true_iff in H as [H _]. apply negb_true_iff in H. rewrite H. reflexivity.
Qed.

Lemma blank_repeat (k : nat) : blank (Str.repeat " " k) = true.
Proof. induction k as [|k IH]; [reflexivity|]. exact IH. Qed.

Lemma blank_newline_indent indent level : blank (newline_indent indent level) = true.
Proof. destruct indent as [n|]; [apply blank_repeat | reflexivity]. Qed.

Lemma item_separator_comma indent :
  exists w, item_separator indent = String "," w /\ blank w = true.
Proof. destruct indent; [exists EmptyString | exists " "]; split; reflexivity. Qed.

Lemma iterencode_List_cons indent level v vs :
  iterencode indent level (List (v :: vs))
  = "[" ++ newline_indent indent (S level)
    ++ sep_chunks (item_separator indent ++ newline_indent indent (S level))
         (map (iterencode indent (S level)) (v :: vs))
    ++ newline_indent indent level ++ "]".
Proof. reflexivity. Qed.

Lemma iterencode_Dict_cons indent level kv es :
  iterencode indent level (Dict (kv :: es))
  = "{" ++ newline_indent indent (S level)
    ++ sep_chunks (item_separator indent ++ newline_indent indent (S level))
         (map (fun kv => encode_basestring_ascii (fst kv) ++ key_separator
                         ++ iterencode indent (S level) (snd kv)) (kv :: es))
    ++ newline_indent indent level ++ "}".
Proof. reflexivity. Qed.

Lemma iterencode_head indent level j rest :
  starts_value (iterencode indent level j ++ rest) = true.
Proof.
  destruct j as [| [] | z | x | [|v vs] | [|kv es]]; try reflexivity.
  destruct z as [|p|p]; [reflexivity | | reflexivity].
  destruct (of_N_spec (Npos p) ltac:(lia)) as (d & ds & E & Hd & _).
  cbn [iterencode Str.of_Z]. rewrite E, string_app_cons. cbn [starts_value].
  destruct d as [[] [] [] [] [] [] [] []]; try discriminate Hd; reflexivity.
Qed.

(** *** The scanner, one step at a time *)

Lemma scan_once_string f r :
  scan_once (S f) (String Str.dq r)
  = rbind (scanstring r) (fun ab => let '(str, rest) := ab in Ok (Str str, rest)).
Proof. reflexivity. Qed.

Lemma scan_once_array f r :
  scan_once (S f) (String "[" r)
  = match skip_ws r with
    | String c r2 =>
        if Ascii.eqb c "]" then Ok (List [], r2)
        else rbind (array_loop f (skip_ws r))
               (fun ab => let '(values, rest) := ab in Ok (List values, rest))
    | EmptyString => Err (JSONDecodeError "Expecting value")
    end.
Proof. reflexivity. Qed.

Lemma scan_once_object f r :
  scan_once (S f) (String "{" r)
  = match skip_ws r with
    | String c r2 =>
        if Ascii.eqb c "}" then Ok (Dict [], r2)
        else if Ascii.eqb c Str.dq then
          rbind (object_loop f r2)
            (fun ab => let '(pairs, rest) := ab in Ok (Dict (dict_of_pairs pairs), rest))
        else Err (JSONDecodeError "Expecting property name enclosed in double quotes")
    | EmptyString =>
        Err (JSONDecodeError "Expecting property name enclosed in double quotes")
    end.
Proof. reflexivity. Qed.

Lemma scan_once_number f c r :
  is_digit c = true \/ c = "-"%char ->
  scan_once (S f) (String c r)
  = match match_number (String c r) with
    | IsInt z rest => Ok (Int z, rest)
    | IsFloat => Err (JSONDecodeError "float outside the model")
    | NoMatch =>
        if String.prefix "NaN" (String c r) || String.prefix "Infinity" (String c r)
           || String.prefix "-Infinity" (String c r)
        then Err (JSONDecodeError "float outside the model")
        else Err (JSONDecodeError "Expecting value")
    end.
Proof.
  intros [H| ->]; [|reflexivity].
  destruct c as [[] [] [] [] [] [] [] []]; try discriminate H; reflexivity.
Qed.

Lemma array_loop_S f s :
  array_loop (S f) s
  = rbind (scan_once f s) (fun ab => let '(value, s1) := ab in
      match skip_ws s1 with
      | String nextchar r =>
          if Ascii.eqb nextchar "]" then Ok ([value], r)
          else if Ascii.eqb nextchar "," then
            rbind (array_loop f (skip_ws r))
              (fun ab => let '(values, rest) := ab in Ok (value :: values, rest))
          else Err (JSONDecodeError "Expecting ',' delimiter")
      | EmptyString => Err (JSONDecodeError "Expecting ',' delimiter")
      end).
Proof. reflexivity. Qed.

Lemma object_loop_S f s :
  object_loop (S f) s
  = rbind (scanstring s) (fun ab => let '(key, s1) := ab in
      match skip_ws s1 with
      | String colon s2 =>
          if Ascii.eqb colon ":" then
            rbind (scan_once f (skip_ws s2)) (fun ab => let '(value, s3) := ab in
              match skip_ws s3 with
              | String nextchar r =>
                  if Ascii.eqb nextchar "}" then Ok ([(key, value)], r)
                  else if Ascii.eqb nextchar "," then
                    match skip_ws r with
                    | String q r' =>
                        if Ascii.eqb q Str.dq then
                          rbind (object_loop f r')
                            (fun ab => let '(pairs, rest) := ab in
                                       Ok ((key, value) :: pairs, rest))
                        else Err (JSONDecodeError
                               "Expecting property name enclosed in double quotes")
                    | EmptyString =>
                        Err (JSONDecodeError
                               "Expecting property name enclosed in double quotes")
                    end
                  else Err (JSONDecodeError "Expecting ',' delimiter")
              | EmptyString => Err (JSONDecodeError "Expecting ',' delimiter")
              end)
          else Err (JSONDecodeError "Expecting ':' delimiter")
      | EmptyString => Err (JSONDecodeError "Expecting ':' delimiter")
      end).
Proof. reflexivity. Qed.

(** *** Objects keep their entries *)

Lemma dict_set_fresh {V} (k : string) (v : V) (d : list (string * V)) :
  k ∉ map fst d -> dict_set k v d = (d ++ [(k, v)])%list.
Proof.
  induction d as [|[k' v'] d IH]; intros Hk; [reflexivity|]. simpl in *.
  destruct (String.eqb_spec k' k) as [->|_].
  - exfalso. apply Hk. left.
  - rewrite IH; [reflexivity|]. intros Hin. apply Hk. right. exact Hin.
Qed.

Lemma fold_dict_set {V} (es acc : list (string * V)) :
  NoDup (map fst (acc ++ es)%list) ->
  fold_left (fun d kv => dict_set (fst kv) (snd kv) d) es acc = (acc ++ es)%list.
Proof.
  revert acc. induction es as [|[k v] es IH]; intros acc Hnd; simpl.
  - rewrite app_nil_r. reflexivity.
  - rewrite dict_set_fresh.
    + rewrite IH; rewrite <- app_assoc; [reflexivity | exact Hnd].
    + rewrite map_app in Hnd. apply NoDup_app in Hnd as (_ & Hd & _).
      intros Hin. apply (Hd k Hin). left.
Qed.

Lemma dict_of_pairs_distinct {V} (es : list (string * V)) :
  NoDup (map fst es) -> dict_of_pairs es = es.
Proof. intros H. unfold dict_of_pairs. apply (fold_dict_set es []). exact H. Qed.

(** *** Reading back what [iterencode] wrote *)

Lemma value_end_closing indent level (c : ascii) rest :
  value_end (String c rest) = true ->
  value_end (newline_indent indent level ++ String c rest) = true.
Proof. intros H. destruct indent; [reflexivity | exact H]. Qed.

Lemma skip_ws_closing indent level (c : ascii) rest :
  is_ws c = false ->
  skip_ws (newline_indent indent level ++ String c rest) = String c rest.
Proof.
  intros H. rewrite skip_ws_blank by apply blank_newline_indent.
  cbn [skip_ws]. rewrite H. reflexivity.
Qed.

Lemma array_loop_chunks indent level (vs : list json) :
  vs <> [] -> Forall (reads_back indent) vs ->
  forall f rest,
    fold_right (fun v n => S (scan_steps v + n)) 0 vs <= f ->
    array_loop f
      (sep_chunks (item_separator indent ++ newline_indent indent (S level))
         (map (iterencode indent (S level)) vs)
       ++ newline_indent indent level ++ String "]" rest)
    = Ok (vs, rest).
Proof.
  destruct (item_separator_comma indent) as (w & -> & Hw).
  induction vs as [|v vs IH]; intros Hne Hvs f rest Hf; [contradiction|].
  apply Forall_cons in Hvs as [Hv Hvs]. cbn [fold_right] in Hf.
  destruct f as [|f]; [lia|]. rewrite array_loop_S.
  destruct vs as [|v2 vs].
  - cbn [map sep_chunks]. rewrite Hv.
    + cbn [rbind]. rewrite skip_ws_closing by reflexivity. reflexivity.
    + lia.
    + apply value_end_closing. reflexivity.
  - change (sep_chunks ?sep (map ?g (v :: v2 :: vs)))
      with (g v ++ sep ++ sep_chunks sep (map g (v2 :: vs))).
    rewrite !string_app_assoc, string_app_cons. rewrite Hv; [|lia|reflexivity].
    cbn [rbind skip_ws]. change (is_ws ",") with false. cbv iota.
    change (Ascii.eqb "," "]") with false. change (Ascii.eqb "," ",") with true. cbv iota.
    rewrite skip_ws_blank by exact Hw.
    rewrite skip_ws_blank by apply blank_newline_indent.
    rewrite <- !string_app_assoc.
    rewrite (string_app_assoc _ (newline_indent indent level)).
    rewrite skip_ws_starts_value.
    2:{ cbn [map sep_chunks]. destruct (map (iterencode indent (S level)) vs);
        rewrite ?string_app_assoc; apply iterencode_head. }
    rewrite string_app_cons in IH.
    rewrite IH; [reflexivity | discriminate | exact Hvs | cbn [fold_right] in Hf |- *; lia].
Qed.

Lemma entry_chunk indent level (k : string) (v : json) (tail : string) :
  (encode_basestring_ascii k ++ key_separator ++ iterencode indent level v) ++ tail
  = String Str.dq
      (escape k ++ String Str.dq (String ":" (String " " (iterencode indent level v ++ tail)))).
Proof.
  unfold encode_basestring_ascii, key_separator, Str.chr.
  rewrite !string_app_cons, !string_app_assoc, !string_app_cons, string_app_nil_l.
  reflexivity.
Qed.

Lemma skip_ws_keep (c : ascii) (r : string) :
  is_ws c = false -> skip_ws (String c r) = String c r.
Proof. intros H. cbn [skip_ws]. rewrite H. reflexivity. Qed.

Lemma skip_ws_drop (c : ascii) (r : string) :
  is_ws c = true -> skip_ws (String c r) = skip_ws r.
Proof. intros H. cbn [skip_ws]. rewrite H. reflexivity. Qed.

Lemma object_loop_chunks indent level (es : list (string * json)) :
  es <> [] -> Forall (fun kv => reads_back indent (snd kv)) es ->
  forall f rest,
    fold_right (fun kv n => S (scan_steps (snd kv) + n)) 0 es <= f ->
    exists X,
      sep_chunks (item_separator indent ++ newline_indent indent (S level))
        (map (fun kv => encode_basestring_ascii (fst kv) ++ key_separator
                        ++ iterencode indent (S level) (snd kv)) es)
      ++ newline_indent indent level ++ String "}" rest
      = String Str.dq X
      /\ object_loop f X = Ok (es, rest).
Proof.
  destruct (item_separator_comma indent) as (w & -> & Hw).
  induction es as [|[k v] es IH]; intros Hne Hes f rest Hf; [contradiction|].
  apply Forall_cons in Hes as [Hv Hes]. cbn [fold_right snd] in Hf, Hv.
  destruct f as [|f]; [lia|].
  destruct es as [|kv2 es].
  - cbn [map sep_chunks fst snd]. rewrite entry_chunk. eexists. split; [reflexivity|].
    rewrite object_loop_S, scanstring_escape. cbn [rbind].
    rewrite (skip_ws_keep ":") by reflexivity. rewrite Ascii.eqb_refl.
    rewrite (skip_ws_drop " ") by reflexivity.
    rewrite skip_ws_starts_value by apply iterencode_head.
    rewrite Hv; [|lia|apply value_end_closing; reflexivity].
    cbn [rbind]. rewrite skip_ws_closing by reflexivity. reflexivity.
  - change (sep_chunks ?sep (map ?g ((k, v) :: kv2 :: es)))
      with (g (k, v) ++ sep ++ sep_chunks sep (map g (kv2 :: es))).
    cbn [fst snd]. rewrite (string_app_assoc (_ ++ _ ++ _)), entry_chunk.
    eexists. split; [reflexivity|].
    rewrite object_loop_S, scanstring_escape. cbn [rbind].
    rewrite (skip_ws_keep ":") by reflexivity. rewrite Ascii.eqb_refl.
    rewrite (skip_ws_drop " ") by reflexivity.
    rewrite skip_ws_starts_value by apply iterencode_head.
    rewrite !string_app_assoc, string_app_cons.
    rewrite Hv; [|lia|reflexivity].
    cbn [rbind]. rewrite (skip_ws_keep ",") by reflexivity.
    change (Ascii.eqb "," "}") with false. change (Ascii.eqb "," ",") with true. cbv iota.
    rewrite skip_ws_blank by exact Hw.
    rewrite skip_ws_blank by apply blank_newline_indent.
    destruct (IH ltac:(discriminate) Hes f rest) as (X & EX & HX).
    { cbn [fold_right] in Hf |- *. lia. }
    rewrite EX.
    rewrite (skip_ws_keep Str.dq) by reflexivity.
    rewrite Ascii.eqb_refl, HX. reflexivity.
Qed.

Lemma distinct_keys_List items :
  distinct_keys (List items) = true -> Forall (fun v => distinct_keys v = true) items.
Proof. intros H. apply Forall_forall. intros v Hv.
  cbn [distinct_keys] in H. rewrite forallb_forall in H. apply H.
  apply list_elem_of_In. exact Hv.
Qed.

Lemma distinct_keys_Dict entries :
  distinct_keys (Dict entries) = true ->
  NoDup (map fst entries)
  /\ Forall (fun kv => distinct_keys (snd kv) = true) entries.
Proof.
  intros H. cbn [distinct_keys] in H. apply andb_true_iff in H as [H1 H2].
  apply bool_decide_eq_true in H1. split; [exact H1|].
  apply Forall_forall. intros kv Hkv. rewrite forallb_forall in H2. apply H2.
  apply list_elem_of_In. exact Hkv.
Qed.

Lemma scan_once_null f rest :
  scan_once (S f) (String "n" (String "u" (String "l" (String "l" rest)))) = Ok (Null, rest).
Proof. destruct rest; reflexivity. Qed.

Lemma scan_once_true f rest :
  scan_once (S f) (String "t" (String "r" (String "u" (String "e" rest))))
  = Ok (Bool true, rest).
Proof. destruct rest; reflexivity. Qed.

Lemma scan_once_false f rest :
  scan_once (S f) (String "f" (String "a" (String "l" (String "s" (String "e" rest)))))
  = Ok (Bool false, rest).
Proof. destruct rest; reflexivity. Qed.

(** [scan_once] reads back the text of a document and stops behind it. *)
Lemma scan_once_iterencode indent (j : json) :
  distinct_keys j = true -> reads_back indent j.
Proof.
  induction j as [| b | z | x | items IH | entries IH] using JsonFacts.json_ind';
    intros Hd level f rest Hf Hrest; (destruct f as [|f]; [simpl in Hf; lia|]).
  - apply scan_once_null.
  - destruct b; [apply scan_once_true | apply scan_once_false].
  - cbn [iterencode].
    assert (exists c r, Str.of_Z z ++ rest = String c r
                        /\ (is_digit c = true \/ c = "-"%char)) as (c & r & E & Hc).
    { destruct z as [|p|p].
      - exists "0"%char, rest. split; [reflexivity | left; reflexivity].
      - destruct (of_N_spec (Npos p) ltac:(lia)) as (d & ds & E & Hdd & _).
        exists d, (ds ++ rest). cbn [Str.of_Z]. rewrite E. split; [reflexivity | left; exact Hdd].
      - eexists "-"%char, _. split; [reflexivity | right; reflexivity]. }
    pose proof (match_number_of_Z z rest Hrest) as Hn. rewrite E in *.
    rewrite (scan_once_number _ _ _ Hc), Hn. reflexivity.
  - cbn [iterencode]. unfold encode_basestring_ascii, Str.chr.
    rewrite string_app_cons, string_app_assoc, string_app_cons, string_app_nil_l.
    rewrite scan_once_string, scanstring_escape. reflexivity.
  - destruct items as [|v vs]; [reflexivity|].
    rewrite iterencode_List_cons.
    rewrite !string_app_cons, string_app_nil_l, !string_app_assoc.
    rewrite string_app_cons, string_app_nil_l.
    rewrite scan_once_array.
    rewrite skip_ws_blank by apply blank_newline_indent.
    assert (Hhead : starts_value
              (sep_chunks (item_separator indent ++ newline_indent indent (S level))
                 (map (iterencode indent (S level)) (v :: vs))
               ++ newline_indent indent level ++ String "]" rest) = true).
    { cbn [map sep_chunks]. destruct (map (iterencode indent (S level)) vs);
        rewrite ?string_app_assoc; apply iterencode_head. }
    rewrite (skip_ws_starts_value _ Hhead).
    destruct (sep_chunks _ _ ++ _) as [|c r2] eqn:E; [discriminate Hhead|].
    cbn [starts_value] in Hhead. apply andb_true_iff in Hhead as [_ Hc].
    apply negb_true_iff in Hc. rewrite Hc. rewrite <- E.
    rewrite (array_loop_chunks indent level (v :: vs)); [reflexivity | discriminate | |].
    + apply distinct_keys_List in Hd.
      apply Forall_forall. intros x Hx.
      eapply Forall_forall in IH; [|exact Hx]. apply IH.
      eapply Forall_forall in Hd; [|exact Hx]. exact Hd.
    + cbn [scan_steps] in Hf. lia.
  - destruct entries as [|kv es]; [reflexivity|].
    apply distinct_keys_Dict in Hd as [Hnd Hd].
    rewrite iterencode_Dict_cons.
    rewrite !string_app_cons, string_app_nil_l, !string_app_assoc.
    rewrite string_app_cons, string_app_nil_l.
    rewrite scan_once_object.
    rewrite skip_ws_blank by apply blank_newline_indent.
    destruct (object_loop_chunks indent level (kv :: es) ltac:(discriminate)) with
      (f := f) (rest := rest) as (X & EX & HX).
    + apply Forall_forall. intros x Hx.
      eapply Forall_forall in IH; [|exact Hx]. apply IH.
      eapply Forall_forall in Hd; [|exact Hx]. exact Hd.
    + cbn [scan_steps] in Hf. lia.
    + rewrite EX. rewrite (skip_ws_keep Str.dq) by reflexivity.
      change (Ascii.eqb Str.dq "}") with false. cbv iota.
      rewrite Ascii.eqb_refl, HX. cbn [rbind].
      rewrite dict_of_pairs_distinct by exact Hnd. reflexivity.
Qed.

(** *** The fuel [loads] passes is enough *)

Lemma sep_chunks_cons (sep c : string) (c2 : string) (cs : list string) :
  sep_chunks sep (c :: c2 :: cs) = c ++ sep ++ sep_chunks sep (c2 :: cs).
Proof. reflexivity. Qed.

Lemma steps_le_chunks {A} (steps : A -> nat) (enc : A -> string) (sep : string) (xs : list A) :
  1 <= String.length sep ->
  Forall (fun x => steps x <= String.length (enc x)) xs ->
  fold_right (fun x n => S (steps x + n)) 0 xs
  <= S (String.length (sep_chunks sep (map enc xs))).
Proof.
  intros Hsep. induction 1 as [|x xs Hx Hxs IH]; [simpl; lia|].
  destruct xs as [|x2 xs].
  - simpl. lia.
  - cbn [map]. rewrite sep_chunks_cons, !string_length_app.
    cbn [fold_right map] in IH |- *. lia.
Qed.

Lemma item_separator_length indent : 1 <= String.length (item_separator indent).
Proof. destruct indent; simpl; lia. Qed.

Lemma scan_steps_le_length indent (j : json) :
  forall level, scan_steps j <= String.length (iterencode indent level j).
Proof.
  induction j as [| b | z | x | items IH | entries IH] using JsonFacts.json_ind';
    intros level.
  - simpl. lia.
  - destruct b; simpl; lia.
  - cbn [iterencode scan_steps]. destruct z as [|p|p]; [simpl; lia| |].
    + destruct (of_N_spec (Npos p) ltac:(lia)) as (d & ds & E & _).
      cbn [Str.of_Z]. rewrite E. simpl. lia.
    + cbn [Str.of_Z]. rewrite string_length_app. simpl. lia.
  - simpl. lia.
  - destruct items as [|v vs]; [simpl; lia|].
    rewrite iterencode_List_cons, !string_length_app. cbn [scan_steps].
    pose proof (steps_le_chunks scan_steps (iterencode indent (S level))
                  (item_separator indent ++ newline_indent indent (S level)) (v :: vs)) as H.
    rewrite string_length_app in H.
    pose proof (item_separator_length indent).
    specialize (H ltac:(lia)).
    change (String.length "[") with 1. change (String.length "]") with 1.
    assert (Hall : Forall (fun x => scan_steps x <= String.length (iterencode indent (S level) x))
                     (v :: vs)).
    { eapply Forall_impl; [exact IH|]. intros x Hx. apply Hx. }
    specialize (H Hall). lia.
  - destruct entries as [|kv es]; [simpl; lia|].
    rewrite iterencode_Dict_cons, !string_length_app. cbn [scan_steps].
    pose proof (steps_le_chunks (fun kv => scan_steps (snd kv))
                  (fun kv => encode_basestring_ascii (fst kv) ++ key_separator
                             ++ iterencode indent (S level) (snd kv))
                  (item_separator indent ++ newline_indent indent (S level)) (kv :: es)) as H.
    rewrite string_length_app in H.
    pose proof (item_separator_length indent).
    specialize (H ltac:(lia)).
    change (String.length "{") with 1. change (String.length "}") with 1.
    assert (Hall : Forall (fun kv => scan_steps (snd kv)
                     <= String.length (encode_basestring_ascii (fst kv) ++ key_separator
                                       ++ iterencode indent (S level) (snd kv)))
                     (kv :: es)).
    { eapply Forall_impl; [exact IH|]. intros x Hx. cbv beta in Hx.
      rewrite !string_length_app. specialize (Hx (S level)). lia. }
    specialize (H Hall). lia.
Qed.

(** [json.loads(json.dumps(j, indent=...))] is [j]. *)
Lemma loads_dumps indent (j : json) :
  distinct_keys j = true -> loads (dumps indent j) = Ok j.
Proof.
  intros Hd. unfold loads, dumps.
  pose proof (iterencode_head indent 0 j EmptyString) as Hhead.
  rewrite string_app_nil_r in Hhead. rewrite (skip_ws_starts_value _ Hhead).
  pose proof (scan_once_iterencode indent j Hd 0
                (S (String.length (iterencode indent 0 j))) EmptyString) as H.
  rewrite string_app_nil_r in H. rewrite H; [reflexivity| |reflexivity].
  pose proof (scan_steps_le_length indent j 0). lia.
Qed.


End JsonRoundTrip.

(** ** Facts about the XML transform on trees *)

Module XmlMoreFacts.
Import ET XmlTree XmlMore EtFacts.

Lemma every_element_Node tg' P tg att tx tl kids :
  every_element tg' P (Node tg att tx tl kids)
  = (if String.eqb tg tg' then P (Node tg att tx tl kids) else true)
    && forallb (every_element tg' P) kids.
Proof. reflexivity. Qed.

Lemma update_shot_type_points k :
  every_element "shot_type" (has_text "points") (update_shot_type k) = true.
Proof.
  induction k as [tg att tx tl kids IH] using xml_ind'.
  cbn [update_shot_type]. rewrite every_element_Node.
  apply andb_true_iff. split.
  - destruct (String.eqb tg "shot_type"); reflexivity.
  - apply XmlTreeFacts.forallb_map_all. exact IH.
Qed.

Lemma map_id_Forall {A} (g : A -> A) (l : list A) :
  Forall (fun x => g x = x) l -> map g l = l.
Proof. induction 1 as [|x l Hx _ IH]; simpl; [reflexivity | rewrite Hx, IH; reflexivity]. Qed.

Lemma Forall_no_element tg (P : xml -> Prop) kids :
  Forall (fun k => no_element tg k = true -> P k) kids ->
  forallb (no_element tg) kids = true -> Forall P kids.
Proof.
  induction 1 as [|k kids Hk _ IH]; intros H; [constructor|].
  simpl in H. apply andb_true_iff in H as [H1 H2]. constructor; auto.
Qed.

Lemma delete_team_name_id k :
  no_element "parameters" k = true -> delete_team_name k = k.
Proof.
  induction k as [tg att tx tl kids IH] using xml_ind'.
  rewrite XmlTreeFacts.no_element_Node. intros H. apply andb_true_iff in H as [H1 H2].
  apply negb_true_iff in H1. cbn [delete_team_name]. rewrite H1. cbn [andb]. f_equal.
  pose proof (Forall_no_element _ _ _ IH H2) as Hk. clear -Hk.
  induction Hk as [|k kids Hk _ IHk]; [reflexivity|]. simpl. rewrite Hk, IHk. reflexivity.
Qed.

Lemma add_something_id k :
  no_element "parameters" k = true -> add_something k = k.
Proof.
  induction k as [tg att tx tl kids IH] using xml_ind'.
  rewrite XmlTreeFacts.no_element_Node. intros H. apply andb_true_iff in H as [H1 H2].
  apply negb_true_iff in H1. cbn [add_something]. rewrite H1, app_nil_r. f_equal.
  apply map_id_Forall. exact (Forall_no_element _ _ _ IH H2).
Qed.

Lemma update_shot_type_id k :
  no_element "shot_type" k = true -> update_shot_type k = k.
Proof.
  induction k as [tg att tx tl kids IH] using xml_ind'.
  rewrite XmlTreeFacts.no_element_Node. intros H. apply andb_true_iff in H as [H1 H2].
  apply negb_true_iff in H1. cbn [update_shot_type]. rewrite H1. f_equal.
  apply map_id_Forall. exact (Forall_no_element _ _ _ IH H2).
Qed.

Lemma xml_transform_id t :
  forallb (no_element "parameters") (xkids t) = true ->
  forallb (no_element "shot_type") (xkids t) = true ->
  xml_transform t = t.
Proof.
  destruct t as [tg att tx tl kids]. cbn [xkids]. intros Hp Hs.
  unfold xml_transform. cbn [below_root]. f_equal. rewrite !map_map.
  apply map_id_Forall. apply Forall_forall. intros k Hk.
  rewrite forallb_forall in Hp, Hs. apply list_elem_of_In in Hk.
  rewrite delete_team_name_id, add_something_id, update_shot_type_id; auto.
Qed.

End XmlMoreFacts.

Section HtmlFacts.

Lemma html_lines_app (a b : list string) :
  html_lines (a ++ b) = html_lines a ++ html_lines b.
Proof.
  induction a as [|line a IH]; [reflexivity|]. simpl.
  destruct (Str.startswith line "+"); [simpl; rewrite IH; reflexivity|].
  destruct (Str.startswith line "-"); [simpl; rewrite IH; reflexivity|].
  destruct (Str.startswith line "?"); [exact IH|]. simpl. rewrite IH. reflexivity.
Qed.

End HtmlFacts.

(** ** Documents laid out in the store *)

Module JsonLayoutFacts.
Import Json JsonObj JsonAux JsonFacts JsonLayout.
Local Open Scope nat_scope.

Lemma laid_le s :
  (forall n j v n', laid s n j v n' -> n <= n')
  /\ (forall n js vs n', laid_items s n js vs n' -> n <= n')
  /\ (forall n es kvs n', laid_entries s n es kvs n' -> n <= n').
Proof. apply laid_mutind; intros; lia. Qed.

Lemma laid_agree s s' :
  (forall n j v n', laid s n j v n' -> agree n n' s s' -> laid s' n j v n')
  /\ (forall n js vs n', laid_items s n js vs n' -> agree n n' s s' -> laid_items s' n js vs n')
  /\ (forall n es kvs n', laid_entries s n es kvs n' -> agree n n' s s' ->
        laid_entries s' n es kvs n').
Proof.
  apply laid_mutind; intros; try (constructor; fail).
  - pose proof (proj1 (proj2 (laid_le s)) _ _ _ _ l).
    apply laid_list with vs.
    + apply H. intros x Hx. apply H0. lia.
    + rewrite H0 by lia. assumption.
  - pose proof (proj2 (proj2 (laid_le s)) _ _ _ _ l).
    apply laid_dict with kvs.
    + apply H. intros x Hx. apply H0. lia.
    + rewrite H0 by lia. assumption.
  - pose proof (proj1 (laid_le s) _ _ _ _ l).
    pose proof (proj1 (proj2 (laid_le s)) _ _ _ _ l0).
    econstructor.
    + apply H. intros x Hx. apply H1. lia.
    + apply H0. intros x Hx. apply H1. lia.
  - pose proof (proj1 (laid_le s) _ _ _ _ l).
    pose proof (proj2 (proj2 (laid_le s)) _ _ _ _ l0).
    econstructor.
    + apply H. intros x Hx. apply H1. lia.
    + apply H0. intros x Hx. apply H1. lia.
Qed.

Lemma laid_load s :
  (forall n j v n', laid s n j v n' -> forall f, n' - n <= f -> load f s v = Some j)
  /\ (forall n js vs n', laid_items s n js vs n' ->
        forall f, n' - n <= f -> mapM (load f s) vs = Some js)
  /\ (forall n es kvs n', laid_entries s n es kvs n' ->
        forall f, n' - n <= f ->
        mapM (fun kv => pair (fst kv) <$> load f s (snd kv)) kvs = Some es).
Proof.
  apply laid_mutind; intros; try (destruct f; reflexivity).
  - pose proof (proj1 (proj2 (laid_le s)) _ _ _ _ l).
    destruct f as [|f]; [lia|]. cbn [load]. rewrite e, H by lia. reflexivity.
  - pose proof (proj2 (proj2 (laid_le s)) _ _ _ _ l).
    destruct f as [|f]; [lia|]. cbn [load]. rewrite e, H by lia. reflexivity.
  - pose proof (proj1 (laid_le s) _ _ _ _ l).
    pose proof (proj1 (proj2 (laid_le s)) _ _ _ _ l0).
    cbn [mapM]. rewrite H, H0 by lia. reflexivity.
  - pose proof (proj1 (laid_le s) _ _ _ _ l).
    pose proof (proj2 (proj2 (laid_le s)) _ _ _ _ l0).
    cbn [mapM fst snd]. rewrite H, H0 by lia. reflexivity.
Qed.

Lemma agree_prefix (n n' : nat) (s s' : list object) :
  s `prefix_of` s' -> n' <= length s -> agree n n' s s'.
Proof.
  intros Hpre Hn l Hl. destruct (lookup_lt_is_Some_2 s l ltac:(lia)) as [o Ho].
  rewrite Ho. eapply prefix_lookup_Some; eauto.
Qed.

Lemma agree_refl n n' s : agree n n' s s.
Proof. intros l _. reflexivity. Qed.

Lemma agree_trans n n' s1 s2 s3 : agree n n' s1 s2 -> agree n n' s2 s3 -> agree n n' s1 s3.
Proof. intros H1 H2 l Hl. rewrite H2, H1 by exact Hl. reflexivity. Qed.

Lemma agree_sub n n' m m' s s' : agree n n' s s' -> n <= m -> m' <= n' -> agree m m' s s'.
Proof. intros H Hn Hm l Hl. apply H. lia. Qed.

Lemma agree_insert n n' s l o : (l < n \/ n' <= l) -> agree n n' s (<[l := o]> s).
Proof. intros H x Hx. apply list_lookup_insert_ne. lia. Qed.

Lemma alloc_list_laid items :
  Forall alloc_laid_at items ->
  forall s vs s', alloc_list items s = (vs, s') ->
    s `prefix_of` s' /\ laid_items s' (length s) items vs (length s').
Proof.
  induction 1 as [|i items Hi _ IH]; intros s vs s' E; simpl in E.
  - injection E as <- <-. split; [reflexivity | constructor].
  - destruct (alloc i s) as [v s1] eqn:E1.
    destruct (alloc_list items s1) as [vs' s2] eqn:E2.
    injection E as <- <-.
    destruct (Hi _ _ _ E1) as [P1 L1]. destruct (IH _ _ _ E2) as [P2 L2].
    split; [etrans; eauto|].
    econstructor; [|exact L2].
    apply (proj1 (laid_agree s1 s2) _ _ _ _ L1). apply agree_prefix; [exact P2 | lia].
Qed.

Lemma alloc_entries_laid entries :
  Forall (fun kv => alloc_laid_at (snd kv)) entries ->
  forall s kvs s', alloc_entries entries s = (kvs, s') ->
    s `prefix_of` s' /\ laid_entries s' (length s) entries kvs (length s').
Proof.
  induction 1 as [|[k i] entries Hi _ IH]; intros s kvs s' E; simpl in E.
  - injection E as <- <-. split; [reflexivity | constructor].
  - destruct (alloc i s) as [v s1] eqn:E1.
    destruct (alloc_entries entries s1) as [kvs' s2] eqn:E2.
    injection E as <- <-.
    destruct (Hi _ _ _ E1) as [P1 L1]. destruct (IH _ _ _ E2) as [P2 L2].
    split; [etrans; eauto|].
    econstructor; [|exact L2].
    apply (proj1 (laid_agree s1 s2) _ _ _ _ L1). apply agree_prefix; [exact P2 | lia].
Qed.

(** [json.loads] lays a document out at the end of the store. *)
Lemma alloc_laid j : alloc_laid_at j.
Proof.
  induction j as [| b | z | x | items IH | entries IH] using json_ind'.
  1-4: intros s v s' [= <- <-]; split; [reflexivity | constructor].
  - intros s v s' E. rewrite alloc_List in E.
    destruct (alloc_list items s) as [vs s1] eqn:E1. injection E as <- <-.
    destruct (alloc_list_laid items IH _ _ _ E1) as [P L].
    split; [etrans; [exact P | apply prefix_app_r; reflexivity]|].
    rewrite length_app, Nat.add_1_r. apply laid_list with vs.
    + apply (proj1 (proj2 (laid_agree s1 _)) _ _ _ _ L).
      apply agree_prefix; [apply prefix_app_r; reflexivity | lia].
    + apply list_lookup_middle. reflexivity.
  - intros s v s' E. rewrite alloc_Dict in E.
    destruct (alloc_entries entries s) as [kvs s1] eqn:E1. injection E as <- <-.
    destruct (alloc_entries_laid entries IH _ _ _ E1) as [P L].
    split; [etrans; [exact P | apply prefix_app_r; reflexivity]|].
    rewrite length_app, Nat.add_1_r. apply laid_dict with kvs.
    + apply (proj2 (proj2 (laid_agree s1 _)) _ _ _ _ L).
      apply agree_prefix; [apply prefix_app_r; reflexivity | lia].
    + apply list_lookup_middle. reflexivity.
Qed.

(** *** Entries of a [dict] object and the entries they denote *)

Lemma laid_entries_denotes s n es kvs m f :
  laid_entries s n es kvs m -> m - n <= f -> Forall2 (denotes f s) kvs es.
Proof.
  induction 1 as [|n k j v m es kvs m' Hj Hes IH]; intros Hf; constructor.
  - pose proof (proj2 (proj2 (laid_le s)) _ _ _ _ Hes).
    split; [reflexivity|]. apply (proj1 (laid_load s) _ _ _ _ Hj). lia.
  - pose proof (proj1 (laid_le s) _ _ _ _ Hj). apply IH. lia.
Qed.

Lemma laid_items_loads s n js vs m f :
  laid_items s n js vs m -> m - n <= f ->
  Forall2 (fun v j => load f s v = Some j) vs js.
Proof.
  induction 1 as [|n j v m js vs m' Hj Hjs IH]; intros Hf; constructor.
  - pose proof (proj1 (proj2 (laid_le s)) _ _ _ _ Hjs).
    apply (proj1 (laid_load s) _ _ _ _ Hj). lia.
  - pose proof (proj1 (laid_le s) _ _ _ _ Hj). apply IH. lia.
Qed.

Lemma denotes_mapM f s kvs es :
  Forall2 (denotes f s) kvs es ->
  mapM (fun kv => pair (fst kv) <$> load f s (snd kv)) kvs = Some es.
Proof.
  induction 1 as [|[k v] [k' j] kvs es [Hk Hv] _ IH]; [reflexivity|].
  simpl in *. subst k'. rewrite Hv. simpl. rewrite IH. reflexivity.
Qed.

Lemma loads_mapM f s vs js :
  Forall2 (fun v j => load f s v = Some j) vs js -> mapM (load f s) vs = Some js.
Proof.
  induction 1 as [|v j vs js Hv _ IH]; [reflexivity|].
  simpl. rewrite Hv. simpl. rewrite IH. reflexivity.
Qed.

Lemma denotes_dict_set f s kvs es k v j :
  Forall2 (denotes f s) kvs es -> load f s v = Some j ->
  Forall2 (denotes f s) (dict_set k v kvs) (dict_set k j es).
Proof.
  intros H Hv. induction H as [|[k1 v1] [k2 j2] kvs es [Hk Hv1] Htl IH]; simpl in *.
  - constructor; [split; auto | constructor].
  - subst k2. destruct (String.eqb k1 k).
    + constructor; [split; auto | exact Htl].
    + constructor; [split; auto | exact IH].
Qed.

Lemma denotes_dict_del f s kvs es k :
  Forall2 (denotes f s) kvs es ->
  Forall2 (denotes f s) (dict_del k kvs) (dict_del k es).
Proof.
  induction 1 as [|[k1 v1] [k2 j2] kvs es [Hk Hv1] _ IH]; simpl in *; [constructor|].
  subst k2. unfold dict_del in *. simpl.
  destruct (String.eqb k1 k); simpl; [exact IH|]. constructor; [split; auto | exact IH].
Qed.

Lemma denotes_dict_has f s kvs es k :
  Forall2 (denotes f s) kvs es -> dict_has k kvs = dict_has k es.
Proof.
  induction 1 as [|[k1 v1] [k2 j2] kvs es [Hk Hv1] _ IH]; simpl in *; [reflexivity|].
  subst k2. unfold dict_has in *. simpl. rewrite IH. reflexivity.
Qed.

Lemma dict_del_absent {V} (k : string) (d : list (string * V)) :
  dict_has k d = false -> dict_del k d = d.
Proof.
  unfold dict_has, dict_del. induction d as [|[k1 v1] d IH]; simpl; [reflexivity|].
  intros H. apply orb_false_iff in H as [H1 H2]. rewrite H1. simpl. rewrite IH by exact H2.
  reflexivity.
Qed.

(** *** The copy of [modify_json] *)

Lemma json_dumps_laid indent s n j v n' :
  laid s n j v n' -> n' <= length s ->
  json_dumps indent v s = (Ok (dumps indent j), s).
Proof.
  intros HL Hn. unfold json_dumps, load_all.
  rewrite (proj1 (laid_load s) _ _ _ _ HL) by lia. reflexivity.
Qed.

Lemma json_loads_dumps indent j s :
  JsonText.distinct_keys j = true ->
  json_loads (dumps indent j) s = (Ok (fst (alloc j s)), snd (alloc j s)).
Proof.
  intros Hd. unfold json_loads. rewrite JsonRoundTrip.loads_dumps by exact Hd.
  destruct (alloc j s). reflexivity.
Qed.

End JsonLayoutFacts.

(** ** The JSON transform computes its function on documents *)

Module JsonTransformFacts.
Import Json JsonObj JsonAux JsonFacts JsonLayout JsonLayoutFacts JsonTransform.
Local Open Scope nat_scope.

Lemma modify_json_eq v :
  modify_json v
  = match v with
    | VNone => ret VNone
    | _ =>
        text <- json_dumps None v ;;
        modified_data <- json_loads text ;;
        after_copy modified_data
    end.
Proof. destruct v; reflexivity. Qed.

Lemma modify_json_copied s n j v n' :
  laid s n j v n' -> n' <= length s ->
  JsonText.distinct_keys j = true ->
  modify_json v s = after_copy (fst (alloc j s)) (snd (alloc j s)).
Proof.
  intros HL Hn Hd. rewrite modify_json_eq.
  assert (E : (text <- json_dumps None v ;; modified_data <- json_loads text ;;
               after_copy modified_data) s
              = after_copy (fst (alloc j s)) (snd (alloc j s))).
  { rewrite (XmlTreeFacts.bind_ok _ _ _ _ _ (json_dumps_laid None _ _ _ _ _ HL Hn)).
    rewrite (XmlTreeFacts.bind_ok _ _ _ _ _ (json_loads_dumps None j s Hd)). reflexivity. }
  destruct v; exact E.
Qed.

Lemma parsed_laid j : laid (snd (parsed j)) 0 j (fst (parsed j)) (length (snd (parsed j))).
Proof.
  unfold parsed. destruct (alloc j []) as [v s0] eqn:E.
  apply (alloc_laid j _ _ _ E).
Qed.

Lemma run_modify_json_eq j :
  JsonText.distinct_keys j = true ->
  run_modify_json j
  = let '(v, s0) := parsed j in
    let '(r, s1) := after_copy (fst (alloc j s0)) (snd (alloc j s0)) in
    (match r with Ok v' => Ok (load_all s1 v') | Err e => Err e end, Some j).
Proof.
  intros Hd. unfold run_modify_json.
  pose proof (modify_json_frame j) as (_ & _ & Hframe).
  pose proof (parsed_laid j) as HL.
  destruct (parsed j) as [v s0]. cbn [fst snd] in *.
  rewrite (modify_json_copied _ _ _ _ _ HL (le_n _) Hd) in *.
  destruct (after_copy _ _) as [r s1]. cbn [snd] in Hframe. rewrite Hframe. reflexivity.
Qed.

(** A document that is no list and no object comes back as it is. *)
Lemma after_copy_scalar v s :
  match v with VRef _ => False | _ => True end ->
  after_copy v s = (Ok v, s).
Proof. destruct v; intros H; try reflexivity. contradiction. Qed.

Lemma run_modify_json_scalar j :
  is_container j = false -> run_modify_json j = (Ok (Some j), Some j).
Proof.
  intros Hc.
  rewrite run_modify_json_eq by (destruct j; try reflexivity; discriminate).
  unfold parsed. destruct j; try discriminate; cbn [alloc fst snd]; reflexivity.
Qed.

(** *** The operations on a [dict] object *)

Lemma isinstance_list_dict s m kvs :
  s !! m = Some (ODict kvs) -> isinstance_list (VRef m) s = (Ok false, s).
Proof. intros H. unfold isinstance_list. rewrite H. reflexivity. Qed.

Lemma isinstance_dict_dict s m kvs :
  s !! m = Some (ODict kvs) -> isinstance_dict (VRef m) s = (Ok true, s).
Proof. intros H. unfold isinstance_dict. rewrite H. reflexivity. Qed.

Lemma setitem_dict s m kvs k v :
  s !! m = Some (ODict kvs) ->
  setitem (VRef m) k v s = (Ok tt, <[m := ODict (dict_set k v kvs)]> s).
Proof. intros H. unfold setitem. rewrite H. reflexivity. Qed.

Lemma contains_dict s m kvs k :
  s !! m = Some (ODict kvs) -> contains (VRef m) k s = (Ok (dict_has k kvs), s).
Proof. intros H. unfold contains. rewrite H. reflexivity. Qed.

Lemma getitem_dict s m kvs k v :
  s !! m = Some (ODict kvs) -> dict_get k kvs = Some v ->
  getitem (VRef m) k s = (Ok v, s).
Proof. intros H Hk. unfold getitem. rewrite H, Hk. reflexivity. Qed.

Lemma delitem_dict s m kvs k :
  s !! m = Some (ODict kvs) -> dict_has k kvs = true ->
  delitem (VRef m) k s = (Ok tt, <[m := ODict (dict_del k kvs)]> s).
Proof. intros H Hk. unfold delitem. rewrite H, Hk. reflexivity. Qed.

Lemma bind_err {S A B} (m : comp S A) (k : A -> comp S B) s e s' :
  m s = (Err e, s') -> bind m k s = (Err e, s').
Proof. intros E. unfold bind. rewrite E. reflexivity. Qed.

(** A document that is an object. *)
Lemma after_copy_dict s m kvs :
  s !! m = Some (ODict kvs) ->
  after_copy (VRef m) s
  = (Ok (VRef m),
     <[m := ODict (dict_del "to_delete"
                     (dict_set "new_field" (VStr "This is a new value") kvs))]> s).
Proof.
  intros Hm. pose proof (lookup_lt_Some _ _ _ Hm) as Hlt.
  set (kvs1 := dict_set "new_field" (VStr "This is a new value") kvs).
  assert (Hm1 : <[m := ODict kvs1]> s !! m = Some (ODict kvs1))
    by (apply list_lookup_insert_eq; exact Hlt).
  unfold after_copy.
  rewrite (XmlTreeFacts.bind_ok _ _ _ _ _ (isinstance_list_dict _ _ _ Hm)).
  erewrite XmlTreeFacts.bind_ok; [reflexivity|].
  rewrite (XmlTreeFacts.bind_ok _ _ _ _ _ (isinstance_dict_dict _ _ _ Hm)).
  cbn [when].
  rewrite (XmlTreeFacts.bind_ok _ _ _ _ _ (setitem_dict _ _ _ _ _ Hm)).
  rewrite (XmlTreeFacts.bind_ok _ _ _ _ _ (contains_dict _ _ _ _ Hm1)).
  fold kvs1. destruct (dict_has "to_delete" kvs1) eqn:Hhas; cbn [when].
  - rewrite (delitem_dict _ _ _ _ Hm1 Hhas), list_insert_insert_eq. reflexivity.
  - unfold ret. rewrite (dict_del_absent _ _ Hhas). reflexivity.
Qed.

Lemma run_modify_json_dict (entries : list (string * json)) :
  JsonText.distinct_keys (Dict entries) = true ->
  run_modify_json (Dict entries)
  = (Ok (Some (Dict (dict_transform entries))), Some (Dict entries)).
Proof.
  intros Hd. rewrite run_modify_json_eq by exact Hd.
  destruct (parsed (Dict entries)) as [v s0].
  destruct (alloc (Dict entries) s0) as [v' s1] eqn:E. cbn [fst snd].
  destruct (alloc_laid _ _ _ _ E) as [_ HL].
  inversion HL as [| | | | |n es kvs m Hes Hm Hn]; subst.
  rewrite (after_copy_dict _ _ _ Hm). do 2 f_equal.
  unfold load_all. rewrite length_insert.
  pose proof (lookup_lt_Some _ _ _ Hm) as Hlt.
  cbn [load]. rewrite list_lookup_insert_eq by exact Hlt.
  set (s2 := <[m := _]> s1).
  assert (Hes2 : laid_entries s2 (length s0) entries kvs m).
  { apply (proj2 (proj2 (laid_agree s1 s2)) _ _ _ _ Hes).
    apply agree_insert. right. lia. }
  pose proof (laid_entries_denotes _ _ _ _ _ (length s1) Hes2 ltac:(lia)) as HD.
  rewrite (denotes_mapM _ _ _ (dict_transform entries)); [reflexivity|].
  apply denotes_dict_del, denotes_dict_set; [exact HD|]. destruct (length s1); reflexivity.
Qed.

(** *** Keys of a [dict] *)

Lemma dict_has_get {V} (k : string) (d : list (string * V)) :
  dict_has k d = match dict_get k d with Some _ => true | None => false end.
Proof.
  unfold dict_has. induction d as [|[k1 v1] d IH]; simpl; [reflexivity|].
  destruct (String.eqb k1 k); [reflexivity | exact IH].
Qed.

Lemma dict_get_set_ne {V} (k k' : string) (v : V) (d : list (string * V)) :
  k <> k' -> dict_get k (dict_set k' v d) = dict_get k d.
Proof.
  intros Hne. induction d as [|[k1 v1] d IH]; simpl.
  - destruct (String.eqb_spec k' k); [congruence | reflexivity].
  - destruct (String.eqb_spec k1 k') as [->|Hk]; simpl.
    + destruct (String.eqb_spec k' k); [congruence|].
      destruct (String.eqb_spec k' k); [congruence | reflexivity].
    + destruct (String.eqb k1 k); [reflexivity | exact IH].
Qed.

Lemma dict_set_comm_present {V} (k k' : string) (v v' : V) (d : list (string * V)) :
  k <> k' -> dict_has k d = true ->
  dict_set k v (dict_set k' v' d) = dict_set k' v' (dict_set k v d).
Proof.
  intros Hne. unfold dict_has. induction d as [|[k1 v1] d IH]; simpl; [discriminate|].
  intros H. destruct (String.eqb_spec k1 k) as [->|Hk1].
  - destruct (String.eqb_spec k k'); [congruence|]. simpl.
    rewrite String.eqb_refl. destruct (String.eqb_spec k k'); [congruence | reflexivity].
  - simpl in H. destruct (String.eqb_spec k1 k') as [->|Hk1']; simpl.
    + destruct (String.eqb_spec k' k); [congruence|]. rewrite String.eqb_refl. reflexivity.
    + destruct (String.eqb_spec k1 k); [congruence|].
      destruct (String.eqb_spec k1 k'); [congruence|]. rewrite IH by exact H. reflexivity.
Qed.

Lemma laid_entries_get s n es kvs m k :
  laid_entries s n es kvs m ->
  match dict_get k kvs with
  | None => dict_get k es = None
  | Some p =>
      exists j c d, dict_get k es = Some j /\ laid s c j p d /\ n <= c /\ d <= m
        /\ forall s' f j', agree n c s s' -> agree d m s s' -> m - n <= f ->
             load f s' p = Some j' ->
             Forall2 (denotes f s') kvs (dict_set k j' es)
  end.
Proof.
  induction 1 as [|n k1 j1 v1 m1 es kvs m' Hj Hes IH]; [reflexivity|].
  pose proof (proj1 (laid_le s) _ _ _ _ Hj) as Hn.
  pose proof (proj2 (proj2 (laid_le s)) _ _ _ _ Hes) as Hm.
  cbn [dict_get]. destruct (String.eqb_spec k1 k) as [->|Hne].
  - exists j1, n, m1. split; [reflexivity|]. split; [exact Hj|].
    split; [lia|]. split; [lia|].
    intros s' f j' _ Ha Hf Hp. cbn [dict_set]. rewrite String.eqb_refl.
    constructor; [split; [reflexivity | exact Hp]|].
    apply (laid_entries_denotes s' m1 es kvs m'); [|lia].
    apply (proj2 (proj2 (laid_agree s s')) _ _ _ _ Hes Ha).
  - destruct (dict_get k kvs) as [p|]; [|exact IH].
    destruct IH as (j & c & d & Hg & Hp & Hc & Hd & Hrep).
    exists j, c, d. split; [exact Hg|]. split; [exact Hp|]. split; [lia|]. split; [lia|].
    intros s' f j' Ha1 Ha2 Hf Hl. cbn [dict_set].
    destruct (String.eqb_spec k1 k); [congruence|].
    constructor.
    + split; [reflexivity|]. cbn [snd].
      apply (proj1 (laid_load s') n j1 v1 m1); [|lia].
      apply (proj1 (laid_agree s s') _ _ _ _ Hj). eapply agree_sub; [exact Ha1 | lia | lia].
    + apply Hrep; [|exact Ha2|lia|exact Hl]. eapply agree_sub; [exact Ha1 | lia | lia].
Qed.

(** *** One item of the loop *)

Lemma load_scalar f s x : load f s (VStr x) = Some (Str x).
Proof. destruct f; reflexivity. Qed.

Lemma final_load s li kvs es f :
  s !! li = Some (ODict (dict_set "new" (VStr "Something")
                          (dict_set "user_query" (VStr user_query_text) kvs))) ->
  Forall2 (denotes f s) kvs es ->
  load (S f) s (VRef li)
  = Some (Dict (dict_set "new" (Str "Something")
                  (dict_set "user_query" (Str user_query_text) es))).
Proof.
  intros Hli HD. cbn [load]. rewrite Hli.
  rewrite (denotes_mapM f s _ (dict_set "new" (Str "Something")
                                 (dict_set "user_query" (Str user_query_text) es)));
    [reflexivity|].
  apply denotes_dict_set; [|apply load_scalar].
  apply denotes_dict_set; [exact HD | apply load_scalar].
Qed.

Lemma value_eqb_str_load f s v j x :
  load f s v = Some j -> value_eqb_str v x = json_eqb_str j x.
Proof.
  destruct v as [| b | z | y | l]; destruct f; simpl; try (intros [= <-]; reflexivity);
    try discriminate.
  destruct (s !! l) as [[items|entries]|]; [| |discriminate].
  - destruct (mapM _ items); simpl; intros [= <-]; reflexivity.
  - destruct (mapM _ entries); simpl; intros [= <-]; reflexivity.
Qed.

Lemma existsb_value_eqb_str f s vs js x :
  Forall2 (fun v j => load f s v = Some j) vs js ->
  existsb (fun v => value_eqb_str v x) vs = existsb (fun j => json_eqb_str j x) js.
Proof.
  induction 1 as [|v j vs js Hv _ IH]; [reflexivity|]. simpl.
  rewrite (value_eqb_str_load _ _ _ _ _ Hv), IH. reflexivity.
Qed.

Lemma and_then_false {S} (a b : comp S bool) s s' :
  a s = (Ok false, s') -> and_then a b s = (Ok false, s').
Proof. intros E. unfold and_then. rewrite (XmlTreeFacts.bind_ok _ _ _ _ _ E). reflexivity. Qed.

Lemma and_then_true {S} (a b : comp S bool) s s' :
  a s = (Ok true, s') -> and_then a b s = b s'.
Proof. intros E. unfold and_then. rewrite (XmlTreeFacts.bind_ok _ _ _ _ _ E). reflexivity. Qed.

Lemma bind_congr {S A B} (m m' : comp S A) (k : A -> comp S B) s s' :
  m s = m' s' -> bind m k s = bind m' k s'.
Proof. intros E. unfold bind. rewrite E. reflexivity. Qed.

Lemma item_body_dict s a es kvs li :
  laid_entries s a es kvs li -> s !! li = Some (ODict kvs) ->
  item_ok s a (S li) (Dict es) (VRef li) (item_body (VRef li) s).
Proof.
  intros Hes Hli.
  pose proof (proj2 (proj2 (laid_le s)) _ _ _ _ Hes) as Hale.
  pose proof (lookup_lt_Some _ _ _ Hli) as Hlt.
  set (kvs1 := dict_set "new" (VStr "Something")
                 (dict_set "user_query" (VStr user_query_text) kvs)).
  set (s2 := <[li := ODict kvs1]> s).
  assert (Hli2 : s2 !! li = Some (ODict kvs1))
    by (apply list_lookup_insert_eq; exact Hlt).
  assert (Hlen2 : length s2 = length s) by apply length_insert.
  assert (Hout2 : forall l, l < a \/ S li <= l -> s2 !! l = s !! l).
  { intros l Hl. apply list_lookup_insert_ne. lia. }
  assert (Hag2 : forall n n', n' <= li -> agree n n' s s2).
  { intros n n' Hn. apply agree_insert. right. exact Hn. }
  (* the two assignments *)
  assert (E0 : item_body (VRef li) s
    = (c <- and_then (contains (VRef li) "parameters")
              (p <- getitem (VRef li) "parameters" ;; contains p "offensive_player") ;;
       when c (p <- getitem (VRef li) "parameters" ;; delitem p "offensive_player")) s2).
  { unfold item_body.
    rewrite (XmlTreeFacts.bind_ok _ _ _ _ _ (isinstance_dict_dict _ _ _ Hli)). cbn [when].
    rewrite (XmlTreeFacts.bind_ok _ _ _ _ _ (setitem_dict _ _ _ _ _ Hli)).
    erewrite XmlTreeFacts.bind_ok.
    2:{ apply setitem_dict. apply list_lookup_insert_eq. exact Hlt. }
    rewrite list_insert_insert_eq. reflexivity. }
  rewrite E0. clear E0.
  assert (Hget1 : dict_get "parameters" kvs1 = dict_get "parameters" kvs).
  { unfold kvs1. rewrite !dict_get_set_ne by discriminate. reflexivity. }
  assert (Hgete : dict_get "parameters"
                    (dict_set "new" (Str "Something")
                       (dict_set "user_query" (Str user_query_text) es))
                  = dict_get "parameters" es).
  { rewrite !dict_get_set_ne by discriminate. reflexivity. }
  (* what the item denotes when nothing below it is written *)
  assert (Hplain : forall s'' f, agree a (S li) s2 s'' -> S li - a <= f ->
            load f s'' (VRef li)
            = Some (Dict (dict_set "new" (Str "Something")
                            (dict_set "user_query" (Str user_query_text) es)))).
  { intros s'' f Hag Hf. destruct f as [|f]; [lia|].
    apply (final_load s'' li kvs es f); [rewrite Hag by lia; exact Hli2|].
    apply (laid_entries_denotes s'' a es kvs li); [|lia].
    apply (proj2 (proj2 (laid_agree s s'')) _ _ _ _ Hes).
    eapply agree_trans; [apply (Hag2 a li); lia|]. eapply agree_sub; [exact Hag|lia|lia]. }
  pose proof (laid_entries_get s a es kvs li "parameters" Hes) as Hpar.
  pose proof (contains_dict _ _ _ "parameters" Hli2) as Hc.
  rewrite dict_has_get, Hget1 in Hc.
  unfold item_ok. cbn [item_transform]. rewrite Hgete.
  destruct (dict_get "parameters" kvs) as [p|].
  2:{ (* no key [parameters] *)
    rewrite Hpar.
    rewrite (XmlTreeFacts.bind_ok _ _ _ _ _ (and_then_false _ _ _ _ Hc)). cbn [when fst snd ret].
    split; [exact Hlen2|]. split; [exact Hout2|]. split; [reflexivity|]. exact Hplain. }
  destruct Hpar as (j & c & d & Hge & Hp & Hac & Hdl & Hrep). rewrite Hge.
  pose proof (getitem_dict _ _ _ "parameters" p Hli2 ltac:(rewrite Hget1; reflexivity)) as Hgi.
  rewrite (bind_congr _ _ _ _ _ (and_then_true _ _ _ _ Hc)).
  inversion Hp as [n0|n0 b0|n0 z|n0 y|n0 xs pvs lp Hxs Hlp|n0 ps pkvs lp Hps Hlp]; subst.
  - (* None *)
    erewrite bind_err; [|erewrite XmlTreeFacts.bind_ok; [|exact Hgi]; reflexivity].
    cbn [fst snd]. auto.
  - erewrite bind_err; [|erewrite XmlTreeFacts.bind_ok; [|exact Hgi]; reflexivity].
    cbn [fst snd]. auto.
  - erewrite bind_err; [|erewrite XmlTreeFacts.bind_ok; [|exact Hgi]; reflexivity].
    cbn [fst snd]. auto.
  - (* a string *)
    erewrite XmlTreeFacts.bind_ok; [|erewrite XmlTreeFacts.bind_ok; [|exact Hgi]; reflexivity].
    destruct (Str.contains y "offensive_player"); cbn [when].
    + erewrite XmlTreeFacts.bind_ok; [|exact Hgi]. cbn [delitem fst snd]. auto.
    + cbn [ret fst snd]. auto.
  - (* a list *)
    pose proof (proj1 (proj2 (laid_le s)) _ _ _ _ Hxs) as Hcl.
    assert (Hlp2 : s2 !! lp = Some (OList pvs)).
    { rewrite (Hag2 c (S lp)) by lia. exact Hlp. }
    assert (Hcp : contains (VRef lp) "offensive_player" s2
                  = (Ok (existsb (fun x => json_eqb_str x "offensive_player") xs), s2)).
    { unfold contains. rewrite Hlp2. do 2 f_equal.
      apply (existsb_value_eqb_str (lp - c) s).
      apply (laid_items_loads s c xs pvs lp); [exact Hxs | lia]. }
    erewrite XmlTreeFacts.bind_ok; [|erewrite XmlTreeFacts.bind_ok; [|exact Hgi]; exact Hcp].
    destruct (existsb _ xs); cbn [when].
    + erewrite XmlTreeFacts.bind_ok; [|exact Hgi]. unfold delitem. rewrite Hlp2.
      cbn [fst snd]. auto.
    + cbn [ret fst snd]. auto.
  - (* an object *)
    pose proof (proj2 (proj2 (laid_le s)) _ _ _ _ Hps) as Hcl.
    assert (Hlp2 : s2 !! lp = Some (ODict pkvs)).
    { rewrite (Hag2 c (S lp)) by lia. exact Hlp. }
    assert (Hhas : dict_has "offensive_player" pkvs = dict_has "offensive_player" ps).
    { apply (denotes_dict_has (lp - c) s).
      apply (laid_entries_denotes s c ps pkvs lp); [exact Hps | lia]. }
    set (s3 := <[lp := ODict (dict_del "offensive_player" pkvs)]> s2).
    assert (E3 : (c0 <- (p <- getitem (VRef li) "parameters" ;;
                         contains p "offensive_player") ;;
                  when c0 (p <- getitem (VRef li) "parameters" ;;
                           delitem p "offensive_player")) s2 = (Ok tt, s3)).
    { erewrite XmlTreeFacts.bind_ok;
        [|erewrite XmlTreeFacts.bind_ok; [|exact Hgi]; apply contains_dict; exact Hlp2].
      destruct (dict_has "offensive_player" pkvs) eqn:Hh; cbn [when].
      - erewrite XmlTreeFacts.bind_ok; [|exact Hgi].
        apply delitem_dict; assumption.
      - unfold ret, s3. rewrite (dict_del_absent _ _ Hh).
        rewrite list_insert_id by exact Hlp2. reflexivity. }
    rewrite E3. cbn [fst snd].
    assert (Hlplt : lp < length s2) by (eapply lookup_lt_Some; eauto).
    split; [unfold s3; rewrite length_insert; exact Hlen2|].
    split.
    { intros l Hl. unfold s3. rewrite list_lookup_insert_ne by lia. apply Hout2. exact Hl. }
    split; [reflexivity|].
    intros s'' f Hag Hf. destruct f as [|f]; [lia|].
    assert (Hs2 : forall l, a <= l < S li -> l <> lp -> s'' !! l = s2 !! l).
    { intros l Hl Hne. rewrite Hag by exact Hl. unfold s3.
      apply list_lookup_insert_ne. auto. }
    assert (Hs : forall l, a <= l < li -> l <> lp -> s'' !! l = s !! l).
    { intros l Hl Hne. rewrite Hs2 by (lia || exact Hne). apply (Hag2 a li); lia. }
    rewrite (dict_set_comm_present "parameters" "new").
    2: discriminate.
    2:{ rewrite dict_has_get, dict_get_set_ne, Hge by discriminate. reflexivity. }
    rewrite (dict_set_comm_present "parameters" "user_query").
    2: discriminate.
    2:{ rewrite dict_has_get, Hge. reflexivity. }
    apply (final_load s'' li kvs _ f); [rewrite Hs2 by lia; exact Hli2|].
    apply Hrep.
    + intros l Hl. apply Hs; lia.
    + intros l Hl. apply Hs; lia.
    + lia.
    + destruct f as [|f]; [lia|]. cbn [load].
      rewrite Hag by lia. unfold s3. rewrite list_lookup_insert_eq by exact Hlplt.
      rewrite (denotes_mapM f s'' _ (dict_del "offensive_player" ps)); [reflexivity|].
      apply denotes_dict_del.
      apply (laid_entries_denotes s'' c ps pkvs lp); [|lia].
      apply (proj2 (proj2 (laid_agree s s'')) _ _ _ _ Hps).
      intros l Hl. apply Hs; lia.
Qed.

Lemma item_body_laid s a item v b :
  laid s a item v b -> item_ok s a b item v (item_body v s).
Proof.
  intros HL.
  inversion HL as [n0|n0 b0|n0 z|n0 y|n0 xs vs m Hxs Hm|n0 es kvs m Hes Hm]; subst.
  1-4: (split; [reflexivity|]; split; [reflexivity|]; split; [reflexivity|];
        intros s'' f _ _; destruct f; reflexivity).
  - assert (E : item_body (VRef m) s = (Ok tt, s)).
    { unfold item_body, bind, isinstance_dict. rewrite Hm. reflexivity. }
    rewrite E. split; [reflexivity|]. split; [reflexivity|]. split; [reflexivity|].
    intros s'' f Hag Hf. cbn [snd] in Hag.
    apply (proj1 (laid_load s'') a (List xs) (VRef m) (S m)); [|exact Hf].
    apply (proj1 (laid_agree s s'') _ _ _ _ HL Hag).
  - apply (item_body_dict s a es kvs m); assumption.
Qed.

(** *** The loop *)

Lemma for_each_items s a items vs b :
  laid_items s a items vs b ->
  exists r s', for_each vs item_body s = (r, s')
    /\ length s' = length s
    /\ (forall l, l < a \/ b <= l -> s' !! l = s !! l)
    /\ match items_transform items with
       | Ok ts =>
           r = Ok tt
           /\ forall s'' f, agree a b s' s'' -> b - a <= f ->
                Forall2 (fun v t => load f s'' v = Some t) vs ts
       | Err e => r = Err e
       end.
Proof.
  intros HL. revert s HL.
  assert (G : forall n items vs b s0,
             laid_items s0 n items vs b ->
             forall s, length s = length s0 -> agree n b s0 s ->
             exists r s', for_each vs item_body s = (r, s')
               /\ length s' = length s
               /\ (forall l, l < n \/ b <= l -> s' !! l = s !! l)
               /\ match items_transform items with
                  | Ok ts =>
                      r = Ok tt
                      /\ forall s'' f, agree n b s' s'' -> b - n <= f ->
                           Forall2 (fun v t => load f s'' v = Some t) vs ts
                  | Err e => r = Err e
                  end).
  { clear. intros n items vs b s0 HL.
    induction HL as [n|n j v m js vs m' Hj Hjs IH]; intros s Hlen Hag.
    - exists (Ok tt), s. split; [reflexivity|]. split; [reflexivity|].
      split; [reflexivity|]. split; [reflexivity|]. intros. constructor.
    - pose proof (proj1 (laid_le s0) _ _ _ _ Hj) as Hnm.
      pose proof (proj1 (proj2 (laid_le s0)) _ _ _ _ Hjs) as Hmm.
      assert (Hj' : laid s n j v m).
      { apply (proj1 (laid_agree s0 s) _ _ _ _ Hj). eapply agree_sub; [exact Hag|lia|lia]. }
      destruct (item_body_laid _ _ _ _ _ Hj') as (Hl1 & Ho1 & Ht1).
      destruct (item_body v s) as [r1 s1] eqn:E1. cbn [fst snd] in *.
      cbn [for_each items_transform].
      destruct (item_transform j) as [t|e].
      2:{ subst r1. exists (Err e), s1. split; [apply (bind_err _ _ _ _ _ E1)|].
          split; [exact Hl1|]. split; [|reflexivity].
          intros l Hl. apply Ho1. lia. }
      destruct Ht1 as [-> Hload1].
      destruct (IH s1) as (r & s' & E & Hl' & Ho' & Ht').
      { lia. }
      { intros l Hl. rewrite Ho1 by lia. apply Hag. lia. }
      exists r, s'. split; [rewrite (XmlTreeFacts.bind_ok _ _ _ _ _ E1); exact E|].
      split; [lia|]. split.
      { intros l Hl. rewrite Ho' by lia. apply Ho1. lia. }
      destruct (items_transform js) as [ts|e]; [|exact Ht'].
      destruct Ht' as [-> Hloads]. split; [reflexivity|].
      intros s'' f Hag' Hf. constructor.
      + apply Hload1; [|lia]. intros l Hl. rewrite Hag' by lia. apply Ho'. lia.
      + apply Hloads; [|lia]. eapply agree_sub; [exact Hag'|lia|lia]. }
  intros s HL. apply (G a items vs b s HL s eq_refl (agree_refl _ _ _)).
Qed.

(** A document that is a list. *)
Lemma after_copy_list s a items vs m :
  laid_items s a items vs m -> s !! m = Some (OList vs) ->
  exists r s', after_copy (VRef m) s = (r, s')
    /\ match items_transform items with
       | Ok ts => r = Ok (VRef m) /\ load_all s' (VRef m) = Some (List ts)
       | Err e => r = Err e
       end.
Proof.
  intros HL Hm.
  pose proof (proj1 (proj2 (laid_le s)) _ _ _ _ HL) as Ham.
  destruct (for_each_items _ _ _ _ _ HL) as (r & s' & E & Hlen & Hout & Ht).
  assert (E1 : isinstance_list (VRef m) s = (Ok true, s)).
  { unfold isinstance_list. rewrite Hm. reflexivity. }
  assert (E2 : list_items (VRef m) s = (Ok vs, s)).
  { unfold list_items. rewrite Hm. reflexivity. }
  unfold after_copy. rewrite (XmlTreeFacts.bind_ok _ _ _ _ _ E1).
  destruct (items_transform items) as [ts|e].
  - destruct Ht as [-> Hloads]. exists (Ok (VRef m)), s'. split.
    + erewrite XmlTreeFacts.bind_ok; [reflexivity|].
      rewrite (XmlTreeFacts.bind_ok _ _ _ _ _ E2). exact E.
    + split; [reflexivity|]. unfold load_all. cbn [load].
      rewrite Hout by lia. rewrite Hm.
      rewrite (loads_mapM _ _ _ ts); [reflexivity|].
      apply Hloads; [apply agree_refl|]. pose proof (lookup_lt_Some _ _ _ Hm). lia.
  - subst r. exists (Err e), s'. split; [|reflexivity].
    apply bind_err. rewrite (XmlTreeFacts.bind_ok _ _ _ _ _ E2). exact E.
Qed.

Lemma run_modify_json_list (items : list json) :
  JsonText.distinct_keys (List items) = true ->
  run_modify_json (List items)
  = (match items_transform items with
     | Ok ts => Ok (Some (List ts))
     | Err e => Err e
     end, Some (List items)).
Proof.
  intros Hd. rewrite run_modify_json_eq by exact Hd.
  destruct (parsed (List items)) as [v s0].
  destruct (alloc (List items) s0) as [v' s1] eqn:E. cbn [fst snd].
  destruct (alloc_laid _ _ _ _ E) as [_ HL].
  inversion HL as [| | | |n xs vs m Hxs Hm Hn|]; subst.
  destruct (after_copy_list _ _ _ _ _ Hxs Hm) as (r & s' & E' & Ht).
  rewrite E'. destruct (items_transform items) as [ts|e].
  - destruct Ht as [-> ->]. reflexivity.
  - subst r. reflexivity.
Qed.

End JsonTransformFacts.

(** ** The documents [json.loads] returns *)

Module JsonDecoded.
Import Json JsonText.

Lemma dict_set_keys {V} (k : string) (v : V) (d : list (string * V)) (x : string) :
  x ∈ map fst (dict_set k v d) -> x = k \/ x ∈ map fst d.
Proof.
  induction d as [|[k1 v1] d IH]; cbn [dict_set map fst].
  - intros H. apply list_elem_of_singleton in H. auto.
  - destruct (String.eqb_spec k1 k) as [->|Hne]; cbn [map fst]; intros H.
    + right. exact H.
    + apply elem_of_cons in H as [->|H]; [right; left|].
      destruct (IH H) as [?|?]; [auto | right; right; assumption].
Qed.

Lemma dict_set_NoDup {V} (k : string) (v : V) (d : list (string * V)) :
  NoDup (map fst d) -> NoDup (map fst (dict_set k v d)).
Proof.
  induction d as [|[k1 v1] d IH]; cbn [dict_set map fst]; intros H.
  - apply NoDup_singleton.
  - apply NoDup_cons in H as [H1 H2].
    destruct (String.eqb_spec k1 k) as [->|Hne]; cbn [map fst].
    + apply NoDup_cons. auto.
    + apply NoDup_cons. split; [|apply IH; exact H2].
      intros Hin. apply dict_set_keys in Hin as [?|?]; [congruence | contradiction].
Qed.

Lemma dict_set_Forall {V} (P : V -> Prop) (k : string) (v : V) (d : list (string * V)) :
  P v -> Forall (fun kv => P (snd kv)) d -> Forall (fun kv => P (snd kv)) (dict_set k v d).
Proof.
  intros Hv. induction 1 as [|[k1 v1] d H1 Hd IH]; simpl.
  - constructor; [exact Hv | constructor].
  - destruct (String.eqb k1 k); constructor; auto.
Qed.

Lemma dict_of_pairs_ok {V} (P : V -> Prop) (pairs : list (string * V)) :
  Forall (fun kv => P (snd kv)) pairs ->
  NoDup (map fst (dict_of_pairs pairs))
  /\ Forall (fun kv => P (snd kv)) (dict_of_pairs pairs).
Proof.
  unfold dict_of_pairs.
  assert (G : forall acc, NoDup (map fst acc) -> Forall (fun kv => P (snd kv)) acc ->
                Forall (fun kv => P (snd kv)) pairs ->
                NoDup (map fst (fold_left (fun d kv => dict_set (fst kv) (snd kv) d) pairs acc))
                /\ Forall (fun kv => P (snd kv))
                     (fold_left (fun d kv => dict_set (fst kv) (snd kv) d) pairs acc)).
  { induction pairs as [|[k v] pairs IH]; intros acc Hn Ha Hp; simpl; [auto|].
    apply Forall_cons in Hp as [Hv Hp].
    apply IH; [apply dict_set_NoDup; exact Hn | apply dict_set_Forall; assumption | exact Hp]. }
  intros H. apply (G []); [apply NoDup_nil_2 | constructor | exact H].
Qed.

Lemma distinct_keys_Dict_intro entries :
  NoDup (map fst entries) ->
  Forall (fun kv => distinct_keys (snd kv) = true) entries ->
  distinct_keys (Dict entries) = true.
Proof.
  intros Hn Hf. cbn [distinct_keys]. apply andb_true_iff. split.
  - apply bool_decide_eq_true. exact Hn.
  - apply forallb_forall. intros kv Hkv. apply list_elem_of_In in Hkv.
    eapply Forall_forall in Hf; eauto.
Qed.

Lemma distinct_keys_List_intro items :
  Forall (fun v => distinct_keys v = true) items -> distinct_keys (List items) = true.
Proof.
  intros Hf. cbn [distinct_keys]. apply forallb_forall. intros v Hv.
  apply list_elem_of_In in Hv. eapply Forall_forall in Hf; eauto.
Qed.

Lemma scan_distinct_keys (fuel : nat) :
  (forall s j r, scan_once fuel s = Ok (j, r) -> distinct_keys j = true)
  /\ (forall s js r, array_loop fuel s = Ok (js, r) ->
        Forall (fun v => distinct_keys v = true) js)
  /\ (forall s ps r, object_loop fuel s = Ok (ps, r) ->
        Forall (fun kv => distinct_keys (snd kv) = true) ps).
Proof.
  induction fuel as [|f (IH1 & IH2 & IH3)].
  - repeat split; intros; discriminate.
  - repeat split.
    + intros s j r H. cbn [scan_once] in H. unfold rbind in H.
      repeat case_match; simplify_eq; try reflexivity.
      * apply distinct_keys_Dict_intro;
          apply (dict_of_pairs_ok (fun v => distinct_keys v = true) l); eapply IH3; eauto.
      * apply distinct_keys_List_intro. eapply IH2; eauto.
    + intros s js r H. rewrite JsonRoundTrip.array_loop_S in H. unfold rbind in H.
      repeat case_match; simplify_eq.
      * constructor; [eapply IH1; eauto | constructor].
      * constructor; [eapply IH1; eauto | eapply IH2; eauto].
    + intros s ps r H. rewrite JsonRoundTrip.object_loop_S in H. unfold rbind in H.
      repeat case_match; simplify_eq.
      * constructor; [eapply IH1; eauto | constructor].
      * constructor; [eapply IH1; eauto | eapply IH3; eauto].
Qed.

(** The keys of every object that [json.loads] returns are distinct. *)
Lemma loads_distinct_keys (text : string) (j : json) :
  loads text = Ok j -> distinct_keys j = true.
Proof.
  unfold loads, rbind. intros H. repeat case_match; simplify_eq.
  eapply (proj1 (scan_distinct_keys _)); eauto.
Qed.

End JsonDecoded.

(** ** Where the loop of the JSON transform raises: facts *)

Module JsonRaisesFacts.
Import Json JsonObj JsonTransform JsonRaises JsonTransformFacts.

Lemma item_transform_raises item :
  if item_raises item then item_transform item = Err TypeError
  else exists t, item_transform item = Ok t.
Proof.
  destruct item as [| b | z | x | items | entries]; try (eexists; reflexivity).
  cbn [item_raises item_transform]. rewrite !dict_get_set_ne by discriminate.
  destruct (dict_get "parameters" entries) as [[| b | z | y | xs | ps]|]; cbn [raises_at_parameters];
    try reflexivity; try (eexists; reflexivity).
  - destruct (Str.contains y "offensive_player"); [reflexivity | eexists; reflexivity].
  - destruct (existsb _ xs); [reflexivity | eexists; reflexivity].
Qed.

Lemma items_transform_raises items :
  if existsb item_raises items then items_transform items = Err TypeError
  else exists ts, items_transform items = Ok ts /\ length ts = length items.
Proof.
  induction items as [|item items IH]; [exists []; split; reflexivity|].
  cbn [existsb items_transform]. pose proof (item_transform_raises item) as H.
  destruct (item_raises item); cbn [orb].
  - rewrite H. reflexivity.
  - destruct H as [t ->]. destruct (existsb item_raises items).
    + rewrite IH. reflexivity.
    + destruct IH as (ts & -> & Hlen). exists (t :: ts). split; [reflexivity|].
      simpl. rewrite Hlen. reflexivity.
Qed.

End JsonRaisesFacts.

(** ** The rendering of a diff *)

Section HtmlFacts2.

Lemma startswith_char (line : string) (c : ascii) :
  Str.startswith line (String c EmptyString)
  = match line with
    | String d _ => Ascii.eqb c d
    | EmptyString => false
    end.
Proof.
  unfold Str.startswith. destruct line as [|d r]; [reflexivity|]. simpl.
  destruct (ascii_dec c d) as [->|Hne].
  - rewrite Ascii.eqb_refl. destruct r; reflexivity.
  - symmetry. apply Ascii.eqb_neq. exact Hne.
Qed.

Lemma join_cons (x : string) (xs : list string) :
  Str.join (x :: xs) = (x ++ Str.join xs)%string.
Proof.
  unfold Str.join. destruct xs as [|y ys]; [|reflexivity]. simpl.
  symmetry. apply JsonRoundTrip.string_app_nil_r.
Qed.

Lemma join_app (xs ys : list string) :
  Str.join (xs ++ ys) = (Str.join xs ++ Str.join ys)%string.
Proof.
  induction xs as [|x xs IH]; [reflexivity|].
  rewrite <- app_comm_cons, !join_cons, IH, JsonRoundTrip.string_app_assoc. reflexivity.
Qed.

Lemma html_lines_hint (line : string) (a : list string) :
  is_hint line = true -> html_lines (line :: a) = html_lines a.
Proof.
  unfold is_hint. cbn [html_lines]. rewrite !startswith_char.
  destruct line as [|d r]; [discriminate|]. intros H.
  apply Ascii.eqb_eq in H. subst d. reflexivity.
Qed.

Lemma html_lines_shown (line : string) (a : list string) :
  is_hint line = false -> html_lines (line :: a) = html_line line :: html_lines a.
Proof.
  unfold is_hint, html_line. cbn [html_lines]. intros H. rewrite H.
  destruct (Str.startswith line "+"); [reflexivity|].
  destruct (Str.startswith line "-"); reflexivity.
Qed.

Lemma html_lines_no_hint (a : list string) :
  html_lines (List.filter (fun line => negb (is_hint line)) a) = html_lines a.
Proof.
  induction a as [|line a IH]; [reflexivity|].
  cbn [List.filter]. destruct (is_hint line) eqn:E; cbn [negb].
  - rewrite (html_lines_hint _ _ E). exact IH.
  - rewrite !(html_lines_shown _ _ E), IH. reflexivity.
Qed.

Lemma html_lines_length (a : list string) :
  length (html_lines a) = length (List.filter (fun line => negb (is_hint line)) a).
Proof.
  induction a as [|line a IH]; [reflexivity|].
  cbn [List.filter]. destruct (is_hint line) eqn:E; cbn [negb].
  - rewrite (html_lines_hint _ _ E). exact IH.
  - rewrite (html_lines_shown _ _ E). simpl. rewrite IH. reflexivity.
Qed.

Lemma html_lines_map (a : list string) :
  html_lines a = map html_line (List.filter (fun line => negb (is_hint line)) a).
Proof.
  induction a as [|line a IH]; [reflexivity|].
  cbn [List.filter]. destruct (is_hint line) eqn:E; cbn [negb map].
  - rewrite (html_lines_hint _ _ E). exact IH.
  - rewrite (html_lines_shown _ _ E), IH. reflexivity.
Qed.

End HtmlFacts2.

(** ** [difflib]: the matcher and the delta on every pair of sequences *)

Module DifflibBlocks.
Import Difflib DifflibSpec.
Local Open Scope nat_scope.

Section Blocks.
Context {A : Type} `{EqDecision A}.
Variable isjunk : option (A -> bool).
Variable autojunk : bool.
Variables a b : list A.

Lemma b2j_get_elem (x : A) :
  Forall (fun j => b !! j = Some x) (b2j_get isjunk autojunk b x).
Proof.
  unfold b2j_get. destruct (_ || _); [constructor|].
  apply Forall_forall. intros j Hj.
  apply DifflibFacts.indices_from_elem in Hj as (j' & -> & Hj'). exact Hj'.
Qed.

Lemma ends_ok_next alo blo bhi i x j j2len :
  a !! i = Some x -> b !! j = Some x ->
  alo <= i -> blo <= j -> j < bhi ->
  row_ok a b alo blo bhi i j2len ->
  ends_ok a b alo blo bhi (S i) j (j2lenget j2len j + 1).
Proof.
  intros Ha Hb Hi Hj Hjb Hrow.
  assert (Hcase : j2lenget j2len j = 0
                  \/ exists j' k0, j = S j' /\ j2len !! j' = Some k0 /\ j2lenget j2len j = k0).
  { destruct j as [|j']; [left; reflexivity|]. cbn [j2lenget].
    destruct (j2len !! j') as [k0|] eqn:E; [right; eauto | left; reflexivity]. }
  destruct Hcase as [-> | (j' & k0 & -> & E & ->)].
  - repeat split; try lia. intros t Ht. exists x.
    replace (S i - (0 + 1) + t) with i by lia.
    replace (j + 1 - (0 + 1) + t) with j by lia. auto.
  - destruct (Hrow _ _ E) as (H1 & H2 & H3 & H4 & Hm).
    repeat split; try lia. intros t Ht.
    destruct (decide (t < k0)) as [Hlt|Hge].
    + destruct (Hm t Hlt) as (y & Hy1 & Hy2). exists y.
      replace (S i - (k0 + 1) + t) with (i - k0 + t) by lia.
      replace (S j' + 1 - (k0 + 1) + t) with (j' + 1 - k0 + t) by lia. auto.
    + exists x.
      replace (S i - (k0 + 1) + t) with i by lia.
      replace (S j' + 1 - (k0 + 1) + t) with (S j') by lia. auto.
Qed.

Lemma scan_row_ok js i x alo ahi blo bhi j2len new best :
  a !! i = Some x -> Forall (fun j => b !! j = Some x) js ->
  alo <= i -> i < ahi ->
  row_ok a b alo blo bhi i j2len ->
  row_ok a b alo blo bhi (S i) new ->
  block_ok a b alo ahi blo bhi best ->
  row_ok a b alo blo bhi (S i) (fst (scan_row js i blo bhi j2len new best))
  /\ block_ok a b alo ahi blo bhi (snd (scan_row js i blo bhi j2len new best)).
Proof.
  intros Ha Hjs Hi Hia Hrow. revert new best.
  induction Hjs as [|j js Hb _ IH]; intros new best Hnew Hbest; cbn [scan_row].
  - split; assumption.
  - destruct (j <? blo) eqn:Hlo; [apply IH; assumption|].
    apply Nat.ltb_ge in Hlo.
    destruct (bhi <=? j) eqn:Hhi; [split; assumption|].
    apply Nat.leb_gt in Hhi.
    pose proof (ends_ok_next alo blo bhi i x j j2len Ha Hb Hi Hlo Hhi Hrow) as Hk.
    destruct best as [[bi bj] bs]. apply IH.
    + intros j0 k0. destruct (decide (j0 = j)) as [->|Hne].
      * rewrite lookup_insert_eq. intros [= <-]. exact Hk.
      * rewrite lookup_insert_ne by congruence. apply Hnew.
    + destruct (bs <? j2lenget j2len j + 1); [|exact Hbest].
      destruct Hk as (H1 & H2 & H3 & H4 & Hm).
      unfold block_ok. repeat split; try lia.
      replace (i + 1 - (j2lenget j2len j + 1)) with (S i - (j2lenget j2len j + 1)) by lia.
      exact Hm.
Qed.

Lemma row_ok_empty alo blo bhi i : row_ok a b alo blo bhi i ∅.
Proof. intros j k. rewrite lookup_empty. discriminate. Qed.

Lemma scan_rows_ok m i alo ahi blo bhi j2len best :
  alo <= i -> i + m <= ahi ->
  row_ok a b alo blo bhi i j2len ->
  block_ok a b alo ahi blo bhi best ->
  block_ok a b alo ahi blo bhi
    (scan_rows isjunk autojunk a b (seq i m) blo bhi j2len best).
Proof.
  revert i j2len best. induction m as [|m IH]; intros i j2len best Hi Him Hrow Hbest;
    cbn [seq scan_rows]; [exact Hbest|].
  destruct (a !! i) as [x|] eqn:Ha.
  - pose proof (scan_row_ok (b2j_get isjunk autojunk b x) i x alo ahi blo bhi j2len ∅ best
                  Ha (b2j_get_elem x) Hi ltac:(lia) Hrow (row_ok_empty _ _ _ _) Hbest)
      as [H1 H2].
    destruct (scan_row _ _ _ _ _ _ _) as [new best']. cbn [fst snd] in *.
    apply IH; [lia | lia | exact H1 | exact H2].
  - cbn [scan_row]. apply IH; [lia | lia | apply row_ok_empty | exact Hbest].
Qed.

Lemma same_at_true i j :
  same_at a b i j = true -> exists x, a !! i = Some x /\ b !! j = Some x.
Proof.
  unfold same_at. destruct (a !! i) as [x|]; [|discriminate].
  destruct (b !! j) as [y|]; [|discriminate].
  intros H. apply bool_decide_eq_true_1 in H. subst y. eauto.
Qed.

Lemma extend_down_ok fuel junk alo ahi blo bhi best :
  block_ok a b alo ahi blo bhi best ->
  block_ok a b alo ahi blo bhi (extend_down isjunk a b fuel junk alo blo best).
Proof.
  revert best. induction fuel as [|f IH]; intros best Hbest; cbn [extend_down];
    [exact Hbest|].
  destruct best as [[bi bj] bs].
  destruct (_ && _) eqn:Hc; [|exact Hbest].
  apply andb_true_iff in Hc as [Hc Hs]. apply andb_true_iff in Hc as [Hc _].
  apply andb_true_iff in Hc as [Hc1 Hc2].
  apply Nat.ltb_lt in Hc1, Hc2. apply same_at_true in Hs as (x & Hx1 & Hx2).
  destruct Hbest as (H1 & H2 & H3 & H4 & Hm).
  apply IH. unfold block_ok. repeat split; try lia.
  intros t Ht. destruct t as [|t].
  - exists x. rewrite !Nat.add_0_r. auto.
  - destruct (Hm t ltac:(lia)) as (y & Hy1 & Hy2). exists y.
    replace (bi - 1 + S t) with (bi + t) by lia.
    replace (bj - 1 + S t) with (bj + t) by lia. auto.
Qed.

Lemma extend_up_ok fuel junk alo ahi blo bhi best :
  block_ok a b alo ahi blo bhi best ->
  block_ok a b alo ahi blo bhi (extend_up isjunk a b fuel junk ahi bhi best).
Proof.
  revert best. induction fuel as [|f IH]; intros best Hbest; cbn [extend_up];
    [exact Hbest|].
  destruct best as [[bi bj] bs].
  destruct (_ && _) eqn:Hc; [|exact Hbest].
  apply andb_true_iff in Hc as [Hc Hs]. apply andb_true_iff in Hc as [Hc _].
  apply andb_true_iff in Hc as [Hc1 Hc2].
  apply Nat.ltb_lt in Hc1, Hc2. apply same_at_true in Hs as (x & Hx1 & Hx2).
  destruct Hbest as (H1 & H2 & H3 & H4 & Hm).
  apply IH. unfold block_ok. repeat split; try lia.
  intros t Ht. destruct (decide (t < bs)) as [Hlt|Hge].
  - apply Hm. exact Hlt.
  - exists x. replace t with bs by lia. auto.
Qed.

Lemma find_longest_match_ok alo ahi blo bhi :
  alo <= ahi -> blo <= bhi ->
  block_ok a b alo ahi blo bhi (find_longest_match isjunk autojunk a b alo ahi blo bhi).
Proof.
  intros Ha Hb. unfold find_longest_match.
  apply extend_up_ok, extend_down_ok, extend_up_ok, extend_down_ok.
  apply scan_rows_ok; [lia | lia | apply row_ok_empty |].
  unfold block_ok. repeat split; try lia. intros t Ht. lia.
Qed.

End Blocks.
End DifflibBlocks.

Module DifflibChainFacts.
Import Difflib DifflibSpec DifflibChain.
Local Open Scope nat_scope.

Section Chain.
Context {A : Type} `{EqDecision A}.
Variable isjunk : option (A -> bool).
Variable autojunk : bool.
Variables a b : list A.

Lemma chain_start i j i' j' c ahi bhi :
  i' <= i -> j' <= j -> chain a b i j c ahi bhi -> chain a b i' j' c ahi bhi.
Proof.
  intros Hi Hj. destruct c as [|[[bi bj] k] rest]; cbn [chain].
  - lia.
  - intros (H1 & H2 & H3 & H4). repeat split; try lia; assumption.
Qed.

Lemma chain_end i j c ahi bhi ahi' bhi' :
  ahi <= ahi' -> bhi <= bhi' -> chain a b i j c ahi bhi -> chain a b i j c ahi' bhi'.
Proof.
  intros Hi Hj. revert i j. induction c as [|[[bi bj] k] rest IH]; intros i j; cbn [chain].
  - lia.
  - intros (H1 & H2 & H3 & H4). repeat split; try lia; try assumption. apply IH, H4.
Qed.

Lemma chain_app i j c1 i1 j1 c2 ahi bhi :
  chain a b i j c1 i1 j1 -> chain a b i1 j1 c2 ahi bhi ->
  chain a b i j (c1 ++ c2) ahi bhi.
Proof.
  revert i j. induction c1 as [|[[bi bj] k] rest IH]; intros i j; cbn [chain app].
  - intros [H1 H2]. apply chain_start; assumption.
  - intros (H1 & H2 & H3 & H4) Hc. repeat split; try assumption. apply IH; assumption.
Qed.

Lemma chain_le i j c ahi bhi : chain a b i j c ahi bhi -> i <= ahi /\ j <= bhi.
Proof.
  revert i j. induction c as [|[[bi bj] k] rest IH]; intros i j; cbn [chain].
  - auto.
  - intros (H1 & H2 & H3 & H4). apply IH in H4. lia.
Qed.

(** The entry [(alo, ahi, blo, bhi)] at the head of the queue adds the
    blocks of a chain between [(alo, blo)] and [(ahi, bhi)], in some
    order, and costs at most its weight. *)
Lemma matching_loop_head n : forall alo ahi blo bhi,
  ahi - alo < n -> alo <= ahi -> blo <= bhi ->
  exists c bs, bs ≡ₚ c /\ chain a b alo blo c ahi bhi /\ Forall nonempty c
    /\ forall fuel queue mb, weight alo ahi <= fuel ->
       exists f', fuel <= f' + weight alo ahi
         /\ matching_loop isjunk autojunk a b fuel ((alo, ahi, blo, bhi) :: queue) mb
            = matching_loop isjunk autojunk a b f' queue (mb ++ bs).
Proof.
  induction n as [|n IH]; intros alo ahi blo bhi Hn Ha Hb; [lia|].
  pose proof (DifflibBlocks.find_longest_match_ok isjunk autojunk a b alo ahi blo bhi Ha Hb)
    as Hok.
  destruct (find_longest_match isjunk autojunk a b alo ahi blo bhi) as [[i j] k] eqn:Ef.
  destruct Hok as (H1 & H2 & H3 & H4 & Hm).
  destruct (k =? 0) eqn:Hk.
  - exists [], []. split; [reflexivity|]. split; [cbn; lia|]. split; [constructor|].
    intros fuel queue mb Hw. unfold weight in *. destruct fuel as [|f]; [lia|].
    exists f. split; [lia|]. cbn [matching_loop]. rewrite Ef, Hk, app_nil_r. reflexivity.
  - apply Nat.eqb_neq in Hk.
    (* the part before the block *)
    assert (HL : exists cL bsL wL, bsL ≡ₚ cL /\ chain a b alo blo cL i j /\ Forall nonempty cL
               /\ wL <= 2 * (i - alo) + 1
               /\ forall fuel queue mb, wL <= fuel ->
                  exists f', fuel <= f' + wL
                    /\ matching_loop isjunk autojunk a b fuel
                         (if (alo <? i) && (blo <? j) then (alo, i, blo, j) :: queue else queue) mb
                       = matching_loop isjunk autojunk a b f' queue (mb ++ bsL)).
    { destruct ((alo <? i) && (blo <? j)) eqn:Hc.
      - apply andb_true_iff in Hc as [Hc1 Hc2]. apply Nat.ltb_lt in Hc1, Hc2.
        destruct (IH alo i blo j ltac:(lia) ltac:(lia) ltac:(lia)) as (c & bs & P1 & P2 & P3 & P4).
        exists c, bs, (weight alo i). split; [exact P1|]. split; [exact P2|].
        split; [exact P3|]. split; [unfold weight; lia|]. exact P4.
      - exists [], [], 0. split; [reflexivity|]. split; [cbn; lia|]. split; [constructor|].
        split; [lia|]. intros fuel queue mb _. exists fuel. split; [lia|].
        rewrite app_nil_r. reflexivity. }
    (* the part after the block *)
    assert (HR : exists cR bsR wR, bsR ≡ₚ cR /\ chain a b (i + k) (j + k) cR ahi bhi
               /\ Forall nonempty cR
               /\ wR <= 2 * (ahi - (i + k)) + 1
               /\ forall fuel queue mb, wR <= fuel ->
                  exists f', fuel <= f' + wR
                    /\ matching_loop isjunk autojunk a b fuel
                         (if (i + k <? ahi) && (j + k <? bhi)
                          then (i + k, ahi, j + k, bhi) :: queue else queue) mb
                       = matching_loop isjunk autojunk a b f' queue (mb ++ bsR)).
    { destruct ((i + k <? ahi) && (j + k <? bhi)) eqn:Hc.
      - apply andb_true_iff in Hc as [Hc1 Hc2]. apply Nat.ltb_lt in Hc1, Hc2.
        destruct (IH (i + k) ahi (j + k) bhi ltac:(lia) ltac:(lia) ltac:(lia))
          as (c & bs & P1 & P2 & P3 & P4).
        exists c, bs, (weight (i + k) ahi). split; [exact P1|]. split; [exact P2|].
        split; [exact P3|]. split; [unfold weight; lia|]. exact P4.
      - exists [], [], 0. split; [reflexivity|]. split; [cbn; lia|]. split; [constructor|].
        split; [lia|]. intros fuel queue mb _. exists fuel. split; [lia|].
        rewrite app_nil_r. reflexivity. }
    destruct HL as (cL & bsL & wL & L1 & L2 & L3 & L4 & L5).
    destruct HR as (cR & bsR & wR & R1 & R2 & R3 & R4 & R5).
    exists (cL ++ (i, j, k) :: cR), ((i, j, k) :: bsR ++ bsL).
    split.
    { rewrite L1, R1. rewrite (Permutation_app_comm cR cL).
      apply Permutation_middle. }
    split.
    { eapply chain_app; [exact L2|]. cbn [chain]. repeat split; try lia; assumption. }
    split.
    { apply Forall_app. split; [exact L3|]. constructor; [unfold nonempty; cbn; lia | exact R3]. }
    intros fuel queue mb Hw. unfold weight in *. destruct fuel as [|f]; [lia|].
    cbn [matching_loop]. rewrite Ef.
    replace (k =? 0) with false by (symmetry; apply Nat.eqb_neq; exact Hk).
    destruct (R5 f (if (alo <? i) && (blo <? j) then (alo, i, blo, j) :: queue else queue)
                (mb ++ [(i, j, k)]) ltac:(lia)) as (fR & HfR & ER).
    destruct (L5 fR queue ((mb ++ [(i, j, k)]) ++ bsR) ltac:(lia)) as (fL & HfL & EL).
    exists fL. split; [lia|].
    rewrite ER, EL. f_equal. rewrite <- !app_assoc. reflexivity.
Qed.

End Chain.
End DifflibChainFacts.

Module DifflibTilesFacts.
Import Difflib DifflibSpec DifflibChain DifflibChainFacts DifflibTiles.
Local Open Scope nat_scope.

Lemma match_leb_total x y : match_leb x y = false -> match_leb y x = true.
Proof.
  destruct x as [[i1 j1] k1], y as [[i2 j2] k2]. unfold match_leb.
  rewrite !orb_false_iff, !andb_false_iff, !orb_false_iff, !andb_false_iff.
  rewrite !orb_true_iff, !andb_true_iff, !orb_true_iff, !andb_true_iff.
  rewrite !Nat.ltb_lt, !Nat.ltb_ge, !Nat.eqb_eq, !Nat.eqb_neq, !Nat.leb_le, !Nat.leb_gt.
  lia.
Qed.

#[local] Instance match_le_trans : Transitive match_le.
Proof.
  intros [[i1 j1] k1] [[i2 j2] k2] [[i3 j3] k3]. unfold match_le, match_leb.
  rewrite !orb_true_iff, !andb_true_iff, !orb_true_iff, !andb_true_iff.
  rewrite !Nat.ltb_lt, !Nat.eqb_eq, !Nat.leb_le. lia.
Qed.

#[local] Instance match_le_antisym : AntiSymm (=) match_le.
Proof.
  intros [[i1 j1] k1] [[i2 j2] k2]. unfold match_le, match_leb.
  rewrite !orb_true_iff, !andb_true_iff, !orb_true_iff, !andb_true_iff.
  rewrite !Nat.ltb_lt, !Nat.eqb_eq, !Nat.leb_le. intros H1 H2.
  assert (i1 = i2 /\ j1 = j2 /\ k1 = k2) as (-> & -> & ->) by lia. reflexivity.
Qed.

Lemma insert_sorted_perm x l : insert_sorted x l ≡ₚ x :: l.
Proof.
  induction l as [|y l IH]; cbn [insert_sorted]; [reflexivity|].
  destruct (match_leb x y); [reflexivity|]. rewrite IH. apply Permutation_swap.
Qed.

Lemma sort_perm l : sort l ≡ₚ l.
Proof.
  induction l as [|x l IH]; cbn [sort fold_right]; [reflexivity|].
  fold (sort l). rewrite insert_sorted_perm, IH. reflexivity.
Qed.

Lemma insert_sorted_sorted x l : Sorted match_le l -> Sorted match_le (insert_sorted x l).
Proof.
  induction 1 as [|y l Hs IH Hd]; cbn [insert_sorted].
  - repeat constructor.
  - destruct (match_leb x y) eqn:E.
    + constructor; [constructor; assumption | constructor; exact E].
    + constructor; [exact IH|].
      apply match_leb_total in E.
      destruct l as [|z l]; cbn [insert_sorted]; [constructor; exact E|].
      destruct (match_leb x z); constructor; [exact E|].
      inversion Hd; assumption.
Qed.

Lemma sort_sorted l : Sorted match_le (sort l).
Proof.
  induction l as [|x l IH]; cbn [sort fold_right]; [constructor|].
  apply insert_sorted_sorted, IH.
Qed.

Lemma if_app {T} (c : bool) (g e r : list T) :
  (if c then g else g ++ e) ++ r = g ++ (if c then [] else e) ++ r.
Proof. destruct c; rewrite <- ?app_assoc; reflexivity. Qed.

Section Tiles.
Context {A : Type} `{EqDecision A}.
Variable isjunk : option (A -> bool).
Variables a b : list A.

Lemma chain_sorted i j c ahi bhi :
  chain a b i j c ahi bhi -> Forall nonempty c ->
  Sorted match_le c /\ HdRel (fun _ m => i <= fst (fst m)) (0, 0, 0) c.
Proof.
  revert i j. induction c as [|[[bi bj] k] rest IH]; intros i j Hc Hne.
  - split; constructor.
  - cbn [chain] in Hc. destruct Hc as (H1 & H2 & H3 & H4).
    inversion Hne as [|? ? Hk Hrest]; subst. unfold nonempty in Hk. cbn in Hk.
    destruct (IH _ _ H4 Hrest) as [Hs Hd]. split.
    + constructor; [exact Hs|]. inversion Hd as [|[[i2 j2] k2] ? Hle]; subst; constructor.
      cbn in Hle. unfold match_le, match_leb.
      replace (bi <? i2) with true by (symmetry; apply Nat.ltb_lt; lia). reflexivity.
    + constructor. cbn. exact H1.
Qed.

Lemma sort_chain i j bs c ahi bhi :
  bs ≡ₚ c -> chain a b i j c ahi bhi -> Forall nonempty c -> sort bs = c.
Proof.
  intros Hp Hc Hne. apply (Sorted_unique match_le).
  - apply sort_sorted.
  - eapply chain_sorted; eassumption.
  - rewrite sort_perm. exact Hp.
Qed.

Lemma chain_app_inv i j c1 c2 ahi bhi :
  chain a b i j (c1 ++ c2) ahi bhi ->
  exists i1 j1, chain a b i j c1 i1 j1 /\ chain a b i1 j1 c2 ahi bhi.
Proof.
  revert i j. induction c1 as [|[[bi bj] k] rest IH]; intros i j; cbn [app chain].
  - intros H. exists i, j. split; [lia | exact H].
  - intros (H1 & H2 & H3 & H4). destruct (IH _ _ H4) as (i1 & j1 & P1 & P2).
    exists i1, j1. split; [|exact P2]. repeat split; assumption.
Qed.

Lemma chain_drop i j c1 m c2 ahi bhi :
  chain a b i j (c1 ++ m :: c2) ahi bhi -> chain a b i j (c1 ++ c2) ahi bhi.
Proof.
  intros H. apply chain_app_inv in H as (i1 & j1 & P1 & P2).
  eapply chain_app; [exact P1|]. destruct m as [[bi bj] k]. cbn [chain] in P2.
  destruct P2 as (H1 & H2 & _ & H4). eapply chain_start; [| |exact H4]; lia.
Qed.

Lemma matches_app i j k1 k2 :
  matches a b i j k1 -> matches a b (i + k1) (j + k1) k2 -> matches a b i j (k1 + k2).
Proof.
  intros H1 H2 t Ht. destruct (decide (t < k1)) as [Hlt|Hge]; [apply H1, Hlt|].
  destruct (H2 (t - k1) ltac:(lia)) as (x & Hx1 & Hx2). exists x.
  replace (i + t) with (i + k1 + (t - k1)) by lia.
  replace (j + t) with (j + k1 + (t - k1)) by lia. auto.
Qed.

Lemma collapse_chain blocks : forall cur na i j ahi bhi,
  chain a b i j (na ++ cur :: blocks) ahi bhi ->
  chain a b i j (collapse blocks cur na) ahi bhi.
Proof.
  induction blocks as [|[[i2 j2] k2] rest IH]; intros [[i1 j1] k1] na i j ahi bhi Hc;
    cbn [collapse].
  - destruct (k1 =? 0).
    + apply chain_drop in Hc. rewrite app_nil_r in Hc. exact Hc.
    + exact Hc.
  - destruct ((i1 + k1 =? i2) && (j1 + k1 =? j2)) eqn:Hadj.
    + apply andb_true_iff in Hadj as [E1 E2]. apply Nat.eqb_eq in E1, E2. subst i2 j2.
      apply IH. apply chain_app_inv in Hc as (i0 & j0 & P1 & P2).
      eapply chain_app; [exact P1|]. cbn [chain] in *.
      destruct P2 as (H1 & H2 & H3 & _ & _ & H4 & H5).
      repeat split; try assumption.
      * apply matches_app; assumption.
      * rewrite !Nat.add_assoc. exact H5.
    + destruct (k1 =? 0).
      * apply IH. eapply chain_drop. exact Hc.
      * apply IH. rewrite <- app_assoc. exact Hc.
Qed.

(** [get_matching_blocks] returns: a chain of blocks from the start of
    both sequences, and the block of size 0 at their ends. *)
Lemma get_matching_blocks_chain :
  exists blocks,
    get_matching_blocks isjunk a b = Some (blocks ++ [(length a, length b, 0)])
    /\ chain a b 0 0 blocks (length a) (length b).
Proof.
  destruct (matching_loop_head isjunk true a b (S (length a)) 0 (length a) 0 (length b)
              ltac:(lia) ltac:(lia) ltac:(lia)) as (c & bs & Hp & Hc & Hne & Hrun).
  destruct (Hrun (2 * length a + 1) [] [] ltac:(unfold weight; lia)) as (f' & _ & E).
  exists (collapse c (0, 0, 0) []). split.
  - unfold get_matching_blocks. rewrite E.
    replace (matching_loop isjunk true a b f' [] ([] ++ bs)) with (Some bs)
      by (destruct f'; reflexivity).
    cbn [mbind option_bind].
    rewrite (sort_chain 0 0 bs c _ _ Hp Hc Hne). reflexivity.
  - apply collapse_chain. cbn [app chain]. repeat split; try lia; [|exact Hc].
    intros t Ht. lia.
Qed.

Lemma opcodes_loop_acc blocks : forall i j answer,
  opcodes_loop blocks i j answer = answer ++ opcodes_loop blocks i j [].
Proof.
  induction blocks as [|[[ai bj] size] rest IH]; intros i j answer; cbn [opcodes_loop].
  - rewrite app_nil_r. reflexivity.
  - rewrite IH. rewrite (IH _ _ (if size =? 0 then _ else _)).
    rewrite app_assoc. f_equal.
    destruct ((i <? ai) && (j <? bj)); [|destruct (i <? ai); [|destruct (j <? bj)]];
      destruct (size =? 0); cbn [app]; rewrite <- ?app_assoc, ?app_nil_r; reflexivity.
Qed.

Lemma opcodes_loop_tiles c : forall i j ahi bhi,
  chain a b i j c ahi bhi ->
  tiles a b i j (opcodes_loop (c ++ [(ahi, bhi, 0)]) i j []) ahi bhi.
Proof.
  assert (Hstep : forall i j bi bj k rest ahi bhi,
    i <= bi -> j <= bj -> matches a b bi bj k ->
    tiles a b (bi + k) (bj + k) (opcodes_loop rest (bi + k) (bj + k) []) ahi bhi ->
    tiles a b i j (opcodes_loop ((bi, bj, k) :: rest) i j []) ahi bhi).
  { intros i j bi bj k rest ahi bhi Hi Hj Hm Hrest.
    assert (Heq : tiles a b bi bj
              ((if k =? 0 then [] else [(equal, bi, bi + k, bj, bj + k)])
               ++ opcodes_loop rest (bi + k) (bj + k) []) ahi bhi).
    { destruct (k =? 0) eqn:Hk.
      - apply Nat.eqb_eq in Hk. subst k. rewrite !Nat.add_0_r in Hrest.
        rewrite !Nat.add_0_r. exact Hrest.
      - cbn [app tiles]. repeat split; try lia.
        + replace (bj + k - bj) with k by lia. exact Hm.
        + exact Hrest. }
    set (gap := if (i <? bi) && (j <? bj) then [] ++ [(replace, i, bi, j, bj)]
                else if i <? bi then [] ++ [(delete, i, bi, j, bj)]
                else if j <? bj then [] ++ [(insert, i, bi, j, bj)] else []).
    change (opcodes_loop ((bi, bj, k) :: rest) i j [])
      with (opcodes_loop rest (bi + k) (bj + k)
              (if k =? 0 then gap else gap ++ [(equal, bi, bi + k, bj, bj + k)])).
    rewrite opcodes_loop_acc.
    rewrite if_app.
    match goal with
    | |- tiles _ _ _ _ (_ ++ ?T) _ _ =>
        assert (HT : tiles a b bi bj T ahi bhi) by exact Heq; clear Heq;
        generalize dependent T
    end.
    intros T Heq. subst gap.
    destruct (Nat.ltb_spec i bi) as [E1|E1]; destruct (Nat.ltb_spec j bj) as [E2|E2];
      cbn [andb app tiles].
    - repeat split; try lia. exact Heq.
    - assert (j = bj) by lia. subst j. repeat split; try lia. exact Heq.
    - assert (i = bi) by lia. subst i. repeat split; try lia. exact Heq.
    - assert (i = bi) by lia. assert (j = bj) by lia. subst i j. exact Heq. }
  induction c as [|[[bi bj] k] rest IH]; intros i j ahi bhi Hc.
  - cbn [app]. cbn [chain] in Hc. apply Hstep; try lia.
    + intros t Ht. lia.
    + cbn [opcodes_loop tiles]. lia.
  - cbn [chain] in Hc. destruct Hc as (H1 & H2 & H3 & H4).
    cbn [app]. apply Hstep; try assumption. apply IH. exact H4.
Qed.

(** [get_opcodes] returns, and its opcodes cover both sequences. *)
Lemma get_opcodes_tiles :
  exists ops, get_opcodes isjunk a b = Some ops
              /\ tiles a b 0 0 ops (length a) (length b).
Proof.
  destruct get_matching_blocks_chain as (blocks & E & Hc).
  exists (opcodes_loop (blocks ++ [(length a, length b, 0)]) 0 0 []).
  split; [unfold get_opcodes; rewrite E; reflexivity|].
  apply opcodes_loop_tiles. exact Hc.
Qed.

End Tiles.
End DifflibTilesFacts.

Module DifflibRestoreFacts.
Import Difflib DifflibSpec DifflibChain DifflibTiles DifflibRestore.
Local Open Scope nat_scope.

Lemma slice_nil {T} (x : list T) (lo : nat) : slice x lo lo = [].
Proof. unfold slice. rewrite Nat.sub_diag. reflexivity. Qed.

Lemma slice_split {T} (x : list T) (lo mid hi : nat) :
  lo <= mid -> mid <= hi -> slice x lo hi = slice x lo mid ++ slice x mid hi.
Proof.
  intros H1 H2. unfold slice.
  replace (hi - lo) with ((mid - lo) + (hi - mid)) by lia.
  rewrite <- take_take_drop. f_equal. rewrite drop_drop. f_equal. f_equal. lia.
Qed.

Lemma slice_single {T} (x : list T) (i : nat) (v : T) :
  x !! i = Some v -> slice x i (i + 1) = [v].
Proof.
  intros H. unfold slice. replace (i + 1 - i) with 1 by lia.
  rewrite (drop_S _ _ _ H). reflexivity.
Qed.

Lemma slice_all {T} (x : list T) : slice x 0 (length x) = x.
Proof. unfold slice. rewrite Nat.sub_0_r, drop_0. apply firstn_all. Qed.

Lemma matches_slice {T} (a b : list T) (i j k : nat) :
  matches a b i j k -> slice a i (i + k) = slice b j (j + k).
Proof.
  intros Hm. unfold slice.
  replace (i + k - i) with k by lia. replace (j + k - j) with k by lia.
  apply list_eq. intros t. destruct (decide (t < k)) as [Hlt|Hge].
  - rewrite !lookup_take_lt, !lookup_drop by assumption.
    destruct (Hm t Hlt) as (x & -> & ->). reflexivity.
  - rewrite !lookup_take_ge by lia. reflexivity.
Qed.

Lemma dump_none (tg : string) (x : list string) (n lo : nat) :
  length x <= lo ->
  flat_map (fun i => match x !! i with
                     | Some line => [(tg ++ " " ++ line)%string]
                     | None => []
                     end) (seq lo n) = [].
Proof.
  revert lo. induction n as [|n IH]; intros lo Hlo; cbn [seq flat_map]; [reflexivity|].
  rewrite (lookup_ge_None_2 x lo Hlo). cbn [app]. apply IH. lia.
Qed.

Lemma dump_slice (tg : string) (x : list string) (lo hi : nat) :
  dump tg x lo hi = map (fun line => (tg ++ " " ++ line)%string) (slice x lo hi).
Proof.
  unfold dump, slice. generalize (hi - lo). intros n. revert lo.
  induction n as [|n IH]; intros lo; cbn [seq flat_map]; [reflexivity|].
  destruct (x !! lo) as [line|] eqn:E.
  - rewrite (drop_S _ _ _ E). cbn [take map app]. f_equal. apply IH.
  - apply lookup_ge_None in E. rewrite (drop_ge x lo E). cbn [app].
    rewrite take_nil. cbn [map]. apply dump_none. lia.
Qed.

Lemma restore_app (tg : string) (x y : list string) :
  restore tg (x ++ y) = restore tg x ++ restore tg y.
Proof.
  induction x as [|l x IH]; cbn [app restore]; [reflexivity|].
  destruct (restore_line tg l); rewrite IH; reflexivity.
Qed.

Lemma forallb_tagged_app (x y : list string) :
  forallb tagged (x ++ y) = forallb tagged x && forallb tagged y.
Proof. apply forallb_app. Qed.

(** The lines of [_dump] in a delta. *)
Lemma dump_minus (x : list string) (lo hi : nat) :
  restore "- " (dump "-" x lo hi) = slice x lo hi
  /\ restore "+ " (dump "-" x lo hi) = []
  /\ forallb tagged (dump "-" x lo hi) = true.
Proof.
  rewrite dump_slice. generalize (slice x lo hi). intros l.
  induction l as [|y l (IH1 & IH2 & IH3)]; [repeat split|].
  cbn [map]. repeat split.
  - change (y :: restore "- " (map (fun line => ("-" ++ " " ++ line)%string) l) = y :: l).
    rewrite IH1. reflexivity.
  - exact IH2.
  - change (forallb tagged (map (fun line => ("-" ++ " " ++ line)%string) l) = true).
    exact IH3.
Qed.

Lemma dump_plus (x : list string) (lo hi : nat) :
  restore "- " (dump "+" x lo hi) = []
  /\ restore "+ " (dump "+" x lo hi) = slice x lo hi
  /\ forallb tagged (dump "+" x lo hi) = true.
Proof.
  rewrite dump_slice. generalize (slice x lo hi). intros l.
  induction l as [|y l (IH1 & IH2 & IH3)]; [repeat split|].
  cbn [map]. repeat split.
  - exact IH1.
  - change (y :: restore "+ " (map (fun line => ("+" ++ " " ++ line)%string) l) = y :: l).
    rewrite IH2. reflexivity.
  - change (forallb tagged (map (fun line => ("+" ++ " " ++ line)%string) l) = true).
    exact IH3.
Qed.

Lemma dump_space (x : list string) (lo hi : nat) :
  restore "- " (dump " " x lo hi) = slice x lo hi
  /\ restore "+ " (dump " " x lo hi) = slice x lo hi
  /\ forallb tagged (dump " " x lo hi) = true.
Proof.
  rewrite dump_slice. generalize (slice x lo hi). intros l.
  induction l as [|y l (IH1 & IH2 & IH3)]; [repeat split|].
  cbn [map]. repeat split.
  - change (y :: restore "- " (map (fun line => (" " ++ " " ++ line)%string) l) = y :: l).
    rewrite IH1. reflexivity.
  - change (y :: restore "+ " (map (fun line => (" " ++ " " ++ line)%string) l) = y :: l).
    rewrite IH2. reflexivity.
  - change (forallb tagged (map (fun line => (" " ++ " " ++ line)%string) l) = true).
    exact IH3.
Qed.

Lemma delta_ok_app (a b : list string) alo amid ahi blo bmid bhi d1 d2 :
  alo <= amid -> amid <= ahi -> blo <= bmid -> bmid <= bhi ->
  delta_ok a b alo amid blo bmid d1 -> delta_ok a b amid ahi bmid bhi d2 ->
  delta_ok a b alo ahi blo bhi (d1 ++ d2).
Proof.
  intros H1 H2 H3 H4 (P1 & P2 & P3) (Q1 & Q2 & Q3). unfold delta_ok.
  rewrite !restore_app, forallb_app, P1, P2, P3, Q1, Q2, Q3.
  rewrite <- !slice_split by assumption. auto.
Qed.

Lemma delta_ok_nil (a b : list string) alo blo : delta_ok a b alo alo blo blo [].
Proof. unfold delta_ok. rewrite !slice_nil. auto. Qed.

Lemma delta_ok_delete (a b : list string) alo ahi blo :
  delta_ok a b alo ahi blo blo (dump "-" a alo ahi).
Proof.
  unfold delta_ok. destruct (dump_minus a alo ahi) as (-> & -> & ->).
  rewrite slice_nil. auto.
Qed.

Lemma delta_ok_insert (a b : list string) alo blo bhi :
  delta_ok a b alo alo blo bhi (dump "+" b blo bhi).
Proof.
  unfold delta_ok. destruct (dump_plus b blo bhi) as (-> & -> & ->).
  rewrite slice_nil. auto.
Qed.

Lemma delta_ok_equal (a b : list string) alo blo k :
  matches a b alo blo k ->
  delta_ok a b alo (alo + k) blo (blo + k) (dump " " a alo (alo + k)).
Proof.
  intros Hm. unfold delta_ok. destruct (dump_space a alo (alo + k)) as (-> & -> & ->).
  rewrite (matches_slice a b alo blo k Hm). auto.
Qed.

Lemma delta_ok_plain (a b : list string) alo ahi blo bhi :
  delta_ok a b alo ahi blo bhi (plain_replace a alo ahi b blo bhi).
Proof.
  unfold delta_ok, plain_replace.
  destruct (dump_minus a alo ahi) as (M1 & M2 & M3).
  destruct (dump_plus b blo bhi) as (P1 & P2 & P3).
  destruct (_ <? _); rewrite !restore_app, forallb_app, M1, M2, M3, P1, P2, P3;
    rewrite ?app_nil_r; auto.
Qed.

Lemma delta_ok_qformat (a b : list string) i j aelt belt atags btags :
  a !! i = Some aelt -> b !! j = Some belt ->
  delta_ok a b i (i + 1) j (j + 1) (qformat aelt belt atags btags).
Proof.
  intros Ha Hb. unfold delta_ok, qformat.
  rewrite (slice_single a i aelt Ha), (slice_single b j belt Hb).
  destruct (Str.bool_of_str _); destruct (Str.bool_of_str _); repeat split.
Qed.

Lemma delta_ok_same (a b : list string) i j x :
  a !! i = Some x -> b !! j = Some x ->
  delta_ok a b i (i + 1) j (j + 1) [("  " ++ x)%string].
Proof.
  intros Ha Hb. unfold delta_ok.
  rewrite (slice_single a i x Ha), (slice_single b j x Hb). repeat split.
Qed.

End DifflibRestoreFacts.

Module DifferFacts.
Import Difflib DifflibSpec DifflibChain DifflibTiles DifflibRestore DifflibRestoreFacts.
Local Open Scope nat_scope.

Section Fancy.
Variable charjunk : option (ascii -> bool).
Variables a b : list string.

Lemma ratio_total (x y : list ascii) : exists r, ratio charjunk x y = Some r.
Proof.
  destruct (DifflibTilesFacts.get_matching_blocks_chain charjunk x y) as (bl & E & _).
  unfold ratio. rewrite E. eexists. reflexivity.
Qed.

Lemma search_row_ok alo ahi blo bhi j bj is_ : forall st,
  ahi <= length a -> Forall (fun i => alo <= i < ahi) is_ ->
  blo <= j < bhi -> b !! j = Some bj ->
  search_ok a b alo ahi blo bhi st ->
  exists st', search_row charjunk a is_ j bj st = Some st'
              /\ search_ok a b alo ahi blo bhi st'.
Proof.
  induction is_ as [|i is_ IH]; intros st Hlen Hall Hj Hb Hst; cbn [search_row].
  - eauto.
  - inversion Hall as [|? ? Hi Hrest]; subst.
    destruct (a !! i) as [ai|] eqn:Ha.
    2:{ apply lookup_ge_None in Ha. lia. }
    cbn [mbind option_bind].
    pose proof Hst as (S1 & S2 & S3).
    destruct (String.eqb ai bj) eqn:Heq.
    { apply String.eqb_eq in Heq. subst bj. apply IH; try assumption.
      destruct (eq_ij st) as [p|] eqn:Ee.
      - exact Hst.
      - split; [exact S1|]. split; [exact S2|]. cbn [eq_ij].
        intros i0 j0 [= <- <-]. split; [lia|]. split; [lia|]. eauto. }
    destruct (Qgt_bool (real_quick_ratio _ _) _); [|apply IH; assumption].
    destruct (Qgt_bool (quick_ratio _ _) _); [|apply IH; assumption].
    destruct (ratio_total (chars ai) (chars bj)) as [r ->]. cbn [mbind option_bind].
    destruct (Qgt_bool r _); [|apply IH; assumption].
    apply IH; try assumption. split; [|split]; cbn [best_ij best_ratio eq_ij].
    + discriminate.
    + intros i0 j0 [= <- <-]. lia.
    + exact S3.
Qed.

Lemma search_rows_ok alo ahi blo bhi js : forall st,
  ahi <= length a -> bhi <= length b -> Forall (fun j => blo <= j < bhi) js ->
  search_ok a b alo ahi blo bhi st ->
  exists st', search_rows charjunk a alo ahi b js st = Some st'
              /\ search_ok a b alo ahi blo bhi st'.
Proof.
  induction js as [|j js IH]; intros st Hla Hlb Hall Hst; cbn [search_rows].
  - eauto.
  - inversion Hall as [|? ? Hj Hrest]; subst.
    destruct (b !! j) as [bj|] eqn:Hb.
    2:{ apply lookup_ge_None in Hb. lia. }
    cbn [mbind option_bind].
    destruct (search_row_ok alo ahi blo bhi j bj (seq alo (ahi - alo)) st Hla) as (st' & -> & Hst').
    + apply Forall_forall. intros i Hin. apply elem_of_seq in Hin. lia.
    + exact Hj.
    + exact Hb.
    + exact Hst.
    + cbn [mbind option_bind]. apply IH; assumption.
Qed.

Lemma fancy_replace_S f alo ahi blo bhi :
  fancy_replace charjunk (S f) a alo ahi b blo bhi
  = (st ← search_rows charjunk a alo ahi b (seq blo (bhi - blo))
            (mkSearch (74 # 100) None None);
     let cutoff := (75 # 100)%Q in
     let synch : option (nat * nat * bool) :=
       if Qgt_bool cutoff (best_ratio st) then
         match eq_ij st with
         | None => None
         | Some (eqi, eqj) => Some (eqi, eqj, true)
         end
       else
         match best_ij st with
         | Some (best_i, best_j) => Some (best_i, best_j, false)
         | None => None
         end in
     match synch with
     | None =>
         if Qgt_bool cutoff (best_ratio st)
         then Some (plain_replace a alo ahi b blo bhi)
         else None
     | Some (best_i, best_j, identical) =>
         before ← fancy_helper charjunk f a alo best_i b blo best_j;
         aelt ← a !! best_i;
         belt ← b !! best_j;
         middle ←
           (if identical then Some [("  " ++ aelt)%string]
            else
              ops ← get_opcodes charjunk (chars aelt) (chars belt);
              let '(atags, btags) := intraline_tags ops EmptyString EmptyString in
              Some (qformat aelt belt atags btags));
         after ← fancy_helper charjunk f a (best_i + 1) ahi b (best_j + 1) bhi;
         Some (before ++ middle ++ after)
     end).
Proof. reflexivity. Qed.

(** [_fancy_replace] returns for every pair of ranges that are not empty,
    and its lines are a delta between the ranges. *)
Lemma fancy_replace_ok f : forall alo ahi blo bhi,
  alo < ahi -> ahi <= length a -> blo < bhi -> bhi <= length b ->
  (ahi - alo) + (bhi - blo) < f ->
  exists d, fancy_replace charjunk f a alo ahi b blo bhi = Some d
            /\ delta_ok a b alo ahi blo bhi d.
Proof.
  induction f as [|f IH]; intros alo ahi blo bhi Ha Hla Hb Hlb Hf; [lia|].
  assert (Hhelper : forall alo' ahi' blo' bhi',
            alo' <= ahi' -> ahi' <= length a -> blo' <= bhi' -> bhi' <= length b ->
            (ahi' - alo') + (bhi' - blo') < f ->
            exists d, fancy_helper charjunk f a alo' ahi' b blo' bhi' = Some d
                      /\ delta_ok a b alo' ahi' blo' bhi' d).
  { intros alo' ahi' blo' bhi' H1 H2 H3 H4 H5. unfold fancy_helper.
    destruct (Nat.ltb_spec alo' ahi') as [E1|E1]; destruct (Nat.ltb_spec blo' bhi') as [E2|E2].
    - apply IH; assumption.
    - assert (blo' = bhi') by lia. subst bhi'. eexists. split; [reflexivity|].
      apply delta_ok_delete.
    - assert (alo' = ahi') by lia. subst ahi'. eexists. split; [reflexivity|].
      apply delta_ok_insert.
    - assert (alo' = ahi') by lia. assert (blo' = bhi') by lia. subst ahi' bhi'.
      eexists. split; [reflexivity|]. apply delta_ok_nil. }
  rewrite fancy_replace_S.
  destruct (search_rows_ok alo ahi blo bhi (seq blo (bhi - blo)) (mkSearch (74 # 100) None None)
              Hla Hlb) as (st & -> & S1 & S2 & S3).
  { apply Forall_forall. intros j Hin. apply elem_of_seq in Hin. lia. }
  { split; [reflexivity|]. split; intros i j; cbn; discriminate. }
  cbn [mbind option_bind]. cbv zeta.
  assert (Hsync : forall best_i best_j (identical : bool),
            alo <= best_i < ahi -> blo <= best_j < bhi ->
            (identical = true -> exists x, a !! best_i = Some x /\ b !! best_j = Some x) ->
            exists d,
              (before ← fancy_helper charjunk f a alo best_i b blo best_j;
               aelt ← a !! best_i;
               belt ← b !! best_j;
               middle ←
                 (if identical then Some [("  " ++ aelt)%string]
                  else
                    ops ← get_opcodes charjunk (chars aelt) (chars belt);
                    let '(atags, btags) := intraline_tags ops EmptyString EmptyString in
                    Some (qformat aelt belt atags btags));
               after ← fancy_helper charjunk f a (best_i + 1) ahi b (best_j + 1) bhi;
               Some (before ++ middle ++ after)) = Some d
              /\ delta_ok a b alo ahi blo bhi d).
  { intros best_i best_j identical Hi Hj Hid.
    destruct (Hhelper alo best_i blo best_j) as (d1 & -> & D1); try lia.
    destruct (Hhelper (best_i + 1) ahi (best_j + 1) bhi) as (d3 & E3 & D3); try lia.
    cbn [mbind option_bind].
    destruct (a !! best_i) as [aelt|] eqn:Ea.
    2:{ apply lookup_ge_None in Ea. lia. }
    destruct (b !! best_j) as [belt|] eqn:Eb.
    2:{ apply lookup_ge_None in Eb. lia. }
    cbn [mbind option_bind].
    assert (Hmid : exists d2,
              (if identical then Some [("  " ++ aelt)%string]
               else
                 ops ← get_opcodes charjunk (chars aelt) (chars belt);
                 let '(atags, btags) := intraline_tags ops EmptyString EmptyString in
                 Some (qformat aelt belt atags btags)) = Some d2
              /\ delta_ok a b best_i (best_i + 1) best_j (best_j + 1) d2).
    { destruct identical.
      - destruct (Hid eq_refl) as (x & Hx1 & Hx2).
        assert (aelt = x) by congruence. subst x.
        eexists. split; [reflexivity|]. apply delta_ok_same; congruence.
      - destruct (DifflibTilesFacts.get_opcodes_tiles charjunk (chars aelt) (chars belt))
          as (ops & -> & _).
        cbn [mbind option_bind]. destruct (intraline_tags _ _ _) as [atags btags].
        eexists. split; [reflexivity|]. apply delta_ok_qformat; assumption. }
    destruct Hmid as (d2 & -> & D2). cbn [mbind option_bind]. rewrite E3.
    cbn [mbind option_bind]. eexists. split; [reflexivity|].
    apply (delta_ok_app a b alo best_i ahi blo best_j bhi); try lia; [exact D1|].
    apply (delta_ok_app a b best_i (best_i + 1) ahi best_j (best_j + 1) bhi); try lia;
      assumption. }
  destruct (Qgt_bool (75 # 100) (best_ratio st)) eqn:Hq.
  - destruct (eq_ij st) as [[eqi eqj]|] eqn:Ee.
    + destruct (S3 _ _ eq_refl) as (H1 & H2 & H3).
      exact (Hsync eqi eqj true H1 H2 (fun _ => H3)).
    + eexists. split; [reflexivity|]. apply delta_ok_plain.
  - destruct (best_ij st) as [[best_i best_j]|] eqn:Eb.
    + destruct (S2 _ _ eq_refl) as (H1 & H2).
      refine (Hsync best_i best_j false H1 H2 _). discriminate.
    + rewrite (S1 eq_refl) in Hq. discriminate.
Qed.

End Fancy.

Section Compare.
Variable linejunk : option (string -> bool).
Variable charjunk : option (ascii -> bool).
Variables a b : list string.

Lemma tiles_le {T} (x y : list T) ops : forall i j ahi bhi,
  tiles x y i j ops ahi bhi -> i <= ahi /\ j <= bhi.
Proof.
  induction ops as [|[[[[t alo] ahi'] blo] bhi'] rest IH]; intros i j ahi bhi; cbn [tiles].
  - lia.
  - intros (_ & _ & H1 & H2 & _ & H3). apply IH in H3. lia.
Qed.

Lemma compare_opcodes_ok ops : forall i j,
  tiles a b i j ops (length a) (length b) ->
  exists chunks, mapM (compare_opcode charjunk a b) ops = Some chunks
                 /\ delta_ok a b i (length a) j (length b) (mjoin chunks).
Proof.
  induction ops as [|[[[[t alo] ahi'] blo] bhi'] rest IH]; intros i j; cbn [tiles].
  - intros [-> ->]. exists []. split; [reflexivity|]. apply delta_ok_nil.
  - intros (-> & -> & H1 & H2 & Ht & Hrest).
    destruct (tiles_le _ _ _ _ _ _ _ Hrest) as [L1 L2].
    destruct (IH _ _ Hrest) as (chunks & E & D).
    assert (Hop : exists d, compare_opcode charjunk a b (t, i, ahi', j, bhi') = Some d
                            /\ delta_ok a b i ahi' j bhi' d).
    { destruct t; cbn [compare_opcode].
      - destruct Ht as [T1 T2]. apply fancy_replace_ok; try lia.
      - destruct Ht as [T1 <-]. eexists. split; [reflexivity|]. apply delta_ok_delete.
      - destruct Ht as [<- T2]. eexists. split; [reflexivity|]. apply delta_ok_insert.
      - destruct Ht as [-> Hm]. eexists. split; [reflexivity|].
        replace bhi' with (j + (bhi' - j)) at 2 by lia.
        apply delta_ok_equal. exact Hm. }
    destruct Hop as (d & Ed & Dd).
    exists (d :: chunks). split.
    + cbn [mapM]. rewrite Ed, E. reflexivity.
    + cbn [mjoin list_join]. apply (delta_ok_app a b i ahi' (length a) j bhi' (length b));
        try lia; assumption.
Qed.

(** [Differ.compare] returns, and its lines are a delta between the two
    lists. *)
Lemma compare_ok :
  exists d, compare linejunk charjunk a b = Some d
            /\ restore "- " d = a /\ restore "+ " d = b /\ forallb tagged d = true.
Proof.
  destruct (DifflibTilesFacts.get_opcodes_tiles linejunk a b) as (ops & E & Ht).
  destruct (compare_opcodes_ok ops 0 0 Ht) as (chunks & Ec & (D1 & D2 & D3)).
  exists (mjoin chunks). split.
  - unfold compare. rewrite E. cbn [mbind option_bind]. rewrite Ec. reflexivity.
  - rewrite !slice_all in *. auto.
Qed.

End Compare.
End DifferFacts.

(** ** The scanner of [json.loads] on every text it accepts *)

Module JsonScanFacts.
Import Json JsonText JsonScan JsonRoundTrip.
Local Open Scope nat_scope.
Local Open Scope string_scope.

Lemma skip_ws_split (s : string) : exists ws, s = ws ++ skip_ws s /\ blank ws = true.
Proof.
  induction s as [|c r (ws & E & Hb)]; [exists EmptyString; split; reflexivity|].
  cbn [skip_ws]. destruct (is_ws c) eqn:Hc.
  - exists (String c ws). rewrite string_app_cons, <- E. split; [reflexivity|].
    cbn [blank]. rewrite Hc, Hb. reflexivity.
  - exists EmptyString. split; reflexivity.
Qed.

Lemma skip_ws_head (s : string) (c : ascii) (r : string) :
  skip_ws s = String c r -> is_ws c = false.
Proof.
  induction s as [|d s IH]; [discriminate|]. cbn [skip_ws].
  destruct (is_ws d) eqn:Hd; [exact IH|]. intros [= <- <-]. exact Hd.
Qed.

Lemma skip_ws_solid (c : ascii) (r : string) : is_ws c = false -> skip_ws (String c r) = String c r.
Proof. intros H. cbn [skip_ws]. rewrite H. reflexivity. Qed.

Lemma is_ws_isspace (c : ascii) : is_ws c = true -> Str.isspace c = true.
Proof. destruct c as [[] [] [] [] [] [] [] []]; try discriminate; reflexivity. Qed.

Lemma not_space_not_ws (c : ascii) : Str.isspace c = false -> is_ws c = false.
Proof.
  intros H. destruct (is_ws c) eqn:E; [|reflexivity]. apply is_ws_isspace in E. congruence.
Qed.

Lemma blank_spaces (w : string) : blank w = true -> spaces w = true.
Proof.
  induction w as [|c w IH]; [reflexivity|]. cbn [blank spaces].
  intros H. apply andb_true_iff in H as [Hc Hw].
  rewrite (is_ws_isspace c Hc), (IH Hw). reflexivity.
Qed.

Lemma value_end_blank (w : string) (c : ascii) (r : string) :
  blank w = true -> value_end (String c r) = true -> value_end (w ++ String c r) = true.
Proof.
  destruct w as [|d w]; [auto|]. intros H _. cbn [blank] in H.
  apply andb_true_iff in H as [Hd _]. rewrite string_app_cons. cbn [value_end].
  destruct d as [[] [] [] [] [] [] [] []]; try discriminate; reflexivity.
Qed.

Lemma prefix_split (lit s : string) :
  String.prefix lit s = true -> s = lit ++ advance (String.length lit) s.
Proof.
  revert s. induction lit as [|a lit IH]; intros s H.
  - destruct s; reflexivity.
  - destruct s as [|c s]; [discriminate|]. cbn [String.prefix] in H.
    destruct (ascii_dec a c) as [->|]; [|discriminate].
    rewrite string_app_cons. cbn [String.length advance]. f_equal. apply IH. exact H.
Qed.

(** *** Strings *)

Lemma scanstring_read n : forall s str y,
  String.length s <= n -> scanstring s = Ok (str, y) ->
  exists pre, s = pre ++ y /\ 0 < String.length pre
    /\ (exists p, pre = p ++ String Str.dq EmptyString)
    /\ forall t, scanstring (pre ++ t) = Ok (str, t).
Proof.
  induction n as [|n IH]; intros s str y Hn H.
  { destruct s; [discriminate | cbn in Hn; lia]. }
  destruct s as [|c r]; [discriminate|]. cbn [String.length] in Hn.
  cbn [scanstring] in H.
  destruct (Ascii.eqb c Str.dq) eqn:Hq.
  { apply Ascii.eqb_eq in Hq. subst c. injection H as <- <-.
    exists (String Str.dq EmptyString). split; [reflexivity|]. split; [cbn; lia|].
    split; [exists EmptyString; reflexivity|]. intros t. reflexivity. }
  destruct (Ascii.eqb c Str.bsl) eqn:Hb.
  { apply Ascii.eqb_eq in Hb. subst c.
    destruct r as [|e r1]; [discriminate|].
    destruct (Ascii.eqb e "u") eqn:Hu.
    - apply Ascii.eqb_eq in Hu. subst e.
      destruct r1 as [|h1 [|h2 [|h3 [|h4 r2]]]]; try discriminate.
      destruct (decode_uXXXX h1 h2 h3 h4) as [uni|] eqn:Hd; [|discriminate].
      destruct (uni <? 256)%N eqn:Hlt; [|discriminate].
      destruct (scanstring r2) as [[chunks rest]|] eqn:Hs; [|discriminate].
      cbn [rbind] in H. injection H as <- <-.
      destruct (IH r2 chunks rest ltac:(cbn [String.length] in Hn; lia) Hs)
        as (pre & -> & Hlen & (p & Hp) & Hre).
      exists (String Str.bsl (String "u" (String h1 (String h2 (String h3 (String h4 pre)))))).
      split; [reflexivity|]. split; [cbn; lia|]. split.
      + exists (String Str.bsl (String "u" (String h1 (String h2 (String h3 (String h4 p)))))).
        rewrite Hp. reflexivity.
      + intros t. rewrite !string_app_cons. cbn [scanstring].
        change (Ascii.eqb Str.bsl Str.dq) with false. cbv iota.
        change (Ascii.eqb Str.bsl Str.bsl) with true. cbv iota.
        change (Ascii.eqb "u" "u") with true. cbv iota.
        rewrite Hd, Hlt, Hre. reflexivity.
    - destruct (backslash e) as [char|] eqn:Hbs; [|discriminate].
      destruct (scanstring r1) as [[chunks rest]|] eqn:Hs; [|discriminate].
      cbn [rbind] in H. injection H as <- <-.
      destruct (IH r1 chunks rest ltac:(cbn [String.length] in Hn; lia) Hs)
        as (pre & -> & Hlen & (p & Hp) & Hre).
      exists (String Str.bsl (String e pre)).
      split; [reflexivity|]. split; [cbn; lia|]. split.
      + exists (String Str.bsl (String e p)). rewrite Hp. reflexivity.
      + intros t. rewrite !string_app_cons. cbn [scanstring].
        change (Ascii.eqb Str.bsl Str.dq) with false. cbv iota.
        change (Ascii.eqb Str.bsl Str.bsl) with true. cbv iota.
        rewrite Hu, Hbs, Hre. reflexivity. }
  destruct (N_of_ascii c <? 32)%N eqn:Hctl; [discriminate|].
  destruct (scanstring r) as [[chunks rest]|] eqn:Hs; [|discriminate].
  cbn [rbind] in H. injection H as <- <-.
  destruct (IH r chunks rest ltac:(lia) Hs) as (pre & -> & Hlen & (p & Hp) & Hre).
  exists (String c pre). split; [reflexivity|]. split; [cbn; lia|]. split.
  - exists (String c p). rewrite Hp. reflexivity.
  - intros t. rewrite string_app_cons. cbn [scanstring]. rewrite Hq, Hb, Hctl, Hre.
    reflexivity.
Qed.

End JsonScanFacts.

Module JsonReadFacts.
Import Json JsonText JsonScan JsonRoundTrip JsonScanFacts JsonRead.
Local Open Scope nat_scope.
Local Open Scope string_scope.

Lemma span_digits_split (s ds rest : string) :
  span_digits s = (ds, rest) -> s = ds ++ rest /\ digits_only ds = true.
Proof.
  revert ds rest. induction s as [|c s IH]; intros ds rest H.
  - injection H as <- <-. split; reflexivity.
  - cbn [span_digits] in H. destruct (is_digit c) eqn:Hc.
    + destruct (span_digits s) as [ds' rest'] eqn:E. injection H as <- <-.
      destruct (IH _ _ eq_refl) as [-> Hd]. split; [reflexivity|].
      cbn [digits_only]. rewrite Hc, Hd. reflexivity.
    + injection H as <- <-. split; reflexivity.
Qed.

Lemma match_integer_read (s : string) (n : N) (rest : string) :
  match_integer s = Some (n, rest) ->
  exists c p, s = String c p ++ rest /\ is_digit c = true
    /\ forall t, value_end t = true -> match_integer (String c p ++ t) = Some (n, t).
Proof.
  destruct s as [|c r]; [discriminate|]. cbn [match_integer].
  destruct (Ascii.eqb c "0") eqn:H0.
  - apply Ascii.eqb_eq in H0. subst c. intros [= <- <-].
    exists "0"%char, EmptyString. split; [reflexivity|]. split; [reflexivity|].
    intros t _. reflexivity.
  - destruct (is_digit c) eqn:Hc; [|discriminate].
    destruct (span_digits r) as [ds rest'] eqn:E. intros [= <- <-].
    destruct (span_digits_split _ _ _ E) as [-> Hd].
    exists c, ds. split; [reflexivity|]. split; [exact Hc|].
    intros t Ht. rewrite string_app_cons. apply match_integer_digits; assumption.
Qed.

Lemma match_number_read (s : string) (z : Z) (rest : string) :
  match_number s = IsInt z rest ->
  exists c p, s = String c p ++ rest /\ (is_digit c = true \/ c = "-"%char)
    /\ forall t, value_end t = true -> match_number (String c p ++ t) = IsInt z t.
Proof.
  destruct s as [|c r]; [discriminate|].
  destruct (Ascii.eqb c "-") eqn:Hm.
  - apply Ascii.eqb_eq in Hm. subst c. rewrite match_number_neg.
    destruct (match_integer r) as [[n rest']|] eqn:E; [|discriminate].
    destruct (has_frac rest' || has_exp rest') eqn:Hf; [discriminate|].
    intros [= <- <-].
    destruct (match_integer_read _ _ _ E) as (d & p & -> & Hd & Hre).
    exists "-"%char, (String d p). split; [reflexivity|]. split; [right; reflexivity|].
    intros t Ht. rewrite string_app_cons, match_number_neg, (Hre t Ht).
    rewrite (value_end_no_float t Ht). reflexivity.
  - rewrite (match_number_pos c r Hm).
    destruct (match_integer (String c r)) as [[n rest']|] eqn:E; [|discriminate].
    destruct (has_frac rest' || has_exp rest') eqn:Hf; [discriminate|].
    intros [= <- <-].
    destruct (match_integer_read _ _ _ E) as (d & p & Es & Hd & Hre).
    rewrite string_app_cons in Es. injection Es as <- Er.
    exists c, p. split; [rewrite string_app_cons, Er; reflexivity|].
    split; [left; exact Hd|].
    intros t Ht. rewrite string_app_cons, (match_number_pos c _ Hm).
    rewrite <- string_app_cons, (Hre t Ht), (value_end_no_float t Ht). reflexivity.
Qed.

Lemma scan_once_S (f : nat) (c : ascii) (r : string) :
  scan_once (S f) (String c r)
  = if Ascii.eqb c Str.dq then
      rbind (scanstring r) (fun ab => let '(str, rest) := ab in Ok (Str str, rest))
    else if Ascii.eqb c "{" then
      match skip_ws r with
      | String c2 r2 =>
          if Ascii.eqb c2 "}" then Ok (Dict [], r2)
          else if Ascii.eqb c2 Str.dq then
            rbind (object_loop f r2)
              (fun ab => let '(pairs, rest) := ab in Ok (Dict (dict_of_pairs pairs), rest))
          else Err (JSONDecodeError "Expecting property name enclosed in double quotes")
      | EmptyString =>
          Err (JSONDecodeError "Expecting property name enclosed in double quotes")
      end
    else if Ascii.eqb c "[" then
      match skip_ws r with
      | String c2 r2 =>
          if Ascii.eqb c2 "]" then Ok (List [], r2)
          else rbind (array_loop f (skip_ws r))
                 (fun ab => let '(values, rest) := ab in Ok (List values, rest))
      | EmptyString => Err (JSONDecodeError "Expecting value")
      end
    else if String.prefix "null" (String c r) then Ok (Null, advance 4 (String c r))
    else if String.prefix "true" (String c r) then Ok (Bool true, advance 4 (String c r))
    else if String.prefix "false" (String c r) then Ok (Bool false, advance 5 (String c r))
    else
      match match_number (String c r) with
      | IsInt z rest => Ok (Int z, rest)
      | IsFloat => Err (JSONDecodeError "float outside the model")
      | NoMatch =>
          if String.prefix "NaN" (String c r) || String.prefix "Infinity" (String c r)
             || String.prefix "-Infinity" (String c r)
          then Err (JSONDecodeError "float outside the model")
          else Err (JSONDecodeError "Expecting value")
      end.
Proof. reflexivity. Qed.

Lemma value_text_scalar (j : json) (c : ascii) (p : string) :
  JsonTransform.is_container j = false ->
  Str.isspace c = false -> Ascii.eqb c "<" = false -> opens c = false ->
  value_text j (String c p).
Proof.
  intros Hj H1 H2 H3. split.
  - exists c, p. rewrite Hj. auto.
  - rewrite Hj. discriminate.
Qed.

Lemma number_head (c : ascii) :
  is_digit c = true \/ c = "-"%char ->
  Str.isspace c = false /\ Ascii.eqb c "<" = false /\ opens c = false.
Proof.
  intros [H| ->]; [|repeat split].
  destruct c as [[] [] [] [] [] [] [] []]; try discriminate H; repeat split.
Qed.

End JsonReadFacts.

Module JsonReadSteps.
Import Json JsonText JsonScan JsonRoundTrip JsonScanFacts JsonRead JsonReadFacts.
Local Open Scope nat_scope.
Local Open Scope string_scope.

Ltac sapp := repeat (rewrite string_app_assoc || rewrite string_app_cons || rewrite string_app_nil_l).
Ltac slen H := repeat first [rewrite string_length_app in H | progress (cbn [String.length] in H)].

Lemma scan_read_S f : array_read f -> object_read f -> scan_read (S f).
Proof.
  intros HA HO x j r H. destruct x as [|c s]; [discriminate|].
  rewrite scan_once_S in H.
  destruct (Ascii.eqb c Str.dq) eqn:Hq.
  { apply Ascii.eqb_eq in Hq. subst c.
    destruct (scanstring s) as [[str y]|] eqn:Es; [|discriminate].
    cbn [rbind] in H. injection H as <- <-.
    destruct (scanstring_read _ s str y (le_n _) Es) as (pre & -> & Hlen & _ & Hre).
    exists (String Str.dq pre). split; [reflexivity|].
    split; [apply value_text_scalar; reflexivity|].
    intros f' t Hf Ht. cbn [String.length] in Hf. destruct f' as [|f']; [lia|].
    rewrite string_app_cons, scan_once_string, Hre. reflexivity. }
  destruct (Ascii.eqb c "{") eqn:Ho.
  { apply Ascii.eqb_eq in Ho. subst c.
    destruct (skip_ws s) as [|c2 r2] eqn:Es; [discriminate|].
    destruct (skip_ws_split s) as (ws & E & Hws). rewrite Es in E.
    destruct (Ascii.eqb c2 "}") eqn:Hc.
    - apply Ascii.eqb_eq in Hc. subst c2. injection H as <- <-.
      exists (String "{" (ws ++ "}")). split; [rewrite E at 1; sapp; reflexivity|].
      split.
      + split.
        * exists "{"%char, (ws ++ "}"). repeat split.
        * intros _. exists (String "{" ws), "}"%char. split; [sapp; reflexivity | reflexivity].
      + intros f' t Hf Ht. cbn [String.length] in Hf. destruct f' as [|f']; [lia|].
        sapp. rewrite scan_once_object, (skip_ws_blank ws _ Hws). reflexivity.
    - destruct (Ascii.eqb c2 Str.dq) eqn:Hd; [|discriminate].
      apply Ascii.eqb_eq in Hd. subst c2.
      destruct (object_loop f r2) as [[pairs rest]|] eqn:El; [|discriminate].
      cbn [rbind] in H. injection H as <- <-.
      destruct (HO _ _ _ El) as (p & -> & Hre).
      exists (String "{" (ws ++ String Str.dq (p ++ "}"))).
      split; [rewrite E at 1; sapp; reflexivity|]. split.
      + split.
        * exists "{"%char, (ws ++ String Str.dq (p ++ "}")). repeat split.
        * intros _. exists (String "{" (ws ++ String Str.dq p)), "}"%char.
          split; [sapp; reflexivity | reflexivity].
      + intros f' t Hf Ht. cbn [String.length] in Hf. slen Hf.
        destruct f' as [|f']; [lia|].
        sapp. rewrite scan_once_object, (skip_ws_blank ws _ Hws).
        cbn [skip_ws]. change (is_ws Str.dq) with false. cbv iota.
        change (Ascii.eqb Str.dq "}") with false. cbv iota.
        change (Ascii.eqb Str.dq Str.dq) with true. cbv iota.
        specialize (Hre f' t ltac:(lia)). revert Hre. sapp. intros ->. reflexivity. }
  destruct (Ascii.eqb c "[") eqn:Hb.
  { apply Ascii.eqb_eq in Hb. subst c.
    destruct (skip_ws s) as [|c2 r2] eqn:Es; [discriminate|].
    destruct (skip_ws_split s) as (ws & E & Hws). rewrite Es in E.
    pose proof (skip_ws_head _ _ _ Es) as Hc2.
    destruct (Ascii.eqb c2 "]") eqn:Hc.
    - apply Ascii.eqb_eq in Hc. subst c2. injection H as <- <-.
      exists (String "[" (ws ++ "]")). split; [rewrite E at 1; sapp; reflexivity|].
      split.
      + split.
        * exists "["%char, (ws ++ "]"). repeat split.
        * intros _. exists (String "[" ws), "]"%char. split; [sapp; reflexivity | reflexivity].
      + intros f' t Hf Ht. cbn [String.length] in Hf. destruct f' as [|f']; [lia|].
        sapp. rewrite scan_once_array, (skip_ws_blank ws _ Hws). reflexivity.
    - destruct (array_loop f (String c2 r2)) as [[values rest]|] eqn:El; [|discriminate].
      cbn [rbind] in H. injection H as <- <-.
      destruct (HA _ _ _ El) as (p & Ep & Hre).
      assert (Hp : exists p', p = String c2 p').
      { destruct p as [|d p']; [|revert Ep; sapp; intros [= <- _]; eauto].
        revert Ep. sapp. intros [= -> _]. discriminate. }
      destruct Hp as (p' & ->).
      exists (String "[" (ws ++ String c2 p' ++ "]")).
      split; [rewrite E at 1; rewrite Ep; sapp; reflexivity|]. split.
      + split.
        * exists "["%char, (ws ++ String c2 p' ++ "]"). repeat split.
        * intros _. exists (String "[" (ws ++ String c2 p')), "]"%char.
          split; [sapp; reflexivity | reflexivity].
      + intros f' t Hf Ht. cbn [String.length] in Hf. slen Hf.
        destruct f' as [|f']; [lia|].
        sapp. rewrite scan_once_array, (skip_ws_blank ws _ Hws).
        rewrite (skip_ws_solid c2 _ Hc2), Hc.
        specialize (Hre f' t ltac:(cbn [String.length]; lia)).
        revert Hre. sapp. intros ->. reflexivity. }
  destruct (String.prefix "null" (String c s)) eqn:Hn.
  { injection H as <- <-. apply prefix_split in Hn.
    exists "null". split; [exact Hn|]. split; [apply value_text_scalar; reflexivity|].
    intros f' t Hf Ht. destruct f' as [|f']; [cbn in Hf; lia|]. apply scan_once_null. }
  destruct (String.prefix "true" (String c s)) eqn:Ht.
  { injection H as <- <-. apply prefix_split in Ht.
    exists "true". split; [exact Ht|]. split; [apply value_text_scalar; reflexivity|].
    intros f' t Hf Hv. destruct f' as [|f']; [cbn in Hf; lia|]. apply scan_once_true. }
  destruct (String.prefix "false" (String c s)) eqn:Hfa.
  { injection H as <- <-. apply prefix_split in Hfa.
    exists "false". split; [exact Hfa|]. split; [apply value_text_scalar; reflexivity|].
    intros f' t Hf Hv. destruct f' as [|f']; [cbn in Hf; lia|]. apply scan_once_false. }
  destruct (match_number (String c s)) as [|z rest|] eqn:En.
  - destruct (_ || _); discriminate.
  - injection H as <- <-.
    destruct (match_number_read _ _ _ En) as (d & p & E & Hd & Hre).
    destruct (number_head d Hd) as (N1 & N2 & N3).
    exists (String d p). split; [exact E|].
    split; [apply value_text_scalar; auto|].
    intros f' t Hf Hv. destruct f' as [|f']; [cbn in Hf; lia|].
    rewrite string_app_cons, (scan_once_number f' d _ Hd), <- string_app_cons.
    rewrite (Hre t Hv). reflexivity.
  - discriminate.
Qed.


Lemma skip_ws_same_head (u q : string) (e : ascii) (rest t : string) :
  skip_ws u = (q ++ String e EmptyString) ++ rest -> is_ws e = false ->
  skip_ws ((q ++ String e EmptyString) ++ t) = (q ++ String e EmptyString) ++ t.
Proof.
  intros Hu He. destruct q as [|d q].
  - sapp. apply skip_ws_solid. exact He.
  - revert Hu. sapp. intros Hu. apply skip_ws_solid. eapply skip_ws_head. exact Hu.
Qed.

Lemma value_end_closing_after (w : string) (c : ascii) (t : string) :
  blank w = true -> value_end (String c EmptyString) = true ->
  value_end (w ++ String c t) = true.
Proof. intros Hw Hc. apply value_end_blank; [exact Hw | exact Hc]. Qed.

Lemma array_read_S f : scan_read f -> array_read f -> array_read (S f).
Proof.
  intros HS HA x vs r H. rewrite array_loop_S in H.
  destruct (scan_once f x) as [[v s1]|] eqn:Ev; [|discriminate]. cbn [rbind] in H.
  destruct (HS _ _ _ Ev) as (pre & -> & _ & Hre).
  destruct (skip_ws s1) as [|nc r1] eqn:Es; [discriminate|].
  destruct (skip_ws_split s1) as (ws & E & Hws). rewrite Es in E. subst s1.
  destruct (Ascii.eqb nc "]") eqn:Hc.
  - apply Ascii.eqb_eq in Hc. subst nc. injection H as <- <-.
    exists (pre ++ ws). split; [sapp; reflexivity|].
    intros f' t Hf. slen Hf. destruct f' as [|f']; [lia|].
    sapp. rewrite array_loop_S.
    rewrite (Hre f' (ws ++ String "]" t)) by (try lia; apply value_end_closing_after; auto).
    cbn [rbind]. rewrite (skip_ws_blank ws _ Hws). reflexivity.
  - destruct (Ascii.eqb nc ",") eqn:Hm; [|discriminate].
    apply Ascii.eqb_eq in Hm. subst nc.
    destruct (array_loop f (skip_ws r1)) as [[vs' rest]|] eqn:El; [|discriminate].
    cbn [rbind] in H. injection H as <- <-.
    destruct (HA _ _ _ El) as (p2 & E2 & Hre2).
    destruct (skip_ws_split r1) as (ws2 & Er & Hws2). rewrite E2 in Er. subst r1.
    exists (pre ++ ws ++ String "," (ws2 ++ p2)). split; [sapp; reflexivity|].
    intros f' t Hf. slen Hf. destruct f' as [|f']; [lia|].
    sapp. rewrite array_loop_S.
    rewrite (Hre f' (ws ++ String "," (ws2 ++ p2 ++ String "]" t)))
      by (try lia; apply value_end_closing_after; auto).
    cbn [rbind]. rewrite (skip_ws_blank ws _ Hws).
    cbn [skip_ws]. change (is_ws ",") with false. cbv iota.
    change (Ascii.eqb "," "]") with false. cbv iota.
    change (Ascii.eqb "," ",") with true. cbv iota.
    rewrite (skip_ws_blank ws2 _ Hws2).
    pose proof (skip_ws_same_head _ p2 "]" rest t E2 eq_refl) as Hh.
    specialize (Hre2 f' t ltac:(lia)). revert Hh Hre2. sapp. intros -> ->. reflexivity.
Qed.

Lemma object_read_S f : scan_read f -> object_read f -> object_read (S f).
Proof.
  intros HS HO x ps r H. rewrite object_loop_S in H.
  destruct (scanstring x) as [[key s1]|] eqn:Ek; [|discriminate]. cbn [rbind] in H.
  destruct (scanstring_read _ x key s1 (le_n _) Ek) as (pk & -> & _ & _ & Hrek).
  destruct (skip_ws s1) as [|colon s2] eqn:E1; [discriminate|].
  destruct (skip_ws_split s1) as (ws1 & E & Hws1). rewrite E1 in E. subst s1.
  destruct (Ascii.eqb colon ":") eqn:Hc; [|discriminate].
  apply Ascii.eqb_eq in Hc. subst colon.
  destruct (scan_once f (skip_ws s2)) as [[value s3]|] eqn:Ev; [|discriminate].
  cbn [rbind] in H.
  destruct (HS _ _ _ Ev) as (pv & Epv & ((c & p & -> & Hsp & _) & _) & Hrev).
  destruct (skip_ws_split s2) as (ws2 & E & Hws2). rewrite Epv in E. subst s2.
  pose proof (not_space_not_ws c Hsp) as Hcw.
  destruct (skip_ws s3) as [|nc r1] eqn:E3; [discriminate|].
  destruct (skip_ws_split s3) as (ws3 & E & Hws3). rewrite E3 in E. subst s3.
  destruct (Ascii.eqb nc "}") eqn:Hn.
  - apply Ascii.eqb_eq in Hn. subst nc. injection H as <- <-.
    exists (pk ++ ws1 ++ String ":" (ws2 ++ String c p ++ ws3)).
    split; [sapp; reflexivity|].
    intros f' t Hf. slen Hf. destruct f' as [|f']; [lia|].
    sapp. rewrite object_loop_S, Hrek. cbn [rbind].
    rewrite (skip_ws_blank ws1 _ Hws1).
    cbn [skip_ws]. change (is_ws ":") with false. cbv iota.
    change (Ascii.eqb ":" ":") with true. cbv iota.
    rewrite (skip_ws_blank ws2 _ Hws2), (skip_ws_solid c _ Hcw).
    specialize (Hrev f' (ws3 ++ String "}" t) ltac:(cbn [String.length]; lia)
                  ltac:(apply value_end_closing_after; auto)).
    revert Hrev. sapp. intros ->. cbn [rbind].
    rewrite (skip_ws_blank ws3 _ Hws3). reflexivity.
  - destruct (Ascii.eqb nc ",") eqn:Hm; [|discriminate].
    apply Ascii.eqb_eq in Hm. subst nc.
    destruct (skip_ws r1) as [|q r'] eqn:E4; [discriminate|].
    destruct (skip_ws_split r1) as (ws4 & E & Hws4). rewrite E4 in E. subst r1.
    destruct (Ascii.eqb q Str.dq) eqn:Hq; [|discriminate].
    apply Ascii.eqb_eq in Hq. subst q.
    destruct (object_loop f r') as [[pairs rest]|] eqn:El; [|discriminate].
    cbn [rbind] in H. injection H as <- <-.
    destruct (HO _ _ _ El) as (p2 & -> & Hre2).
    exists (pk ++ ws1 ++ String ":" (ws2 ++ String c p ++ ws3
                                   ++ String "," (ws4 ++ String Str.dq p2))).
    split; [sapp; reflexivity|].
    intros f' t Hf. slen Hf. destruct f' as [|f']; [lia|].
    sapp. rewrite object_loop_S, Hrek. cbn [rbind].
    rewrite (skip_ws_blank ws1 _ Hws1).
    cbn [skip_ws]. change (is_ws ":") with false. cbv iota.
    change (Ascii.eqb ":" ":") with true. cbv iota.
    rewrite (skip_ws_blank ws2 _ Hws2), (skip_ws_solid c _ Hcw).
    specialize (Hrev f' (ws3 ++ String "," (ws4 ++ String Str.dq (p2 ++ String "}" t)))
                  ltac:(cbn [String.length]; lia)
                  ltac:(apply value_end_closing_after; auto)).
    revert Hrev. sapp. intros ->. cbn [rbind].
    rewrite (skip_ws_blank ws3 _ Hws3).
    cbn [skip_ws]. change (is_ws ",") with false. cbv iota.
    change (Ascii.eqb "," "}") with false. cbv iota.
    change (Ascii.eqb "," ",") with true. cbv iota.
    rewrite (skip_ws_blank ws4 _ Hws4).
    cbn [skip_ws]. change (is_ws Str.dq) with false. cbv iota.
    change (Ascii.eqb Str.dq Str.dq) with true. cbv iota.
    specialize (Hre2 f' t ltac:(lia)). revert Hre2. sapp. intros ->. reflexivity.
Qed.

(** Every successful scan has read a text that is read the same way
    wherever it stands. *)
Lemma read_all f : scan_read f /\ array_read f /\ object_read f.
Proof.
  induction f as [|f (HS & HA & HO)].
  - split; [|split]; intros x ? r H; discriminate H.
  - split; [|split].
    + apply scan_read_S; assumption.
    + apply array_read_S; assumption.
    + apply object_read_S; assumption.
Qed.

End JsonReadSteps.

Module JsonStripFacts.
Import Json JsonText JsonScan JsonRoundTrip JsonScanFacts JsonRead JsonReadFacts JsonReadSteps.
Local Open Scope nat_scope.
Local Open Scope string_scope.

Lemma lstrip_spaces (w : string) (c : ascii) (r : string) :
  spaces w = true -> Str.isspace c = false -> Str.lstrip (w ++ String c r) = String c r.
Proof.
  intros Hw Hc. induction w as [|d w IH].
  - sapp. cbn [Str.lstrip]. rewrite Hc. reflexivity.
  - cbn [spaces] in Hw. apply andb_true_iff in Hw as [Hd Hw].
    sapp. cbn [Str.lstrip]. rewrite Hd. revert IH. sapp. auto.
Qed.

Lemma rstrip_spaces (w : string) : spaces w = true -> Str.rstrip w = EmptyString.
Proof.
  induction w as [|d w IH]; [reflexivity|]. cbn [spaces]. intros H.
  apply andb_true_iff in H as [Hd Hw]. cbn [Str.rstrip]. rewrite (IH Hw), Hd. reflexivity.
Qed.

Lemma rstrip_solid_end (p : string) (e : ascii) (w : string) :
  Str.isspace e = false -> spaces w = true ->
  Str.rstrip (p ++ String e w) = p ++ String e EmptyString.
Proof.
  intros He Hw. induction p as [|d p IH].
  - sapp. cbn [Str.rstrip]. rewrite (rstrip_spaces w Hw), He. reflexivity.
  - sapp. cbn [Str.rstrip]. revert IH. sapp. intros ->.
    destruct p; reflexivity.
Qed.

Lemma rstrip_head (c : ascii) (r : string) :
  Str.isspace c = false -> exists r', Str.rstrip (String c r) = String c r'.
Proof.
  intros Hc. cbn [Str.rstrip]. destruct (Str.rstrip r).
  - rewrite Hc. eexists. reflexivity.
  - eexists. reflexivity.
Qed.

Lemma skip_ws_nil_blank (s : string) : skip_ws s = EmptyString -> blank s = true.
Proof.
  intros H. destruct (skip_ws_split s) as (ws & E & Hb). rewrite H, string_app_nil_r in E.
  subst s. exact Hb.
Qed.

(** What [json.loads] has read of a text it accepts: the text of the
    value between blanks. *)
Lemma loads_read (s : string) (j : json) :
  loads s = Ok j ->
  exists w1 pre w2, s = w1 ++ pre ++ w2 /\ blank w1 = true /\ blank w2 = true
    /\ value_text j pre /\ loads pre = Ok j.
Proof.
  unfold loads at 1. intros H.
  destruct (scan_once (S (String.length s)) (skip_ws s)) as [[obj rest]|] eqn:Es;
    [|discriminate].
  cbn [rbind] in H. destruct (skip_ws rest) eqn:Er; [|discriminate].
  injection H as ->.
  destruct (proj1 (read_all _) _ _ _ Es) as (pre & Epre & Hvt & Hre).
  destruct (skip_ws_split s) as (w1 & E & Hw1). rewrite Epre in E.
  exists w1, pre, rest. split; [exact E|]. split; [exact Hw1|].
  split; [apply skip_ws_nil_blank; exact Er|]. split; [exact Hvt|].
  destruct Hvt as ((c & p & -> & Hsp & _) & _).
  unfold loads. rewrite (skip_ws_solid c p (not_space_not_ws c Hsp)).
  specialize (Hre (S (String.length (String c p))) EmptyString ltac:(lia) eq_refl).
  rewrite string_app_nil_r in Hre. rewrite Hre. reflexivity.
Qed.

(** [json.loads] accepts the stripped text of a list or an object it
    accepts, with the same result. *)
Lemma loads_strip_container (s : string) (j : json) :
  loads s = Ok j -> JsonTransform.is_container j = true ->
  loads (Str.strip s) = Ok j
  /\ exists c r, Str.strip s = String c r /\ opens c = true.
Proof.
  intros H Hc. destruct (loads_read s j H) as (w1 & pre & w2 & -> & Hw1 & Hw2 & Hvt & Hl).
  destruct Hvt as ((c & p & Ep & Hsp & _ & Ho) & Hend).
  destruct (Hend Hc) as (q & e & Eq & He).
  assert (Es : Str.strip (w1 ++ pre ++ w2) = pre).
  { unfold Str.strip. rewrite Ep. sapp.
    rewrite (lstrip_spaces w1 c _ (blank_spaces _ Hw1) Hsp).
    rewrite <- string_app_cons, <- Ep, Eq. sapp.
    apply rstrip_solid_end; [exact He | apply blank_spaces; exact Hw2]. }
  rewrite Es. split; [exact Hl|]. exists c, p. split; [exact Ep|]. rewrite Ho. exact Hc.
Qed.

(** The stripped text of a value that is no list and no object starts
    with a character that is none of the three the detection looks for. *)
Lemma loads_strip_scalar (s : string) (j : json) :
  loads s = Ok j -> JsonTransform.is_container j = false ->
  exists c r, Str.strip s = String c r /\ opens c = false /\ Ascii.eqb c "<" = false.
Proof.
  intros H Hc. destruct (loads_read s j H) as (w1 & pre & w2 & -> & Hw1 & Hw2 & Hvt & Hl).
  destruct Hvt as ((c & p & Ep & Hsp & Hlt & Ho) & _).
  unfold Str.strip. rewrite Ep. sapp.
  rewrite (lstrip_spaces w1 c _ (blank_spaces _ Hw1) Hsp).
  destruct (rstrip_head c (p ++ w2) Hsp) as (r' & ->).
  exists c, r'. split; [reflexivity|]. rewrite Ho. auto.
Qed.

End JsonStripFacts.

(** * The claims *)

(** ** Format detection *)

Section DetectFacts.

Context {J X : Type}.
Variable json_loads : string -> option J.
Variable ET_fromstring : string -> option X.




End DetectFacts.

(** ** The early return of [generate_diff] *)

(** C7. When the original or the modified document is falsy,
    [generate_diff] returns the empty list of lines and leaves the heap
    as it is, whatever the other document and the file type are. *)
Theorem generate_diff_falsy_empty (h : heap) (original modified : document)
    (file_type : string) :
  truthy h original = false \/ truthy h modified = false ->
  generate_diff original modified file_type h = (Ok [], h).
Proof.
  intros Hf. unfold generate_diff, bind, get, ret.
  destruct Hf as [-> | ->]; simpl; [reflexivity|].
  rewrite orb_true_r. reflexivity.
Qed.

Lemma generate_diff_falsy_empty_witness :
  let h := mkHeap [JsonObj.ODict [("a", JsonObj.VInt 1)]] [] in
  (truthy h (JsonDoc (JsonObj.VRef 0)) = false \/ truthy h (JsonDoc JsonObj.VNone) = false)
  /\ generate_diff (JsonDoc (JsonObj.VRef 0)) (JsonDoc JsonObj.VNone) "json" h = (Ok [], h).
Proof.
  split.
  - right. reflexivity.
  - apply generate_diff_falsy_empty. right. reflexivity.
Defined.

(** C10. The emptiness test is Python truthiness: for each of the JSON
    documents [{}], [[]], [0], the empty string, [false] and [null], and
    for every XML document whose root has no child element, the diff of
    the document against its transform is empty; for [{}] the transform
    did change the document (it gained [new_field]). *)
Theorem falsy_documents_have_empty_diff :
  Forall (fun j => let '(doc, h) := loaded_json j in
                   fst (transform_and_diff doc "json" h) = Ok [])
         [Json.Dict []; Json.List []; Json.Int 0; Json.Str EmptyString;
          Json.Bool false; Json.Null]
  /\ (forall tg att tx tl,
        let '(doc, h) := loaded_xml (ET.Node tg att tx tl []) in
        fst (transform_and_diff doc "xml" h) = Ok [])
  /\ fst (run_modify_json (Json.Dict []))
     = Ok (Some (Json.Dict [("new_field", Json.Str "This is a new value")])).
Proof.
  split; [|split].
  - repeat constructor.
  - intros tg att tx tl. cbv [loaded_xml parsed_xml ET.build].
    cbn. unfold transform_and_diff, transform. cbn.
    unfold in_estore, bind, modify_xml, bind. cbn.
    unfold ET.findall_descendants. cbn.
    unfold ET.has_tag. cbn.
    repeat (match goal with
            | |- context [String.eqb ?x ?y] => destruct (String.eqb x y)
            end; cbn).
    all: reflexivity.
  - vm_compute. reflexivity.
Qed.

(** ** The JSON transform on given documents *)

(** C2 (the code raises). A record whose [parameters] field is not a
    mapping is not skipped: for a number the membership test
    ["offensive_player" in item["parameters"]] raises [TypeError]; for a
    string or a list that contains ["offensive_player"] the test holds
    and the [del] raises [TypeError]. *)
Theorem modify_json_raises_on_non_mapping_parameters :
  fst (run_modify_json (Json.List [Json.Dict [("parameters", Json.Int 1)]]))
  = Err TypeError
  /\ fst (run_modify_json
            (Json.List [Json.Dict [("parameters", Json.Str "offensive_player")]]))
     = Err TypeError
  /\ fst (run_modify_json
            (Json.List [Json.Dict [("parameters",
                                    Json.List [Json.Str "offensive_player"])]]))
     = Err TypeError.
Proof. repeat split; vm_compute; reflexivity. Qed.

(** C9. For the document [{"a": 1, "to_delete": 2}] the transform returns
    [{"a": 1, "new_field": "This is a new value"}], keys in this order;
    the diff has five lines, one removed and one added, and the rendered
    diff has exactly one red and one green entry. *)
Theorem scenario_single_record :
  let j := Json.Dict [("a", Json.Int 1); ("to_delete", Json.Int 2)] in
  let diff := ["  {";
               "    " ++ Str.quoted "a" ++ ": 1,";
               "-   " ++ Str.quoted "to_delete" ++ ": 2";
               "+   " ++ Str.quoted "new_field" ++ ": " ++ Str.quoted "This is a new value";
               "  }"]%string in
  fst (run_modify_json j)
  = Ok (Some (Json.Dict [("a", Json.Int 1);
                         ("new_field", Json.Str "This is a new value")]))
  /\ (let '(doc, h) := loaded_json j in
      fst (transform_and_diff doc "json" h) = Ok diff)
  /\ length (List.filter (fun l => Str.startswith l "-") diff) = 1
  /\ length (List.filter (fun l => Str.startswith l "+") diff) = 1
  /\ length (List.filter (fun d => Str.contains d "#ffb3b3") (html_lines diff)) = 1
  /\ length (List.filter (fun d => Str.contains d "#a8ffa8") (html_lines diff)) = 1
  /\ length (html_lines diff) = 5.
Proof. repeat split; vm_compute; reflexivity. Qed.

(** ** A document compared with itself *)

Lemma in_jstore_json_dumps (indent : option nat) (v : JsonObj.value) (h : heap) :
  snd (in_jstore (JsonObj.json_dumps indent v) h) = h.
Proof.
  destruct h as [js es]. unfold in_jstore, JsonObj.json_dumps. simpl.
  destruct (JsonObj.load_all js v); reflexivity.
Qed.

Lemma in_estore_prettify_xml (root : ET.loc) (h : heap) :
  snd (in_estore (prettify_xml root) h) = h.
Proof.
  destruct h as [js es]. unfold in_estore, prettify_xml. simpl.
  destruct (ET.load_all es root); [|reflexivity].
  destruct (XmlText.parseString _); reflexivity.
Qed.

(** Pretty-printing reads the heap and leaves it as it is. *)
Lemma pretty_lines_heap (doc : document) (file_type : string) (h : heap) :
  snd (pretty_lines doc file_type h) = h.
Proof.
  unfold pretty_lines.
  destruct (String.eqb file_type "json"), doc as [v|root]; try reflexivity.
  - unfold bind. pose proof (in_jstore_json_dumps (Some 2) v h) as E.
    destruct (in_jstore _ h) as [[text|e] h']; simpl in *; congruence.
  - unfold bind. pose proof (in_estore_prettify_xml root h) as E.
    destruct (in_estore _ h) as [[text|e] h']; simpl in *; congruence.
Qed.

(** C8. For a truthy document whose pretty-printing succeeds, the diff of
    the document against itself is the list of its pretty-printed lines,
    each behind the two-space tag of an unchanged line: no line is tagged
    as added, removed or as a hint. *)
Theorem generate_diff_self_only_context (h : heap) (doc : document)
    (file_type : string) (lines : list string) :
  truthy h doc = true ->
  fst (pretty_lines doc file_type h) = Ok lines ->
  generate_diff doc doc file_type h
  = (Ok (map (fun line => ("  " ++ line)%string) lines), h)
  /\ Forall (fun entry => Str.startswith entry "  " = true
                          /\ Str.startswith entry "+" = false
                          /\ Str.startswith entry "-" = false
                          /\ Str.startswith entry "?" = false)
            (map (fun line => ("  " ++ line)%string) lines).
Proof.
  intros Ht Hl. split.
  - unfold generate_diff, bind, get. rewrite Ht. simpl.
    pose proof (pretty_lines_heap doc file_type h) as Hh.
    destruct (pretty_lines doc file_type h) as [r h'] eqn:E.
    simpl in Hl, Hh. subst r h'. rewrite E.
    rewrite DifflibFacts.compare_same. reflexivity.
  - apply Forall_forall. intros entry Hin.
    apply list_elem_of_fmap in Hin as (line & -> & _).
    repeat split; destruct line; reflexivity.
Qed.

Lemma generate_diff_self_only_context_witness :
  let h := mkHeap [JsonObj.ODict [("a", JsonObj.VInt 1)]] [] in
  let doc := JsonDoc (JsonObj.VRef 0) in
  let lines := ["{"; ("  " ++ Str.quoted "a" ++ ": 1")%string; "}"] in
  truthy h doc = true
  /\ fst (pretty_lines doc "json" h) = Ok lines
  /\ generate_diff doc doc "json" h
     = (Ok (map (fun line => ("  " ++ line)%string) lines), h).
Proof.
  intros h doc lines.
  assert (H1 : truthy h doc = true) by reflexivity.
  assert (H2 : fst (pretty_lines doc "json" h) = Ok lines) by (vm_compute; reflexivity).
  split; [exact H1|]. split; [exact H2|].
  exact (proj1 (generate_diff_self_only_context h doc "json" lines H1 H2)).
Defined.

(** ** The original document survives the transform *)

(** C4. Whatever the outcome of the transform, the objects of the
    original document are the same after the run as before: the store
    still starts with them, the original denotes the same document, and
    its pretty-printed text is the same.  This holds for the JSON
    transform, which works on [json.loads(json.dumps(json_data))], and for
    the XML transform, which works on [deepcopy(xml_root)]. *)
Theorem transform_leaves_original_unchanged :
  (forall j : Json.json,
     let v := fst (parsed j) in
     let s0 := snd (parsed j) in
     let s1 := snd (modify_json v s0) in
     take (length s0) s1 = s0
     /\ JsonObj.load_all s1 v = Some j
     /\ fst (JsonObj.json_dumps (Some 2) v s1) = fst (JsonObj.json_dumps (Some 2) v s0))
  /\ (forall t : ET.xml,
        let root := fst (parsed_xml t) in
        let s0 := snd (parsed_xml t) in
        let s1 := snd (modify_xml root s0) in
        take (length s0) s1 = s0
        /\ ET.load_all s1 root = Some t
        /\ fst (prettify_xml root s1) = fst (prettify_xml root s0)).
Proof.
  split.
  - intros j v s0 s1.
    destruct (JsonFacts.modify_json_frame j) as (Ht & Hl0 & Hl1).
    fold v s0 in Ht, Hl0, Hl1. fold s1 in Ht, Hl1.
    split; [exact Ht|]. split; [exact Hl1|].
    unfold JsonObj.json_dumps. rewrite Hl0, Hl1. reflexivity.
  - intros t root s0 s1.
    destruct (EtFacts.modify_xml_frame t) as (Ht & Hl0 & Hl1).
    fold root s0 in Ht, Hl0, Hl1. fold s1 in Ht, Hl1.
    split; [exact Ht|]. split; [exact Hl1|].
    unfold prettify_xml. rewrite Hl0, Hl1.
    destruct (XmlText.parseString _); reflexivity.
Qed.

(** ** The XML transform *)

Section XmlClaims.
Import ET XmlTree.

(** C1 (as stated, refuted). A [team_name] that is not a child of the
    element [parameters] but lies deeper below it is still there after
    the transform, and so is a [team_name] child of a document root
    [parameters]. *)
Lemma team_name_remains_under_parameters :
  (exists t t',
     XmlText.fromstring "<root><parameters><a><team_name>x</team_name></a></parameters></root>" = Ok t
     /\ fst (run_modify_xml t) = Ok (Some t')
     /\ team_name_under_parameters t' = true)
  /\ (exists t t',
     XmlText.fromstring "<parameters><team_name>x</team_name></parameters>" = Ok t
     /\ fst (run_modify_xml t) = Ok (Some t')
     /\ team_name_under_parameters t' = true).
Proof.
  split; eexists; eexists; (split; [vm_compute; reflexivity|]);
    (split; [vm_compute; reflexivity|]); vm_compute; reflexivity.
Qed.

(** C1 (amended). On every document the XML transform returns, and in
    its result no element [parameters] strictly below the document root
    has a child [team_name]. *)
Theorem modify_xml_removes_team_name_children (t : xml) :
  exists t', fst (run_modify_xml t) = Ok (Some t')
    /\ forallb (every_parameters no_team_name_child) (xkids t') = true.
Proof.
  exists (xml_transform t). rewrite XmlTreeFacts.modify_xml_refines. split; [reflexivity|].
  rewrite XmlTreeFacts.xml_transform_kids. apply XmlTreeFacts.forallb_map_all.
  apply Forall_forall. intros k _. apply XmlTreeFacts.step_all_no_team_name.
Qed.

(** C3 (as stated, refuted). A document root [parameters] has no child
    [something] after the transform, and an element [parameters] that had
    a child [something] has two. *)
Lemma parameters_without_one_something :
  (exists t t',
     XmlText.fromstring "<parameters><shot_type>x</shot_type></parameters>" = Ok t
     /\ fst (run_modify_xml t) = Ok (Some t')
     /\ List.filter (is_tag "something") (xkids t') = [])
  /\ (exists t t' k1 k2,
     XmlText.fromstring "<root><parameters><something>1</something></parameters></root>" = Ok t
     /\ fst (run_modify_xml t) = Ok (Some t')
     /\ map (fun p => List.filter (is_tag "something") (xkids p)) (xkids t') = [[k1; k2]]).
Proof.
  split.
  - eexists; eexists. split; [vm_compute; reflexivity|].
    split; [vm_compute; reflexivity|]. vm_compute. reflexivity.
  - eexists; eexists; eexists; eexists. split; [vm_compute; reflexivity|].
    split; [vm_compute; reflexivity|]. vm_compute. reflexivity.
Qed.

(** C3 (amended). On every document the XML transform returns; in its
    result every element [parameters] strictly below the document root
    has as last child an element [something] with the text ["2"], the
    children of the document root have the tags they had, in number and
    order, and when the document has no element [something] every element
    [parameters] strictly below the root has exactly one child
    [something]. *)
Theorem modify_xml_appends_something (t : xml) :
  exists t', fst (run_modify_xml t) = Ok (Some t')
    /\ forallb (every_parameters last_child_is_something2) (xkids t') = true
    /\ map xtag (xkids t') = map xtag (xkids t)
    /\ (no_element "something" t = true ->
        forallb (every_parameters one_something2_child) (xkids t') = true).
Proof.
  exists (xml_transform t). rewrite XmlTreeFacts.modify_xml_refines. split; [reflexivity|].
  rewrite XmlTreeFacts.xml_transform_kids. split; [|split].
  - apply XmlTreeFacts.forallb_map_all.
    apply Forall_forall. intros k _. apply XmlTreeFacts.step_all_last.
  - rewrite map_map. apply map_ext. apply XmlTreeFacts.xtag_step_all.
  - intros H. destruct t as [tg att tx tl kids].
    apply andb_true_iff in H as [_ H]. cbn [xkids] in *.
    apply (XmlTreeFacts.forallb_map_impl (no_element "something")); [|exact H].
    apply Forall_forall. intros k _. apply XmlTreeFacts.step_all_one.
Qed.

Lemma modify_xml_appends_something_witness :
  let t := Node "root" [] None None
             [Node "parameters" [] None None [Node "team_name" [] (Some "x") None []]] in
  no_element "something" t = true
  /\ exists t', fst (run_modify_xml t) = Ok (Some t')
       /\ forallb (every_parameters one_something2_child) (xkids t') = true.
Proof.
  intros t. split; [reflexivity|].
  destruct (modify_xml_appends_something t) as (t' & E & _ & _ & H).
  exists t'. split; [exact E | apply H; reflexivity].
Defined.

End XmlClaims.

(** ** [generate_diff], [load_file] and [main] *)

Module AppFacts.
Import Json DifflibRestore.




(** [generate_diff] on two truthy documents. *)
Lemma generate_diff_truthy h o m ft :
  truthy h o = true -> truthy h m = true ->
  match fst (pretty_lines o ft h) with
  | Err e => generate_diff o m ft h = (Err e, h)
  | Ok la =>
      match fst (pretty_lines m ft h) with
      | Err e => generate_diff o m ft h = (Err e, h)
      | Ok lb =>
          exists d, generate_diff o m ft h = (Ok d, h)
            /\ restore "- " d = la /\ restore "+ " d = lb /\ forallb tagged d = true
      end
  end.
Proof.
  intros Ho Hm.
  assert (E : generate_diff o m ft h
              = (original_str <- pretty_lines o ft ;;
                 modified_str <- pretty_lines m ft ;;
                 match Difflib.compare None None original_str modified_str with
                 | Some lines => ret lines
                 | None => raise OutOfFuel
                 end) h).
  { unfold generate_diff. unfold bind at 1. unfold get. rewrite Ho, Hm. reflexivity. }
  rewrite E. clear E. unfold bind.
  pose proof (pretty_lines_heap o ft h) as H1.
  destruct (pretty_lines o ft h) as [[la|e] h1]; cbn [fst snd] in *; subst h1;
    [|reflexivity].
  pose proof (pretty_lines_heap m ft h) as H2.
  destruct (pretty_lines m ft h) as [[lb|e] h2]; cbn [fst snd] in *; subst h2;
    [|reflexivity].
  destruct (DifferFacts.compare_ok None None la lb) as (d & -> & R1 & R2 & R3).
  exists d. auto.
Qed.

End AppFacts.

Module MainFacts.
Import Json DifflibRestore JsonTransform JsonRaises AppFacts.

Lemma in_heap_eq {A} (m : comp heap A) s r h' :
  m (session_heap s) = (r, h') -> in_heap m s = (r, mkSession h' (page s)).
Proof. intros E. unfold in_heap. rewrite E. reflexivity. Qed.


Lemma in_heap_err {A} (m : comp heap A) s e h' :
  m (session_heap s) = (Err e, h') -> in_heap m s = (Err e, mkSession h' (page s)).
Proof. intros E. unfold in_heap. rewrite E. reflexivity. Qed.

Lemma load_file_rejected content e h :
  detect_file_type (fun text => accepted (loads text))
    (fun text => accepted (XmlText.fromstring text)) content = Err e ->
  load_file (Some content) h = (Err e, h).
Proof. intros E. unfold load_file, bind, lift. rewrite E. reflexivity. Qed.



(** The run of [main] up to the [try]. *)
Lemma run_main_some content :
  run_main (Some content)
  = try_except_ValueError
      (loaded <- in_heap (load_file (Some content)) ;;
       let '(original_data, file_type) := loaded in
       if is_not_None original_data then
         match original_data, file_type with
         | Some original_data, Some file_type =>
             st (st_info ("Detected file type: " ++ upper file_type)) ;;;
             modified_data <- in_heap (transform original_data file_type) ;;
             st (st_subheader "Differences (Git-style)") ;;;
             diff_lines <- in_heap (generate_diff original_data modified_data file_type) ;;
             let diff_html := format_diff_html diff_lines in
             st (st_markdown diff_html true) ;;;
             info <- in_heap (get_file_download_info modified_data file_type) ;;
             let '(content, mime, extension) := info in
             st (st_download_button ("Download modified " ++ upper file_type) content
                   ("modified." ++ extension) mime)
         | _, _ => raise AttributeError
         end
       else ret tt)
      (fun e => st (st_error e))
      (mkSession (mkHeap [] []) page0).
Proof. reflexivity. Qed.

(** A file that [detect_file_type] refuses: the page shows the message
    of the error and nothing else. *)
Lemma run_main_rejected content msg :
  detect_file_type (fun text => accepted (loads text))
    (fun text => accepted (XmlText.fromstring text)) content = Err (ValueError msg) ->
  run_main (Some content) = (Ok tt, mkSession (mkHeap [] []) (page0 ++ [st_error msg])).
Proof.
  intros E. rewrite run_main_some. unfold try_except_ValueError.
  erewrite JsonTransformFacts.bind_err; [|apply in_heap_err, load_file_rejected; exact E].
  reflexivity.
Qed.


End MainFacts.

Module MainJson.
Import Json DifflibRestore JsonTransform JsonRaises AppFacts MainFacts.







End MainJson.

Module DetectJson.
Import Json JsonText JsonScan JsonRoundTrip JsonScanFacts JsonStripFacts JsonTransform.
Local Open Scope string_scope.

Lemma startswith_head (c a : ascii) (r : string) :
  Str.startswith (String c r) (String a EmptyString) = Ascii.eqb a c.
Proof.
  unfold Str.startswith. cbn [String.prefix].
  destruct (ascii_dec a c) as [->|Hne].
  - rewrite Ascii.eqb_refl. destruct r; reflexivity.
  - symmetry. apply Ascii.eqb_neq. exact Hne.
Qed.

Lemma startswith_longer (c a : ascii) (r p : string) :
  Ascii.eqb a c = false -> Str.startswith (String c r) (String a p) = false.
Proof.
  intros H. unfold Str.startswith. cbn [String.prefix].
  destruct (ascii_dec a c) as [->|Hne]; [|reflexivity].
  rewrite Ascii.eqb_refl in H. discriminate.
Qed.

Lemma opens_startswith (c : ascii) (r : string) :
  Str.startswith (String c r) "{" || Str.startswith (String c r) "[" = opens c.
Proof.
  rewrite !startswith_head. unfold opens.
  rewrite (Ascii.eqb_sym "{" c), (Ascii.eqb_sym "[" c). reflexivity.
Qed.

Section Detect.
Context {X : Type}.
Variable ET_fromstring : string -> option X.

(** The detection on a text that [json.loads] accepts: ["json"] for a
    list or an object, and the error for every other value, whatever the
    XML parser does. *)
Lemma detect_json_text (content : string) (j : json) :
  loads content = Ok j ->
  detect_file_type (fun text => accepted (loads text)) ET_fromstring content
  = if is_container j then Ok "json" else Err UnsupportedFormat.
Proof.
  intros H. unfold detect_file_type. destruct (is_container j) eqn:Hc.
  - destruct (loads_strip_container content j H Hc) as (Hl & c & r & Es & Ho).
    rewrite Hl. rewrite Es, opens_startswith, Ho. reflexivity.
  - destruct (loads_strip_scalar content j H Hc) as (c & r & Es & Ho & Hlt).
    rewrite Es, opens_startswith, Ho.
    rewrite (startswith_longer c "<" r _), (startswith_head c "<" r).
    + rewrite (Ascii.eqb_sym "<" c), Hlt. reflexivity.
    + rewrite Ascii.eqb_sym. exact Hlt.
Qed.

(** A text whose stripped form starts with none of the three characters
    is refused. *)
Lemma detect_other_text (content : string) {J : Type} (json_loads : string -> option J) :
  Str.startswith (Str.strip content) "{" = false ->
  Str.startswith (Str.strip content) "[" = false ->
  Str.startswith (Str.strip content) "<" = false ->
  detect_file_type json_loads ET_fromstring content = Err UnsupportedFormat.
Proof.
  intros H1 H2 H3. unfold detect_file_type. rewrite H1, H2, H3.
  replace (Str.startswith (Str.strip content) "<?xml") with false; [reflexivity|].
  destruct (Str.strip content) as [|c r]; [reflexivity|].
  rewrite startswith_head in H3. symmetry. apply startswith_longer. exact H3.
Qed.

End Detect.




End DetectJson.

Module MainMore.
Import Json JsonText JsonTransform DifflibRestore AppFacts MainFacts MainJson DetectJson.




(** *** Objects that went through the transform *)

Lemma dict_set_same {V} (k : string) (v : V) (d : list (string * V)) :
  JsonObj.dict_get k d = Some v -> dict_set k v d = d.
Proof.
  induction d as [|[k' v'] d IH]; [discriminate|]. cbn [JsonObj.dict_get dict_set].
  destruct (String.eqb k' k) eqn:E.
  - intros [= ->]. apply String.eqb_eq in E. subst k'. reflexivity.
  - intros H. rewrite (IH H). reflexivity.
Qed.

Lemma dict_get_set_eq {V} (k : string) (v : V) (d : list (string * V)) :
  JsonObj.dict_get k (dict_set k v d) = Some v.
Proof.
  induction d as [|[k' v'] d IH]; cbn [dict_set JsonObj.dict_get].
  - rewrite String.eqb_refl. reflexivity.
  - destruct (String.eqb k' k) eqn:E; cbn [JsonObj.dict_get].
    + rewrite String.eqb_refl. reflexivity.
    + rewrite E. exact IH.
Qed.

Lemma dict_get_del_ne {V} (k k' : string) (d : list (string * V)) :
  String.eqb k' k = false ->
  JsonObj.dict_get k (JsonObj.dict_del k' d) = JsonObj.dict_get k d.
Proof.
  intros Hne. induction d as [|[k0 v0] d IH]; [reflexivity|].
  unfold JsonObj.dict_del in *. cbn [List.filter fst JsonObj.dict_get].
  destruct (String.eqb k0 k') eqn:E0; cbn [negb JsonObj.dict_get].
  - apply String.eqb_eq in E0. subst k0. rewrite Hne. exact IH.
  - rewrite IH. reflexivity.
Qed.

Lemma dict_del_idem {V} (k : string) (d : list (string * V)) :
  JsonObj.dict_del k (JsonObj.dict_del k d) = JsonObj.dict_del k d.
Proof.
  unfold JsonObj.dict_del. induction d as [|[k0 v0] d IH]; [reflexivity|].
  cbn [List.filter fst]. destruct (negb (String.eqb k0 k)) eqn:E; cbn [List.filter fst].
  - rewrite E, IH. reflexivity.
  - exact IH.
Qed.

Lemma dict_transform_idem (entries : list (string * json)) :
  dict_transform (dict_transform entries) = dict_transform entries.
Proof.
  unfold dict_transform.
  rewrite (dict_set_same "new_field" (Str "This is a new value")).
  - apply dict_del_idem.
  - rewrite dict_get_del_ne by reflexivity. apply dict_get_set_eq.
Qed.

Lemma dict_del_keys {V} (k : string) (d : list (string * V)) :
  NoDup (map fst d) -> NoDup (map fst (JsonObj.dict_del k d)).
Proof.
  intros H. unfold JsonObj.dict_del. induction d as [|[k0 v0] d IH]; [constructor|].
  cbn [map fst] in H. apply NoDup_cons in H as [Hn Hd].
  cbn [List.filter fst]. destruct (negb (String.eqb k0 k)); [|apply IH; exact Hd].
  cbn [map fst]. apply NoDup_cons. split; [|apply IH; exact Hd].
  intros Hin. apply Hn. apply list_elem_of_fmap in Hin as ([k1 v1] & -> & Hin).
  apply list_elem_of_In, List.filter_In in Hin as [Hin _].
  apply list_elem_of_fmap. exists (k1, v1). split; [reflexivity|].
  apply list_elem_of_In. exact Hin.
Qed.


Lemma Forall_filter_list {T} (P : T -> Prop) (f : T -> bool) (l : list T) :
  Forall P l -> Forall P (List.filter f l).
Proof.
  induction 1 as [|x l Hx Hl IH]; [constructor|]. cbn [List.filter].
  destruct (f x); [constructor; assumption | exact IH].
Qed.

Lemma dict_transform_distinct (entries : list (string * json)) :
  distinct_keys (Dict entries) = true -> distinct_keys (Dict (dict_transform entries)) = true.
Proof.
  intros H. apply JsonRoundTrip.distinct_keys_Dict in H as [Hn Hf].
  apply JsonDecoded.distinct_keys_Dict_intro; unfold dict_transform.
  - apply dict_del_keys, JsonDecoded.dict_set_NoDup. exact Hn.
  - apply Forall_filter_list.
    apply (JsonDecoded.dict_set_Forall (fun v => distinct_keys v = true)); [reflexivity|exact Hf].
Qed.

End MainMore.

Module MainXml.
Import XmlTree DifflibRestore AppFacts MainFacts MainJson.







End MainXml.

(** * Further properties of the program *)

(** ** The JSON transform *)

Section JsonExtras.
Import Json JsonObj JsonText JsonTransform JsonRaises.

(** X1. [json.loads(json.dumps(j, indent=indent))] is [j], for every
    [indent] and every document whose objects have distinct keys. *)
Theorem json_dumps_loads_round_trip (indent : option nat) (j : json) :
  distinct_keys j = true -> loads (dumps indent j) = Ok j.
Proof. apply JsonRoundTrip.loads_dumps. Qed.

Lemma json_dumps_loads_round_trip_witness :
  let j := Dict [("a", List [Int (-12); Str "x y"; Dict []; Null]); ("b", Bool true)] in
  distinct_keys j = true /\ loads (dumps (Some 2) j) = Ok j.
Proof.
  intros j. assert (H : distinct_keys j = true) by (vm_compute; reflexivity).
  split; [exact H | exact (json_dumps_loads_round_trip (Some 2) j H)].
Defined.

(** X2. A document that [json.loads] returned has objects with distinct
    keys, and [json.loads] reads it back from its [json.dumps] text. *)
Theorem json_loads_result_round_trip (text : string) (indent : option nat) (j : json) :
  loads text = Ok j -> distinct_keys j = true /\ loads (dumps indent j) = Ok j.
Proof.
  intros H. pose proof (JsonDecoded.loads_distinct_keys _ _ H) as Hd.
  split; [exact Hd | apply JsonRoundTrip.loads_dumps; exact Hd].
Qed.

Lemma json_loads_result_round_trip_witness :
  let text := ("{ " ++ Str.quoted "k" ++ " : [1, 2], " ++ Str.quoted "k" ++ " : {} }")%string in
  loads text = Ok (Dict [("k", Dict [])])
  /\ loads (dumps (Some 2) (Dict [("k", Dict [])])) = Ok (Dict [("k", Dict [])]).
Proof.
  intros text. assert (H : loads text = Ok (Dict [("k", Dict [])])) by (vm_compute; reflexivity).
  split; [exact H | exact (proj2 (json_loads_result_round_trip text (Some 2) _ H))].
Defined.

(** X3. On a document that is an object [modify_json] returns the
    object with ["new_field"] set to ["This is a new value"] (in its place
    when the key was there, else at the end) and without ["to_delete"];
    the original is as it was. *)
Theorem modify_json_on_object (entries : list (string * json)) :
  distinct_keys (Dict entries) = true ->
  run_modify_json (Dict entries)
  = (Ok (Some (Dict (dict_del "to_delete"
                       (dict_set "new_field" (Str "This is a new value") entries)))),
     Some (Dict entries)).
Proof. apply JsonTransformFacts.run_modify_json_dict. Qed.

Lemma modify_json_on_object_witness :
  let entries := [("new_field", Int 1); ("to_delete", List [Int 2]); ("z", Dict [("to_delete", Null)])] in
  distinct_keys (Dict entries) = true
  /\ run_modify_json (Dict entries)
     = (Ok (Some (Dict [("new_field", Str "This is a new value");
                        ("z", Dict [("to_delete", Null)])])),
        Some (Dict entries)).
Proof.
  intros entries. assert (H : distinct_keys (Dict entries) = true) by (vm_compute; reflexivity).
  split; [exact H | exact (modify_json_on_object entries H)].
Defined.

(** X4. On a document that is no list and no object ([null], a boolean,
    a number, a string) [modify_json] returns an equal document. *)
Theorem modify_json_on_scalar (j : json) :
  is_container j = false -> run_modify_json j = (Ok (Some j), Some j).
Proof. apply JsonTransformFacts.run_modify_json_scalar. Qed.

Lemma modify_json_on_scalar_witness :
  is_container (Str "to_delete") = false
  /\ run_modify_json (Str "to_delete") = (Ok (Some (Str "to_delete")), Some (Str "to_delete")).
Proof.
  split; [reflexivity | exact (modify_json_on_scalar (Str "to_delete") eq_refl)].
Defined.

(** X5. On a document that is a list [modify_json] returns the list of
    the transformed items, or raises what the first item that raises
    does; the original is as it was in both cases. *)
Theorem modify_json_on_list (items : list json) :
  distinct_keys (List items) = true ->
  run_modify_json (List items)
  = (match items_transform items with
     | Ok ts => Ok (Some (List ts))
     | Err e => Err e
     end, Some (List items)).
Proof. apply JsonTransformFacts.run_modify_json_list. Qed.

Lemma modify_json_on_list_witness :
  let items := [Dict [("parameters", Dict [("offensive_player", Str "X"); ("k", Int 1)])];
                Int 5; Dict [("new", Null)]] in
  distinct_keys (List items) = true
  /\ run_modify_json (List items)
     = (Ok (Some (List [Dict [("parameters", Dict [("k", Int 1)]);
                              ("user_query", Str user_query_text);
                              ("new", Str "Something")];
                        Int 5;
                        Dict [("new", Str "Something"); ("user_query", Str user_query_text)]])),
        Some (List items)).
Proof.
  intros items. assert (H : distinct_keys (List items) = true) by (vm_compute; reflexivity).
  split; [exact H | exact (modify_json_on_list items H)].
Defined.

(** X6. On a document that is a list [modify_json] raises exactly when
    an item is an object whose ["parameters"] is no container, a string
    that contains ["offensive_player"] or a list with the item
    ["offensive_player"]; what it raises is [TypeError], and otherwise it
    returns a list of the same length. *)
Theorem modify_json_raises_exactly (items : list json) :
  distinct_keys (List items) = true ->
  if existsb item_raises items
  then fst (run_modify_json (List items)) = Err TypeError
  else exists ts, fst (run_modify_json (List items)) = Ok (Some (List ts))
                  /\ length ts = length items.
Proof.
  intros Hd. rewrite (JsonTransformFacts.run_modify_json_list items Hd).
  pose proof (JsonRaisesFacts.items_transform_raises items) as H.
  destruct (existsb item_raises items).
  - rewrite H. reflexivity.
  - destruct H as (ts & -> & Hlen). exists ts. split; [reflexivity | exact Hlen].
Qed.

Lemma modify_json_raises_exactly_witness :
  let items := [Int 1; Dict [("parameters", Str "the offensive_player")]] in
  distinct_keys (List items) = true
  /\ existsb item_raises items = true
  /\ fst (run_modify_json (List items)) = Err TypeError.
Proof.
  intros items. assert (H : distinct_keys (List items) = true) by (vm_compute; reflexivity).
  split; [exact H|]. split; [vm_compute; reflexivity|].
  exact (modify_json_raises_exactly items H).
Defined.

End JsonExtras.

(** ** The XML transform on every document *)

Section XmlExtras.
Import ET XmlTree XmlMore.

(** X7. On every parsed document [modify_xml] returns, and its result
    is the tree of [xml_transform]: below the root, the children
    [team_name] of every [parameters] are gone, every [parameters] has a
    new last child [something] with the text ["2"], every [shot_type] has
    the text ["points"], and nothing else differs; the original is as it
    was. *)
Theorem modify_xml_computes_xml_transform (t : xml) :
  run_modify_xml t = (Ok (Some (xml_transform t)), Some t).
Proof. apply XmlTreeFacts.modify_xml_refines. Qed.

(** X8. After [modify_xml] every [shot_type] strictly below the root has
    the text ["points"]; the root keeps its tag, attributes, text and
    tail, also when it is a [shot_type]. *)
Theorem modify_xml_sets_shot_type_text (t : xml) :
  exists t', fst (run_modify_xml t) = Ok (Some t')
    /\ forallb (every_element "shot_type" (has_text "points")) (xkids t') = true
    /\ xtag t' = xtag t /\ xattrib t' = xattrib t
    /\ xtext t' = xtext t /\ xtail t' = xtail t.
Proof.
  exists (xml_transform t). rewrite XmlTreeFacts.modify_xml_refines.
  split; [reflexivity|]. split.
  - destruct t as [tg att tx tl kids]. cbn [xml_transform below_root xkids].
    apply XmlTreeFacts.forallb_map_all. apply Forall_forall. intros k _.
    apply XmlMoreFacts.update_shot_type_points.
  - destruct t; repeat split; reflexivity.
Qed.

(** X9. A document without [parameters] and without [shot_type] below
    its root comes out of [modify_xml] as it went in. *)
Theorem modify_xml_identity_without_targets (t : xml) :
  forallb (no_element "parameters") (xkids t) = true ->
  forallb (no_element "shot_type") (xkids t) = true ->
  fst (run_modify_xml t) = Ok (Some t).
Proof.
  intros Hp Hs. rewrite XmlTreeFacts.modify_xml_refines.
  cbn [fst]. rewrite XmlMoreFacts.xml_transform_id by assumption. reflexivity.
Qed.

Lemma modify_xml_identity_without_targets_witness :
  let t := Node "shot_type" [("k", "v")] (Some "x") None
             [Node "team_name" [] (Some "Lakers") None []; Node "a" [] None (Some "y") []] in
  fst (run_modify_xml t) = Ok (Some t).
Proof.
  intros t. exact (modify_xml_identity_without_targets t eq_refl eq_refl).
Defined.

End XmlExtras.

(** ** The rendering *)

Section HtmlExtras.

(** X10. [format_diff_html] renders line by line: every line of the
    diff that is no hint (does not start with [?]) gives one [div], in
    order, green for a line that starts with [+], red for [-], plain
    otherwise, with the line as it is inside; the hint lines give
    nothing; and the HTML of two diffs one after the other is the HTML of
    the first followed by the HTML of the second. *)
Theorem format_diff_html_line_by_line (a b : list string) :
  format_diff_html a
  = Str.join (map html_line (List.filter (fun line => negb (is_hint line)) a))
  /\ format_diff_html (a ++ b) = (format_diff_html a ++ format_diff_html b)%string.
Proof.
  unfold format_diff_html. rewrite html_lines_app, join_app, <- html_lines_map.
  split; reflexivity.
Qed.

End HtmlExtras.

(** ** The diff *)

Section DiffExtras.
Import Difflib DifflibRestore.

(** X11. [Differ.compare] returns for every two lists of lines, with or
    without junk tests.  Every line of its delta starts with one of the
    codes ["  "], ["- "], ["+ "] and ["? "]; the lines with ["  "] or
    ["- "], without the code, are the first list, and the lines with
    ["  "] or ["+ "] are the second list, in order
    ([difflib.restore]). *)
Theorem differ_compare_is_delta (linejunk : option (string -> bool))
    (charjunk : option (ascii -> bool)) (a b : list string) :
  exists d, compare linejunk charjunk a b = Some d
    /\ restore "- " d = a /\ restore "+ " d = b /\ forallb tagged d = true.
Proof. apply DifferFacts.compare_ok. Qed.

(** X12. On two truthy documents [generate_diff] leaves the heap as it
    is and raises what the pretty-printing of the original raises, else
    what the pretty-printing of the modified document raises; when both
    return it returns a delta between the two lists of lines. *)
Theorem generate_diff_is_delta (h : heap) (original modified : document)
    (file_type : string) :
  truthy h original = true -> truthy h modified = true ->
  match fst (pretty_lines original file_type h) with
  | Err e => generate_diff original modified file_type h = (Err e, h)
  | Ok original_str =>
      match fst (pretty_lines modified file_type h) with
      | Err e => generate_diff original modified file_type h = (Err e, h)
      | Ok modified_str =>
          exists d, generate_diff original modified file_type h = (Ok d, h)
            /\ restore "- " d = original_str /\ restore "+ " d = modified_str
            /\ forallb tagged d = true
      end
  end.
Proof. apply AppFacts.generate_diff_truthy. Qed.

Lemma generate_diff_is_delta_witness :
  let h := mkHeap [JsonObj.ODict [("a", JsonObj.VInt 1)];
                   JsonObj.ODict [("a", JsonObj.VInt 2); ("b", JsonObj.VNone)]] [] in
  let original := JsonDoc (JsonObj.VRef 0) in
  let modified := JsonDoc (JsonObj.VRef 1) in
  exists d, generate_diff original modified "json" h = (Ok d, h)
    /\ restore "- " d = ["{"; ("  " ++ Str.quoted "a" ++ ": 1")%string; "}"]
    /\ restore "+ " d = ["{"; ("  " ++ Str.quoted "a" ++ ": 2,")%string;
                         ("  " ++ Str.quoted "b" ++ ": null")%string; "}"]
    /\ forallb tagged d = true.
Proof.
  intros h original modified.
  exact (generate_diff_is_delta h original modified "json" eq_refl eq_refl).
Defined.

End DiffExtras.

(** ** Detection, loading and the page *)

Section MainExtras.
Import Json JsonText JsonTransform JsonRaises DifflibRestore.



(** X14. A file whose text, stripped, starts with none of [{], [[] and
    [<] (an empty file, plain text): [main] shows the title, the
    uploader and the message of the unsupported format, nothing else,
    and returns. *)
Theorem main_rejects_other_text (content : string) :
  Str.startswith (Str.strip content) "{" = false ->
  Str.startswith (Str.strip content) "[" = false ->
  Str.startswith (Str.strip content) "<" = false ->
  run_main (Some content)
  = (Ok tt,
     mkSession (mkHeap [] [])
       (page0 ++ [st_error "Unsupported file format. Please upload a valid JSON or XML file."])).
Proof.
  intros H1 H2 H3. apply MainFacts.run_main_rejected.
  apply DetectJson.detect_other_text; assumption.
Qed.

Lemma main_rejects_other_text_witness :
  run_main (Some "  hello, world ")
  = (Ok tt,
     mkSession (mkHeap [] [])
       (page0 ++ [st_error "Unsupported file format. Please upload a valid JSON or XML file."])).
Proof. exact (main_rejects_other_text "  hello, world " eq_refl eq_refl eq_refl). Defined.

(** X15. A file that is valid JSON but holds no list and no object
    ([null], [true], [42], a string) is refused like any other text:
    the page shows the message of the unsupported format. *)
Theorem main_rejects_json_scalar (content : string) (j : json) :
  loads content = Ok j -> is_container j = false ->
  run_main (Some content)
  = (Ok tt,
     mkSession (mkHeap [] [])
       (page0 ++ [st_error "Unsupported file format. Please upload a valid JSON or XML file."])).
Proof.
  intros H Hc. apply MainFacts.run_main_rejected.
  rewrite (DetectJson.detect_json_text _ content j H), Hc. reflexivity.
Qed.

Lemma main_rejects_json_scalar_witness :
  loads " 42 " = Ok (Int 42)
  /\ run_main (Some " 42 ")
     = (Ok tt,
        mkSession (mkHeap [] [])
          (page0 ++ [st_error "Unsupported file format. Please upload a valid JSON or XML file."])).
Proof.
  assert (H : loads " 42 " = Ok (Int 42)) by (vm_compute; reflexivity).
  split; [exact H | exact (main_rejects_json_scalar " 42 " (Int 42) H eq_refl)].
Defined.







(** X19. The transform of an object that went through the transform
    changes nothing: [modify_json] returns an equal object. *)
Theorem modify_json_twice_on_object (entries : list (string * json)) :
  distinct_keys (Dict entries) = true ->
  let j' := Dict (dict_transform entries) in
  fst (run_modify_json (Dict entries)) = Ok (Some j')
  /\ fst (run_modify_json j') = Ok (Some j').
Proof.
  intros Hd j'. split.
  - rewrite (JsonTransformFacts.run_modify_json_dict entries Hd). reflexivity.
  - subst j'.
    rewrite (JsonTransformFacts.run_modify_json_dict _
               (MainMore.dict_transform_distinct entries Hd)).
    rewrite MainMore.dict_transform_idem. reflexivity.
Qed.

Lemma modify_json_twice_on_object_witness :
  let entries := [("to_delete", Int 1); ("new_field", Null); ("k", List [])] in
  let j' := Dict [("new_field", Str "This is a new value"); ("k", List [])] in
  distinct_keys (Dict entries) = true
  /\ fst (run_modify_json (Dict entries)) = Ok (Some j')
  /\ fst (run_modify_json j') = Ok (Some j').
Proof.
  intros entries j'.
  assert (H : distinct_keys (Dict entries) = true) by (vm_compute; reflexivity).
  split; [exact H | exact (modify_json_twice_on_object entries H)].
Defined.



End MainExtras.

Section XmlMainExtras.
Import XmlTree DifflibRestore.



End XmlMainExtras.
